(* ===== verification/_CoqProject ===== *)
-Q . S2P
Prelude.v
GoText.v
Sha2.v
Errors.v
Types.v
Pins.v
Client.v
Subscriptions.v
Authority.v
Sync.v
SendQueue.v
InstanceId.v
Session.v
Utf8.v
Json.v
Models.v
Requests.v
Incoming.v
Received.v
Reader.v
Lifecycle.v
Announce.v
Delivery.v
Shutdown.v
Locks.v
Http.v
Transport.v
Config.v
