(* ===== verification/Prelude.v ===== *)
(** * A verified model of tcabci-read-go-client

    The client (package [tcabcireadgoclient], the Go files under src/) talks to
    TransferChain read nodes. It keeps one WebSocket session at a time, over
    which it announces a subscription and receives transactions, and it offers
    a handful of HTTP calls. This library translates that code into Rocq
    functions and step relations and proves what they do.

    ** The parts, and where they are

    - [Prelude]: the [result] of a fallible Go function with its monad, Go's
      [len], 64-bit wrap-around, and nil-able slices ([option (list _)]).
    - [GoText]: bytes and strings, and what the client uses of encoding/hex,
      strconv, strings, sort and url.QueryEscape.
    - [Sha2]: crypto/sha256 and crypto/sha512, executable.
    - [Errors]: error.go and the accessors of response.go; [errors_Is].
    - [Types]: the enumerations of transaction.go, search.go, mode.go and
      message.go, with their [IsValid]; util.go.
    - [Pins]: certificate.go. Module [Verify] is [verifyPeer] and
      [signedChain]; module [PinStore] is the list of default pins, as slices
      over shared arrays, so that aliasing is visible.
    - [Client]: the fields behind [c.mut] (client.go) and each method's critical
      section as a function on the [world]: the client, the context's error and
      every session ever made. A session is addressed by its number; [Start],
      [Stop] (in two halves, around its wait), [Subscribe], [Unsubscribe],
      [WithMode] and the callback methods are here.
    - [Subscriptions]: the abstract subscription the server should hold, and
      what [Subscribe] and [Unsubscribe] do to it.
    - [Sync]: [syncSubscription] and the test at the top of
      [serveConnection]'s loop; the server's view - addresses, signatures, type
      filter, mode - is rebuilt from the frames.
    - [SendQueue]: [Write] step by step, the writer of [serveConnection], the
      drain at the end of [runSession] and the calls of [Client], interleaved
      in one step relation [step].
    - [Session]: the reconnection loop [runSession] over what each iteration
      observes; net/http's canonical header names.
    - [Authority]: authority.go. [InstanceId]: passkey.go.
    - [Utf8], [Json]: what the client relies on of Go's UTF-8 handling and of
      encoding/json: writing with its escapes, scanning, and reading back.
    - [Models]: the records read nodes send, with the decoder that encoding/json
      gives each by its tags. [Requests]: the messages and request bodies the
      client makes (message.go, search.go, summary.go, broadcast.go).
    - [Incoming]: [parseIncoming] from the raw text to the list of calls it
      makes, the callback loops and [dispatch] with its 16 slots. [Received]:
      what listeners get, field by field, against the message's members.
    - [Reader]: the reading goroutine of [serveConnection].
    - [Lifecycle]: [runSession], [dialConnection] and [serveConnection] as the
      goroutines they are - the session's, the reader, the two
      [context.AfterFunc] hooks - with the socket and [readDone], in one step
      relation over the system of [SendQueue]; [life] is everything that can
      happen from [Start] on, the network, time and callbacks included. Built on
      it: [Announce] (the subscription a connection has announced), [Delivery]
      (the history of a life: its labels, its connections and what became of
      every accepted frame) and [Shutdown] (a cancelled session ends, and [Stop]
      returns).
    - [Locks]: the four mutexes in the order every method and goroutine takes
      them, with what goroutines wait for - a session's cancellation, its
      sockets, [done] and [readDone], the outside. Methods and goroutines are
      [program]s; the program's steps ([own]) and the outside's ([outside]) are
      two relations.
    - [Http]: the HTTP methods of client.go, as functions of what the network
      answers. [Transport]: transport.go, logger.go, [WithProxy], [SetVerbose].
      [Config]: [newClient].

    Names are those of the source where Rocq allows it. A Go panic is [None]; a
    Go map is a [gmap], and where its iteration order could matter the order is
    an argument; a uint64 or an int64 is a [Z] with its wrap-around written out
    where the code computes with it.

    ** What is shown

    - Sending: at every interleaving the byte budget of a session counts exactly
      the queued, reserved and in-flight bytes; frames leave in the order they
      were accepted; every life of a session has a history in which each accepted
      frame is carried once, in order, by one connection, or is the one lost to
      that connection's failed write, or dropped by the drain, or still waits; at
      most one session runs.
    - Ending: under every schedule, and whatever the network and the callbacks
      do, a cancelled session comes to its end and a waiting [Stop] returns; what
      a connection owns is gone before the next one; the goroutines' steps are
      steps of the system the other theorems are about. Whatever calls, sessions
      and requests are under way, the program's own steps end with every call
      returned and every cancelled session gone; running sessions then wait for
      the outside, without a lock.
    - Subscribing: [Subscribe] refines the abstract subscription, refusals
      change nothing, the 251-address bound is an invariant, and whatever calls
      interleave with a connection, whenever its loop waits with nothing pending
      it has told the server the current subscription. The frames read back as
      what was sent.
    - Receiving: the reader hands over whole messages in order; a transaction
      the node sends reaches the listeners unchanged, and whatever a listener
      gets is, field by field, what the message says, every number unwrapped;
      any other text but an acknowledgement leads to one fixed error report; a
      refused listen cancels its own session, and nothing else does; at most 16
      callbacks run at once.
    - Connecting: which handshakes [verifyPeer] and a client built by
      [newClient] accept; the back-off and the exits of [runSession]; the
      headers of a dial; the signed authority and what a receiver reads in it;
      the proxy in force, whatever its caller does to the URL afterwards.
    - HTTP: requests name the chain they should; success means a well-formed
      answer of the right status; the exact errors of [LastBlock]; nothing but a fixed text is
      logged; no method panics on the address of a client that was built; the
      transport is transparent, and its verbose line tells three numbers.

    ** Fuel and bounds

    [Json.parse] recurses with fuel twice the length of the text plus one, and
    [parse_enough] shows that more fuel changes nothing; its depth limit is the
    10000 of encoding/json. [Utf8.runes] takes one unit per byte. The loops of
    [createClientInstanceID] (4 rounds) and [signedChain] (the length of the
    chain) count down. The reconnection loop, the reader and the random reads
    recurse on the list of what they observe, which the theorems quantify over;
    nothing else needs fuel: SHA-2 works through the blocks of the padded
    message, and step relations end by a measure ([Shutdown.measure],
    [Locks.work]).

    ** What is assumed or left out

    What is not the client's code is a parameter, in a class: X.509 and PEM
    parsing and signature checks ([X509], [CertParsing]), [url.Parse] and the
    texts of JSON errors ([GoErrors]), fasthttp's headers and status texts
    ([Fasthttp]), the texts [time.Time] accepts and float overflow
    ([GoValues]), and close errors ([CloseErrors], with the documented meaning
    of [IsCloseError]). Each theorem with hypotheses is applied to a concrete
    instance.

    Approximations: a key repeated in one object decodes into what the first
    left, but not into elements the runtime keeps beyond a slice's length; a time
    is decoded from the text of its JSON string after unescaping. There is no
    clock: timers, tickers and deadlines may fire at any moment, which allows
    more schedules than the program has. The back-off and the headers of an
    attempt are in [Session], over what it observes; [Lifecycle] has its
    goroutines, and leaves the outcome of a dial, a read or a write open, except
    that what uses a closed socket fails. [Locks] keeps of the code its locks,
    joins, cancellations and closings; which way a test on other values goes is
    a step of the outside there, an HTTP request and the select of [Write] end
    with their timeouts, and a socket counts as hooked to its session's context
    from the dial on ([Lifecycle] has the two hooks one by one).

    Not modelled: the records Received and IncomingMessage, which no code uses,
    and what the libraries do with the fields the client sets. *)
From Stdlib Require Export ZArith Lia Ascii String.
From Stdlib Require Strings.Byte.
From stdpp Require Export base tactics numbers option list strings gmap fin_maps
  relations sorting.

#[export] Set Default Goal Selector "!".

(** ** Results of fallible code *)

(** A Go function that returns [(value, error)]: [Ok v] is [(v, nil)],
    [Err e] is [(zero, e)]. *)
Inductive result (E A : Type) : Type :=
| Ok (a : A)
| Err (e : E).
Arguments Ok {E A} a.
Arguments Err {E A} e.

#[export] Instance result_ret {E} : MRet (result E) := fun A a => Ok a.
#[export] Instance result_bind {E} : MBind (result E) :=
  fun A B f m => match m with Ok a => f a | Err e => Err e end.
#[export] Instance result_fmap {E} : FMap (result E) :=
  fun A B f m => match m with Ok a => Ok (f a) | Err e => Err e end.

Lemma result_bind_Ok {E A B} (m : result E A) (f : A -> result E B) b :
  (m ≫= f) = Ok b <-> exists a, m = Ok a /\ f a = Ok b.
Proof. destruct m; simpl; split; [by eauto|by intros (?&[= <-]&?)|done|by intros (?&?&?)]. Qed.

Lemma result_bind_Err {E A B} (m : result E A) (f : A -> result E B) e :
  (m ≫= f) = Err e <-> m = Err e \/ exists a, m = Ok a /\ f a = Err e.
Proof.
  destruct m; simpl; split.
  - by eauto.
  - by intros [?|(?&[= <-]&?)].
  - by intros [= ->]; left.
  - by intros [[= ->]|(?&?&?)].
Qed.

Definition is_Ok {E A} (m : result E A) : bool :=
  match m with Ok _ => true | Err _ => false end.

Definition ok_option {E A} (m : result E A) : option A :=
  match m with Ok a => Some a | Err _ => None end.

(** ** Lengths

    [len] of a Go slice, map or string is an [int]; lengths are kept as [Z],
    as the constants the code compares them with. *)
Definition slen (s : string) : Z := Z.of_nat (String.length s).
Definition llen {A} (l : list A) : Z := Z.of_nat (length l).
Definition mlen {V} (m : gmap string V) : Z := Z.of_nat (size m).

Lemma slen_nonneg s : (0 <= slen s)%Z.
Proof. unfold slen. lia. Qed.

Lemma llen_nonneg {A} (l : list A) : (0 <= llen l)%Z.
Proof. unfold llen. lia. Qed.

Lemma llen_nil {A} (l : list A) : llen l = 0%Z <-> l = [].
Proof. unfold llen. destruct l; simpl; split; try done; lia. Qed.

Lemma llen_app {A} (l k : list A) : llen (l ++ k) = (llen l + llen k)%Z.
Proof. unfold llen. rewrite length_app. lia. Qed.

Lemma llen_cons {A} (x : A) l : llen (x :: l) = (1 + llen l)%Z.
Proof. unfold llen. simpl. lia. Qed.

Lemma mlen_zero {V} (m : gmap string V) : mlen m = 0%Z <-> m = ∅.
Proof.
  unfold mlen. split; [|by intros ->].
  intros H. apply map_size_empty_inv. lia.
Qed.

Lemma size_union_r (X Y : gset string) : size (X ∪ Y) = size Y + size (X ∖ Y).
Proof. rewrite <- size_union_alt. by rewrite (union_comm_L X Y). Qed.

(** ** Machine integers *)
Definition wrap64 (z : Z) : Z := (z mod 2 ^ 64)%Z.

(** Two's complement value of a 64-bit word. *)
Definition swrap64 (z : Z) : Z := ((z + 2 ^ 63) mod 2 ^ 64 - 2 ^ 63)%Z.

Lemma wrap64_range z : (0 <= wrap64 z < 2 ^ 64)%Z.
Proof. unfold wrap64. apply Z.mod_pos_bound. lia. Qed.

Lemma wrap64_small z : (0 <= z < 2 ^ 64)%Z -> wrap64 z = z.
Proof. intros. by apply Z.mod_small. Qed.

Lemma swrap64_small z : (- 2 ^ 63 <= z < 2 ^ 63)%Z -> swrap64 z = z.
Proof. intros. unfold swrap64. rewrite Z.mod_small; lia. Qed.

Lemma wrap64_succ_ne z : wrap64 (z + 1) <> wrap64 z.
Proof.
  unfold wrap64. intros H.
  assert (((z + 1) - z) mod 2 ^ 64 = 0)%Z as H1.
  { rewrite Zminus_mod, H, Z.sub_diag. reflexivity. }
  replace (z + 1 - z)%Z with 1%Z in H1 by lia. done.
Qed.

(** ** Slices

    A Go slice that is observed through encoding/json distinguishes nil from
    the empty slice. *)
Abbreviation slice A := (option (list A)).

Definition elems {A} (s : slice A) : list A := default [] s.

(** [append(s, xs...)]: appending nothing to nil leaves nil. *)
Definition go_append {A} (s : slice A) (xs : list A) : slice A :=
  match s, xs with
  | None, [] => None
  | _, _ => Some (elems s ++ xs)
  end.

Lemma elems_go_append {A} (s : slice A) xs : elems (go_append s xs) = elems s ++ xs.
Proof. destruct s, xs; done. Qed.

(** ** Automation *)

(** Split every conditional of the goal and the hypotheses. *)
Ltac split_ifs := repeat (case_match; simplify_eq/=; try done).

(** Turn boolean tests into propositions and finish with [lia]. *)
Ltac bool_lia := unfold slen, llen, mlen in *; simpl in *; lia.

Create HintDb tcabci discriminated.
Create Rewrite HintDb tcabci_iff.
#[export] Hint Constants Opaque : tcabci.
#[export] Hint Resolve slen_nonneg llen_nonneg wrap64_range : tcabci.
