(* ===== verification/GoText.v ===== *)
(** * The parts of Go's standard library the client's text handling uses

    Bytes and strings, [encoding/hex], [strconv.FormatInt], [url.QueryEscape],
    [strings.ContainsAny], [strings.EqualFold] on ASCII, and [sort.Strings].
    A Go string is a sequence of bytes, as Rocq's [string]; a [[]byte] is a
    [list byte]. *)
From S2P Require Import Prelude.
From Stdlib Require Import DecimalString DecimalZ.
From Corelib Require Export Init.Byte.

Abbreviation bytes := (list byte).

(** ** Bytes as numbers *)
Definition bz (b : byte) : Z := Z.of_N (Byte.to_N b).

(** [byte(z)] wraps modulo 256. *)
Definition zb (z : Z) : byte := default x00 (Byte.of_N (Z.to_N (z mod 256))).

Lemma bz_range b : (0 <= bz b < 256)%Z.
Proof. destruct b; cbv; split; congruence. Qed.

Lemma zb_bz b : zb (bz b) = b.
Proof. by destruct b. Qed.

Lemma bz_zb z : bz (zb z) = (z mod 256)%Z.
Proof.
  unfold bz, zb. pose proof (Z.mod_pos_bound z 256 ltac:(lia)) as Hr.
  destruct (Byte.of_N (Z.to_N (z mod 256))) as [b|] eqn:E; simpl.
  - apply Byte.to_of_N in E. rewrite E. lia.
  - apply Byte.of_N_None_iff in E. lia.
Qed.

#[export] Instance byte_eq_dec : EqDecision byte := Byte.byte_eq_dec.

(** Conversions [[]byte(s)] and [string(b)]. *)
Definition to_bytes (s : string) : bytes := String.list_byte_of_string s.
Definition of_bytes (b : bytes) : string := String.string_of_list_byte b.

Lemma of_to_bytes s : of_bytes (to_bytes s) = s.
Proof. apply String.string_of_list_byte_of_string. Qed.

Lemma to_of_bytes b : to_bytes (of_bytes b) = b.
Proof. apply String.list_byte_of_string_of_list_byte. Qed.

Lemma length_to_bytes s : llen (to_bytes s) = slen s.
Proof.
  unfold llen, slen, to_bytes. f_equal.
  induction s; simpl; [done|]. by rewrite <- IHs.
Qed.

(** ** Strings as lists of characters *)
Definition chars (s : string) : list ascii := String.list_ascii_of_string s.

Lemma append_cons c s t : String c s +:+ t = String c (s +:+ t).
Proof. done. Qed.

Lemma append_nil t : "" +:+ t = t.
Proof. done. Qed.

Lemma chars_cons c s : chars (String c s) = c :: chars s.
Proof. done. Qed.

Lemma chars_app s1 s2 : chars (s1 +:+ s2) = chars s1 ++ chars s2.
Proof. induction s1; simpl; [done|]. unfold chars in *. simpl. by rewrite IHs1. Qed.

Lemma slen_app s1 s2 : slen (s1 +:+ s2) = (slen s1 + slen s2)%Z.
Proof.
  unfold slen. rewrite <- Nat2Z.inj_add. f_equal.
  induction s1 as [|c s1 IH]; [done|]. simpl. by rewrite <- IH.
Qed.

Lemma slen_zero s : slen s = 0%Z <-> s = "".
Proof. unfold slen. destruct s; simpl; split; try done; lia. Qed.

#[export] Instance app_string_inj_l s : Inj (=) (=) (String.append s).
Proof. induction s; intros x y H; simpl in *; [done|]. injection H. auto. Qed.

(** [strings.ContainsAny(s, set)], for an ASCII [set]. *)
Definition ContainsAny (s set : string) : bool :=
  existsb (fun c => existsb (Ascii.eqb c) (chars set)) (chars s).

(** Every character of [s] satisfies [P]. *)
Definition all_chars (P : ascii -> Prop) (s : string) : Prop := Forall P (chars s).

Lemma all_chars_app P s1 s2 :
  all_chars P (s1 +:+ s2) <-> all_chars P s1 /\ all_chars P s2.
Proof. unfold all_chars. by rewrite chars_app, Forall_app. Qed.

Lemma all_chars_impl (P Q : ascii -> Prop) s :
  (forall c, P c -> Q c) -> all_chars P s -> all_chars Q s.
Proof. intros HPQ H. by eapply Forall_impl. Qed.

Lemma ContainsAny_false s set :
  ContainsAny s set = false <-> all_chars (fun c => c ∉ chars set) s.
Proof.
  unfold ContainsAny, all_chars. rewrite Forall_forall. split.
  - intros H c Hc Hin. apply not_true_iff_false in H. apply H.
    apply existsb_exists. exists c. split; [by apply list_elem_of_In|].
    apply existsb_exists. exists c. split; [by apply list_elem_of_In|].
    apply Ascii.eqb_refl.
  - intros H. apply not_true_iff_false. intros (c & Hc & Hin)%existsb_exists.
    apply existsb_exists in Hin as (d & Hd & Heq).
    apply Ascii.eqb_eq in Heq as <-.
    apply (H c); by apply list_elem_of_In.
Qed.

(** ** encoding/hex *)
Module Hex.

Definition hextable : string := "0123456789abcdef".

Definition hexchar (n : Z) : ascii :=
  default "0"%char (String.get (Z.to_nat n) hextable).

(** [hex.EncodeToString]: two lower-case digits per byte, high nibble first. *)
Fixpoint EncodeToString (b : bytes) : string :=
  match b with
  | [] => ""
  | x :: b' =>
      String (hexchar (Z.shiftr (bz x) 4))
        (String (hexchar (Z.land (bz x) 15)) (EncodeToString b'))
  end.

(** One entry of the package's reverse table; [None] is the 0xff entry. *)
Definition fromHexChar (c : ascii) : option Z :=
  let n := Z.of_nat (nat_of_ascii c) in
  if (48 <=? n)%Z && (n <=? 57)%Z then Some (n - 48)%Z
  else if (97 <=? n)%Z && (n <=? 102)%Z then Some (n - 97 + 10)%Z
  else if (65 <=? n)%Z && (n <=? 70)%Z then Some (n - 65 + 10)%Z
  else None.

Inductive decode_error := InvalidByteError (c : ascii) | ErrLength.

(** [hex.DecodeString]: pairs from the left, then the odd trailing digit. *)
Fixpoint DecodeString (s : string) : result decode_error bytes :=
  match s with
  | EmptyString => Ok []
  | String p EmptyString =>
      match fromHexChar p with
      | None => Err (InvalidByteError p)
      | Some _ => Err ErrLength
      end
  | String p (String q s') =>
      match fromHexChar p with
      | None => Err (InvalidByteError p)
      | Some a =>
          match fromHexChar q with
          | None => Err (InvalidByteError q)
          | Some b =>
              rest ← DecodeString s';
              Ok (zb (Z.lor (Z.shiftl a 4) b) :: rest)
          end
      end
  end.

(** ASCII lower-casing, as [strings.ToLower] on an ASCII string. *)
Definition lower (c : ascii) : ascii :=
  let n := nat_of_ascii c in
  if (65 <=? n) && (n <=? 90) then ascii_of_nat (n + 32) else c.

Fixpoint ToLower (s : string) : string :=
  match s with
  | EmptyString => EmptyString
  | String c s' => String (lower c) (ToLower s')
  end.

(** [strings.EqualFold] restricted to ASCII strings. *)
Definition EqualFold (s t : string) : bool := String.eqb (ToLower s) (ToLower t).

Definition is_lower_hex (c : ascii) : Prop := c ∈ chars hextable.

Lemma decode_byte x :
  fromHexChar (hexchar (Z.shiftr (bz x) 4)) = Some (Z.shiftr (bz x) 4) /\
  fromHexChar (hexchar (Z.land (bz x) 15)) = Some (Z.land (bz x) 15) /\
  zb (Z.lor (Z.shiftl (Z.shiftr (bz x) 4) 4) (Z.land (bz x) 15)) = x.
Proof. by destruct x. Qed.

Lemma Decode_Encode b : DecodeString (EncodeToString b) = Ok b.
Proof.
  induction b as [|x b IH]; [done|].
  cbn [EncodeToString DecodeString].
  destruct (decode_byte x) as (-> & -> & Hx). by rewrite IH; simpl; rewrite Hx.
Qed.

#[export] Instance Encode_inj : Inj (=) (=) EncodeToString.
Proof.
  intros x y H. apply (f_equal DecodeString) in H.
  rewrite !Decode_Encode in H. by injection H.
Qed.

Lemma length_Encode b : slen (EncodeToString b) = (2 * llen b)%Z.
Proof.
  unfold slen, llen.
  induction b as [|x b IH]; [done|]. cbn [EncodeToString String.length length]. lia.
Qed.

Lemma get_chars i s c : String.get i s = Some c -> c ∈ chars s.
Proof.
  revert i. induction s as [|d s IH]; intros [|i]; cbn; try done.
  - intros [= ->]. left.
  - intros H. right. by eapply IH.
Qed.

Lemma hexchar_lower n : is_lower_hex (hexchar n).
Proof.
  unfold is_lower_hex, hexchar.
  destruct (String.get _ _) as [c|] eqn:E; [by eapply get_chars|left].
Qed.

Lemma Encode_lower_hex b : all_chars is_lower_hex (EncodeToString b).
Proof.
  unfold all_chars. induction b as [|x b IH]; [constructor|].
  cbn [EncodeToString]. rewrite !chars_cons.
  constructor; [|constructor]; auto using hexchar_lower.
Qed.

Lemma Encode_app b1 b2 :
  EncodeToString (b1 ++ b2) = EncodeToString b1 +:+ EncodeToString b2.
Proof. induction b1 as [|x b1 IH]; [done|]. cbn [app EncodeToString]. by rewrite IH. Qed.

(** Induction two characters at a time, the shape of [DecodeString]. *)
Lemma string_pair_ind (P : string -> Prop) :
  P EmptyString -> (forall p, P (String p EmptyString)) ->
  (forall p q s, P s -> P (String p (String q s))) -> forall s, P s.
Proof.
  intros H0 H1 H2. fix IH 1. intros [|p [|q s]]; [done|apply H1|].
  apply H2, IH.
Qed.

Lemma fromHexChar_spec c a :
  fromHexChar c = Some a -> a ∈ seqZ 0 16 /\ hexchar a = lower c.
Proof.
  rewrite list_elem_of_In.
  destruct c as [[] [] [] [] [] [] [] []]; vm_compute; try discriminate;
    intros [= <-]; tauto.
Qed.

Lemma nibbles_of_byte a b :
  a ∈ seqZ 0 16 -> b ∈ seqZ 0 16 ->
  Z.shiftr (bz (zb (Z.lor (Z.shiftl a 4) b))) 4 = a /\
  Z.land (bz (zb (Z.lor (Z.shiftl a 4) b))) 15 = b.
Proof.
  rewrite !list_elem_of_In. cbn. intros Ha Hb.
  repeat (destruct Ha as [<-|Ha]; [by repeat (destruct Hb as [<-|Hb]; [done|])|]).
  done.
Qed.

Lemma encode_pair p q a b :
  fromHexChar p = Some a -> fromHexChar q = Some b ->
  EncodeToString [zb (Z.lor (Z.shiftl a 4) b)] = String (lower p) (String (lower q) "").
Proof.
  intros [Ha <-]%fromHexChar_spec [Hb <-]%fromHexChar_spec.
  cbn [EncodeToString]. by destruct (nibbles_of_byte a b Ha Hb) as [-> ->].
Qed.

(** Decoding forgets exactly the letters' case. *)
Lemma Encode_Decode s b : DecodeString s = Ok b -> EncodeToString b = ToLower s.
Proof.
  revert b. induction s as [|p|p q s IH] using string_pair_ind; intros b H.
  - by injection H as <-.
  - simpl in H. by destruct (fromHexChar p).
  - cbn [DecodeString] in H.
    destruct (fromHexChar p) as [a|] eqn:Ep; [|done].
    destruct (fromHexChar q) as [c|] eqn:Eq; [|done].
    apply result_bind_Ok in H as (r & Hr & [= <-]).
    specialize (IH _ Hr). cbn [ToLower]. rewrite <- IH.
    pose proof (encode_pair p q a c Ep Eq) as Hpq.
    cbn [EncodeToString] in Hpq |- *. by injection Hpq as -> ->.
Qed.

Lemma Decode_ToLower_eq s t b :
  DecodeString s = Ok b ->
  DecodeString t = Ok b -> EqualFold s t = true.
Proof.
  intros Hs Ht. apply Encode_Decode in Hs, Ht. unfold EqualFold.
  rewrite <- Hs, <- Ht. apply String.eqb_refl.
Qed.

Lemma lower_hex_lower c : is_lower_hex c -> lower c = c.
Proof.
  unfold is_lower_hex. rewrite list_elem_of_In. cbn.
  intros H. repeat (destruct H as [<-|H]; [reflexivity|]). done.
Qed.

Lemma ToLower_Encode b : ToLower (EncodeToString b) = EncodeToString b.
Proof. symmetry. apply Encode_Decode, Decode_Encode. Qed.

End Hex.

(** ** strconv.FormatInt (base 10) *)
Definition FormatInt (z : Z) : string := NilZero.string_of_int (Z.to_int z).

(** [strconv.ParseInt(s, 10, 64)] without the range: an optional minus sign and
    digits. (JSON numbers have no plus sign.) *)
Definition ParseInt (s : string) : option Z := Z.of_int <$> NilZero.int_of_string s.

Lemma int_of_FormatInt z : NilZero.int_of_string (FormatInt z) = Some (Z.to_int z).
Proof.
  apply NilZero.isi; destruct z; simpl; try done;
    intros [= Hn]; by apply DecimalPos.Unsigned.to_uint_nonnil in Hn.
Qed.

Lemma Parse_FormatInt z : ParseInt (FormatInt z) = Some z.
Proof. unfold ParseInt. rewrite int_of_FormatInt. simpl. by rewrite DecimalZ.of_to. Qed.

#[export] Instance FormatInt_inj : Inj (=) (=) FormatInt.
Proof.
  intros x y H. apply (f_equal ParseInt) in H. rewrite !Parse_FormatInt in H. by injection H.
Qed.

Definition is_digit_char (c : ascii) : Prop := c ∈ chars "0123456789".

Lemma uint_digits d : Forall is_digit_char (chars (NilEmpty.string_of_uint d)).
Proof.
  induction d; simpl; [constructor|..];
    (constructor; [|done]); unfold is_digit_char; rewrite list_elem_of_In; simpl; tauto.
Qed.

(** The digits of a positive number start with no zero. *)
Lemma pos_uint_shape p :
  exists c ds, chars (NilZero.string_of_uint (Pos.to_uint p)) = c :: ds /\ c <> "0"%char /\
    Forall is_digit_char (c :: ds).
Proof.
  assert (Decimal.unorm (Pos.to_uint p) = Pos.to_uint p) as Hn.
  { change (Pos.to_uint p) with (N.to_uint (N.pos p)) at 2.
    rewrite <- (DecimalN.Unsigned.of_to (N.pos p)), DecimalN.Unsigned.to_of. done. }
  pose proof (uint_digits (Pos.to_uint p)) as Hd.
  destruct (Pos.to_uint p) as [|u|u|u|u|u|u|u|u|u|u] eqn:E;
    [by apply DecimalPos.Unsigned.to_uint_nonnil in E| |by (eexists _, _; split_and!; [done|done|done])..].
  exfalso. unfold Decimal.unorm in Hn. rewrite DecimalFacts.nzhead_D0 in Hn.
  destruct (Decimal.nzhead u) eqn:En; try discriminate Hn;
    [|by apply DecimalFacts.nzhead_nonzero in En].
  injection Hn as Hu. rewrite <- Hu in E.
  assert (N.of_uint (N.to_uint (N.pos p)) = 0%N) as H0.
  { change (N.to_uint (N.pos p)) with (Pos.to_uint p). by rewrite E. }
  by rewrite DecimalN.Unsigned.of_to in H0.
Qed.

(** The text of an integer: a sign, and 0 or digits that do not start with 0. *)
Lemma FormatInt_shape z :
  exists sign body, chars (FormatInt z) = sign ++ body /\ (sign = [] \/ sign = ["-"%char]) /\
    (body = ["0"%char] \/
     exists c ds, body = c :: ds /\ c <> "0"%char /\ Forall is_digit_char (c :: ds)).
Proof.
  destruct z as [|p|p].
  - exists [], ["0"%char]. auto.
  - destruct (pos_uint_shape p) as (c & ds & Heq & H). exists [], (c :: ds).
    split_and!; [done|by left|]. right. eauto.
  - destruct (pos_uint_shape p) as (c & ds & Heq & H). exists ["-"%char], (c :: ds).
    split_and!; [|by right|].
    + simpl. by f_equal.
    + right. eauto.
Qed.

Definition is_dec_char (c : ascii) : Prop := c ∈ chars "-0123456789".

Lemma uint_chars d : all_chars is_dec_char (NilEmpty.string_of_uint d).
Proof.
  unfold all_chars. induction d; simpl; [constructor|..];
    (constructor; [|done]); unfold is_dec_char; rewrite list_elem_of_In; simpl; tauto.
Qed.

Lemma FormatInt_chars z : all_chars is_dec_char (FormatInt z).
Proof.
  assert (forall d, all_chars is_dec_char (NilZero.string_of_uint d)) as Hu.
  { intros d. destruct d; try apply uint_chars. unfold all_chars. simpl.
    constructor; [|constructor]. unfold is_dec_char. rewrite list_elem_of_In. simpl. tauto. }
  unfold FormatInt. destruct (Z.to_int z) as [d|d]; simpl; [apply Hu|].
  unfold all_chars. rewrite chars_cons. constructor; [|apply Hu].
  unfold is_dec_char. rewrite list_elem_of_In. simpl. tauto.
Qed.

(** ** Splitting at a separator character *)

(** [strings.Split(s, string(c))]. *)
Fixpoint Split (c : ascii) (s : string) : list string :=
  match s with
  | EmptyString => [EmptyString]
  | String d s' =>
      if Ascii.eqb d c then EmptyString :: Split c s'
      else match Split c s' with
           | [] => [String d EmptyString]
           | w :: ws => String d w :: ws
           end
  end.

Lemma Split_none c s : all_chars (fun d => d <> c) s -> Split c s = [s].
Proof.
  induction s as [|d s IH]; [done|]. intros [Hd Hs]%Forall_cons. simpl.
  rewrite IH by done. by apply Ascii.eqb_neq in Hd as ->.
Qed.

Lemma Split_app c s t :
  all_chars (fun d => d <> c) s -> Split c (s +:+ String c t) = s :: Split c t.
Proof.
  induction s as [|d s IH]; intros H.
  - simpl. by rewrite Ascii.eqb_refl.
  - apply Forall_cons in H as [Hd Hs]. simpl. rewrite IH by done.
    by apply Ascii.eqb_neq in Hd as ->.
Qed.

(** ** sort.Strings *)

(** Go compares strings byte by byte, which is [String.leb]. *)
Definition str_le (s t : string) : Prop := String.leb s t = true.

#[export] Instance str_le_dec : RelDecision str_le.
Proof. intros s t. unfold str_le. apply _. Defined.

Lemma ascii_compare_N a b : Ascii.compare a b = N.compare (N_of_ascii a) (N_of_ascii b).
Proof. done. Qed.

Lemma str_le_cons a s b t :
  str_le (String a s) (String b t) <->
  (N_of_ascii a < N_of_ascii b)%N \/ a = b /\ str_le s t.
Proof.
  unfold str_le, String.leb. simpl. rewrite ascii_compare_N.
  destruct (N.compare_spec (N_of_ascii a) (N_of_ascii b)) as [E|E|E].
  - assert (a = b) as <- by (by rewrite <- (ascii_N_embedding a), E, ascii_N_embedding).
    split; [by right|]. intros [?|[_ ?]]; [lia|done].
  - split; [by left|done].
  - split; [done|]. intros [?|[-> _]]; lia.
Qed.

#[export] Instance str_le_total : Total str_le.
Proof. intros s t. apply String.leb_total. Qed.

#[export] Instance str_le_antisymm : AntiSymm (=) str_le.
Proof. intros s t. apply String.leb_antisym. Qed.

#[export] Instance str_le_trans : Transitive str_le.
Proof.
  intros s. induction s as [|a s IH]; intros [|b t] [|c u]; try done.
  rewrite !str_le_cons. intros [?|[-> ?]] [?|[-> ?]]; [left; lia|by left|by left|].
  right. split; [done|by eapply IH].
Qed.

(** [sort.Strings]: any sort that returns the ordered permutation. *)
Definition sort_Strings (l : list string) : list string := merge_sort str_le l.

Lemma sort_Strings_Permutation l : sort_Strings l ≡ₚ l.
Proof. apply merge_sort_Permutation. Qed.

Lemma sort_Strings_Sorted l : StronglySorted str_le (sort_Strings l).
Proof. apply StronglySorted_merge_sort; apply _. Qed.

(** The order of the input does not matter: ties are equal strings. *)
#[export] Instance sort_Strings_proper : Proper ((≡ₚ) ==> (=)) sort_Strings.
Proof.
  intros l k Hlk. apply (StronglySorted_unique str_le); auto using sort_Strings_Sorted.
  by rewrite !sort_Strings_Permutation.
Qed.

Lemma elem_of_sort_Strings x l : x ∈ sort_Strings l <-> x ∈ l.
Proof. by rewrite sort_Strings_Permutation. Qed.

Lemma NoDup_sort_Strings l : NoDup (sort_Strings l) <-> NoDup l.
Proof. by rewrite sort_Strings_Permutation. Qed.

Lemma sort_Strings_nil l : sort_Strings l = [] <-> l = [].
Proof.
  split; [|by intros ->]. intros H. apply Permutation_nil_r.
  by rewrite <- (sort_Strings_Permutation l), H.
Qed.

(** ** net/url: QueryEscape *)
Module Query.

Definition in_range (lo hi : Z) (n : Z) : bool := (lo <=? n)%Z && (n <=? hi)%Z.

(** [shouldEscape(c, encodeQueryComponent)]: everything but RFC 3986's
    unreserved characters. *)
Definition shouldEscape (c : ascii) : bool :=
  let n := Z.of_nat (nat_of_ascii c) in
  negb (in_range 97 122 n || in_range 65 90 n || in_range 48 57 n
        || existsb (Ascii.eqb c) (chars "-_.~")).

Definition upperhex : string := "0123456789ABCDEF".
Definition upperhexchar (n : Z) : ascii :=
  default "0"%char (String.get (Z.to_nat n) upperhex).

Fixpoint QueryEscape (s : string) : string :=
  match s with
  | EmptyString => EmptyString
  | String c s' =>
      let n := Z.of_nat (nat_of_ascii c) in
      if shouldEscape c then
        if Ascii.eqb c " " then String "+" (QueryEscape s')
        else String "%" (String (upperhexchar (Z.shiftr n 4))
               (String (upperhexchar (Z.land n 15)) (QueryEscape s')))
      else String c (QueryEscape s')
  end.

(** [url.QueryUnescape]; [None] is an [EscapeError]. *)
Fixpoint QueryUnescape (s : string) : option string :=
  match s with
  | EmptyString => Some EmptyString
  | String c s' =>
      if Ascii.eqb c "%" then
        match s' with
        | String p (String q s'') =>
            a ← Hex.fromHexChar p; b ← Hex.fromHexChar q;
            rest ← QueryUnescape s'';
            Some (String (ascii_of_byte (zb (Z.lor (Z.shiftl a 4) b))) rest)
        | _ => None
        end
      else rest ← QueryUnescape s';
           Some (String (if Ascii.eqb c "+" then " "%char else c) rest)
  end.

(** Characters that can occur in an escaped component. *)
Definition safe_char (c : ascii) : Prop := shouldEscape c = false \/ c = "+"%char \/ c = "%"%char.

Lemma escape_char c :
  if shouldEscape c then
    c = " "%char \/
    (let n := Z.of_nat (nat_of_ascii c) in
    Hex.fromHexChar (upperhexchar (Z.shiftr n 4)) = Some (Z.shiftr n 4) /\
    Hex.fromHexChar (upperhexchar (Z.land n 15)) = Some (Z.land n 15) /\
    ascii_of_byte (zb (Z.lor (Z.shiftl (Z.shiftr n 4) 4) (Z.land n 15))) = c /\
    shouldEscape (upperhexchar (Z.shiftr n 4)) = false /\
    shouldEscape (upperhexchar (Z.land n 15)) = false)
  else c <> "%"%char /\ c <> "+"%char.
Proof.
  destruct c as [[] [] [] [] [] [] [] []]; vm_compute;
    first [split; discriminate | by left | right; repeat split].
Qed.

Lemma Unescape_Escape s : QueryUnescape (QueryEscape s) = Some s.
Proof.
  induction s as [|c s IH]; [done|]. cbn [QueryEscape]. pose proof (escape_char c) as Hc.
  destruct (shouldEscape c).
  - destruct (Ascii.eqb_spec c " ") as [->|Hn]; [cbn; by rewrite IH|].
    destruct Hc as [?|(Hp & Hq & Hb & _)]; [done|].
    cbn [QueryUnescape]. rewrite Ascii.eqb_refl, Hp, Hq. simpl. by rewrite IH, <- Hb at 1.
  - destruct Hc as [H1%Ascii.eqb_neq H2%Ascii.eqb_neq].
    cbn [QueryUnescape]. rewrite H1, IH. simpl. by rewrite H2.
Qed.

Lemma QueryEscape_safe s : all_chars safe_char (QueryEscape s).
Proof.
  unfold all_chars. induction s as [|c s IH]; [constructor|].
  cbn [QueryEscape]. pose proof (escape_char c) as Hc.
  destruct (shouldEscape c) eqn:E.
  - destruct (Ascii.eqb_spec c " ") as [->|Hn].
    + rewrite chars_cons. constructor; [by right; left|done].
    + destruct Hc as [?|(_ & _ & _ & H1 & H2)]; [done|].
      rewrite !chars_cons. repeat first [done | apply Forall_cons; split];
        [by right; right|by left|by left].
  - rewrite chars_cons. constructor; [by left|done].
Qed.

Lemma QueryEscape_no_sep s c :
  c ∈ chars "&=#;?/ " -> all_chars (fun d => d <> c) (QueryEscape s).
Proof.
  intros Hc. eapply all_chars_impl, QueryEscape_safe. intros d Hd ->.
  rewrite list_elem_of_In in Hc. cbn in Hc.
  repeat (destruct Hc as [<-|Hc]; [by destruct Hd as [?|[?|?]]|]). done.
Qed.

End Query.
