(* ===== verification/Sha2.v ===== *)
(** * crypto/sha256 and crypto/sha512

    The two digests the client uses of Go's standard library, after FIPS 180-4:
    executable, with the lengths the client relies on. Both are one algorithm
    over words of 32 or of 64 bits. *)
From S2P Require Import Prelude GoText.

(** ** Bytes and big-endian words *)
Definition be_word (b : bytes) : Z := fold_left (fun n x => n * 256 + bz x)%Z b 0%Z.

(** The [n] low bytes of [z]. *)
Fixpoint be_bytes (n : nat) (z : Z) : bytes :=
  match n with
  | 0 => []
  | S n' => be_bytes n' (Z.shiftr z 8) ++ [zb z]
  end.

Lemma length_be_bytes n z : length (be_bytes n z) = n.
Proof. revert z. induction n as [|n IH]; intros z; simpl; [done|]. rewrite length_app, IH. simpl. lia. Qed.

(** Pieces of [n] bytes; [fuel] is their number. *)
Fixpoint chunks (fuel n : nat) (b : bytes) : list bytes :=
  match fuel with
  | 0 => []
  | S fuel' => take n b :: chunks fuel' n (drop n b)
  end.

(** ** One algorithm, two word sizes *)

(** A word of [8 * word] bits, the rotations of the four functions (the last
    number of the small ones is a shift), the constants and the start. *)
Record variant := mk_variant {
  word : nat;
  Big0 : Z * Z * Z;
  Big1 : Z * Z * Z;
  small0 : Z * Z * Z;
  small1 : Z * Z * Z;
  K : list Z;
  H0 : list Z;
}.

Section sha2.
Context (v : variant).

Definition bits : Z := 8 * Z.of_nat (word v).
Definition wrap (x : Z) : Z := Z.land x (Z.ones bits).
Definition add (x y : Z) : Z := wrap (x + y).
Definition rotr (n x : Z) : Z := Z.lor (Z.shiftr x n) (wrap (Z.shiftl x (bits - n))).

Definition big (r : Z * Z * Z) (x : Z) : Z :=
  Z.lxor (Z.lxor (rotr r.1.1 x) (rotr r.1.2 x)) (rotr r.2 x).
Definition small (r : Z * Z * Z) (x : Z) : Z :=
  Z.lxor (Z.lxor (rotr r.1.1 x) (rotr r.1.2 x)) (Z.shiftr x r.2).

Definition Ch (x y z : Z) : Z := Z.lxor (Z.land x y) (Z.land (Z.lxor x (Z.ones bits)) z).
Definition Maj (x y z : Z) : Z := Z.lxor (Z.lxor (Z.land x y) (Z.land x z)) (Z.land y z).

(** A block is sixteen words; the length of the message, in bits, is two. *)
Definition block : nat := 16 * word v.

Definition padding (n : nat) : bytes :=
  x80 :: replicate (Z.to_nat ((- (Z.of_nat n + 1 + 2 * Z.of_nat (word v))) mod Z.of_nat block)) x00
  ++ be_bytes (2 * word v) (8 * Z.of_nat n).

(** The message schedule: [last] are the sixteen words before. *)
Fixpoint schedule (n : nat) (last : list Z) : list Z :=
  match n with
  | 0 => []
  | S n' =>
      let x := add (add (small (small1 v) (nth 14 last 0%Z)) (nth 9 last 0%Z))
                   (add (small (small0 v) (nth 1 last 0%Z)) (nth 0 last 0%Z)) in
      x :: schedule n' (tail last ++ [x])
  end.

Definition round (s : list Z) (kw : Z * Z) : list Z :=
  match s with
  | [a; b; c; d; e; f; g; h] =>
      let t1 := add (add (add h (big (Big1 v) e)) (add (Ch e f g) kw.1)) kw.2 in
      let t2 := add (big (Big0 v) a) (Maj a b c) in
      [add t1 t2; a; b; c; add d t1; e; f; g]
  | _ => s
  end.

Definition compress (s : list Z) (b : bytes) : list Z :=
  let m := map be_word (chunks 16 (word v) b) in
  let ws := m ++ schedule (length (K v) - 16) m in
  zip_with add s (fold_left round (combine (K v) ws) s).

Definition state (b : bytes) : list Z :=
  let p := b ++ padding (length b) in
  fold_left compress (chunks (length p / block) block p) (H0 v).

Definition Sum (b : bytes) : bytes := state b ≫= be_bytes (word v).

(** The length of a digest. *)
Lemma length_round s kw : length (round s kw) = length s.
Proof. by repeat (destruct s as [|? s]; try done). Qed.

Lemma length_rounds l s : length (fold_left round l s) = length s.
Proof. revert s. induction l as [|kw l IH]; intros s; simpl; [done|]. by rewrite IH, length_round. Qed.

Lemma length_state b : length (state b) = length (H0 v).
Proof.
  unfold state. generalize (chunks (length (b ++ padding (length b)) / block) block
    (b ++ padding (length b))) as l.
  intros l. generalize (H0 v) as s. induction l as [|x l IH]; intros s; simpl; [done|].
  rewrite IH. unfold compress. rewrite length_zip_with, length_rounds. lia.
Qed.

Lemma length_Sum b : length (Sum b) = length (H0 v) * word v.
Proof.
  unfold Sum. rewrite <- (length_state b). generalize (state b) as l.
  induction l as [|x l IH]; csimpl; [done|]. rewrite length_app, length_be_bytes, IH. simpl. lia.
Qed.

(** Padding fills the last block. *)
Lemma padding_fills n : 0 < word v -> (n + length (padding n)) mod block = 0.
Proof.
  intros Hw. unfold padding. cbn [length]. rewrite length_app, length_replicate, length_be_bytes.
  unfold block. apply Nat2Z.inj. rewrite Nat2Z.inj_mod, !Nat2Z.inj_add, Nat2Z.inj_succ, Nat2Z.inj_add.
  set (B := Z.of_nat (16 * word v)). set (L := (Z.of_nat n + 1 + 2 * Z.of_nat (word v))%Z).
  assert (0 < B)%Z by lia. rewrite Z2Nat.id by (apply Z.mod_pos_bound; lia).
  replace (Z.of_nat n + Z.succ ((- L) mod B + Z.of_nat (2 * word v)))%Z
    with (L + (- L) mod B)%Z by lia.
  rewrite Z.add_mod_idemp_r by lia. by rewrite Z.add_opp_diag_r.
Qed.

End sha2.

(** ** The constants

    The first 64 bits of the fractional parts of the cube roots of the first 80
    primes, and of the square roots of the first eight; SHA-256 takes 32. *)
Definition K512 : list Z :=
  ([
    0x428a2f98d728ae22; 0x7137449123ef65cd; 0xb5c0fbcfec4d3b2f; 0xe9b5dba58189dbbc;
    0x3956c25bf348b538; 0x59f111f1b605d019; 0x923f82a4af194f9b; 0xab1c5ed5da6d8118;
    0xd807aa98a3030242; 0x12835b0145706fbe; 0x243185be4ee4b28c; 0x550c7dc3d5ffb4e2;
    0x72be5d74f27b896f; 0x80deb1fe3b1696b1; 0x9bdc06a725c71235; 0xc19bf174cf692694;
    0xe49b69c19ef14ad2; 0xefbe4786384f25e3; 0x0fc19dc68b8cd5b5; 0x240ca1cc77ac9c65;
    0x2de92c6f592b0275; 0x4a7484aa6ea6e483; 0x5cb0a9dcbd41fbd4; 0x76f988da831153b5;
    0x983e5152ee66dfab; 0xa831c66d2db43210; 0xb00327c898fb213f; 0xbf597fc7beef0ee4;
    0xc6e00bf33da88fc2; 0xd5a79147930aa725; 0x06ca6351e003826f; 0x142929670a0e6e70;
    0x27b70a8546d22ffc; 0x2e1b21385c26c926; 0x4d2c6dfc5ac42aed; 0x53380d139d95b3df;
    0x650a73548baf63de; 0x766a0abb3c77b2a8; 0x81c2c92e47edaee6; 0x92722c851482353b;
    0xa2bfe8a14cf10364; 0xa81a664bbc423001; 0xc24b8b70d0f89791; 0xc76c51a30654be30;
    0xd192e819d6ef5218; 0xd69906245565a910; 0xf40e35855771202a; 0x106aa07032bbd1b8;
    0x19a4c116b8d2d0c8; 0x1e376c085141ab53; 0x2748774cdf8eeb99; 0x34b0bcb5e19b48a8;
    0x391c0cb3c5c95a63; 0x4ed8aa4ae3418acb; 0x5b9cca4f7763e373; 0x682e6ff3d6b2b8a3;
    0x748f82ee5defb2fc; 0x78a5636f43172f60; 0x84c87814a1f0ab72; 0x8cc702081a6439ec;
    0x90befffa23631e28; 0xa4506cebde82bde9; 0xbef9a3f7b2c67915; 0xc67178f2e372532b;
    0xca273eceea26619c; 0xd186b8c721c0c207; 0xeada7dd6cde0eb1e; 0xf57d4f7fee6ed178;
    0x06f067aa72176fba; 0x0a637dc5a2c898a6; 0x113f9804bef90dae; 0x1b710b35131c471b;
    0x28db77f523047d84; 0x32caab7b40c72493; 0x3c9ebe0a15c9bebc; 0x431d67c49c100d4c;
    0x4cc5d4becb3e42b6; 0x597f299cfc657e2a; 0x5fcb6fab3ad6faec; 0x6c44198c4a475817
  ])%Z.

Definition H512 : list Z :=
  ([
    0x6a09e667f3bcc908; 0xbb67ae8584caa73b; 0x3c6ef372fe94f82b; 0xa54ff53a5f1d36f1;
    0x510e527fade682d1; 0x9b05688c2b3e6c1f; 0x1f83d9abfb41bd6b; 0x5be0cd19137e2179
  ])%Z.

Definition high (z : Z) : Z := Z.shiftr z 32.

Definition sha512 : variant :=
  mk_variant 8 (28, 34, 39)%Z (14, 18, 41)%Z (1, 8, 7)%Z (19, 61, 6)%Z K512 H512.

Definition sha256 : variant :=
  mk_variant 4 (2, 13, 22)%Z (6, 11, 25)%Z (7, 18, 3)%Z (17, 19, 10)%Z
    (map high (take 64 K512)) (map high H512).

(** [sha256.Sum256], and a SHA-512 hasher's [Sum(nil)] for what was written. *)
Definition Sum256 (b : bytes) : bytes := Sum sha256 b.
Definition Sum512 (b : bytes) : bytes := Sum sha512 b.

Lemma Sum256_size b : llen (Sum256 b) = 32%Z.
Proof. unfold llen, Sum256. by rewrite length_Sum. Qed.

Lemma Sum512_size b : llen (Sum512 b) = 64%Z.
Proof. unfold llen, Sum512. by rewrite length_Sum. Qed.

(** The examples of FIPS 180-4. *)
Example sha256_abc : Hex.EncodeToString (Sum256 (to_bytes "abc")) =
  "ba7816bf8f01cfea414140de5dae2223b00361a396177a9cb410ff61f20015ad".
Proof. vm_compute. reflexivity. Qed.

Example sha256_two_blocks :
  Hex.EncodeToString (Sum256 (to_bytes "abcdbcdecdefdefgefghfghighijhijkijkljklmklmnlmnomnopnopq")) =
  "248d6a61d20638b8e5c026930c3e6039a33ce45964ff2167f6ecedd419db06c1".
Proof. vm_compute. reflexivity. Qed.

Example sha512_abc : Hex.EncodeToString (Sum512 (to_bytes "abc")) =
  "ddaf35a193617abacc417349ae20413112e6fa4e89a97ea20a9eeee64b55d39a" +:+
  "2192992a274fc1a836ba3c23a3feebbd454d4423643ce80e2a9ac94fa54ca49f".
Proof. vm_compute. reflexivity. Qed.

Example sha512_empty : Hex.EncodeToString (Sum512 []) =
  "cf83e1357eefb8bdf1542850d66d8007d620e4050b5715dc83f4a921d36ce9ce" +:+
  "47d0d13c5d85f2b0ff8318d2877eec2f63b931bd47417a81a538327af927da3e".
Proof. vm_compute. reflexivity. Qed.

#[global] Opaque Sum256 Sum512.
