(* ===== verification/Errors.v ===== *)
(** * error.go and response.go: the error values the client returns

    [error] is Go's interface value; its nil is [None] of [option error]. *)
From S2P Require Import Prelude GoText.

(** What the code reads of a [fasthttp.Response]: [StatusCode()], [Body()] and
    the headers. *)
Record http_response := mk_http_response {
  StatusCode : Z;
  Headers : list (string * string);
  Body : bytes;
}.

Inductive ErrCode := SYSErr | CLIENTErr | PARAMETERErr.

(** [iota] of the const block. *)
Definition ErrCode_int (c : ErrCode) : Z :=
  match c with SYSErr => 0 | CLIENTErr => 1 | PARAMETERErr => 2 end.

#[warnings="-register-all"]
Inductive error :=
| ErrorString (text : string)          (* errors.New *)
| CtxCanceled                          (* context.Canceled *)
| CtxDeadlineExceeded                  (* context.DeadlineExceeded *)
| CloseError (code : Z)                (* *websocket.CloseError *)
| Extern (text : string)               (* an error made by a library *)
| ClientError (e_typ : ErrCode) (e_origin : option error) (e_message : string)
    (e_code e_status : Z) (e_response : option http_response).

(** [err.Error()]; the texts of the library's errors are its own. *)
Definition error_text (e : error) : string :=
  match e with
  | ErrorString t | Extern t => t
  | CtxCanceled => "context canceled"
  | CtxDeadlineExceeded => "context deadline exceeded"
  | CloseError code => "websocket: close " +:+ FormatInt code
  | ClientError _ _ m _ _ _ => m
  end.

Definition errors_New (t : string) : error := ErrorString t.

Definition ErrNoConnected : error := ErrorString "websocket: not connected".
Definition ErrAlreadyStarted : error := ErrorString "already started".
Definition ErrNotStarted : error := ErrorString "not started yet".

(** [responseSnapshot]: a fresh response that carries the status only. *)
Definition responseSnapshot (resp : option http_response) : option http_response :=
  match resp with
  | None => None
  | Some r => Some (mk_http_response (StatusCode r) [] [])
  end.

(** The methods of [*Error]. *)
Module Error.
Definition Type_ (e : error) : option ErrCode :=
  match e with ClientError t _ _ _ _ _ => Some t | _ => None end.
Definition Origin (e : error) : option error :=
  match e with ClientError _ o _ _ _ _ => o | _ => None end.
Definition Error_ (e : error) : string := error_text e.
Definition Code (e : error) : option Z :=
  match e with ClientError _ _ _ c _ _ => Some c | _ => None end.
Definition Status (e : error) : option Z :=
  match e with ClientError _ _ _ _ s _ => Some s | _ => None end.
Definition Response (e : error) : option http_response :=
  match e with ClientError _ _ _ _ _ r => responseSnapshot r | _ => None end.
Definition Unwrap (e : error) : option error := Origin e.
End Error.

(** [errors.Is(err, target)]: some error of the unwrapping chain is the target. *)
Inductive errors_Is : error -> error -> Prop :=
| Is_here e : errors_Is e e
| Is_unwrap e o target :
    Error.Unwrap e = Some o -> errors_Is o target -> errors_Is e target.

#[export] Hint Constructors errors_Is : tcabci.

(** ** response.go *)

(** [Response], whose [Data] is any JSON value ([D]); nil is [None]. *)
Record Response (D : Type) := mk_Response {
  Message : option string;
  Data : option D;
  TotalCount : Z;
  Error_flag : bool;
  Errors : option (gmap string string);
  Detail : option string;
}.
Arguments mk_Response {D} _ _ _ _ _ _.
Arguments Message {D} _.
Arguments Data {D} _.
Arguments TotalCount {D} _.
Arguments Error_flag {D} _.
Arguments Errors {D} _.
Arguments Detail {D} _.

Definition GetMessage {D} (r : Response D) : string :=
  match Message r with Some m => m | None => "" end.

Definition GetData {D} (r : Response D) : option D :=
  match Data r with Some d => Some d | None => None end.

Definition GetDetail {D} (r : Response D) : string :=
  match Detail r with Some d => d | None => "" end.

(** ** Lemmas *)

(** A snapshot keeps nothing but the status. *)
Lemma snapshot_status_only r1 r2 :
  StatusCode r1 = StatusCode r2 ->
  responseSnapshot (Some r1) = responseSnapshot (Some r2).
Proof. simpl. by intros ->. Qed.

Lemma snapshot_idemp r : responseSnapshot (responseSnapshot r) = responseSnapshot r.
Proof. by destruct r. Qed.
