(* ===== verification/Types.v ===== *)
(** * transaction.go, search.go (enumerations), mode.go, message.go, util.go

    The string and integer enumerations of the client, their validity tests,
    and the two helpers of util.go. *)
From S2P Require Import Prelude GoText.

(** ** transaction.go: transaction types *)

(** [type Type string]. *)
Definition TxType : Set := string.

Definition TypeMaster : TxType := "initial_storage".
Definition TypeAddress : TxType := "interim_storage".
Definition TypeAddresses : TxType := "interim_storages".
Definition TypeSubMaster : TxType := "initial_sub_storage".
Definition TypeSubAddresses : TxType := "interim_sub_storages".
Definition TypeAccount : TxType := "initial_account".
Definition TypeAccountInitialTXS : TxType := "initial_account_txs".
Definition TypeNS : TxType := "ns".
Definition TypeMessage : TxType := "message".
Definition TypeMessageSent : TxType := "inherit_message".
Definition TypeMessageThreadDelete : TxType := "inherit_message_recv".
Definition TypeTransfer : TxType := "transfer".
Definition TypeTransferCancel : TxType := "transfer_Cancel".
Definition TypeTransferSent : TxType := "transfer_sent".
Definition TypeTransferReceiveDelete : TxType := "transfer_receive_delete".
Definition TypeTransferInfo : TxType := "transfer_info".
Definition TypeStorage : TxType := "storage".
Definition TypeStorageDelete : TxType := "storage_delete".
Definition TypeBackup : TxType := "backup".
Definition TypeContact : TxType := "interim_message".
Definition TypeFileVirtual : TxType := "fs_virt".
Definition TypeFileFs : TxType := "fs_real".
Definition TypeRfileVirtual : TxType := "fs_rvirt".
Definition TypeRfileFs : TxType := "fs_rreal".
Definition TypeDfileVirtual : TxType := "fs_dvirt".
Definition TypeDfileFs : TxType := "fs_dreal".
Definition TypePfileVirtual : TxType := "fs_pvirt".
Definition TypeRequest : TxType := "request".
Definition TypeRequestIn : TxType := "request_in".
Definition TypeRequestUpload : TxType := "request_upload".
Definition TypeRequestCancel : TxType := "request_Cancel".
Definition TypeDataRoom : TxType := "data_room".
Definition TypeDataRoomPolicy : TxType := "data_room_policy".
Definition TypeDataRoomF : TxType := "data_roomF".
Definition TypeDataRoomData : TxType := "data_room_data".
Definition TypeDataRoomDataDelete : TxType := "data_room_data_delete".
Definition TypeDataRoomDataPolicy : TxType := "data_room_data_policy".
Definition TypeDataRoomE : TxType := "data_roomE".
Definition TypeDataRoomEData : TxType := "data_roomE_data".
Definition TypeMultiStorage : TxType := "multi_storage".
Definition TypeMultiTransfer : TxType := "multi_transfer".
Definition TypeMultiTransferSent : TxType := "multi_transfer_sent".
Definition TypeMultiBackup : TxType := "multi_backup".
Definition TypeMultiDataRoom : TxType := "multi_data_room".
Definition TypeMultiCollection : TxType := "multi_collection".
Definition TypeMultiDataV2 : TxType := "multi_dataV2".
Definition TypeMultiPasswd : TxType := "multi_passwd".
Definition TypePasswdData : TxType := "passwd_data".
Definition TypePasswdRoom : TxType := "passwd_room".
Definition TypePasswdRoomPolicy : TxType := "passwd_room_policy".
Definition TypePasswdRoomF : TxType := "passwd_roomF".
Definition TypePasswdRoomData : TxType := "passwd_room_data".
Definition TypePasswdRoomDataDelete : TxType := "passwd_room_data_delete".
Definition TypePasswdRoomDataPolicy : TxType := "passwd_room_data_policy".
Definition TypeDataV2 : TxType := "datav2".
Definition TypeDataV2Policy : TxType := "datav2_policy".
Definition TypeCollection : TxType := "coll".
Definition TypeCollectionPolicy : TxType := "coll_policy".
Definition TypeCollectionF : TxType := "collF".
Definition TypeDataV2Collection : TxType := "datav2_coll".
Definition TypeDataV2F : TxType := "datav2F".

(** The constants, in the order of the const block. *)
Definition declared_types : list TxType := [TypeMaster; TypeAddress; TypeAddresses;
  TypeSubMaster; TypeSubAddresses; TypeAccount; TypeAccountInitialTXS; TypeNS;
  TypeMessage; TypeMessageSent; TypeMessageThreadDelete; TypeTransfer; TypeTransferCancel;
  TypeTransferSent; TypeTransferReceiveDelete; TypeTransferInfo; TypeStorage;
  TypeStorageDelete; TypeBackup; TypeContact; TypeFileVirtual; TypeFileFs;
  TypeRfileVirtual; TypeRfileFs; TypeDfileVirtual; TypeDfileFs; TypePfileVirtual;
  TypeRequest; TypeRequestIn; TypeRequestUpload; TypeRequestCancel; TypeDataRoom;
  TypeDataRoomPolicy; TypeDataRoomF; TypeDataRoomData; TypeDataRoomDataDelete;
  TypeDataRoomDataPolicy; TypeDataRoomE; TypeDataRoomEData; TypeMultiStorage;
  TypeMultiTransfer; TypeMultiTransferSent; TypeMultiBackup; TypeMultiDataRoom;
  TypeMultiCollection; TypeMultiDataV2; TypeMultiPasswd; TypePasswdData; TypePasswdRoom;
  TypePasswdRoomPolicy; TypePasswdRoomF; TypePasswdRoomData; TypePasswdRoomDataDelete;
  TypePasswdRoomDataPolicy; TypeDataV2; TypeDataV2Policy; TypeCollection;
  TypeCollectionPolicy; TypeCollectionF; TypeDataV2Collection; TypeDataV2F].

(** [var TypesSlice], in the order of the source. *)
Definition TypesSlice : list TxType := [TypeMaster; TypeAddress; TypeAddresses;
  TypeSubMaster; TypeSubAddresses; TypeAccount; TypeAccountInitialTXS; TypeNS;
  TypeMessage; TypeMessageSent; TypeMessageThreadDelete; TypeTransfer; TypeTransferCancel;
  TypeTransferSent; TypeTransferReceiveDelete; TypeTransferInfo; TypeStorage;
  TypeStorageDelete; TypeBackup; TypeContact; TypeFileVirtual; TypeFileFs;
  TypeRfileVirtual; TypeRfileFs; TypeDfileVirtual; TypeDfileFs; TypePfileVirtual;
  TypeRequest; TypeRequestIn; TypeRequestUpload; TypeRequestCancel; TypeDataRoom;
  TypeDataRoomPolicy; TypeDataRoomF; TypeDataRoomData; TypeDataRoomDataDelete;
  TypeDataRoomDataPolicy; TypeDataRoomE; TypeDataRoomEData; TypeMultiStorage;
  TypeMultiTransfer; TypeMultiTransferSent; TypeMultiBackup; TypeMultiDataRoom;
  TypeMultiCollection; TypeMultiDataV2; TypePasswdData; TypePasswdRoom;
  TypePasswdRoomPolicy; TypePasswdRoomF; TypePasswdRoomData; TypePasswdRoomDataDelete;
  TypePasswdRoomDataPolicy; TypeDataV2; TypeDataV2Policy; TypeCollection;
  TypeCollectionPolicy; TypeDataV2Collection; TypeDataV2F; TypeMultiPasswd;
  TypeCollectionF].

(** The loop of [IsValid] over a slice of types, with its [break]. *)
Fixpoint IsValid_loop (ts : list TxType) (t : TxType) (valid : bool) : bool :=
  match ts with
  | [] => valid
  | x :: ts' => if String.eqb x t then true else IsValid_loop ts' t valid
  end.

(** [func (t Type) IsValid() bool]. *)
Definition Type_IsValid (t : TxType) : bool := IsValid_loop TypesSlice t false.

(** ** search.go: [OrderBy] and [HeightOperator] *)
Definition OrderBy : Set := string.
Definition ASC : OrderBy := "ASC".
Definition DESC : OrderBy := "DESC".

Definition OrderBy_IsValid (t : OrderBy) : bool :=
  if String.eqb t ASC then true
  else if String.eqb t DESC then true
  else false.

Definition HeightOperator : Set := string.
Definition Equal : HeightOperator := "=".
Definition Less : HeightOperator := "<".
Definition Greater : HeightOperator := ">".
Definition EqualOrLess : HeightOperator := "<=".
Definition EqualOrGreater : HeightOperator := ">=".

Definition HeightOperator_IsValid (ho : HeightOperator) : bool :=
  if String.eqb ho Equal then true
  else if String.eqb ho Less then true
  else if String.eqb ho Greater then true
  else if String.eqb ho EqualOrLess then true
  else if String.eqb ho EqualOrGreater then true
  else false.

(** ** mode.go: [Mode] is an int; any int is a value of it. *)
Definition Mode : Set := Z.
Definition Subscription : Mode := 0%Z.
Definition Listen : Mode := 1%Z.
Definition Push : Mode := 2%Z.

(** ** message.go: [MessageType] and [State] *)
Definition MessageType : Set := string.
Definition MsgSubscribe : MessageType := "subscribe".
Definition MsgUnsubscribe : MessageType := "unsubscribe".
Definition ListenMessage : MessageType := "listen".

(** [type State int], with [OK = iota + 1]. *)
Definition State : Set := Z.
Definition State_OK : State := 1%Z.
Definition State_Fail : State := 2%Z.

(** ** util.go *)

Fixpoint StringOR (values : list string) : string :=
  match values with
  | [] => ""
  | v :: vs => if negb (String.eqb v "") then v else StringOR vs
  end.

(** What [reflect] sees of [InArray]'s second argument: a slice or not. *)
Inductive reflected (A : Type) := RSlice (l : list A) | ROther.
Arguments RSlice {A} l.
Arguments ROther {A}.

(** [InArray] returns (exists, index, err). [reflect.DeepEqual] is equality of
    the model's values. *)
Section in_array.
Context {A : Type} `{EqDecision A}.

Fixpoint InArray_loop (val : A) (s : list A) (i : Z) : bool * Z :=
  match s with
  | [] => (false, -1)%Z
  | x :: s' => if decide (val = x) then (true, i) else InArray_loop val s' (i + 1)
  end.

Definition InArray (val : A) (array : reflected A) : bool * Z * bool :=
  match array with
  | RSlice s => (InArray_loop val s 0, false)
  | ROther => (false, 0%Z, true)
  end.

Lemma InArray_loop_spec val s i :
  match InArray_loop val s i with
  | (true, j) => exists k, j = (i + Z.of_nat k)%Z /\ s !! k = Some val
                   /\ forall k', k' < k -> s !! k' <> Some val
  | (false, j) => j = (-1)%Z /\ val ∉ s
  end.
Proof.
  revert i. induction s as [|x s IH]; intros i; simpl; [set_solver|].
  case_decide as E.
  - subst. exists 0. split; [lia|]. split; [done|lia].
  - specialize (IH (i + 1)%Z). destruct (InArray_loop val s (i + 1)) as [[] j].
    + destruct IH as (k & -> & Hk & Hmin). exists (S k). split; [lia|]. split; [done|].
      intros [|k'] Hlt; simpl; [congruence|]. apply Hmin. lia.
    + destruct IH as [-> Hn]. split; [done|]. set_solver.
Qed.
End in_array.

(** ** Lemmas *)
Lemma IsValid_loop_iff ts t : IsValid_loop ts t false = true <-> t ∈ ts.
Proof.
  induction ts as [|x ts IH]; simpl; [set_solver|].
  destruct (String.eqb_spec x t) as [->|Hne]; set_solver.
Qed.

Lemma Type_IsValid_slice t : Type_IsValid t = true <-> t ∈ TypesSlice.
Proof. apply IsValid_loop_iff. Qed.

Lemma declared_in_slice : forallb Type_IsValid declared_types = true.
Proof. vm_compute. reflexivity. Qed.

Lemma slice_in_declared : forallb (fun t => IsValid_loop declared_types t false) TypesSlice = true.
Proof. vm_compute. reflexivity. Qed.

Lemma OrderBy_IsValid_iff t : OrderBy_IsValid t = true <-> t ∈ [ASC; DESC].
Proof.
  unfold OrderBy_IsValid. destruct (String.eqb_spec t ASC), (String.eqb_spec t DESC); set_solver.
Qed.

Lemma HeightOperator_IsValid_iff ho :
  HeightOperator_IsValid ho = true <->
  ho ∈ [Equal; Less; Greater; EqualOrLess; EqualOrGreater].
Proof.
  unfold HeightOperator_IsValid.
  repeat match goal with |- context [String.eqb ?a ?b] => destruct (String.eqb_spec a b) end;
    set_solver.
Qed.

#[export] Hint Rewrite Type_IsValid_slice OrderBy_IsValid_iff HeightOperator_IsValid_iff
  : tcabci_iff.

(** ** Properties *)

(** [Type.IsValid] accepts exactly the constants that transaction.go
    declares: [TypesSlice] forgets none of them and lists nothing else, once each. *)
Theorem Type_IsValid_correct t :
  (Type_IsValid t = true <-> t ∈ declared_types) /\ NoDup TypesSlice /\
  TypesSlice ≡ₚ declared_types.
Proof.
  assert (forall x, x ∈ TypesSlice <-> x ∈ declared_types) as Heq.
  { intros x. rewrite <- Type_IsValid_slice, <- IsValid_loop_iff. split; intros H.
    - pose proof slice_in_declared as Hf. rewrite forallb_forall in Hf.
      apply Hf, list_elem_of_In. by apply Type_IsValid_slice.
    - pose proof declared_in_slice as Hf. rewrite forallb_forall in Hf.
      apply Hf, list_elem_of_In. by apply IsValid_loop_iff. }
  assert (NoDup TypesSlice) as Hnd by (by apply (bool_decide_unpack _); vm_compute).
  rewrite Type_IsValid_slice. split; [apply Heq|]. split; [done|].
  apply NoDup_Permutation; [done| |done].
  by apply (bool_decide_unpack _); vm_compute.
Qed.

(** [InArray] on a slice returns the first index of the value, or
    (false, -1) when it is absent; on anything else it reports an error. *)
Theorem InArray_correct (val : string) (array : reflected string) :
  match array, InArray val array with
  | ROther, r => r = (false, 0%Z, true)
  | RSlice s, (true, j, e) => e = false /\ (0 <= j)%Z /\ s !! Z.to_nat j = Some val
                     /\ forall k, k < Z.to_nat j -> s !! k <> Some val
  | RSlice s, (false, j, e) => e = false /\ j = (-1)%Z /\ val ∉ s
  end.
Proof.
  destruct array as [s|]; [|done]. simpl. pose proof (InArray_loop_spec val s 0) as H.
  destruct (InArray_loop val s 0) as [[] j]; [|naive_solver].
  destruct H as (k & -> & Hk & Hmin). rewrite Z.add_0_l, Nat2Z.id. split_and!; eauto. lia.
Qed.
