(* ===== verification/Pins.v ===== *)
(** * certificate.go: certificate pinning

    The pin list with its copying discipline (module [PinStore]) and the check
    a TLS handshake runs on the peer's chain (module [Verify]). *)
From S2P Require Import Prelude GoText Sha2 Errors.

(** What the check needs of crypto/x509: the DER bytes of a certificate, and
    [child.CheckSignatureFrom(parent)]. *)
Class X509 := {
  Certificate : Type;
  Raw : Certificate -> bytes;
  CheckSignatureFrom : Certificate -> Certificate -> option error;
}.

Definition sha256_Size : Z := 32.

(** [decodePin]: its two errors, the hex error and the wrong length. *)
Definition decodePin (pin : string) : result error bytes :=
  match Hex.DecodeString pin with
  | Err _ => Err (Extern "encoding/hex")
  | Ok decoded =>
      if negb (llen decoded =? sha256_Size)%Z
      then Err (errors_New "invalid certificate pin length")
      else Ok decoded
  end.

Lemma decodePin_Ok pin b :
  decodePin pin = Ok b <-> Hex.DecodeString pin = Ok b /\ llen b = 32%Z.
Proof.
  unfold decodePin, sha256_Size. destruct (Hex.DecodeString pin) as [d|]; [|naive_solver].
  destruct (Z.eqb_spec (llen d) 32) as [E|E]; simpl; [naive_solver|].
  split; [done|]. intros [[= ->] ?]. done.
Qed.

Lemma decodePin_Encode b : llen b = 32%Z -> decodePin (Hex.EncodeToString b) = Ok b.
Proof. intros H. apply decodePin_Ok. by rewrite Hex.Decode_Encode. Qed.

Module Verify.
Section verify.
Context `{X509}.

(** [signedChain]: [for i := 1; i < len(certs); i++], [n] iterations left. *)
Fixpoint signedChain_loop (certs : list Certificate) (i n : nat) : list Certificate :=
  match n with
  | 0 => certs
  | S n' =>
      match certs !! (i - 1), certs !! i with
      | Some child, Some parent =>
          match CheckSignatureFrom child parent with
          | Some _ => take i certs
          | None => signedChain_loop certs (S i) n'
          end
      | _, _ => certs
      end
  end.

Definition signedChain (certs : list Certificate) : list Certificate :=
  signedChain_loop certs 1 (length certs - 1).

(** The inner loop: a pin that does not decode is skipped. *)
Fixpoint match_pins (pins : list string) (actual : bytes) : bool :=
  match pins with
  | [] => false
  | pin :: pins' =>
      match decodePin pin with
      | Err _ => match_pins pins' actual
      | Ok expected => if decide (expected = actual) then true else match_pins pins' actual
      end
  end.

(** The outer loop over the signed chain. *)
Fixpoint match_chain (chain : list Certificate) (pins : list string) : option error :=
  match chain with
  | [] => Some (errors_New "certificate not verified")
  | cert :: chain' =>
      if match_pins pins (Sum256 (Raw cert)) then None else match_chain chain' pins
  end.

Definition check_chain (peerCerts : list Certificate) (pins : list string) : option error :=
  if (llen peerCerts =? 0)%Z then Some (errors_New "invalid certificate pin")
  else match_chain (signedChain peerCerts) pins.

(** [verifyPeer]; [defaults] is what [GetFormattedFingerprints()] returns now. *)
Definition verifyPeer (defaults : list string) (peerCerts : list Certificate)
    (customFingerprint : option string) : option error :=
  match customFingerprint with
  | Some pin =>
      if String.eqb pin "" then None
      else match decodePin pin with
           | Err _ => Some (errors_New "invalid certificate pin")
           | Ok _ => check_chain peerCerts [pin]
           end
  | None => check_chain peerCerts defaults
  end.

(** ** Specification *)

(** Certificate [j] of the chain is signed by the next one. *)
Definition signed_link (certs : list Certificate) (j : nat) : Prop :=
  exists a b, certs !! j = Some a /\ certs !! S j = Some b /\ CheckSignatureFrom a b = None.

(** The pins that apply to a handshake. *)
Definition effective_pins (defaults : list string) (custom : option string) : list string :=
  match custom with Some pin => [pin] | None => defaults end.

(** [cert] stands in the chain, and every certificate before it is signed by
    its successor. *)
Definition vouched (certs : list Certificate) (cert : Certificate) : Prop :=
  exists i, certs !! i = Some cert /\ forall j, j < i -> signed_link certs j.

(** ** Lemmas *)
Lemma signedChain_loop_spec certs i n :
  1 <= i -> i + n = length certs -> (forall j, S j < i -> signed_link certs j) ->
  exists k, signedChain_loop certs i n = take k certs /\ 1 <= k <= length certs /\
    (forall j, S j < k -> signed_link certs j) /\
    (k < length certs -> ~ signed_link certs (k - 1)).
Proof.
  revert i. induction n as [|n IH]; intros i Hi Hlen Hok; simpl.
  - exists (length certs). rewrite firstn_all. split_and!; try done; try lia.
    intros j Hj. apply Hok. lia.
  - destruct (lookup_lt_is_Some_2 certs (i - 1)) as [child Hc]; [lia|].
    destruct (lookup_lt_is_Some_2 certs i) as [parent Hp]; [lia|].
    rewrite Hc, Hp. destruct (CheckSignatureFrom child parent) eqn:Es.
    + exists i. split_and!; try done; try lia. intros _ (a & b & Ha & Hb & Hab).
      replace (S (i - 1)) with i in Hb by lia. congruence.
    + apply IH; [lia|lia|]. intros j Hj. destruct (decide (S j < i)); [by apply Hok|].
      assert (j = i - 1) as -> by lia. exists child, parent.
      replace (S (i - 1)) with i by lia. done.
Qed.

Lemma signedChain_spec certs :
  certs <> [] ->
  exists k, signedChain certs = take k certs /\ 1 <= k <= length certs /\
    (forall j, S j < k -> signed_link certs j) /\
    (k < length certs -> ~ signed_link certs (k - 1)).
Proof.
  intros Hne. destruct certs as [|c cs]; [done|].
  apply signedChain_loop_spec; simpl; lia.
Qed.

Lemma elem_of_signedChain certs cert : cert ∈ signedChain certs <-> vouched certs cert.
Proof.
  destruct (decide (certs = [])) as [->|Hne].
  { split; [intros Hin; cbn in Hin; set_solver|by intros (i & Hi & _)]. }
  destruct (signedChain_spec certs Hne) as (k & -> & Hk & Hok & Hstop).
  rewrite list_elem_of_lookup. split.
  - intros (i & Hi). apply lookup_take_Some in Hi as [Hi Hik].
    exists i. split; [done|]. intros j Hj. apply Hok. lia.
  - intros (i & Hi & Hj). exists i. apply lookup_take_Some. split; [done|].
    apply lookup_lt_Some in Hi as Hlt. destruct (decide (i < k)); [done|].
    exfalso. apply Hstop; [lia|]. apply Hj. lia.
Qed.

Lemma match_pins_iff pins actual :
  match_pins pins actual = true <-> exists pin, pin ∈ pins /\ decodePin pin = Ok actual.
Proof.
  induction pins as [|p pins IH]; simpl.
  { split; [done|]. intros (? & Hin & _). by apply elem_of_nil in Hin. }
  setoid_rewrite elem_of_cons.
  destruct (decodePin p) as [d|e] eqn:E; [case_decide as Hd|].
  - subst. split; [|done]. intros _. exists p. auto.
  - rewrite IH. split; [naive_solver|]. intros (q & [->|?] & Hq); [congruence|eauto].
  - rewrite IH. split; [naive_solver|]. intros (q & [->|?] & Hq); [congruence|eauto].
Qed.

Lemma match_chain_None chain pins :
  match_chain chain pins = None <->
  exists cert, cert ∈ chain /\ match_pins pins (Sum256 (Raw cert)) = true.
Proof.
  induction chain as [|c chain IH]; simpl.
  { split; [done|]. intros (? & Hin & _). by apply elem_of_nil in Hin. }
  setoid_rewrite elem_of_cons.
  destruct (match_pins pins _) eqn:E.
  - split; [|done]. intros _. exists c. auto.
  - rewrite IH. split; [naive_solver|]. intros (d & [->|?] & Hd); [congruence|eauto].
Qed.

Lemma match_chain_Some chain pins e :
  match_chain chain pins = Some e -> e = errors_New "certificate not verified".
Proof. induction chain; simpl; [naive_solver|]. by case_match. Qed.

Lemma check_chain_None certs pins :
  check_chain certs pins = None <->
  exists cert pin, vouched certs cert /\ pin ∈ pins /\
    Hex.DecodeString pin = Ok (Sum256 (Raw cert)).
Proof.
  unfold check_chain. destruct (Z.eqb_spec (llen certs) 0) as [->%llen_nil|_].
  - split; [done|]. intros (? & ? & (i & Hi & _) & _). done.
  - rewrite match_chain_None. setoid_rewrite elem_of_signedChain.
    setoid_rewrite match_pins_iff. setoid_rewrite decodePin_Ok.
    split; [naive_solver|]. intros (cert & pin & ? & ? & ?).
    eauto 10 using Sum256_size.
Qed.

Lemma custom_pin_bad defaults certs pin e :
  pin <> "" -> decodePin pin = Err e ->
  verifyPeer defaults certs (Some pin) = Some (errors_New "invalid certificate pin").
Proof. intros Hne He. simpl. apply String.eqb_neq in Hne as ->. by rewrite He. Qed.

Lemma verifyPeer_custom defaults certs pin b :
  decodePin pin = Ok b -> verifyPeer defaults certs (Some pin) = check_chain certs [pin].
Proof. intros Hb. simpl. destruct (String.eqb_spec pin "") as [->|]; [done|by rewrite Hb]. Qed.

Lemma vouched_leaf leaf certs : vouched (leaf :: certs) leaf.
Proof. exists 0. split; [done|lia]. Qed.

Lemma signed_link_app chain extra j :
  S j < length chain -> signed_link (chain ++ extra) j <-> signed_link chain j.
Proof. intros Hj. unfold signed_link. by rewrite !lookup_app_l by lia. Qed.

(** A broken link cuts off what follows. *)
Lemma vouched_app chain extra cert :
  chain <> [] -> ~ signed_link (chain ++ extra) (length chain - 1) ->
  vouched (chain ++ extra) cert <-> vouched chain cert.
Proof.
  intros Hne Hbreak. assert (0 < length chain) by (destruct chain; simpl; [done|lia]).
  split; intros (i & Hi & Hok).
  - destruct (decide (i < length chain)).
    + exists i. rewrite lookup_app_l in Hi by done. split; [done|].
      intros j Hj. apply (signed_link_app chain extra); [lia|]. by apply Hok.
    + exfalso. apply Hbreak, Hok. lia.
  - apply lookup_lt_Some in Hi as Hlt. exists i. rewrite lookup_app_l by done. split; [done|].
    intros j Hj. apply signed_link_app; [lia|]. by apply Hok.
Qed.

End verify.
End Verify.

(** ** The default pin list and its backing arrays

    A slice is a window of a shared array, so that "the slice is copied" is a
    statement about the store: the package and its callers write through
    their own slices only. *)
Module PinStore.

(** A slice header: the array's address and [len]; [cap] is the array's length
    (every slice here starts at its array's first element). *)
Record slc := mk_slc { s_arr : nat; s_len : nat }.

Record pin_world := mk_pin_world {
  arrays : gmap nat (list string);
  defaultFingerprints : slc;
  caller_slices : list slc;        (* the slices callers of the package hold *)
}.

Definition read (w : pin_world) (s : slc) : list string :=
  take (s_len s) (default [] (arrays w !! s_arr s)).

Definition default_pins (w : pin_world) : list string := read w (defaultFingerprints w).

(** Allocate an array that holds [l], with [extra] unused elements of capacity. *)
Definition alloc (w : pin_world) (l : list string) (extra : nat) : pin_world * slc :=
  let a := fresh (dom (arrays w)) in
  (mk_pin_world (<[a := l ++ replicate extra ""]> (arrays w))
     (defaultFingerprints w) (caller_slices w),
   mk_slc a (length l)).

(** [slices.Clone]; the clone's spare capacity is the runtime's choice. *)
Definition Clone (w : pin_world) (s : slc) (extra : nat) : pin_world * slc :=
  alloc w (read w s) extra.

(** [append(s, x)]: in place while there is capacity, else in a new array. *)
Definition append1 (w : pin_world) (s : slc) (x : string) (extra : nat) : pin_world * slc :=
  let arr := default [] (arrays w !! s_arr s) in
  if decide (s_len s < length arr) then
    (mk_pin_world (<[s_arr s := <[s_len s := x]> arr]> (arrays w))
       (defaultFingerprints w) (caller_slices w),
     mk_slc (s_arr s) (S (s_len s)))
  else alloc w (read w s ++ [x]) extra.

Definition set_default (w : pin_world) (s : slc) : pin_world :=
  mk_pin_world (arrays w) s (caller_slices w).

Definition add_caller (w : pin_world) (s : slc) : pin_world :=
  mk_pin_world (arrays w) (defaultFingerprints w) (s :: caller_slices w).

(** [SetCustomFingerprint(fingerprints)]. *)
Definition SetCustomFingerprint (w : pin_world) (fingerprints : slc) (extra : nat) : pin_world :=
  let (w', s) := Clone w fingerprints extra in set_default w' s.

(** [AddFingerprints(fingerprint)]. *)
Definition AddFingerprints (w : pin_world) (fingerprint : string) (extra : nat) : pin_world :=
  let (w', s) := append1 w (defaultFingerprints w) fingerprint extra in set_default w' s.

(** [GetFormattedFingerprints()]: the caller keeps the returned slice. *)
Definition GetFormattedFingerprints (w : pin_world) (extra : nat) : pin_world * slc :=
  let (w', s) := Clone w (defaultFingerprints w) extra in (add_caller w' s, s).

(** A caller makes a slice of its own. *)
Definition caller_new (w : pin_world) (l : list string) (extra : nat) : pin_world :=
  let (w', s) := alloc w l extra in add_caller w' s.

(** A caller writes [s[i] = x]; out of the array's range it panics and nothing
    is written. *)
Definition caller_write (w : pin_world) (s : slc) (i : nat) (x : string) : pin_world :=
  mk_pin_world (<[s_arr s := <[i := x]> (default [] (arrays w !! s_arr s))]> (arrays w))
    (defaultFingerprints w) (caller_slices w).

(** The five pins of the source. *)
Definition initial_pins : list string :=
  ["27dec11ab21f4299d56e5965a8dc28623d2441cb136fbe2b1ea3896c81b1a653";
   "75f6d90040cab176418687fdad09adb051010829f31008209c6cf9e8f7b52ef6";
   "5a927cc80015a0c096b52aa25156f9507187ad499576e6a9d7c62ccf284a71c9";
   "97658de8c68dfa98ace1e5028a63d54a1aae911b3e21471076c6850cd08cbab4";
   "13949634d99cd6fd6aa80bc034fefacceb1969feef986586713ecdbb05758d3f"].

Definition initial : pin_world :=
  mk_pin_world {[ 0 := initial_pins ]} (mk_slc 0 5) [].

(** Calls of the package and writes of its callers, in the order in which
    [fingerprintsMu] lets them happen. *)
Inductive action :=
| ASet (s : slc) (extra : nat)
| AAdd (fp : string) (extra : nat)
| AGet (extra : nat)
| ANew (l : list string) (extra : nat)
| AWrite (s : slc) (i : nat) (x : string).

(** A caller can only name the slices it holds. *)
Definition allowed (w : pin_world) (a : action) : Prop :=
  match a with
  | ASet s _ | AWrite s _ _ => s ∈ caller_slices w
  | _ => True
  end.

Definition do_action (w : pin_world) (a : action) : pin_world :=
  match a with
  | ASet s extra => SetCustomFingerprint w s extra
  | AAdd fp extra => AddFingerprints w fp extra
  | AGet extra => fst (GetFormattedFingerprints w extra)
  | ANew l extra => caller_new w l extra
  | AWrite s i x => caller_write w s i x
  end.

(** The specification: a plain list that only the two setters change. *)
Definition spec_action (w : pin_world) (pins : list string) (a : action) : list string :=
  match a with
  | ASet s _ => read w s
  | AAdd fp _ => pins ++ [fp]
  | _ => pins
  end.

(** Runs of the package, paired with the specification's list. *)
Inductive runs : pin_world -> list string -> Prop :=
| runs_init : runs initial initial_pins
| runs_step w pins a :
    runs w pins -> allowed w a -> runs (do_action w a) (spec_action w pins a).

(** ** Lemmas *)

(** No caller's slice shares the default list's array, and the default
    slice lies within its array. *)
Definition separated (w : pin_world) : Prop :=
  (forall s, s ∈ caller_slices w -> s_arr s <> s_arr (defaultFingerprints w)) /\
  (forall s, s ∈ defaultFingerprints w :: caller_slices w -> s_arr s ∈ dom (arrays w)) /\
  (exists arr, arrays w !! s_arr (defaultFingerprints w) = Some arr /\
               s_len (defaultFingerprints w) <= length arr).

Lemma alloc_fresh w : fresh (dom (arrays w)) ∉ dom (arrays w).
Proof. apply is_fresh. Qed.

Lemma read_alloc w l extra : let (w', s) := alloc w l extra in read w' s = l.
Proof. unfold alloc, read. simpl. rewrite lookup_insert_eq. simpl. by rewrite take_app_length. Qed.

Lemma read_alloc_other w l extra s :
  s_arr s ∈ dom (arrays w) -> read (fst (alloc w l extra)) s = read w s.
Proof.
  intros Hs. unfold read, alloc. simpl. rewrite lookup_insert_ne; [done|].
  intros Heq. apply (alloc_fresh w). congruence.
Qed.

Lemma separated_alloc_caller w l extra :
  separated w -> let (w', s) := alloc w l extra in separated (add_caller w' s).
Proof.
  intros (H1 & H2 & arr & Harr & Hlen). pose proof (alloc_fresh w) as Hf.
  unfold separated; simpl. split_and!.
  - intros s [->|Hs]%elem_of_cons; [|by apply H1]. simpl. intros Heq. apply Hf.
    rewrite Heq. apply H2. left.
  - intros s Hs. apply elem_of_dom. simpl in *.
    destruct (decide (s_arr s = fresh (dom (arrays w)))) as [->|Hne].
    + by rewrite lookup_insert_eq.
    + rewrite lookup_insert_ne by done. apply elem_of_dom, H2.
      rewrite !elem_of_cons in Hs. rewrite elem_of_cons.
      destruct Hs as [?|[->|?]]; [by left|done|by right].
  - exists arr. rewrite lookup_insert_ne; [done|]. intros Heq. apply Hf.
    rewrite Heq. apply elem_of_dom. by eexists.
Qed.

Lemma separated_alloc_default w l extra :
  separated w -> let (w', s) := alloc w l extra in separated (set_default w' s).
Proof.
  intros (H1 & H2 & _). pose proof (alloc_fresh w) as Hf.
  unfold separated; simpl. split_and!.
  - intros s Hs Heq. apply Hf. rewrite <- Heq. apply H2. by right.
  - intros s [->|Hs]%elem_of_cons; simpl; rewrite dom_insert_L; [set_solver|].
    apply elem_of_union_r, H2. by right.
  - eexists. rewrite lookup_insert_eq. split; [done|]. rewrite length_app. lia.
Qed.

Lemma separated_append w x extra :
  separated w ->
  let (w', s) := append1 w (defaultFingerprints w) x extra in
  separated (set_default w' s) /\ read w' s = default_pins w ++ [x].
Proof.
  intros Hsep. unfold append1. case_decide as Hcap.
  - destruct Hsep as (H1 & H2 & arr & Harr & Hlen). rewrite Harr in *. simpl in *. split.
    + unfold separated; simpl. split_and!.
      * intros s Hs. by apply H1.
      * intros s Hs. rewrite dom_insert_L. apply elem_of_union_r.
        apply elem_of_cons in Hs as [->|Hs]; simpl; apply H2; [left|by right].
      * eexists. rewrite lookup_insert_eq. split; [done|]. rewrite length_insert. lia.
    + unfold default_pins, read. simpl. rewrite lookup_insert_eq, Harr. simpl.
      rewrite (take_S_r _ _ x) by (by apply list_lookup_insert_eq).
      by rewrite take_insert_ge by lia.
  - pose proof (separated_alloc_default w (default_pins w ++ [x]) extra Hsep).
    pose proof (read_alloc w (default_pins w ++ [x]) extra).
    unfold default_pins in *. by destruct (alloc w _ extra).
Qed.

Lemma default_pins_alloc_caller w l extra :
  separated w ->
  let (w', s) := alloc w l extra in default_pins (add_caller w' s) = default_pins w.
Proof.
  intros (_ & H2 & _). apply (read_alloc_other w l extra). apply H2. left.
Qed.

Lemma separated_write w s i x :
  separated w -> s ∈ caller_slices w ->
  separated (caller_write w s i x) /\ default_pins (caller_write w s i x) = default_pins w.
Proof.
  intros (H1 & H2 & arr & Harr & Hlen) Hs. pose proof (H1 s Hs) as Hne.
  unfold separated, default_pins, read, caller_write; simpl. split; [split_and!|].
  - done.
  - intros s' Hs'. rewrite dom_insert_L. apply elem_of_union_r. by apply H2.
  - exists arr. by rewrite lookup_insert_ne.
  - by rewrite lookup_insert_ne.
Qed.

Lemma runs_separated w pins : runs w pins -> separated w /\ default_pins w = pins.
Proof.
  induction 1 as [|w pins a _ [Hsep Hp] Ha].
  { split; [|done]. unfold separated, initial; simpl. split_and!.
    - intros s Hs. by apply elem_of_nil in Hs.
    - intros s ->%list_elem_of_singleton. set_solver.
    - exists initial_pins. by rewrite lookup_singleton_eq. }
  destruct a as [s extra|fp extra|extra|l extra|s i x].
  - split; [apply (separated_alloc_default w (read w s) extra Hsep)|].
    apply (read_alloc w (read w s) extra).
  - simpl. unfold AddFingerprints. pose proof (separated_append w fp extra Hsep) as Happ.
    destruct (append1 _ _ _ _). destruct Happ as [? Hr]. split; [done|].
    by rewrite <- Hp, <- Hr.
  - split; [apply (separated_alloc_caller w _ extra Hsep)|].
    etrans; [|done]. apply (default_pins_alloc_caller w _ extra Hsep).
  - split; [apply (separated_alloc_caller w l extra Hsep)|].
    etrans; [|done]. apply (default_pins_alloc_caller w l extra Hsep).
  - destruct (separated_write w s i x Hsep Ha). split; [done|]. etrans; [|done]. done.
Qed.

End PinStore.

(** ** A concrete instance

    Certificates that name themselves and their issuer; the digest pads the
    DER bytes to 32 bytes. *)
Record toy_cert := { toy_raw : bytes; toy_subject : nat; toy_issuer : nat }.

Definition toy_x509 : X509 := {|
  Certificate := toy_cert;
  Raw := toy_raw;
  CheckSignatureFrom child parent :=
    if Nat.eqb (toy_issuer child) (toy_subject parent) then None
    else Some (Extern "x509: invalid signature");
|}.

Definition toy_leaf : toy_cert := {| toy_raw := [x01]; toy_subject := 1; toy_issuer := 2 |}.
Definition toy_ca : toy_cert := {| toy_raw := [x02]; toy_subject := 2; toy_issuer := 3 |}.
Definition toy_other : toy_cert := {| toy_raw := [x03]; toy_subject := 9; toy_issuer := 9 |}.
Definition toy_pin (c : toy_cert) : string := Hex.EncodeToString (Sum256 (toy_raw c)).

(** ** Properties *)

(** C3: a handshake passes [verifyPeer] exactly when pinning is switched
    off by an empty custom fingerprint, or some pin in force decodes to the
    SHA-256 of a certificate of the chain all of whose predecessors are signed
    by their successors. A custom pin replaces the default list. *)
Theorem verifyPeer_accepts `{X509} defaults certs custom :
  Verify.verifyPeer defaults certs custom = None <->
  custom = Some "" \/
  exists cert pin, Verify.vouched certs cert /\
    pin ∈ Verify.effective_pins defaults custom /\
    Hex.DecodeString pin = Ok (Sum256 (Raw cert)).
Proof.
  destruct custom as [pin|]; simpl.
  2:{ rewrite Verify.check_chain_None. split; [by right|by intros [?|?]]. }
  destruct (String.eqb_spec pin "") as [->|Hne]; [by split; [left|]|].
  destruct (decodePin pin) as [b|e] eqn:Ed.
  - rewrite Verify.check_chain_None. split; [by right|by intros [[= ?]|?]].
  - split; [done|]. intros [[= ?]|(cert & q & _ & ->%list_elem_of_singleton & Hq)]; [done|].
    assert (decodePin pin = Ok (Sum256 (Raw cert))) as Hok
      by (apply decodePin_Ok; auto using Sum256_size).
    congruence.
Qed.

(** [verifyPeer] reports "invalid certificate pin" exactly for a malformed
    custom pin or an empty chain, and every other refusal is "certificate not
    verified": malformed entries of the default list are never reported. *)
Theorem verifyPeer_errors `{X509} defaults certs custom e :
  Verify.verifyPeer defaults certs custom = Some e ->
  (e = errors_New "invalid certificate pin" /\
     (certs = [] \/ exists pin, custom = Some pin /\ is_Ok (decodePin pin) = false)) \/
  (e = errors_New "certificate not verified" /\
     certs <> [] /\ forall pin, custom = Some pin -> is_Ok (decodePin pin) = true).
Proof.
  assert (forall pins, Verify.check_chain certs pins = Some e ->
    (e = errors_New "invalid certificate pin" /\ certs = []) \/
    (e = errors_New "certificate not verified" /\ certs <> [])) as Hc.
  { intros pins. unfold Verify.check_chain.
    destruct (Z.eqb_spec (llen certs) 0) as [->%llen_nil|Hne].
    - intros [= <-]. by left.
    - intros ->%Verify.match_chain_Some. right. split; [done|]. by intros ->. }
  destruct custom as [pin|]; simpl; [|naive_solver].
  case_match; [done|]. destruct (decodePin pin) as [b|err] eqn:Ed.
  - intros [[-> ->]|[-> ?]]%Hc; [left; auto|right]. split_and!; [done..|].
    intros ? [= <-]. by rewrite Ed.
  - intros [= <-]. left. split; [done|]. right. exists pin. by rewrite Ed.
Qed.

Lemma verifyPeer_errors_witness :
  let _ := toy_x509 in
  Verify.verifyPeer ["zz"] [toy_leaf] None = Some (errors_New "certificate not verified") /\
  ((errors_New "certificate not verified" = errors_New "invalid certificate pin" /\
     ([toy_leaf] = [] \/ exists pin, None = Some pin /\ is_Ok (decodePin pin) = false)) \/
   (errors_New "certificate not verified" = errors_New "certificate not verified" /\
     [toy_leaf] <> [] /\ forall pin, None = Some pin -> is_Ok (decodePin pin) = true)).
Proof.
  split; [reflexivity|].
  apply (@verifyPeer_errors toy_x509 ["zz"] [toy_leaf] None). reflexivity.
Defined.

(** C32: appending certificates that do not sign the presented chain changes no
    verdict: a public pinned certificate cannot be smuggled in behind an
    unrelated chain. *)
Theorem verifyPeer_appended `{X509} defaults chain extra custom
    (Hne : chain <> [])
    (Hbreak : ~ Verify.signed_link (chain ++ extra) (length chain - 1)) :
  Verify.verifyPeer defaults (chain ++ extra) custom
  = Verify.verifyPeer defaults chain custom.
Proof.
  assert (forall pins, Verify.check_chain (chain ++ extra) pins
                       = Verify.check_chain chain pins) as Hc.
  { intros pins.
    pose proof (Verify.check_chain_None (chain ++ extra) pins) as H1.
    pose proof (Verify.check_chain_None chain pins) as H2.
    setoid_rewrite (Verify.vouched_app chain extra _ Hne Hbreak) in H1.
    rewrite <- H2 in H1. unfold Verify.check_chain in *.
    destruct chain as [|c chain]; [done|]. simpl in *.
    destruct (Verify.match_chain (Verify.signedChain (c :: chain ++ extra)) pins) eqn:E1,
      (Verify.match_chain (Verify.signedChain (c :: chain)) pins) eqn:E2; try done.
    - by apply Verify.match_chain_Some in E1 as ->, E2 as ->.
    - by apply H1.
    - symmetry. by apply H1. }
  unfold Verify.verifyPeer. repeat case_match; auto.
Qed.

Lemma verifyPeer_appended_witness :
  let _ := toy_x509 in
  Verify.verifyPeer [toy_pin toy_other] [toy_leaf; toy_other] None
  = Verify.verifyPeer [toy_pin toy_other] [toy_leaf] None.
Proof.
  apply (@verifyPeer_appended toy_x509 _ [toy_leaf] [toy_other] None); [done|].
  intros (a & b & [= <-] & [= <-] & Hab). vm_compute in Hab. discriminate.
Defined.

(** A pin names not only the leaf: the hex digest of an issuer further up
    the chain, in either case, is accepted as a custom pin when the chain is
    signed up to it. *)
Theorem verifyPeer_issuer_pin `{X509} defaults certs cert pin
    (Hv : Verify.vouched certs cert)
    (Hpin : Hex.ToLower pin = Hex.EncodeToString (Sum256 (Raw cert)))
    (Hhex : is_Ok (Hex.DecodeString pin) = true) :
  Verify.verifyPeer defaults certs (Some pin) = None.
Proof.
  destruct (Hex.DecodeString pin) as [b|] eqn:Ed; [|done].
  assert (b = Sum256 (Raw cert)) as ->.
  { apply Hex.Encode_inj. rewrite <- Hpin. by apply Hex.Encode_Decode. }
  assert (decodePin pin = Ok (Sum256 (Raw cert))) as Hok
    by (apply decodePin_Ok; auto using Sum256_size).
  rewrite (Verify.verifyPeer_custom _ _ _ _ Hok). apply Verify.check_chain_None.
  exists cert, pin. split_and!; [done| |done]. by apply list_elem_of_singleton.
Qed.

Lemma verifyPeer_issuer_pin_witness :
  let _ := toy_x509 in
  toy_pin toy_ca <> toy_pin toy_leaf /\
  Verify.verifyPeer [] [toy_leaf; toy_ca] (Some (toy_pin toy_ca)) = None.
Proof.
  split; [vm_compute; discriminate|].
  apply (@verifyPeer_issuer_pin toy_x509 [] [toy_leaf; toy_ca] toy_ca).
  - exists 1. split; [reflexivity|]. intros j Hj. assert (j = 0) as -> by lia.
    exists toy_leaf, toy_ca. split_and!; reflexivity.
  - reflexivity.
  - reflexivity.
Defined.

(** C33: the copying discipline refines a plain list: whatever slices callers
    pass in, keep and overwrite, the pins a handshake reads are those the
    calls of [SetCustomFingerprint] and [AddFingerprints] produced. *)
Theorem pin_store_refines w pins (Hr : PinStore.runs w pins) :
  PinStore.default_pins w = pins.
Proof. by apply PinStore.runs_separated. Qed.

(** A caller makes a slice, passes it in, a pin is added, and the caller then
    overwrites its own slice. *)
Definition pin_demo0 := PinStore.caller_new PinStore.initial ["a"] 2.
Definition pin_demo1 := PinStore.SetCustomFingerprint pin_demo0 (PinStore.mk_slc 1 1) 1.
Definition pin_demo2 := PinStore.AddFingerprints pin_demo1 "b" 0.
Definition pin_demo3 := PinStore.caller_write pin_demo2 (PinStore.mk_slc 1 1) 0 "evil".

Lemma pin_store_refines_witness :
  PinStore.read pin_demo3 (PinStore.mk_slc 1 1) = ["evil"] /\
  PinStore.default_pins pin_demo3 = ["a"; "b"].
Proof.
  split; [vm_compute; reflexivity|].
  apply pin_store_refines.
  pose proof (PinStore.runs_step _ _ (PinStore.ANew ["a"] 2) PinStore.runs_init I) as H0.
  pose proof (PinStore.runs_step pin_demo0 _ (PinStore.ASet (PinStore.mk_slc 1 1) 1) H0
    ltac:(left)) as H1.
  pose proof (PinStore.runs_step pin_demo1 _ (PinStore.AAdd "b" 0) H1 I) as H2.
  apply (PinStore.runs_step pin_demo2 _ (PinStore.AWrite (PinStore.mk_slc 1 1) 0 "evil") H2).
  left.
Defined.
