(* ===== verification/Client.v ===== *)
(** * client.go and websocket.go: the client's state and its locked operations

    [world] is the memory the client's methods share: the [client] struct, its
    parent context and the sessions [Start] has allocated. Each operation below
    is one critical section of [c.mut]. *)
From S2P Require Import Prelude GoText Errors Types.

(** ** Constants *)
Definition maxMessageSize : Z := 16 * 1024 * 1024.
Definition send_capacity : nat := 64.           (* make(chan []byte, 64) *)
Definition maxAddresses : Z := 251.

(** ** State *)

(** [wsSession]. [s_err] is [ctx.Err()]; [s_done] tells that [done] is closed;
    [s_send] is the channel's buffer, oldest first; [s_subscriptions] tells
    that the one-element channel holds a token. *)
Record wsSession := mk_session {
  s_err : option error;
  s_done : bool;
  s_send : list bytes;
  s_subscriptions : bool;
  s_queuedBytes : Z;
}.

(** [WSAuthoritySigner], its context being a live one. *)
Definition WSAuthoritySigner : Type := bytes -> result error bytes.

(** Callbacks and loggers are named by the order of their registration. *)
Definition callback : Set := nat.

(** The fields of [client] the lock [c.mut] protects; [session] is a pointer
    into the store of sessions. *)
Record client := mk_client {
  clientInstanceID : string;
  authorityAddress : string;
  authoritySigner : option WSAuthoritySigner;
  lgr : option nat;
  mode : Mode;
  retrieveCallbacks : list callback;
  listenCallbacks : list callback;
  errorCallbacks : list callback;
  session : option nat;
  subscribedAddresses : gmap string bool;
  subscribedSignedData : gmap string string;
  subscribedTypes : list TxType;
  subscriptionRevision : Z;
}.

Record world := mk_world {
  cl : client;
  ctx_err : option error;                  (* c.ctx.Err() *)
  sessions : gmap nat wsSession;
}.

(** ** Field updates *)
Definition set_cl (f : client -> client) (w : world) : world :=
  mk_world (f (cl w)) (ctx_err w) (sessions w).

Definition with_session (s : option nat) (c : client) : client :=
  mk_client (clientInstanceID c) (authorityAddress c) (authoritySigner c) (lgr c) (mode c)
    (retrieveCallbacks c) (listenCallbacks c) (errorCallbacks c) s
    (subscribedAddresses c) (subscribedSignedData c) (subscribedTypes c) (subscriptionRevision c).

Definition with_subs (a : gmap string bool) (d : gmap string string) (t : list TxType)
    (c : client) : client :=
  mk_client (clientInstanceID c) (authorityAddress c) (authoritySigner c) (lgr c) (mode c)
    (retrieveCallbacks c) (listenCallbacks c) (errorCallbacks c) (session c)
    a d t (subscriptionRevision c).

(** [c.subscriptionRevision++], a uint64. *)
Definition bump (c : client) : client :=
  mk_client (clientInstanceID c) (authorityAddress c) (authoritySigner c) (lgr c) (mode c)
    (retrieveCallbacks c) (listenCallbacks c) (errorCallbacks c) (session c)
    (subscribedAddresses c) (subscribedSignedData c) (subscribedTypes c)
    (wrap64 (subscriptionRevision c + 1)).

Definition with_mode (m : Mode) (c : client) : client :=
  mk_client (clientInstanceID c) (authorityAddress c) (authoritySigner c) (lgr c) m
    (retrieveCallbacks c) (listenCallbacks c) (errorCallbacks c) (session c)
    (subscribedAddresses c) (subscribedSignedData c) (subscribedTypes c) (subscriptionRevision c).

Definition with_callbacks (r l e : list callback) (c : client) : client :=
  mk_client (clientInstanceID c) (authorityAddress c) (authoritySigner c) (lgr c) (mode c)
    r l e (session c)
    (subscribedAddresses c) (subscribedSignedData c) (subscribedTypes c) (subscriptionRevision c).

Definition with_lgr (l : option nat) (c : client) : client :=
  mk_client (clientInstanceID c) (authorityAddress c) (authoritySigner c) l (mode c)
    (retrieveCallbacks c) (listenCallbacks c) (errorCallbacks c) (session c)
    (subscribedAddresses c) (subscribedSignedData c) (subscribedTypes c) (subscriptionRevision c).

Definition with_authority (a : string) (s : option WSAuthoritySigner) (c : client) : client :=
  mk_client (clientInstanceID c) a s (lgr c) (mode c)
    (retrieveCallbacks c) (listenCallbacks c) (errorCallbacks c) (session c)
    (subscribedAddresses c) (subscribedSignedData c) (subscribedTypes c) (subscriptionRevision c).

(** ** Sessions *)
Definition new_session : wsSession := mk_session None false [] false 0.

(** Reading through a session pointer. The default is never read: see
    [session_allocated] in the file SendQueue. *)
Definition get_session (w : world) (sid : nat) : wsSession :=
  default new_session (sessions w !! sid).

Definition upd_session (sid : nat) (f : wsSession -> wsSession) (w : world) : world :=
  mk_world (cl w) (ctx_err w) (alter f sid (sessions w)).

(** [s.cancel()]: the first cancellation sets the context's error. *)
Definition cancel_session (e : error) (s : wsSession) : wsSession :=
  mk_session (match s_err s with Some e' => Some e' | None => Some e end)
    (s_done s) (s_send s) (s_subscriptions s) (s_queuedBytes s).

Definition set_token (b : bool) (s : wsSession) : wsSession :=
  mk_session (s_err s) (s_done s) (s_send s) b (s_queuedBytes s).

(** Cancelling the parent context cancels every session derived from it. *)
Definition cancel_parent (e : error) (w : world) : world :=
  match ctx_err w with
  | Some _ => w
  | None => mk_world (cl w) (Some e) (cancel_session e <$> sessions w)
  end.

(** [notifySubscriptionLocked]: put a token unless the channel is full. *)
Definition notifySubscriptionLocked (w : world) : world :=
  match session (cl w) with
  | None => w
  | Some sid => upd_session sid (set_token true) w
  end.

(** ** Start and Stop *)

(** [Start], both locks held. The goroutine [runSession] is the set of steps
    that the file SendQueue gives to a session that is not done. *)
Definition Start (w : world) : option error * world :=
  let running :=
    match session (cl w) with
    | None => false
    | Some sid => negb (s_done (get_session w sid))
    end in
  if running then (Some ErrAlreadyStarted, w)
  else match ctx_err w with
       | Some e => (Some e, w)
       | None =>
           let sid := fresh (dom (sessions w)) in
           (None, mk_world (with_session (Some sid) (cl w)) (ctx_err w)
                    (<[sid := new_session]> (sessions w)))
       end.

(** The first critical section of [Stop]: no session, or cancel it and wait
    for [done]. *)
Definition Stop_begin (w : world) : option error * option nat * world :=
  match session (cl w) with
  | None =>
      (Some (ClientError CLIENTErr (Some ErrNotStarted) (error_text ErrNotStarted) 3 0 None),
       None, w)
  | Some sid => (None, Some sid, upd_session sid (cancel_session CtxCanceled) w)
  end.

(** The second one, after [<-s.done]. *)
Definition Stop_end (w : world) : world :=
  set_cl (fun c => bump (with_subs ∅ ∅ [] (with_session None c))) w.

(** ** Subscribe and Unsubscribe *)

(** [signedDatas[address]]: a missing key reads as the empty string. *)
Definition map_get (m : gmap string string) (k : string) : string := default "" (m !! k).
Definition map_get_bool (m : gmap string bool) (k : string) : bool := default false (m !! k).

Definition bad_address (signedDatas : gmap string string) (address : string) : bool :=
  String.eqb address "" || (2048 <? slen address)%Z
  || String.eqb (map_get signedDatas address) "".

(** The counting loop: addresses that are neither subscribed nor seen yet. *)
Fixpoint count_total (addresses : list string) (subscribed seen : gmap string bool)
    (total : Z) : Z :=
  match addresses with
  | [] => total
  | a :: rest =>
      if negb (map_get_bool subscribed a) && negb (map_get_bool seen a)
      then count_total rest subscribed (<[a := true]> seen) (total + 1)
      else count_total rest subscribed seen total
  end.

(** The merging loop. *)
Fixpoint merge_addresses (addresses : list string) (signedDatas : gmap string string)
    (subs : gmap string bool) (signed : gmap string string)
    : gmap string bool * gmap string string :=
  match addresses with
  | [] => (subs, signed)
  | a :: rest =>
      merge_addresses rest signedDatas (<[a := true]> subs)
        (<[a := map_get signedDatas a]> signed)
  end.

Definition Subscribe (addresses : list string) (signedDatas : gmap string string)
    (txTypes : list TxType) (w : world) : option error * world :=
  if (llen addresses =? 0)%Z || (maxAddresses <? llen addresses)%Z then
    (Some (errors_New "invalid addresses count"), w)
  else if existsb (bad_address signedDatas) addresses then
    (Some (errors_New "missing address or signature"), w)
  else if existsb (fun t => negb (Type_IsValid t)) txTypes then
    (Some (errors_New "invalid tx type"), w)
  else match session (cl w) with
  | None => (Some ErrNotStarted, w)
  | Some sid =>
      match s_err (get_session w sid) with
      | Some e => (Some e, w)
      | None =>
          let c := cl w in
          let total := count_total addresses (subscribedAddresses c) ∅
                         (mlen (subscribedAddresses c)) in
          if (maxAddresses <? total)%Z then
            (Some (errors_New "too many subscribed addresses"), w)
          else
            let (subs, signed) := merge_addresses addresses signedDatas
                                    (subscribedAddresses c) (subscribedSignedData c) in
            let types := if (0 <? llen txTypes)%Z then txTypes else subscribedTypes c in
            (None, notifySubscriptionLocked
                     (set_cl (fun c => bump (with_subs subs signed types c)) w))
      end
  end.

Definition Unsubscribe (w : world) : option error * world :=
  match session (cl w) with
  | None => (Some ErrNotStarted, w)
  | Some sid =>
      match s_err (get_session w sid) with
      | Some e => (Some e, w)
      | None =>
          if (mlen (subscribedAddresses (cl w)) =? 0)%Z then
            (Some (errors_New "client has not yet subscribed"), w)
          else (None, notifySubscriptionLocked
                        (set_cl (fun c => bump (with_subs ∅ ∅ [] c)) w))
      end
  end.

(** ** Options *)
Definition WithMode (m : Mode) (w : world) : world :=
  notifySubscriptionLocked (set_cl (fun c => bump (with_mode m c)) w).

Definition WithLogger (l : option nat) (w : world) : world :=
  match l with None => w | Some _ => set_cl (with_lgr l) w end.

Definition SetListenCallback (fn : option callback) (w : world) : world :=
  set_cl (fun c => with_callbacks (retrieveCallbacks c)
    (match fn with Some f => [] ++ [f] | None => [] end) (errorCallbacks c) c) w.

Definition AddListenCallback (fn : option callback) (w : world) : world :=
  match fn with
  | None => w
  | Some f => set_cl (fun c => with_callbacks (retrieveCallbacks c)
                (listenCallbacks c ++ [f]) (errorCallbacks c) c) w
  end.

Definition AddRetrieveCallback (fn : option callback) (w : world) : world :=
  match fn with
  | None => w
  | Some f => set_cl (fun c => with_callbacks (retrieveCallbacks c ++ [f])
                (listenCallbacks c) (errorCallbacks c) c) w
  end.

Definition AddErrorCallback (fn : option callback) (w : world) : world :=
  match fn with
  | None => w
  | Some f => set_cl (fun c => with_callbacks (retrieveCallbacks c)
                (listenCallbacks c) (errorCallbacks c ++ [f]) c) w
  end.

(** The state [newClient] builds; maps and slices are empty, no session. *)
Definition new_client (instanceID : string) : client :=
  mk_client instanceID "" None (Some 0) Subscription [] [] [] None ∅ ∅ [] 0.

Definition new_world (instanceID : string) (ctx : option error) : world :=
  mk_world (new_client instanceID) ctx ∅.
