(* ===== verification/Subscriptions.v ===== *)
(** * The subscription state: Subscribe, Unsubscribe and their contract

    The abstract state is one map from addresses to signatures and a type
    filter; [subscribedAddresses] and [subscribedSignedData] implement it with
    two maps that must agree. *)
From S2P Require Import Prelude GoText Errors Types Client.

(** ** Abstract specification *)
Module Spec.

Record desired := mk_desired { signed : gmap string string; filter : list TxType }.

Definition empty : desired := mk_desired ∅ [].

(** The signatures a call of [Subscribe] supplies. *)
Definition supplied (addresses : list string) (signedDatas : gmap string string)
    : gmap string string :=
  list_to_map ((fun a => (a, map_get signedDatas a)) <$> addresses).

Definition acceptable (addresses : list string) (signedDatas : gmap string string)
    (txTypes : list TxType) : Prop :=
  (1 <= llen addresses <= 251)%Z /\
  (forall a, a ∈ addresses -> a <> "" /\ (slen a <= 2048)%Z /\ map_get signedDatas a <> "") /\
  (forall t, t ∈ txTypes -> t ∈ TypesSlice).

(** The merged subscription, when the call is acceptable and at most 251
    distinct addresses result. *)
Definition merged addresses signedDatas (txTypes : list TxType) (d : desired) : desired :=
  mk_desired (supplied addresses signedDatas ∪ signed d)
    (match txTypes with [] => filter d | _ => txTypes end).

Definition subscribes addresses signedDatas txTypes (d d' : desired) : Prop :=
  acceptable addresses signedDatas txTypes /\
  d' = merged addresses signedDatas txTypes d /\ (mlen (signed d') <= 251)%Z.

End Spec.

Definition desired_of (c : client) : Spec.desired :=
  Spec.mk_desired (subscribedSignedData c) (subscribedTypes c).

(** ** Well-formed subscription state *)
Record wf_subs (c : client) : Prop := {
  wf_dom : dom (subscribedAddresses c) = dom (subscribedSignedData c);
  wf_true : forall a b, subscribedAddresses c !! a = Some b -> b = true;
  wf_size : (mlen (subscribedAddresses c) <= 251)%Z;
  wf_addr : forall a, a ∈ dom (subscribedAddresses c) -> a <> "" /\ (slen a <= 2048)%Z;
  wf_sig : forall a s, subscribedSignedData c !! a = Some s -> s <> "";
  wf_types : forall t, t ∈ subscribedTypes c -> t ∈ TypesSlice;
  wf_rev : (0 <= subscriptionRevision c < 2 ^ 64)%Z;
}.

(** ** Lemmas on the loops *)
Lemma supplied_nil sd : Spec.supplied [] sd = ∅.
Proof. done. Qed.

Lemma supplied_cons x addrs sd :
  Spec.supplied (x :: addrs) sd = <[x := map_get sd x]> (Spec.supplied addrs sd).
Proof. done. Qed.

Lemma supplied_lookup addrs sd a :
  Spec.supplied addrs sd !! a = if decide (a ∈ addrs) then Some (map_get sd a) else None.
Proof.
  induction addrs as [|x addrs IH]; [done|]. rewrite supplied_cons.
  destruct (decide (x = a)) as [->|Hne].
  - rewrite lookup_insert_eq. rewrite decide_True; [done|by left].
  - rewrite lookup_insert_ne, IH by done. repeat case_decide; set_solver.
Qed.

Lemma dom_supplied addrs sd : dom (Spec.supplied addrs sd) = list_to_set addrs.
Proof.
  apply set_eq. intros a. rewrite elem_of_dom, supplied_lookup, elem_of_list_to_set.
  case_decide; split; done || by intros [? [=]].
Qed.

Lemma merge_addresses_subs addrs sd subs signed a :
  fst (merge_addresses addrs sd subs signed) !! a
  = if decide (a ∈ addrs) then Some true else subs !! a.
Proof.
  revert subs signed. induction addrs as [|x addrs IH]; intros subs signed; simpl; [done|].
  rewrite IH. destruct (decide (a = x)) as [->|Hne].
  - rewrite lookup_insert_eq. repeat case_decide; set_solver.
  - rewrite lookup_insert_ne by done. repeat case_decide; set_solver.
Qed.

Lemma merge_addresses_signed addrs sd subs signed :
  snd (merge_addresses addrs sd subs signed) = Spec.supplied addrs sd ∪ signed.
Proof.
  apply map_eq. intros a. rewrite lookup_union, supplied_lookup.
  revert subs signed. induction addrs as [|x addrs IH]; intros subs signed; simpl.
  { by rewrite (left_id_L None (∪)). }
  rewrite IH. destruct (decide (a = x)) as [->|Hne].
  - rewrite lookup_insert_eq, (decide_True (P := x ∈ x :: addrs)) by left.
    by case_decide; destruct (signed !! x).
  - rewrite lookup_insert_ne by done. repeat case_decide; set_solver.
Qed.

Lemma merge_addresses_dom addrs sd subs signed :
  dom (fst (merge_addresses addrs sd subs signed)) = list_to_set addrs ∪ dom subs.
Proof.
  apply set_eq. intros a.
  rewrite elem_of_dom, merge_addresses_subs, elem_of_union, elem_of_list_to_set, elem_of_dom.
  case_decide; naive_solver.
Qed.

Lemma map_get_bool_dom m a :
  (forall x b, m !! x = Some b -> b = true) -> map_get_bool m a = bool_decide (a ∈ dom m).
Proof.
  intros Ht. unfold map_get_bool. destruct (m !! a) as [b|] eqn:E; simpl.
  - rewrite (Ht _ _ E). symmetry. apply bool_decide_eq_true. by apply elem_of_dom.
  - symmetry. apply bool_decide_eq_false. by apply not_elem_of_dom.
Qed.

(** The counting loop adds the number of distinct new addresses. *)
Lemma count_total_spec addrs subs seen total :
  (forall x b, subs !! x = Some b -> b = true) ->
  (forall x b, seen !! x = Some b -> b = true) ->
  count_total addrs subs seen total
  = (total + Z.of_nat (size (list_to_set addrs ∖ (dom subs ∪ dom seen) : gset string)))%Z.
Proof.
  intros Hs. revert seen total. induction addrs as [|x addrs IH]; intros seen total He; simpl.
  { assert ((∅ : gset string) ∖ (dom subs ∪ dom seen) = ∅) as -> by set_solver.
    rewrite size_empty. lia. }
  rewrite !map_get_bool_dom by done.
  destruct (bool_decide_reflect (x ∈ dom subs)) as [Hx|Hx]; simpl.
  { rewrite IH by done. do 3 f_equal. set_solver. }
  destruct (bool_decide_reflect (x ∈ dom seen)) as [Hy|Hy]; simpl.
  { rewrite IH by done. do 3 f_equal. set_solver. }
  rewrite IH.
  2:{ intros y b. destruct (decide (y = x)) as [->|]; [rewrite lookup_insert_eq; congruence|].
      rewrite lookup_insert_ne by done. apply He. }
  rewrite dom_insert_L.
  assert (({[x]} ∪ list_to_set addrs) ∖ (dom subs ∪ dom seen)
          = {[x]} ∪ list_to_set addrs ∖ (dom subs ∪ ({[x]} ∪ dom seen))) as -> by
    (apply set_eq; intros y; destruct (decide (y = x)); set_solver).
  rewrite (size_union {[x]}) by set_solver. rewrite size_singleton. lia.
Qed.

(** ** The counting loop computes the size of the merged map *)
Lemma total_is_merged_size c addrs sd types :
  wf_subs c ->
  count_total addrs (subscribedAddresses c) ∅ (mlen (subscribedAddresses c))
  = mlen (Spec.signed (Spec.merged addrs sd types (desired_of c))).
Proof.
  intros Hwf. rewrite count_total_spec by (done || apply (wf_true _ Hwf)). simpl.
  unfold mlen. rewrite <- !size_dom, dom_union_L, dom_supplied, dom_empty_L, (right_id_L ∅ (∪)).
  rewrite <- (wf_dom _ Hwf), size_union_r. lia.
Qed.

Lemma acceptable_iff addrs sd types :
  Spec.acceptable addrs sd types <->
  ((llen addrs =? 0)%Z || (maxAddresses <? llen addrs)%Z) = false /\
  existsb (bad_address sd) addrs = false /\
  existsb (fun t => negb (Type_IsValid t)) types = false.
Proof.
  assert (forall a, bad_address sd a = false <->
    a <> "" /\ (slen a <= 2048)%Z /\ map_get sd a <> "") as Hbad.
  { intros a. unfold bad_address. rewrite !orb_false_iff, !String.eqb_neq, Z.ltb_ge. tauto. }
  assert (forall {A} (f : A -> bool) l, existsb f l = false <-> forall x, x ∈ l -> f x = false)
    as Hex.
  { intros A f l. rewrite <- not_true_iff_false, existsb_exists.
    setoid_rewrite <- not_true_iff_false. setoid_rewrite list_elem_of_In. naive_solver. }
  unfold Spec.acceptable. rewrite !Hex. setoid_rewrite Hbad.
  setoid_rewrite negb_false_iff. setoid_rewrite Type_IsValid_slice.
  pose proof (llen_nonneg addrs). unfold maxAddresses.
  rewrite orb_false_iff, Z.eqb_neq, Z.ltb_ge. intuition lia.
Qed.

#[export] Instance acceptable_dec addrs sd types : Decision (Spec.acceptable addrs sd types).
Proof.
  destruct (decide (
    ((llen addrs =? 0)%Z || (maxAddresses <? llen addrs)%Z) = false /\
    existsb (bad_address sd) addrs = false /\
    existsb (fun t => negb (Type_IsValid t)) types = false)) as [H|H];
    rewrite <- acceptable_iff in H; [by left|by right].
Defined.

(** ** What the operations leave alone *)
Lemma session_notify w : session (cl (notifySubscriptionLocked w)) = session (cl w).
Proof. unfold notifySubscriptionLocked. by case_match. Qed.

Lemma cl_notify w : cl (notifySubscriptionLocked w) = cl w.
Proof. unfold notifySubscriptionLocked. by case_match. Qed.

Lemma Subscribe_Err addrs sd types w e w' :
  Subscribe addrs sd types w = (Some e, w') -> w' = w.
Proof. unfold Subscribe. repeat case_match; naive_solver. Qed.

Lemma Unsubscribe_Err w e w' : Unsubscribe w = (Some e, w') -> w' = w.
Proof. unfold Unsubscribe. repeat case_match; naive_solver. Qed.

(** The successful branch in full. *)
Lemma Subscribe_Ok addrs sd types w w' :
  Subscribe addrs sd types w = (None, w') ->
  exists sid, session (cl w) = Some sid /\ s_err (get_session w sid) = None /\
    Spec.acceptable addrs sd types /\
    (count_total addrs (subscribedAddresses (cl w)) ∅
       (mlen (subscribedAddresses (cl w))) <= maxAddresses)%Z /\
    w' = notifySubscriptionLocked (set_cl (fun c => bump (with_subs
           (fst (merge_addresses addrs sd (subscribedAddresses c) (subscribedSignedData c)))
           (Spec.signed (Spec.merged addrs sd types (desired_of c)))
           (Spec.filter (Spec.merged addrs sd types (desired_of c))) c)) w).
Proof.
  unfold Subscribe. setoid_rewrite acceptable_iff.
  destruct (_ || _) eqn:E1; [done|]. destruct (existsb (bad_address sd) addrs) eqn:E2; [done|].
  destruct (existsb _ types) eqn:E3; [done|].
  destruct (session (cl w)) as [sid|] eqn:Es; [|done].
  destruct (s_err (get_session w sid)) eqn:Ee; [done|].
  destruct (Z.ltb_spec maxAddresses (count_total addrs (subscribedAddresses (cl w)) ∅
    (mlen (subscribedAddresses (cl w))))) as [|Hle]; [done|].
  pose proof (merge_addresses_signed addrs sd (subscribedAddresses (cl w))
    (subscribedSignedData (cl w))) as Hsig.
  destruct (merge_addresses _ _ _ _) as [subs signed] eqn:Em. simpl in Hsig. subst signed.
  intros [= <-]. exists sid. split_and!; try done. unfold set_cl. rewrite Em.
  destruct types; reflexivity.
Qed.

(** ** Preservation of well-formedness *)
Lemma wf_new instanceID : wf_subs (new_client instanceID).
Proof.
  split; simpl; try done; try (by intros ? ? ?%lookup_empty_Some).
  intros t Ht. by apply elem_of_nil in Ht.
Qed.

Lemma wf_bump_subs c a d t :
  dom a = dom d -> (forall x b, a !! x = Some b -> b = true) -> (mlen a <= 251)%Z ->
  (forall x, x ∈ dom a -> x <> "" /\ (slen x <= 2048)%Z) ->
  (forall x s, d !! x = Some s -> s <> "") -> (forall x, x ∈ t -> x ∈ TypesSlice) ->
  wf_subs (bump (with_subs a d t c)).
Proof. intros. split; simpl; try done. apply wrap64_range. Qed.

Lemma wf_cleared c : wf_subs (bump (with_subs ∅ ∅ [] c)).
Proof.
  apply wf_bump_subs; try done; try (by intros ? ? ?%lookup_empty_Some).
  intros t Ht. by apply elem_of_nil in Ht.
Qed.

Lemma wf_same c c' :
  subscribedAddresses c' = subscribedAddresses c ->
  subscribedSignedData c' = subscribedSignedData c ->
  subscribedTypes c' = subscribedTypes c ->
  (0 <= subscriptionRevision c' < 2 ^ 64)%Z -> wf_subs c -> wf_subs c'.
Proof. intros Ha Hd Ht Hr [????? ? ?]. split; rewrite ?Ha, ?Hd, ?Ht; done. Qed.

Lemma wf_Subscribe addrs sd types w :
  wf_subs (cl w) -> wf_subs (cl (snd (Subscribe addrs sd types w))).
Proof.
  intros Hwf. destruct (Subscribe addrs sd types w) as [[e|] w'] eqn:E; simpl.
  { by rewrite (Subscribe_Err _ _ _ _ _ _ E). }
  apply Subscribe_Ok in E as (sid & _ & _ & (Hlen & Hacc & Hty) & Htot & ->).
  rewrite cl_notify. simpl. apply wf_bump_subs.
  - rewrite merge_addresses_dom, dom_union_L, dom_supplied. by rewrite (wf_dom _ Hwf).
  - intros x b. rewrite merge_addresses_subs. case_decide; [by intros [= <-]|].
    apply (wf_true _ Hwf).
  - rewrite (total_is_merged_size _ _ sd types Hwf) in Htot.
    unfold mlen in *. rewrite <- size_dom, merge_addresses_dom, (wf_dom _ Hwf).
    rewrite <- size_dom in Htot. simpl in Htot. by rewrite dom_union_L, dom_supplied in Htot.
  - intros x. rewrite merge_addresses_dom, elem_of_union, elem_of_list_to_set.
    intros [Hx|Hx]; [|by apply (wf_addr _ Hwf)]. naive_solver.
  - intros x s Hx. apply lookup_union_Some_raw in Hx as [Hx|[_ Hx]].
    + rewrite supplied_lookup in Hx. case_decide; [|done]. naive_solver.
    + by eapply (wf_sig _ Hwf).
  - simpl. destruct types; [apply (wf_types _ Hwf)|done].
Qed.

Lemma wf_Unsubscribe w : wf_subs (cl w) -> wf_subs (cl (snd (Unsubscribe w))).
Proof.
  intros Hwf. unfold Unsubscribe. repeat case_match; simpl; try done.
  rewrite cl_notify. apply wf_cleared.
Qed.

Lemma wf_WithMode m w : wf_subs (cl w) -> wf_subs (cl (WithMode m w)).
Proof.
  intros Hwf. unfold WithMode. rewrite cl_notify. simpl.
  eapply wf_same; [..|exact Hwf]; try done. apply wrap64_range.
Qed.

Lemma wf_Start w : wf_subs (cl w) -> wf_subs (cl (snd (Start w))).
Proof.
  intros Hwf. unfold Start. repeat case_match; simpl; try done;
    (eapply wf_same; [..|exact Hwf]; try done; apply (wf_rev _ Hwf)).
Qed.

Lemma wf_Stop_end w : wf_subs (cl (Stop_end w)).
Proof. apply wf_cleared. Qed.

#[export] Hint Resolve wf_new wf_Subscribe wf_Unsubscribe wf_WithMode wf_Start wf_Stop_end : tcabci.

(** ** Properties *)

(** The client holds session [sid], allocated and not cancelled. *)
Definition live (w : world) (sid : nat) : Prop :=
  session (cl w) = Some sid /\
  exists s, sessions w !! sid = Some s /\ s_err s = None.

Lemma live_get_session w sid : live w sid -> s_err (get_session w sid) = None.
Proof. intros [_ (s & Hs & He)]. unfold get_session. by rewrite Hs. Qed.

Lemma live_token w sid :
  live w sid -> s_subscriptions (get_session (notifySubscriptionLocked w) sid) = true.
Proof.
  intros [Hc (s & Hs & _)]. unfold notifySubscriptionLocked. rewrite Hc.
  unfold get_session, upd_session. simpl. by rewrite lookup_alter_eq, Hs.
Qed.

Lemma live_set_cl w sid f :
  session (f (cl w)) = session (cl w) -> live w sid -> live (set_cl f w) sid.
Proof. intros Hf [Hc Hs]. split; [by simpl; rewrite Hf|done]. Qed.

(** C2: on a live session [Subscribe] implements its specification: a request
    the specification accepts (well-formed, at most 251 distinct addresses in
    all) installs exactly the merged subscription, in both maps, bumps the
    revision and leaves a token for the connection; any other request fails
    and changes nothing. *)
Theorem Subscribe_refines_spec w sid addrs sd types
    (Hwf : wf_subs (cl w)) (Hlive : live w sid) :
  (forall d', Spec.subscribes addrs sd types (desired_of (cl w)) d' ->
     exists w', Subscribe addrs sd types w = (None, w') /\
       desired_of (cl w') = d' /\
       dom (subscribedAddresses (cl w')) = dom (Spec.signed d') /\
       subscriptionRevision (cl w') = wrap64 (subscriptionRevision (cl w) + 1) /\
       s_subscriptions (get_session w' sid) = true) /\
  ((~ exists d', Spec.subscribes addrs sd types (desired_of (cl w)) d') ->
     exists e, Subscribe addrs sd types w = (Some e, w)).
Proof.
  pose proof (live_get_session _ _ Hlive) as Hget.
  destruct (Subscribe addrs sd types w) as [[e|] w'] eqn:E.
  - pose proof (Subscribe_Err _ _ _ _ _ _ E) as ->. split; [|by eauto].
    intros d' (Hacc & -> & Hsize). exfalso. revert E. unfold Subscribe.
    apply acceptable_iff in Hacc as (-> & -> & ->).
    rewrite (proj1 Hlive), Hget, (total_is_merged_size _ _ sd types Hwf).
    apply Z.ltb_ge in Hsize. unfold maxAddresses. rewrite Hsize.
    by destruct (merge_addresses _ _ _ _).
  - apply Subscribe_Ok in E as (sid' & Hs & _ & Hacc & Htot & ->).
    rewrite (total_is_merged_size _ _ sd types Hwf) in Htot. split.
    + intros d' (_ & -> & _). eexists. split; [done|]. rewrite cl_notify. simpl. split_and!.
      * done.
      * by rewrite merge_addresses_dom, dom_union_L, dom_supplied, (wf_dom _ Hwf).
      * done.
      * apply live_token, live_set_cl; done.
    + intros Hno. exfalso. apply Hno. eexists. by split_and!.
Qed.

(** A world with one live session. *)
Definition demo_world : world := snd (Start (new_world "id" None)).

Lemma Subscribe_refines_spec_witness :
  (wf_subs (cl demo_world) /\ live demo_world 0) /\
  exists w', Subscribe ["alice"; "bob"; "alice"] {["alice" := "s1"; "bob" := "s2"]}
               [TypeMessage] demo_world = (None, w') /\
    desired_of (cl w') = Spec.mk_desired {["alice" := "s1"; "bob" := "s2"]} [TypeMessage] /\
    dom (subscribedAddresses (cl w')) = {["alice"; "bob"]}.
Proof.
  assert (wf_subs (cl demo_world)) as Hwf by (apply wf_Start, wf_new).
  assert (live demo_world 0) as Hl by (split; [|eexists; split]; reflexivity).
  split; [done|].
  destruct (Subscribe_refines_spec demo_world 0 ["alice"; "bob"; "alice"]
    {["alice" := "s1"; "bob" := "s2"]} [TypeMessage] Hwf Hl) as [H _].
  destruct (H (Spec.mk_desired {["alice" := "s1"; "bob" := "s2"]} [TypeMessage]))
    as (w' & ? & ? & Hdom & _).
  - split; [apply acceptable_iff; split_and!; vm_compute; reflexivity|].
    split; [vm_compute; reflexivity|vm_compute; discriminate].
  - exists w'. split_and!; [done..|]. rewrite Hdom. reflexivity.
Defined.

(** An unsuccessful [Subscribe] names the first check that fails, in the
    order of the code, and leaves the client untouched. *)
Theorem Subscribe_errors w addrs sd types e w'
    (H : Subscribe addrs sd types w = (Some e, w')) :
  w' = w /\
  ((e = errors_New "invalid addresses count" /\ ~ (1 <= llen addrs <= 251)%Z) \/
   ((1 <= llen addrs <= 251)%Z /\
    ((e = errors_New "missing address or signature" /\
        exists a, a ∈ addrs /\ (a = "" \/ (2048 < slen a)%Z \/ map_get sd a = "")) \/
     (e = errors_New "invalid tx type" /\ exists t, t ∈ types /\ t ∉ TypesSlice) \/
     (Spec.acceptable addrs sd types /\
      (session (cl w) = None /\ e = ErrNotStarted \/
       exists sid, session (cl w) = Some sid /\
         (s_err (get_session w sid) = Some e \/
          e = errors_New "too many subscribed addresses")))))).
Proof.
  split; [by eapply Subscribe_Err|]. revert H. unfold Subscribe.
  pose proof (llen_nonneg addrs) as Hpos. unfold maxAddresses at 1.
  destruct ((llen addrs =? 0)%Z || (251 <? llen addrs)%Z) eqn:E1.
  { intros [= <-]. left. split; [done|].
    apply orb_true_iff in E1 as [?%Z.eqb_eq|?%Z.ltb_lt]; lia. }
  assert (1 <= llen addrs <= 251)%Z as Hlen.
  { apply orb_false_iff in E1 as [?%Z.eqb_neq ?%Z.ltb_ge]. lia. }
  destruct (existsb (bad_address sd) addrs) eqn:E2.
  { intros [= <-]. right. split; [done|]. left. split; [done|].
    apply existsb_exists in E2 as (a & Ha%list_elem_of_In & Hbad). exists a. split; [done|].
    unfold bad_address in Hbad.
    rewrite !orb_true_iff, !String.eqb_eq, Z.ltb_lt in Hbad. tauto. }
  destruct (existsb _ types) eqn:E3.
  { intros [= <-]. right. split; [done|]. right. left. split; [done|].
    apply existsb_exists in E3 as (t & Ht%list_elem_of_In & Hbad). exists t. split; [done|].
    intros Hin%Type_IsValid_slice. by rewrite Hin in Hbad. }
  assert (Spec.acceptable addrs sd types) as Hacc by (by apply acceptable_iff).
  intros H. right. split; [done|]. right. right. split; [done|].
  destruct (session (cl w)) as [sid|] eqn:Es; [right|left; naive_solver].
  exists sid. split; [done|]. destruct (s_err (get_session w sid)); [left; congruence|right].
  case_match; [congruence|]. by destruct (merge_addresses _ _ _ _).
Qed.

Lemma Subscribe_errors_witness :
  Subscribe ["alice"; "bob"] {["alice" := "s1"]} [] demo_world
    = (Some (errors_New "missing address or signature"), demo_world) /\
  exists a, a ∈ ["alice"; "bob"] /\
    (a = "" \/ (2048 < slen a)%Z \/ map_get {["alice" := "s1"]} a = "").
Proof.
  assert (Subscribe ["alice"; "bob"] {["alice" := "s1"]} [] demo_world
    = (Some (errors_New "missing address or signature"), demo_world)) as E by reflexivity.
  split; [exact E|].
  destruct (Subscribe_errors _ _ _ _ _ _ E)
    as [_ [[H _]|[_ [[_ H]|[[H _]|[_ [[_ H]|[s [Hs [H|H]]]]]]]]]].
  - discriminate.
  - exact H.
  - discriminate.
  - discriminate.
  - vm_compute in Hs. injection Hs as <-. vm_compute in H. discriminate.
  - discriminate.
Defined.

(** [Unsubscribe] drops the whole subscription and its type filter when
    there is one on a live session, and otherwise fails without an effect. *)
Theorem Unsubscribe_correct w sid (Hwf : wf_subs (cl w)) (Hlive : live w sid) :
  if decide (subscribedSignedData (cl w) = ∅) then
    Unsubscribe w = (Some (errors_New "client has not yet subscribed"), w)
  else exists w', Unsubscribe w = (None, w') /\
    desired_of (cl w') = Spec.empty /\ subscribedAddresses (cl w') = ∅ /\
    subscriptionRevision (cl w') <> subscriptionRevision (cl w) /\
    s_subscriptions (get_session w' sid) = true.
Proof.
  unfold Unsubscribe. rewrite (proj1 Hlive), (live_get_session _ _ Hlive).
  assert (mlen (subscribedAddresses (cl w)) = 0%Z <-> subscribedSignedData (cl w) = ∅) as Hiff.
  { unfold mlen. rewrite <- size_dom, (wf_dom _ Hwf), size_dom. apply mlen_zero. }
  case_decide as Hd.
  - apply Hiff, Z.eqb_eq in Hd as ->. done.
  - rewrite <- Hiff, <- Z.eqb_neq in Hd. rewrite Hd. eexists. split; [done|].
    rewrite cl_notify. split_and!; [done..| |].
    + simpl. intros Heq. pose proof (wf_rev _ Hwf). apply (wrap64_succ_ne (subscriptionRevision (cl w))).
      by rewrite Heq, wrap64_small.
    + apply live_token, live_set_cl; done.
Qed.

Lemma Unsubscribe_correct_witness :
  let w := snd (Subscribe ["alice"] {["alice" := "s1"]} [] demo_world) in
  subscribedSignedData (cl w) = {["alice" := "s1"]} /\
  exists w', Unsubscribe w = (None, w') /\ desired_of (cl w') = Spec.empty.
Proof.
  split; [reflexivity|].
  assert (wf_subs (cl (snd (Subscribe ["alice"] {["alice" := "s1"]} [] demo_world)))) as Hwf
    by (apply wf_Subscribe, wf_Start, wf_new).
  pose proof (Unsubscribe_correct _ 0 Hwf) as H.
  destruct H as (w' & ? & ? & _).
  - split; [|eexists; split]; reflexivity.
  - exists w'. split; done.
Defined.
