(* ===== verification/Authority.v ===== *)
(** * authority.go: the v3 WebSocket authority header

    [CreateWSAuthorityV3] with everything it reads from outside - the context,
    the system's randomness, the clock and the caller's signer - as an explicit
    environment. *)
From S2P Require Import Prelude GoText Errors Types Client Subscriptions.

(** One call's environment. *)
Record authority_env := mk_env {
  ctx_nil : bool;                 (* ctx == nil *)
  ctx_before : option error;      (* ctx.Err() at the start *)
  rand_nonce : option bytes;      (* rand.Read: the 32 bytes, or an error *)
  unix_nano : Z;                  (* time.Now().UnixNano() *)
  ctx_after : option error;       (* ctx.Err() after the signer returned *)
}.

Definition bad_authority_address (address : string) : bool :=
  String.eqb address "" || (2048 <? slen address)%Z
  || ContainsAny address (String ";" (String "013" (String "010" EmptyString))).

Definition newline : string := String "010" EmptyString.

(** The domain-separated text the signer signs. *)
Definition authority_payload (address stamp nonceHex : string) : string :=
  "read-node/ws-authority/v3" +:+ newline +:+ address +:+ newline +:+ stamp
  +:+ newline +:+ nonceHex.

(** The header that carries the signature. *)
Definition authority_header (address stamp nonceHex : string) (signature : bytes) : string :=
  address +:+ ";v3;" +:+ stamp +:+ ";" +:+ nonceHex +:+ ";" +:+ Hex.EncodeToString signature.

Definition CreateWSAuthorityV3 (env : authority_env) (address : string)
    (sign : option WSAuthoritySigner) : result error string :=
  match sign with
  | None => Err (errors_New "invalid websocket authority configuration")
  | Some sgn =>
      if ctx_nil env || bad_authority_address address then
        Err (errors_New "invalid websocket authority configuration")
      else match ctx_before env with
      | Some _ => Err (errors_New "websocket authority canceled")
      | None =>
          match rand_nonce env with
          | None => Err (errors_New "websocket authority randomness failed")
          | Some nonce =>
              let stamp := FormatInt (unix_nano env) in
              let nonceHex := Hex.EncodeToString nonce in
              match sgn (to_bytes (authority_payload address stamp nonceHex)) with
              | Err _ => Err (errors_New "websocket authority signing failed")
              | Ok signature =>
                  match ctx_after env with
                  | Some _ => Err (errors_New "websocket authority canceled")
                  | None =>
                      if (llen signature =? 0)%Z || (8192 <? llen signature)%Z then
                        Err (errors_New "invalid websocket authority signature")
                      else Ok (authority_header address stamp nonceHex signature)
                  end
              end
          end
      end
  end.

(** [WithWSAuthority]; the client is returned in either case. *)
Definition WithWSAuthority (address : string) (sign : option WSAuthoritySigner) (w : world)
    : option error * world :=
  match sign with
  | Some _ =>
      if bad_authority_address address
      then (Some (errors_New "invalid websocket authority configuration"), w)
      else (None, set_cl (with_authority address sign) w)
  | None => (None, set_cl (with_authority "" None) w)
  end.

(** ** Lemmas: which characters occur where *)
Definition no_char (c : ascii) (s : string) : Prop := all_chars (fun d => d <> c) s.

Lemma no_char_app c s t : no_char c (s +:+ t) <-> no_char c s /\ no_char c t.
Proof. apply all_chars_app. Qed.

Lemma good_address a :
  bad_authority_address a = false <->
  a <> "" /\ (slen a <= 2048)%Z /\ no_char ";" a /\ no_char "013" a /\ no_char "010" a.
Proof.
  unfold bad_authority_address. rewrite !orb_false_iff, String.eqb_neq, Z.ltb_ge, ContainsAny_false.
  unfold no_char, all_chars. rewrite !Forall_forall. cbn. split.
  - intros [[Hne Hlen] H]. split_and!; [done..| | |]; intros c Hc ->; apply (H _ Hc);
      rewrite list_elem_of_In; cbn; tauto.
  - intros (Hne & Hlen & H1 & H2 & H3). split; [done|]. intros c Hc.
    rewrite !elem_of_cons. intros [->|[->|[->|Hin]]]; [by eapply H1|by eapply H2|by eapply H3|].
    by apply elem_of_nil in Hin.
Qed.

Lemma hex_no_char c b : c ∉ chars Hex.hextable -> no_char c (Hex.EncodeToString b).
Proof.
  intros Hc. eapply all_chars_impl, Hex.Encode_lower_hex. intros d Hd ->. by apply Hc.
Qed.

Lemma dec_no_char c z : c ∉ chars "-0123456789" -> no_char c (FormatInt z).
Proof. intros Hc. eapply all_chars_impl, FormatInt_chars. intros d Hd ->. by apply Hc. Qed.

(** Membership of a character in a literal alphabet, by computation. *)
Ltac not_in_alphabet := apply (bool_decide_unpack _); vm_compute; exact I.

Lemma header_fields a stamp nonceHex sig :
  no_char ";" a -> no_char ";" stamp -> no_char ";" nonceHex ->
  Split ";" (authority_header a stamp nonceHex sig)
  = [a; "v3"; stamp; nonceHex; Hex.EncodeToString sig].
Proof.
  intros Ha Hs Hn. unfold authority_header.
  rewrite !append_cons, !append_nil.
  rewrite Split_app by done. simpl.
  rewrite Split_app by done. simpl. rewrite Split_app by done.
  rewrite Split_none; [done|]. apply hex_no_char. not_in_alphabet.
Qed.

Lemma payload_lines a stamp nonceHex :
  no_char "010" a -> no_char "010" stamp -> no_char "010" nonceHex ->
  Split "010" (authority_payload a stamp nonceHex)
  = ["read-node/ws-authority/v3"; a; stamp; nonceHex].
Proof.
  intros Ha Hs Hn. unfold authority_payload, newline.
  rewrite !append_cons, !append_nil. simpl.
  rewrite Split_app by done. simpl. rewrite Split_app by done.
  by rewrite Split_none.
Qed.

(** The successful calls, in full. *)
Lemma authority_success env address sign h :
  CreateWSAuthorityV3 env address sign = Ok h <->
  exists sgn nonce signature,
    sign = Some sgn /\ ctx_nil env = false /\ bad_authority_address address = false /\
    ctx_before env = None /\ rand_nonce env = Some nonce /\ ctx_after env = None /\
    sgn (to_bytes (authority_payload address (FormatInt (unix_nano env))
                     (Hex.EncodeToString nonce))) = Ok signature /\
    (1 <= llen signature <= 8192)%Z /\
    h = authority_header address (FormatInt (unix_nano env)) (Hex.EncodeToString nonce) signature.
Proof.
  unfold CreateWSAuthorityV3. split.
  - destruct sign as [sgn|]; [|done]. destruct (ctx_nil env); [done|]. simpl.
    destruct (bad_authority_address address); [done|].
    destruct (ctx_before env); [done|]. destruct (rand_nonce env) as [nonce|]; [|done].
    destruct (sgn _) as [signature|] eqn:Es; [|done]. destruct (ctx_after env); [done|].
    destruct (_ || _) eqn:El; [done|]. intros [= <-].
    apply orb_false_iff in El as [El1%Z.eqb_neq El2%Z.ltb_ge].
    pose proof (llen_nonneg signature). exists sgn, nonce, signature. split_and!; try done; lia.
  - intros (sgn & nonce & signature & -> & -> & -> & -> & -> & -> & -> & Hlen & ->). simpl.
    destruct (Z.eqb_spec (llen signature) 0); [lia|].
    destruct (Z.ltb_spec 8192 (llen signature)); [lia|done].
Qed.

(** ** Properties *)

(** C34: [CreateWSAuthorityV3] succeeds exactly when there is a live context, a
    signer and a well-formed address, randomness is available, the signer signs
    the payload built from this very address, time stamp and nonce, and returns
    1 to 8192 bytes; every failure carries the message of the first of these
    conditions that does not hold, and never the signer's own error. *)
Theorem CreateWSAuthorityV3_correct env address sign :
  match CreateWSAuthorityV3 env address sign with
  | Ok h => exists sgn nonce signature,
      sign = Some sgn /\ ctx_nil env = false /\ bad_authority_address address = false /\
      ctx_before env = None /\ rand_nonce env = Some nonce /\ ctx_after env = None /\
      sgn (to_bytes (authority_payload address (FormatInt (unix_nano env))
                       (Hex.EncodeToString nonce))) = Ok signature /\
      (1 <= llen signature <= 8192)%Z /\
      h = authority_header address (FormatInt (unix_nano env)) (Hex.EncodeToString nonce) signature
  | Err e =>
      (e = errors_New "invalid websocket authority configuration" /\
         (sign = None \/ ctx_nil env = true \/ bad_authority_address address = true)) \/
      (e = errors_New "websocket authority canceled" /\
         (ctx_before env <> None \/ ctx_after env <> None)) \/
      (e = errors_New "websocket authority randomness failed" /\ rand_nonce env = None) \/
      exists sgn nonce, sign = Some sgn /\ rand_nonce env = Some nonce /\
        (e = errors_New "websocket authority signing failed" /\
           (exists err, sgn (to_bytes (authority_payload address (FormatInt (unix_nano env))
                               (Hex.EncodeToString nonce))) = Err err) \/
         e = errors_New "invalid websocket authority signature" /\
           exists sig, sgn (to_bytes (authority_payload address (FormatInt (unix_nano env))
                              (Hex.EncodeToString nonce))) = Ok sig /\
             (llen sig = 0 \/ 8192 < llen sig)%Z)
  end.
Proof.
  destruct (CreateWSAuthorityV3 env address sign) as [h|e] eqn:E; [by apply authority_success in E|].
  revert E. unfold CreateWSAuthorityV3.
  destruct sign as [sgn|]; [|intros [= <-]; left; auto].
  destruct (ctx_nil env); [intros [= <-]; left; auto|]. simpl.
  destruct (bad_authority_address address); [intros [= <-]; left; auto|].
  destruct (ctx_before env); [intros [= <-]; right; left; auto|].
  destruct (rand_nonce env) as [nonce|]; [|intros [= <-]; right; right; left; auto].
  destruct (sgn _) as [sig|err] eqn:Es.
  2:{ intros [= <-]. right; right; right. exists sgn, nonce. split_and!; [done..|].
      left. split; [done|]. by exists err. }
  destruct (ctx_after env); [intros [= <-]; right; left; auto|].
  destruct (_ || _) eqn:El; [|done]. intros [= <-]. right; right; right.
  exists sgn, nonce. split_and!; [done..|]. right. split; [done|]. exists sig. split; [done|].
  apply orb_true_iff in El as [?%Z.eqb_eq|?%Z.ltb_lt]; [by left|by right].
Qed.

(** C20: the header a successful call returns has exactly five fields between
    semicolons - address, version, time stamp, nonce, signature - that a
    receiver recovers unambiguously; the signature decodes to what the signer
    answered for the payload of those same fields, and no field can break
    the header line. *)
Theorem authority_header_parses env address sgn h
    (H : CreateWSAuthorityV3 env address (Some sgn) = Ok h) :
  exists stamp nonceHex sigHex signature nonce,
    Split ";" h = [address; "v3"; stamp; nonceHex; sigHex] /\
    Hex.DecodeString sigHex = Ok signature /\
    sgn (to_bytes (authority_payload address stamp nonceHex)) = Ok signature /\
    rand_nonce env = Some nonce /\ Hex.DecodeString nonceHex = Ok nonce /\
    stamp = FormatInt (unix_nano env) /\
    no_char "013" h /\ no_char "010" h.
Proof.
  apply authority_success in H
    as (sgn' & nonce & signature & [= <-] & _ & Hbad & _ & Hn & _ & Hs & _ & ->).
  apply good_address in Hbad as (_ & _ & Ha1 & Ha2 & Ha3).
  exists (FormatInt (unix_nano env)), (Hex.EncodeToString nonce),
    (Hex.EncodeToString signature), signature, nonce.
  rewrite !Hex.Decode_Encode. split_and!; try done.
  - apply header_fields; [done|apply dec_no_char|apply hex_no_char]; not_in_alphabet.
  - unfold authority_header. rewrite !no_char_app.
    repeat split; try done; first [apply dec_no_char|apply hex_no_char|idtac];
      try not_in_alphabet; unfold no_char, all_chars; repeat constructor; discriminate.
  - unfold authority_header. rewrite !no_char_app.
    repeat split; try done; first [apply dec_no_char|apply hex_no_char|idtac];
      try not_in_alphabet; unfold no_char, all_chars; repeat constructor; discriminate.
Qed.

(** A signer that answers with the length of what it signs. *)
Definition demo_signer : WSAuthoritySigner := fun b => Ok [zb (llen b)].
Definition demo_env : authority_env := mk_env false None (Some [xab; x01]) 1700 None.

Lemma authority_header_parses_witness :
  CreateWSAuthorityV3 demo_env "addr" (Some demo_signer) = Ok "addr;v3;1700;ab01;28" /\
  no_char "010" "addr;v3;1700;ab01;28".
Proof.
  assert (CreateWSAuthorityV3 demo_env "addr" (Some demo_signer)
          = Ok "addr;v3;1700;ab01;28") as E by (vm_compute; reflexivity).
  split; [exact E|].
  destruct (authority_header_parses demo_env "addr" demo_signer _ E)
    as (? & ? & ? & ? & ? & _ & _ & _ & _ & _ & _ & _ & H). exact H.
Defined.

(** What the signer signs identifies the request: for addresses without
    line feeds, two payloads are equal only if address, time and nonce are,
    and every payload starts with the domain tag's own line. *)
Theorem authority_payload_injective a1 a2 t1 t2 n1 n2
    (H1 : bad_authority_address a1 = false) (H2 : bad_authority_address a2 = false)
    (H : authority_payload a1 (FormatInt t1) (Hex.EncodeToString n1)
         = authority_payload a2 (FormatInt t2) (Hex.EncodeToString n2)) :
  a1 = a2 /\ t1 = t2 /\ n1 = n2.
Proof.
  apply good_address in H1 as (_ & _ & _ & _ & H1), H2 as (_ & _ & _ & _ & H2).
  apply (f_equal (Split "010")) in H.
  rewrite !payload_lines in H by (done || (first [apply dec_no_char|apply hex_no_char];
                                           not_in_alphabet)).
  injection H as Ha Ht Hn. split_and!; [done|by apply FormatInt_inj|by apply Hex.Encode_inj].
Qed.

Lemma authority_payload_injective_witness :
  bad_authority_address "addr" = false /\ "addr" = "addr" /\ 7%Z = 7%Z /\ [x01] = [x01].
Proof.
  split; [reflexivity|].
  exact (authority_payload_injective "addr" "addr" 7 7 [x01] [x01] eq_refl eq_refl eq_refl).
Defined.

(** [WithWSAuthority] installs an address and a signer only together and
    only when the address is acceptable, so that a dial never fails on the
    configuration afterwards; a nil signer always disables the authority. *)
Theorem WithWSAuthority_correct address sign w :
  match WithWSAuthority address sign w with
  | (Some e, w') =>
      w' = w /\ e = errors_New "invalid websocket authority configuration" /\
      sign <> None /\ bad_authority_address address = true
  | (None, w') =>
      authoritySigner (cl w') = sign /\
      authorityAddress (cl w') = (match sign with None => "" | Some _ => address end) /\
      desired_of (cl w') = desired_of (cl w) /\ session (cl w') = session (cl w) /\
      forall sgn env, authoritySigner (cl w') = Some sgn -> ctx_nil env = false ->
        CreateWSAuthorityV3 env (authorityAddress (cl w')) (authoritySigner (cl w'))
        <> Err (errors_New "invalid websocket authority configuration")
  end.
Proof.
  unfold WithWSAuthority. destruct sign as [sgn|]; [|by split_and!].
  destruct (bad_authority_address address) eqn:Eb; [by split_and!|].
  split_and!; try done. intros sgn' env _ Hnil. simpl. rewrite Hnil, Eb. simpl.
  repeat case_match; discriminate.
Qed.
