(* ===== verification/Sync.v ===== *)
(** * websocket.go: syncSubscription and the loop that calls it

    What the client announces on a connection, against the subscription it
    holds. *)
From S2P Require Import Prelude GoText Errors Types Client Subscriptions Authority.

(** ** message.go: [Message] *)
Record WSMessage := mk_WSMessage {
  ClientInstanceID : string;
  IsWeb : bool;
  MsgType : MessageType;
  Addrs : slice string;
  SignedAddrs : option (gmap string string);
  TXTypes : slice TxType;
  MsgData : bytes;
}.

(** [Message{Type: typ, ...}]: the other fields are zero values. *)
Definition zero_message (typ : MessageType) : WSMessage :=
  mk_WSMessage "" false typ None None None [].

(** ** The snapshot, taken under [c.mut.RLock] *)

(** [for address := range c.subscribedAddresses]; [iter] is the order in which
    the runtime happens to visit the keys. *)
Fixpoint add_addresses (iter : list string) (signed : gmap string string)
    (m : WSMessage) : WSMessage :=
  match iter with
  | [] => m
  | a :: rest =>
      add_addresses rest signed
        (mk_WSMessage (ClientInstanceID m) (IsWeb m) (MsgType m)
           (go_append (Addrs m) [a])
           (Some (<[a := map_get signed a]> (default ∅ (SignedAddrs m))))
           (TXTypes m) (MsgData m))
  end.

Definition with_ClientInstanceID (id : string) (m : WSMessage) : WSMessage :=
  mk_WSMessage id (IsWeb m) (MsgType m) (Addrs m) (SignedAddrs m) (TXTypes m) (MsgData m).

Definition with_Addrs (a : slice string) (m : WSMessage) : WSMessage :=
  mk_WSMessage (ClientInstanceID m) (IsWeb m) (MsgType m) a (SignedAddrs m) (TXTypes m) (MsgData m).

Definition with_MsgType (t : MessageType) (m : WSMessage) : WSMessage :=
  mk_WSMessage (ClientInstanceID m) (IsWeb m) t (Addrs m) (SignedAddrs m) (TXTypes m) (MsgData m).

Definition snapshot (iter : list string) (c : client) : WSMessage :=
  let msg := mk_WSMessage "" false MsgSubscribe None (Some ∅)
               (go_append None (subscribedTypes c)) [] in
  let msg := if (mode c =? Subscription)%Z
             then add_addresses iter (subscribedSignedData c)
                    (with_ClientInstanceID (clientInstanceID c) msg)
             else msg in
  let msg := if (mode c =? Listen)%Z
             then with_ClientInstanceID (clientInstanceID c) (with_MsgType ListenMessage msg)
             else msg in
  with_Addrs (sort_Strings <$> Addrs msg) msg.

(** [_, ok := msg.SignedAddrs[address]; !ok]. *)
Definition not_in_message (m : WSMessage) (a : string) : bool :=
  bool_decide (default ∅ (SignedAddrs m) !! a = None).

(** The addresses announced before and no longer wanted. *)
Fixpoint removed_addresses (previous : list string) (m : WSMessage) (acc : slice string)
    : slice string :=
  match previous with
  | [] => acc
  | a :: rest =>
      removed_addresses rest m (if not_in_message m a then go_append acc [a] else acc)
  end.

(** ** syncSubscription

    [write k] is the outcome of writing the [k]-th frame of this call to the
    connection. The result is the frames written, then the Go results. *)
Definition syncSubscription (write : nat -> option error) (iter : list string) (c : client)
    (previous : slice string) (wasListening : bool)
    : list WSMessage * (slice string * bool * Z * option error) :=
  let revision := subscriptionRevision c in
  let listening := (mode c =? Listen)%Z in
  let msg := snapshot iter c in
  let removed := removed_addresses (elems previous) msg None in
  let unsub := with_Addrs removed (zero_message MsgUnsubscribe) in
  let send_unsub := (0 <? llen (elems removed))%Z || (wasListening && negb listening) in
  let send_sub := (0 <? llen (elems (Addrs msg)))%Z || listening in
  let sent1 := if send_unsub then [unsub] else [] in
  match (if send_unsub then write 0 else None) with
  | Some e => ([], (None, wasListening, revision, Some e))
  | None =>
      match (if send_sub then write (length sent1) else None) with
      | Some e => (sent1, (None, wasListening, revision, Some e))
      | None => (sent1 ++ (if send_sub then [msg] else []),
                 (Addrs msg, listening, revision, None))
      end
  end.

(** ** serveConnection: the part of the loop before its select *)
Record serve_state := mk_serve_state {
  previous : slice string;
  wasListening : bool;
  revision : Z;
  first : bool;
}.

Definition serve_init : serve_state := mk_serve_state None false 0 true.

(** The revision is read in one critical section (client state [c1]), the
    subscription in a later one ([c2]). *)
Definition serve_top (write : nat -> option error) (iter : list string) (c1 c2 : client)
    (st : serve_state) : list WSMessage * result error serve_state :=
  let current := subscriptionRevision c1 in
  if first st || negb (revision st =? current)%Z then
    let '(frames, (prev, listening, rev, err)) :=
      syncSubscription write iter c2 (previous st) (wasListening st) in
    match err with
    | Some e => (frames, Err e)
    | None => (frames, Ok (mk_serve_state prev listening rev false))
    end
  else ([], Ok st).

(** ** Specification: the ledger of a connection

    What the frames written so far, read in order, ask for. *)
Module Ledger.

Record ledger := mk_ledger {
  addrs : gmap string string;
  listens : bool;
  types : list TxType;          (* the filter, which the last frame replaces *)
}.

(** A filter belongs to something: without an address, and not listening, there
    is none. *)
Definition settle (a : gmap string string) (l : bool) (t : list TxType) : ledger :=
  mk_ledger a l (if l || negb (bool_decide (a = ∅)) then t else []).

Definition empty : ledger := mk_ledger ∅ false [].

Definition remove_all (l : list string) (m : gmap string string) : gmap string string :=
  foldr delete m l.

Definition apply_frame (v : ledger) (m : WSMessage) : ledger :=
  if String.eqb (MsgType m) MsgUnsubscribe then
    settle (remove_all (elems (Addrs m)) (addrs v)) false (types v)
  else if String.eqb (MsgType m) ListenMessage then settle (addrs v) true (elems (TXTypes m))
  else settle (default ∅ (SignedAddrs m) ∪ addrs v) (listens v) (elems (TXTypes m)).

Definition apply_frames (v : ledger) (ms : list WSMessage) : ledger :=
  foldl apply_frame v ms.

(** What the client wants announced in its current mode: the addresses with
    their signatures, whether it listens to everything, and the type filter. *)
Definition wanted (c : client) : ledger :=
  settle (if (mode c =? Subscription)%Z then subscribedSignedData c else ∅)
    (mode c =? Listen)%Z (subscribedTypes c).

(** The loop's variables describe the ledger. *)
Definition tracks (st : serve_state) (v : ledger) : Prop :=
  dom (addrs v) = list_to_set (elems (previous st)) /\
  listens v = wasListening st /\
  (wasListening st = true -> elems (previous st) = []) /\
  settle (addrs v) (listens v) (types v) = v.

Lemma settle_idemp a l t : settle a l (types (settle a l t)) = settle a l t.
Proof. unfold settle. simpl. by destruct (l || _). Qed.

End Ledger.

(** An order in which [range] may visit the subscribed addresses. *)
Definition iteration_of (c : client) (iter : list string) : Prop :=
  NoDup iter /\ list_to_set iter = dom (subscribedAddresses c).

(** ** Lemmas on the snapshot *)
Lemma go_append_assoc {A} (s : slice A) x l : go_append (go_append s [x]) l = go_append s (x :: l).
Proof. destruct s; simpl; [|done]. by rewrite <- app_assoc. Qed.

Lemma add_addresses_Addrs iter signed m :
  Addrs (add_addresses iter signed m) = go_append (Addrs m) iter.
Proof.
  revert m. induction iter as [|a iter IH]; intros m; simpl.
  { destruct (Addrs m); simpl; by rewrite ?app_nil_r. }
  rewrite IH. apply go_append_assoc.
Qed.

Lemma add_addresses_signed iter signed m m0 :
  SignedAddrs m = Some m0 ->
  SignedAddrs (add_addresses iter signed m) = Some (Spec.supplied iter signed ∪ m0).
Proof.
  revert m m0. induction iter as [|a iter IH]; intros m m0 Hm; simpl.
  { by rewrite Hm, supplied_nil, (left_id_L ∅ (∪)). }
  erewrite IH by done. rewrite Hm. simpl. f_equal. apply map_eq. intros x.
  rewrite !lookup_union, supplied_cons.
  destruct (decide (x = a)) as [->|Hne].
  - rewrite !lookup_insert_eq, supplied_lookup. case_decide; by destruct (m0 !! a).
  - by rewrite !lookup_insert_ne.
Qed.

Lemma add_addresses_rest iter signed m :
  MsgType (add_addresses iter signed m) = MsgType m /\
  TXTypes (add_addresses iter signed m) = TXTypes m /\
  ClientInstanceID (add_addresses iter signed m) = ClientInstanceID m /\
  IsWeb (add_addresses iter signed m) = IsWeb m /\
  MsgData (add_addresses iter signed m) = MsgData m.
Proof.
  revert m. induction iter as [|a iter IH]; intros m; simpl; [done|].
  match goal with |- context [add_addresses iter signed ?m'] => exact (IH m') end.
Qed.

Lemma supplied_all iter (signed : gmap string string) :
  list_to_set iter = dom signed -> Spec.supplied iter signed = signed.
Proof.
  intros Hdom. apply map_eq. intros a. rewrite supplied_lookup.
  assert (a ∈ iter <-> is_Some (signed !! a)) as Hiff.
  { rewrite <- elem_of_dom, <- Hdom. symmetry. apply elem_of_list_to_set. }
  unfold map_get. case_decide as Ha.
  - apply Hiff in Ha as [v ->]. done.
  - destruct (signed !! a) eqn:E; [|done]. exfalso. apply Ha, Hiff. by eexists.
Qed.

(** The snapshot in closed form. *)
Definition snapshot_closed (c : client) : WSMessage :=
  let addrs := if (mode c =? Subscription)%Z
               then sort_Strings (elements (dom (subscribedSignedData c))) else [] in
  mk_WSMessage
    (if ((mode c =? Subscription) || (mode c =? Listen))%Z then clientInstanceID c else "")
    false
    (if (mode c =? Listen)%Z then ListenMessage else MsgSubscribe)
    (match addrs with [] => None | _ => Some addrs end)
    (Some (if (mode c =? Subscription)%Z then subscribedSignedData c else ∅))
    (go_append None (subscribedTypes c)) [].

Lemma iteration_perm c iter :
  wf_subs c -> iteration_of c iter -> iter ≡ₚ elements (dom (subscribedSignedData c)).
Proof.
  intros Hwf [Hnd Hset]. rewrite <- (wf_dom _ Hwf). apply NoDup_Permutation; [done| |].
  - apply NoDup_elements.
  - intros x. rewrite elem_of_elements, <- Hset. by rewrite elem_of_list_to_set.
Qed.

Lemma sort_slice iter l :
  iter ≡ₚ l ->
  sort_Strings <$> go_append None iter
  = match sort_Strings l with [] => None | _ => Some (sort_Strings l) end.
Proof.
  intros Hp. destruct iter as [|a iter]; simpl.
  - by apply Permutation_nil_l in Hp as <-.
  - rewrite <- (sort_Strings_proper _ _ Hp).
    destruct (sort_Strings (a :: iter)) eqn:E; [|done].
    by apply (proj1 (sort_Strings_nil _)) in E.
Qed.

Lemma snapshot_eq iter c :
  wf_subs c -> iteration_of c iter -> snapshot iter c = snapshot_closed c.
Proof.
  intros Hwf Hiter. unfold snapshot, snapshot_closed.
  destruct (Z.eqb_spec (mode c) Subscription) as [Hm|Hm].
  - rewrite Hm. simpl. unfold with_Addrs. simpl.
    set (m0 := with_ClientInstanceID _ _).
    pose proof (add_addresses_rest iter (subscribedSignedData c) m0) as (-> & -> & -> & -> & ->).
    rewrite add_addresses_Addrs, (add_addresses_signed _ _ _ ∅) by done.
    change (Addrs m0) with (@None (list string)).
    rewrite (right_id_L ∅ (∪)), (sort_slice _ _ (iteration_perm _ _ Hwf Hiter)).
    rewrite supplied_all; [done|]. rewrite <- (wf_dom _ Hwf). apply Hiter.
  - destruct (Z.eqb_spec (mode c) Listen); reflexivity.
Qed.

Lemma removed_addresses_elems prev m acc :
  elems (removed_addresses prev m acc) = elems acc ++ List.filter (not_in_message m) prev.
Proof.
  revert acc. induction prev as [|a prev IH]; intros acc; simpl; [by rewrite app_nil_r|].
  rewrite IH. destruct (not_in_message m a); [|done].
  by rewrite elems_go_append, <- app_assoc.
Qed.

(** ** Lemmas on the ledger *)
Lemma remove_all_lookup l (m : gmap string string) a :
  Ledger.remove_all l m !! a = if decide (a ∈ l) then None else m !! a.
Proof.
  unfold Ledger.remove_all. induction l as [|x l IH]; [done|]. simpl.
  destruct (decide (a = x)) as [->|Hne].
  - by rewrite lookup_delete_eq, decide_True by left.
  - rewrite lookup_delete_ne, IH by done. repeat case_decide; set_solver.
Qed.

(** The addresses a snapshot carries. *)
Definition snapshot_addrs (c : client) : gmap string string :=
  if (mode c =? Subscription)%Z then subscribedSignedData c else ∅.

Lemma snapshot_closed_elems c :
  list_to_set (elems (Addrs (snapshot_closed c))) = dom (snapshot_addrs c).
Proof.
  unfold snapshot_closed, snapshot_addrs. simpl.
  destruct (mode c =? Subscription)%Z; [|symmetry; apply dom_empty_L].
  set (l := sort_Strings _). assert (list_to_set l = dom (subscribedSignedData c)) as <-.
  { apply set_eq. intros a. unfold l.
    by rewrite elem_of_list_to_set, elem_of_sort_Strings, elem_of_elements. }
  by destruct l.
Qed.

Lemma snapshot_closed_signed c : SignedAddrs (snapshot_closed c) = Some (snapshot_addrs c).
Proof. done. Qed.

(** What stays announced once the stale addresses are dropped. *)
Lemma kept_lookup (v : Ledger.ledger) prev c a :
  dom (Ledger.addrs v) = list_to_set prev ->
  Ledger.remove_all (List.filter (not_in_message (snapshot_closed c)) prev) (Ledger.addrs v) !! a
  = if decide (a ∈ dom (snapshot_addrs c)) then Ledger.addrs v !! a else None.
Proof.
  intros Hdom. rewrite remove_all_lookup.
  assert (a ∈ List.filter (not_in_message (snapshot_closed c)) prev
          <-> a ∈ prev /\ a ∉ dom (snapshot_addrs c)) as Hin.
  { rewrite !list_elem_of_In, filter_In. unfold not_in_message. rewrite snapshot_closed_signed.
    by rewrite bool_decide_eq_true, not_elem_of_dom. }
  destruct (decide (a ∈ prev)) as [Hp|Hp].
  - repeat case_decide; tauto.
  - assert (Ledger.addrs v !! a = None) as ->.
    { apply not_elem_of_dom. by rewrite Hdom, elem_of_list_to_set. }
    by repeat case_decide.
Qed.

Lemma kept_covered (m k : gmap string string) :
  (forall a, a ∉ dom m -> k !! a = None) -> m ∪ k = m.
Proof.
  intros Hk. apply map_eq. intros a. rewrite lookup_union.
  destruct (m !! a) as [x|] eqn:E; [by destruct (k !! a)|].
  rewrite Hk by (by apply not_elem_of_dom). done.
Qed.

(** The Unsubscribe step, sent or not, leaves the wanted addresses only. *)
Lemma unsub_step (c : client) (st : serve_state) (v : Ledger.ledger) :
  Ledger.tracks st v ->
  let removed := List.filter (not_in_message (snapshot_closed c)) (elems (previous st)) in
  let send := (0 <? llen removed)%Z || (wasListening st && negb (mode c =? Listen)%Z) in
  let v1 := if send then Ledger.settle (Ledger.remove_all removed (Ledger.addrs v)) false
                           (Ledger.types v)
            else v in
  (forall a, a ∉ dom (snapshot_addrs c) -> Ledger.addrs v1 !! a = None) /\
  (mode c <> Listen -> Ledger.listens v1 = false) /\
  Ledger.settle (Ledger.addrs v1) (Ledger.listens v1) (Ledger.types v1) = v1.
Proof.
  intros (Hdom & Hlis & _ & Hset) removed send v1.
  assert (forall a, a ∉ dom (snapshot_addrs c) ->
            Ledger.remove_all removed (Ledger.addrs v) !! a = None) as Hrm.
  { intros a Ha. unfold removed. rewrite kept_lookup by done. by rewrite decide_False. }
  unfold v1. destruct send eqn:Es; [split_and!; [done..|apply Ledger.settle_idemp]|].
  apply orb_false_iff in Es as [E1%Z.ltb_ge E2].
  assert (removed = []) as Hnil by (pose proof (llen_nonneg removed); apply llen_nil; lia).
  rewrite Hnil in Hrm. split_and!; [exact Hrm| |done]. intros Hm%Z.eqb_neq.
  rewrite Hm, andb_true_r in E2. by rewrite Hlis.
Qed.

(** The Subscribe or Listen step, sent or not, installs the wanted ledger. *)
Lemma sub_step (c : client) (v1 : Ledger.ledger) :
  (forall a, a ∉ dom (snapshot_addrs c) -> Ledger.addrs v1 !! a = None) ->
  (mode c <> Listen -> Ledger.listens v1 = false) ->
  Ledger.settle (Ledger.addrs v1) (Ledger.listens v1) (Ledger.types v1) = v1 ->
  let msg := snapshot_closed c in
  let send := (0 <? llen (elems (Addrs msg)))%Z || (mode c =? Listen)%Z in
  Ledger.apply_frames v1 (if send then [msg] else []) = Ledger.wanted c.
Proof.
  intros Hk Hl Hset msg send. unfold Ledger.wanted. fold (snapshot_addrs c).
  assert (elems (TXTypes msg) = subscribedTypes c) as Htypes by apply elems_go_append.
  destruct (Z.eqb_spec (mode c) Listen) as [Hm|Hm].
  - assert (snapshot_addrs c = ∅) as HS by (unfold snapshot_addrs; by rewrite Hm).
    assert (Ledger.addrs v1 = ∅) as HE.
    { apply map_empty. intros a. apply Hk. rewrite HS. set_solver. }
    unfold send. rewrite orb_true_r. simpl. unfold Ledger.apply_frame. rewrite Htypes, HE, HS.
    assert (MsgType msg = ListenMessage) as -> by (unfold msg, snapshot_closed; simpl; by rewrite Hm).
    done.
  - specialize (Hl Hm). unfold send. rewrite orb_false_r.
    destruct (Z.ltb_spec 0 (llen (elems (Addrs msg)))) as [Hpos|Hneg].
    + simpl. unfold Ledger.apply_frame. rewrite Htypes. change (SignedAddrs msg) with (Some (snapshot_addrs c)).
      assert (MsgType msg = MsgSubscribe) as ->.
      { unfold msg, snapshot_closed. simpl. by apply Z.eqb_neq in Hm as ->. }
      simpl. by rewrite (kept_covered _ _ Hk), Hl.
    + assert (elems (Addrs msg) = []) as Hnil
        by (pose proof (llen_nonneg (elems (Addrs msg))); apply llen_nil; lia).
      pose proof (snapshot_closed_elems c) as Hdom. fold msg in Hdom. rewrite Hnil in Hdom.
      symmetry in Hdom. apply dom_empty_inv_L in Hdom. rewrite Hdom in *.
      assert (Ledger.addrs v1 = ∅) as HE by (apply map_empty; intros a; apply Hk; set_solver).
      simpl. by rewrite <- Hset, HE, Hl.
Qed.

(** ** The ledger after a synchronisation *)
Lemma sync_success write iter c st frames prev listening rev v :
  wf_subs c -> iteration_of c iter -> Ledger.tracks st v ->
  syncSubscription write iter c (previous st) (wasListening st)
    = (frames, (prev, listening, rev, None)) ->
  Ledger.apply_frames v frames = Ledger.wanted c /\
  rev = subscriptionRevision c /\
  Ledger.tracks (mk_serve_state prev listening rev false) (Ledger.wanted c).
Proof.
  intros Hwf Hiter Htr. unfold syncSubscription. rewrite (snapshot_eq _ _ Hwf Hiter).
  rewrite removed_addresses_elems. cbn [elems default from_option app].
  pose proof (unsub_step c st v Htr) as Hstep. cbn zeta in Hstep.
  set (removed := List.filter _ _) in *.
  set (send := (0 <? llen removed)%Z || _) in *.
  set (frames1 := if send then [_] else []).
  assert (Ledger.apply_frames v frames1 = if send then
    Ledger.settle (Ledger.remove_all removed (Ledger.addrs v)) false (Ledger.types v)
    else v) as Hf1.
  { unfold frames1. destruct send; [|done]. simpl. unfold Ledger.apply_frame. simpl.
    by rewrite removed_addresses_elems. }
  rewrite <- Hf1 in Hstep. set (v1 := Ledger.apply_frames v frames1) in *.
  destruct Hstep as (Hk & Hl & Hset).
  destruct (if send then write 0 else None); [done|].
  set (msg := snapshot_closed c).
  set (send2 := (0 <? llen (elems (Addrs msg)))%Z || _).
  destruct (if send2 then _ else None); [done|]. intros [= <- <- <- <-].
  assert (Ledger.apply_frames v1 (if send2 then [msg] else []) = Ledger.wanted c) as Hf2.
  { by apply sub_step. }
  split; [|split; [done|]].
  - unfold Ledger.apply_frames in *. by rewrite foldl_app.
  - unfold Ledger.tracks. simpl. split_and!; [|done| |].
    + symmetry. apply snapshot_closed_elems.
    + intros Hm%Z.eqb_eq. rewrite Hm. reflexivity.
    + apply Ledger.settle_idemp.
Qed.

(** ** How the client evolves between two turns of the loop *)

(** One call of a method that takes [c.mut] for writing, or a step that does
    not touch the client. *)
Inductive api : world -> world -> Prop :=
| api_Start w : api w (snd (Start w))
| api_Stop_begin w : api w (snd (Stop_begin w))
| api_Stop_end w : api w (Stop_end w)
| api_Subscribe addrs sd types w : api w (snd (Subscribe addrs sd types w))
| api_Unsubscribe w : api w (snd (Unsubscribe w))
| api_WithMode m w : api w (WithMode m w)
| api_WithLogger l w : api w (WithLogger l w)
| api_SetListenCallback f w : api w (SetListenCallback f w)
| api_AddListenCallback f w : api w (AddListenCallback f w)
| api_AddRetrieveCallback f w : api w (AddRetrieveCallback f w)
| api_AddErrorCallback f w : api w (AddErrorCallback f w)
| api_WithWSAuthority a sign w : api w (snd (WithWSAuthority a sign w))
| api_cancel_parent e w : api w (cancel_parent e w)
| api_session w sid f : api w (upd_session sid f w).

(** Nothing a snapshot reads has changed. *)
Definition same_subs (c c' : client) : Prop :=
  subscriptionRevision c' = subscriptionRevision c /\ Ledger.wanted c' = Ledger.wanted c.

Lemma api_evolves w w' :
  api w w' ->
  same_subs (cl w) (cl w') \/
  subscriptionRevision (cl w') = wrap64 (subscriptionRevision (cl w) + 1).
Proof.
  destruct 1; simpl; try by left.
  - unfold Start. repeat case_match; by left.
  - unfold Stop_begin. case_match; by left.
  - by right.
  - destruct (Subscribe addrs sd types w) as [[e|] w'] eqn:E; simpl.
    + left. by rewrite (Subscribe_Err _ _ _ _ _ _ E).
    + apply Subscribe_Ok in E as (? & _ & _ & _ & _ & ->). right. by rewrite cl_notify.
  - unfold Unsubscribe. repeat case_match; simpl; try by left. right. by rewrite cl_notify.
  - unfold WithMode. right. by rewrite cl_notify.
  - destruct l; by left.
  - destruct f; by left.
  - destruct f; by left.
  - destruct f; by left.
  - unfold WithWSAuthority. repeat case_match; by left.
  - unfold cancel_parent. case_match; by left.
Qed.

(** Close a goal whose client differs in fields no invariant mentions. *)
Ltac same_wf :=
  match goal with
  | Hwf : wf_subs _ |- wf_subs _ =>
      refine (wf_same _ _ _ _ _ _ Hwf); [reflexivity..|apply (wf_rev _ Hwf)]
  end.

Lemma api_wf w w' : api w w' -> wf_subs (cl w) -> wf_subs (cl w').
Proof.
  intros Hapi Hwf.
  destruct Hapi; simpl; auto with tcabci; try exact Hwf.
  - unfold Stop_begin. by case_match.
  - apply wf_cleared.
  - destruct l; [same_wf|done].
  - same_wf.
  - destruct f; [same_wf|done].
  - destruct f; [same_wf|done].
  - destruct f; [same_wf|done].
  - unfold WithWSAuthority. repeat case_match; simpl; [done|same_wf..].
  - unfold cancel_parent. by case_match.
Qed.

(** Within 2^64 calls, an equal revision means an equal subscription. *)
Lemma nsteps_evolves n w w' :
  nsteps api n w w' -> (0 <= subscriptionRevision (cl w) < 2 ^ 64)%Z ->
  exists k, (0 <= k <= Z.of_nat n)%Z /\
    subscriptionRevision (cl w') = wrap64 (subscriptionRevision (cl w) + k) /\
    (k = 0%Z -> Ledger.wanted (cl w') = Ledger.wanted (cl w)).
Proof.
  induction 1 as [w|n w1 w2 w3 Hstep Hrest IH]; intros Hr.
  { exists 0%Z. split; [lia|]. rewrite Z.add_0_r, wrap64_small by done. done. }
  apply api_evolves in Hstep as [[Hrev Hw]|Hrev].
  - rewrite Hrev in IH. destruct (IH Hr) as (k & Hk & -> & Hsame). exists k.
    split; [lia|]. split; [done|]. intros ->. by rewrite Hsame.
  - destruct IH as (k & Hk & -> & _); [rewrite Hrev; apply wrap64_range|].
    exists (1 + k)%Z. split; [lia|]. split; [|lia]. rewrite Hrev.
    unfold wrap64. rewrite Zplus_mod_idemp_l. f_equal. lia.
Qed.

Lemma nsteps_same_revision n w w' :
  nsteps api n w w' -> wf_subs (cl w) -> (Z.of_nat n < 2 ^ 64)%Z ->
  subscriptionRevision (cl w') = subscriptionRevision (cl w) ->
  Ledger.wanted (cl w') = Ledger.wanted (cl w).
Proof.
  intros Hn Hwf Hlt Heq. pose proof (wf_rev _ Hwf) as Hr.
  destruct (nsteps_evolves _ _ _ Hn Hr) as (k & Hk & Hrev & Hsame). apply Hsame.
  rewrite Heq in Hrev. unfold wrap64 in Hrev.
  assert (k mod 2 ^ 64 = 0)%Z as Hz.
  { replace k with (subscriptionRevision (cl w) + k - subscriptionRevision (cl w))%Z by lia.
    rewrite Zminus_mod, <- Hrev, (Z.mod_small (subscriptionRevision (cl w))) by done.
    by rewrite Z.sub_diag. }
  rewrite Z.mod_small in Hz by lia. done.
Qed.

Lemma nsteps_wf n w w' : nsteps api n w w' -> wf_subs (cl w) -> wf_subs (cl w').
Proof. induction 1; eauto using api_wf. Qed.

(** The loop's variables and the ledger agree with client state [c]. *)
Definition synced (st : serve_state) (v : Ledger.ledger) (c : client) : Prop :=
  first st = false /\ revision st = subscriptionRevision c /\ v = Ledger.wanted c /\
  Ledger.tracks st v.

Lemma serve_top_synced write iter w0 n w1 w2 st st' frames v :
  (first st = true \/ synced st v (cl w0)) -> Ledger.tracks st v ->
  wf_subs (cl w0) -> nsteps api n w0 w1 -> (Z.of_nat n < 2 ^ 64)%Z ->
  wf_subs (cl w2) -> iteration_of (cl w2) iter ->
  serve_top write iter (cl w1) (cl w2) st = (frames, Ok st') ->
  synced st' (Ledger.apply_frames v frames) (cl w1) \/
  synced st' (Ledger.apply_frames v frames) (cl w2).
Proof.
  intros Hst Htr Hwf0 Hn Hlt Hwf2 Hiter. unfold serve_top.
  destruct (first st || _) eqn:Eb.
  - destruct (syncSubscription _ _ _ _ _) as [fs [[[prev lis] rev] [e|]]] eqn:E; [done|].
    intros [= -> <-]. right.
    destruct (sync_success _ _ _ _ _ _ _ _ _ Hwf2 Hiter Htr E) as (Hv & -> & Ht).
    unfold synced. rewrite Hv. done.
  - intros [= <- <-]. left. apply orb_false_iff in Eb as [Ef Er%negb_false_iff%Z.eqb_eq].
    destruct Hst as [?|(_ & Hrev & Hv & _)]; [congruence|]. split_and!; [done..| |done].
    simpl. rewrite Hv. symmetry.
    apply (nsteps_same_revision n _ _ Hn Hwf0 Hlt). congruence.
Qed.

(** A connection being served: the loop's tops, interleaved with calls of the
    client's methods. [n] counts the calls since the connection was opened. *)
Inductive serving : nat -> world -> serve_state -> Ledger.ledger -> Prop :=
| serving_open w : wf_subs (cl w) -> serving 0 w serve_init Ledger.empty
| serving_api n w w' st v : serving n w st v -> api w w' -> serving (S n) w' st v
| serving_top n k w1 w2 st v write iter frames st' :
    serving n w1 st v -> nsteps api k w1 w2 -> iteration_of (cl w2) iter ->
    serve_top write iter (cl w1) (cl w2) st = (frames, Ok st') ->
    serving (n + k) w2 st' (Ledger.apply_frames v frames).

Lemma tracks_init : Ledger.tracks serve_init Ledger.empty.
Proof. unfold Ledger.tracks. simpl. split_and!; [apply dom_empty_L|done..]. Qed.

Lemma serving_invariant n w st v :
  serving n w st v -> (Z.of_nat n < 2 ^ 64)%Z ->
  wf_subs (cl w) /\ Ledger.tracks st v /\
  (first st = true \/
   exists w0 m, m <= n /\ wf_subs (cl w0) /\ nsteps api m w0 w /\ synced st v (cl w0)).
Proof.
  induction 1 as [w Hwf|n w w' st v Hs IH Hapi
                 |n k w1 w2 st v write iter frames st' Hs IH Hk Hiter Htop]; intros Hlt.
  - split; [done|]. split; [apply tracks_init|by left].
  - destruct IH as (Hwf & Htr & Hst); [lia|]. split; [by eapply api_wf|]. split; [done|].
    destruct Hst as [?|(w0 & m & Hm & Hwf0 & Hn & Hsy)]; [by left|right].
    exists w0, (S m). split; [lia|]. split; [done|]. split; [|done].
    by eapply nsteps_r.
  - destruct IH as (Hwf & Htr & Hst); [lia|].
    assert (wf_subs (cl w2)) as Hwf2 by (by eapply nsteps_wf).
    assert (synced st' (Ledger.apply_frames v frames) (cl w1) \/
            synced st' (Ledger.apply_frames v frames) (cl w2)) as Hsy.
    { destruct Hst as [Hf|(w0 & m & Hm & Hwf0 & Hn & Hsy)].
      - eapply (serve_top_synced write iter w1 0 w1 w2); eauto; [constructor|lia].
      - eapply (serve_top_synced write iter w0 m w1 w2); eauto. lia. }
    split; [done|]. split; [by destruct Hsy as [(_ & _ & _ & ?)|(_ & _ & _ & ?)]|]. right.
    destruct Hsy as [Hsy|Hsy].
    + exists w1, k. split; [lia|]. done.
    + exists w2, 0. split; [lia|]. split; [done|]. split; [constructor|done].
Qed.

(** ** Properties *)

(** C13: a successful [syncSubscription] sends at most an Unsubscribe frame
    followed by one Subscribe or Listen frame, and after them the connection's
    ledger is exactly the client's subscription in its current mode: nothing
    stale stays announced, every wanted address carries its current signature,
    and the type filter is the client's.
    The variables it returns describe that ledger for the next call. *)
Theorem syncSubscription_correct write iter c st frames prev listening rev v
    (Hwf : wf_subs c) (Hiter : iteration_of c iter) (Htr : Ledger.tracks st v)
    (Hsync : syncSubscription write iter c (previous st) (wasListening st)
             = (frames, (prev, listening, rev, None))) :
  Ledger.apply_frames v frames = Ledger.wanted c /\
  Ledger.tracks (mk_serve_state prev listening rev false) (Ledger.wanted c) /\
  rev = subscriptionRevision c /\
  MsgType <$> frames ∈ [[]; [MsgUnsubscribe]; [MsgSubscribe]; [ListenMessage];
                        [MsgUnsubscribe; MsgSubscribe]; [MsgUnsubscribe; ListenMessage]].
Proof.
  pose proof (sync_success _ _ _ _ _ _ _ _ _ Hwf Hiter Htr Hsync) as (? & ? & ?).
  split_and!; [done..|]. revert Hsync. unfold syncSubscription.
  rewrite (snapshot_eq _ _ Hwf Hiter). cbn zeta.
  destruct (_ || (wasListening st && _)); destruct (_ || (mode c =? Listen)%Z);
    repeat (case_match; try done); intros [= <- <- <- <-]; simpl;
    rewrite ?elem_of_cons; destruct (mode c =? Listen)%Z; tauto.
Qed.

Definition demo_subscribed : world :=
  snd (Subscribe ["bob"; "alice"] {["alice" := "s1"; "bob" := "s2"]} [] demo_world).

Definition demo_frame : WSMessage :=
  mk_WSMessage "id" false MsgSubscribe (Some ["alice"; "bob"])
    (Some {["alice" := "s1"; "bob" := "s2"]}) None [].

Lemma syncSubscription_correct_witness :
  syncSubscription (fun _ => None) ["bob"; "alice"] (cl demo_subscribed) None false
    = ([demo_frame], (Some ["alice"; "bob"], false, 1%Z, None)) /\
  Ledger.apply_frames Ledger.empty [demo_frame] = Ledger.wanted (cl demo_subscribed).
Proof.
  assert (syncSubscription (fun _ => None) ["bob"; "alice"] (cl demo_subscribed) None false
    = ([demo_frame], (Some ["alice"; "bob"], false, 1%Z, None))) as E
    by (vm_compute; reflexivity).
  split; [exact E|].
  refine (proj1 (syncSubscription_correct (fun _ => None) ["bob"; "alice"]
    (cl demo_subscribed) serve_init [demo_frame] _ _ _ Ledger.empty _ _ tracks_init E)).
  - apply wf_Subscribe, wf_Start, wf_new.
  - split; [by apply (bool_decide_unpack _); vm_compute|vm_compute; reflexivity].
Defined.

(** C36: the order in which Go visits the keys of [subscribedAddresses] is
    not observable: any two orders give the same frames and the same results. *)
Theorem syncSubscription_deterministic write iter1 iter2 c prev was
    (Hwf : wf_subs c) (H1 : iteration_of c iter1) (H2 : iteration_of c iter2) :
  syncSubscription write iter1 c prev was = syncSubscription write iter2 c prev was.
Proof.
  unfold syncSubscription.
  by rewrite (snapshot_eq _ _ Hwf H1), (snapshot_eq _ _ Hwf H2).
Qed.

Lemma syncSubscription_deterministic_witness :
  syncSubscription (fun _ => None) ["bob"; "alice"] (cl demo_subscribed) None false
  = syncSubscription (fun _ => None) ["alice"; "bob"] (cl demo_subscribed) None false.
Proof.
  apply syncSubscription_deterministic.
  - apply wf_Subscribe, wf_Start, wf_new.
  - split; [by apply (bool_decide_unpack _); vm_compute|vm_compute; reflexivity].
  - split; [by apply (bool_decide_unpack _); vm_compute|vm_compute; reflexivity].
Defined.

(** While a connection is served, comparing revisions is enough: whenever
    the loop's revision is the client's, the frames sent so far announce
    exactly the client's subscription, for up to 2^64 - 1 calls of the client's
    methods (the counter is a uint64). *)
Theorem serving_announces_subscription n w st v
    (Hs : serving n w st v) (Hn : (Z.of_nat n < 2 ^ 64)%Z) (Hf : first st = false)
    (Hrev : revision st = subscriptionRevision (cl w)) :
  v = Ledger.wanted (cl w).
Proof.
  destruct (serving_invariant _ _ _ _ Hs Hn) as (_ & _ & [Hf'|Hinv]); [congruence|].
  destruct Hinv as (w0 & m & Hm & Hwf0 & Hsteps & _ & Hr & -> & _). symmetry.
  apply (nsteps_same_revision m _ _ Hsteps Hwf0); [lia|congruence].
Qed.

Lemma serving_announces_subscription_witness :
  exists st, revision st = subscriptionRevision (cl demo_subscribed) /\
  Ledger.apply_frames Ledger.empty [demo_frame] = Ledger.wanted (cl demo_subscribed).
Proof.
  exists (mk_serve_state (Some ["alice"; "bob"]) false 1 false).
  split; [vm_compute; reflexivity|].
  apply (serving_announces_subscription 1 demo_subscribed
           (mk_serve_state (Some ["alice"; "bob"]) false 1 false)).
  - apply (serving_top 1 0 demo_subscribed demo_subscribed serve_init Ledger.empty
             (fun _ => None) ["bob"; "alice"]).
    + apply (serving_api 0 demo_world).
      * apply serving_open, wf_Start, wf_new.
      * exact (api_Subscribe ["bob"; "alice"] {["alice" := "s1"; "bob" := "s2"]} []
                 demo_world).
    + constructor.
    + split; [by apply (bool_decide_unpack _); vm_compute|vm_compute; reflexivity].
    + vm_compute. reflexivity.
  - lia.
  - reflexivity.
  - vm_compute. reflexivity.
Defined.

(** C35: the client's methods keep the subscription well formed whatever the
    order of calls: both maps have the same keys, at most 251 of them, each a
    non-empty address of at most 2048 bytes with a non-empty signature, and
    every type of the filter is declared. *)
Theorem api_preserves_wf id ctx n w (Hn : nsteps api n (new_world id ctx) w) :
  wf_subs (cl w).
Proof. eapply nsteps_wf; [exact Hn|apply wf_new]. Qed.

Lemma api_preserves_wf_witness : wf_subs (cl demo_subscribed).
Proof.
  apply (api_preserves_wf "id" None 2).
  eapply nsteps_l; [exact (api_Start (new_world "id" None))|].
  eapply nsteps_l; [|constructor].
  exact (api_Subscribe ["bob"; "alice"] {["alice" := "s1"; "bob" := "s2"]} [] demo_world).
Defined.
