(* ===== verification/SendQueue.v ===== *)
(** * websocket.go: Write, the send queue and the life of a session

    Concurrent callers of [Write], the session's goroutine and the methods that
    take [c.mut] for writing, as interleaved atomic steps. [Write] holds the
    read lock from its first step to its last, so a step that needs the write
    lock is possible only when no call of [Write] is under way. *)
From S2P Require Import Prelude GoText Errors Types Client Subscriptions Authority Sync.

(** ** Write, step by step *)

(** Where a call of [Write] stands, the read lock held:
    before [queuedBytes.Load()], before the compare-and-swap, and in the
    final select with its bytes reserved. *)
Inductive writer :=
| WLoad (sid : nat) (b : bytes)
| WCas (sid : nat) (b : bytes) (used : Z)
| WReserved (sid : nat) (owned : bytes).

Definition writer_sid (wr : writer) : nat :=
  match wr with WLoad sid _ | WCas sid _ _ | WReserved sid _ => sid end.

Definition writer_bytes (wr : writer) : bytes :=
  match wr with WLoad _ b | WCas _ b _ | WReserved _ b => b end.

(** The checks before the loop. *)
Definition Write_enter (b : bytes) (w : world) : result error nat :=
  if (maxMessageSize <? llen b)%Z then Err (errors_New "websocket message too large")
  else match session (cl w) with
  | None => Err ErrNotStarted
  | Some sid =>
      match s_err (get_session w sid) with
      | Some e => Err e
      | None => Ok sid
      end
  end.

Definition add64 (x y : Z) : Z := swrap64 (x + y).

(** [used := Load()] and the budget test that follows it. *)
Definition Write_load (sid : nat) (b : bytes) (w : world) : result error Z :=
  let used := s_queuedBytes (get_session w sid) in
  if (maxMessageSize <? add64 used (llen b))%Z
  then Err (errors_New "websocket send byte budget exceeded")
  else Ok used.

Definition set_queued (q : Z) (s : wsSession) : wsSession :=
  mk_session (s_err s) (s_done s) (s_send s) (s_subscriptions s) q.

Definition add_queued (d : Z) (s : wsSession) : wsSession :=
  set_queued (add64 (s_queuedBytes s) d) s.

(** [CompareAndSwap(used, used+size)]. *)
Definition Write_cas (sid : nat) (b : bytes) (used : Z) (w : world) : bool * world :=
  if (s_queuedBytes (get_session w sid) =? used)%Z
  then (true, upd_session sid (set_queued (add64 used (llen b))) w)
  else (false, w).

(** The three arms of the select. *)
Definition enqueue (b : bytes) (s : wsSession) : wsSession :=
  mk_session (s_err s) (s_done s) (s_send s ++ [b]) (s_subscriptions s) (s_queuedBytes s).

(** ** The session's goroutine *)

(** [b := <-s.send]. *)
Definition dequeue (s : wsSession) : wsSession :=
  mk_session (s_err s) (s_done s) (tail (s_send s)) (s_subscriptions s) (s_queuedBytes s).

(** The draining loop of [runSession]'s deferred function. *)
Fixpoint drain (q : list bytes) (queued : Z) : Z :=
  match q with
  | [] => queued
  | b :: q' => drain q' (add64 queued (- llen b))
  end.

(** [c.mut] held: drain, then [close(s.done)]. *)
Definition finish (s : wsSession) : wsSession :=
  mk_session (s_err s) true [] (s_subscriptions s) (drain (s_send s) (s_queuedBytes s)).

(** ** The system *)
Record sys := mk_sys {
  sw : world;
  writers : list writer;
  inflight : gmap nat bytes;      (* taken from the queue, not yet accounted for *)
  stopping : option nat;          (* Stop waits for this session, lifecycle held *)
}.

Definition init (id : string) (ctx : option error) : sys :=
  mk_sys (new_world id ctx) [] ∅ None.

Definition with_world (w : world) (s : sys) : sys :=
  mk_sys w (writers s) (inflight s) (stopping s).

(** Methods that hold [c.mut] and leave sessions and lifecycle alone. *)
Inductive method : world -> world -> Prop :=
| m_Subscribe addrs sd types w : method w (snd (Subscribe addrs sd types w))
| m_Unsubscribe w : method w (snd (Unsubscribe w))
| m_WithMode m w : method w (WithMode m w)
| m_WithLogger l w : method w (WithLogger l w)
| m_SetListenCallback f w : method w (SetListenCallback f w)
| m_AddListenCallback f w : method w (AddListenCallback f w)
| m_AddRetrieveCallback f w : method w (AddRetrieveCallback f w)
| m_AddErrorCallback f w : method w (AddErrorCallback f w)
| m_WithWSAuthority a sign w : method w (snd (WithWSAuthority a sign w)).

(** What an observer sees of a step. *)
Inductive label :=
| LTau
| LError (e : error)                     (* a call of Write returns an error *)
| LEnqueued (sid : nat) (b : bytes)      (* a call of Write returns nil *)
| LTaken (sid : nat) (b : bytes)         (* a frame goes to the connection *)
| LDrained (sid : nat) (q : list bytes). (* dropped when the session ends *)

Inductive step : sys -> label -> sys -> Prop :=
| st_method s w' :
    writers s = [] -> method (sw s) w' -> step s LTau (with_world w' s)
| st_start s :
    writers s = [] -> stopping s = None ->
    step s LTau (with_world (snd (Start (sw s))) s)
| st_stop_begin s w' o e :
    writers s = [] -> stopping s = None -> Stop_begin (sw s) = (e, o, w') ->
    step s LTau (mk_sys w' (writers s) (inflight s) o)
| st_stop_end s sid :
    writers s = [] -> stopping s = Some sid -> s_done (get_session (sw s) sid) = true ->
    step s LTau (mk_sys (Stop_end (sw s)) (writers s) (inflight s) None)
| st_cancel s sid e :          (* session.cancel(), by whoever holds it *)
    step s LTau (with_world (upd_session sid (cancel_session e) (sw s)) s)
| st_cancel_parent s e :
    step s LTau (with_world (cancel_parent e (sw s)) s)
| st_write_enter s b sid :
    Write_enter b (sw s) = Ok sid ->
    step s LTau (mk_sys (sw s) (WLoad sid b :: writers s) (inflight s) (stopping s))
| st_write_refused s b e :
    Write_enter b (sw s) = Err e -> step s (LError e) s
| st_write_load s l1 sid b l2 used :
    writers s = l1 ++ WLoad sid b :: l2 -> Write_load sid b (sw s) = Ok used ->
    step s LTau (mk_sys (sw s) (l1 ++ WCas sid b used :: l2) (inflight s) (stopping s))
| st_write_full s l1 sid b l2 e :
    writers s = l1 ++ WLoad sid b :: l2 -> Write_load sid b (sw s) = Err e ->
    step s (LError e) (mk_sys (sw s) (l1 ++ l2) (inflight s) (stopping s))
| st_write_cas s l1 sid b used l2 w' :
    writers s = l1 ++ WCas sid b used :: l2 -> Write_cas sid b used (sw s) = (true, w') ->
    step s LTau (mk_sys w' (l1 ++ WReserved sid b :: l2) (inflight s) (stopping s))
| st_write_retry s l1 sid b used l2 w' :
    writers s = l1 ++ WCas sid b used :: l2 -> Write_cas sid b used (sw s) = (false, w') ->
    step s LTau (mk_sys w' (l1 ++ WLoad sid b :: l2) (inflight s) (stopping s))
| st_write_cancelled s l1 sid b l2 e :
    writers s = l1 ++ WReserved sid b :: l2 -> s_err (get_session (sw s) sid) = Some e ->
    step s (LError e) (mk_sys (upd_session sid (add_queued (- llen b)) (sw s)) (l1 ++ l2)
                         (inflight s) (stopping s))
| st_write_timeout s l1 sid b l2 :
    writers s = l1 ++ WReserved sid b :: l2 ->
    step s (LError (errors_New "websocket send queue full"))
      (mk_sys (upd_session sid (add_queued (- llen b)) (sw s)) (l1 ++ l2)
         (inflight s) (stopping s))
| st_write_sent s l1 sid b l2 :
    writers s = l1 ++ WReserved sid b :: l2 ->
    length (s_send (get_session (sw s) sid)) < send_capacity ->
    step s (LEnqueued sid b)
      (mk_sys (upd_session sid (enqueue b) (sw s)) (l1 ++ l2) (inflight s) (stopping s))
| st_token s sid :             (* case <-s.subscriptions *)
    s_done (get_session (sw s) sid) = false ->
    step s LTau (with_world (upd_session sid (set_token false) (sw s)) s)
| st_take s sid ss b :
    sessions (sw s) !! sid = Some ss -> s_done ss = false -> inflight s !! sid = None ->
    head (s_send ss) = Some b ->
    step s (LTaken sid b) (mk_sys (upd_session sid dequeue (sw s)) (writers s)
                             (<[sid := b]> (inflight s)) (stopping s))
| st_release s sid b :         (* the frame is written, or the write failed *)
    inflight s !! sid = Some b ->
    step s LTau (mk_sys (upd_session sid (add_queued (- llen b)) (sw s)) (writers s)
                   (delete sid (inflight s)) (stopping s))
| st_finish s sid ss :
    sessions (sw s) !! sid = Some ss -> s_done ss = false -> s_err ss <> None ->
    inflight s !! sid = None -> writers s = [] ->
    step s (LDrained sid (s_send ss))
      (mk_sys (upd_session sid finish (sw s)) (writers s) (inflight s) (stopping s)).

(** Executions, with their labels in order. *)
Inductive exec (s0 : sys) : list label -> sys -> Prop :=
| exec_refl : exec s0 [] s0
| exec_step tr s l s' : exec s0 tr s -> step s l s' -> exec s0 (tr ++ [l]) s'.

(** ** The accounting invariant *)
Definition queue_bytes (q : list bytes) : Z := foldr (fun b n => llen b + n)%Z 0%Z q.

Definition reserved_of (sid : nat) (wr : writer) : Z :=
  match wr with
  | WReserved sid' b => if decide (sid' = sid) then llen b else 0%Z
  | _ => 0%Z
  end.

(** Bytes reserved on session [sid] by calls of [Write] still in their select. *)
Definition reserved (sid : nat) (ws : list writer) : Z :=
  foldr (fun wr n => reserved_of sid wr + n)%Z 0%Z ws.

Definition flight_bytes (o : option bytes) : Z :=
  match o with Some b => llen b | None => 0%Z end.

(** One session, given the bytes reserved on it, its frame in flight and the
    client's current session. *)
Record sess_ok (R : Z) (F : option bytes) (cur : option nat) (sid : nat) (ss : wsSession)
    : Prop := {
  so_queued : s_queuedBytes ss = (queue_bytes (s_send ss) + R + flight_bytes F)%Z;
  so_bound : (s_queuedBytes ss <= maxMessageSize)%Z;
  so_cap : length (s_send ss) <= send_capacity;
  so_done : s_done ss = true -> s_err ss <> None /\ s_send ss = [] /\ F = None;
  so_running : s_done ss = false -> cur = Some sid;
}.

Definition running (s : sys) (sid : nat) : Prop :=
  exists ss, sessions (sw s) !! sid = Some ss /\ s_done ss = false.

Definition writer_ok (s : sys) (wr : writer) : Prop :=
  running s (writer_sid wr) /\ (llen (writer_bytes wr) <= maxMessageSize)%Z /\
  match wr with
  | WCas _ b used => (0 <= used)%Z /\ (used + llen b <= maxMessageSize)%Z
  | _ => True
  end.

Record inv (s : sys) : Prop := {
  inv_sess : forall sid ss, sessions (sw s) !! sid = Some ss ->
    sess_ok (reserved sid (writers s)) (inflight s !! sid) (session (cl (sw s))) sid ss;
  inv_alloc : forall sid, session (cl (sw s)) = Some sid -> is_Some (sessions (sw s) !! sid);
  inv_writers : forall wr, wr ∈ writers s -> writer_ok s wr;
  inv_flight : forall sid b, inflight s !! sid = Some b -> running s sid;
  inv_stop : forall sid, stopping s = Some sid -> session (cl (sw s)) = Some sid;
}.

(** ** Arithmetic *)
Lemma queue_bytes_app q1 q2 : queue_bytes (q1 ++ q2) = (queue_bytes q1 + queue_bytes q2)%Z.
Proof. induction q1; simpl; lia. Qed.

Lemma queue_bytes_nonneg q : (0 <= queue_bytes q)%Z.
Proof. induction q as [|b q IH]; simpl; [lia|]. pose proof (llen_nonneg b). lia. Qed.

Lemma reserved_app sid ws1 ws2 :
  reserved sid (ws1 ++ ws2) = (reserved sid ws1 + reserved sid ws2)%Z.
Proof. induction ws1; simpl; lia. Qed.

Lemma reserved_mid sid l1 wr l2 :
  reserved sid (l1 ++ wr :: l2) = (reserved_of sid wr + reserved sid (l1 ++ l2))%Z.
Proof. rewrite !reserved_app. simpl. lia. Qed.

Lemma reserved_of_nonneg sid wr : (0 <= reserved_of sid wr)%Z.
Proof. destruct wr; simpl; try lia. case_decide; [apply llen_nonneg|lia]. Qed.

Lemma reserved_nonneg sid ws : (0 <= reserved sid ws)%Z.
Proof. induction ws as [|wr ws IH]; simpl; [lia|]. pose proof (reserved_of_nonneg sid wr). lia. Qed.

Lemma flight_nonneg o : (0 <= flight_bytes o)%Z.
Proof. destruct o; simpl; [apply llen_nonneg|lia]. Qed.

Lemma so_nonneg R F cur sid ss : (0 <= R)%Z -> sess_ok R F cur sid ss -> (0 <= s_queuedBytes ss)%Z.
Proof.
  intros HR Hok. rewrite (so_queued _ _ _ _ _ Hok).
  pose proof (queue_bytes_nonneg (s_send ss)). pose proof (flight_nonneg F). lia.
Qed.

Lemma add64_small x y : (- 2 ^ 63 <= x + y < 2 ^ 63)%Z -> add64 x y = (x + y)%Z.
Proof. apply swrap64_small. Qed.

(** A session's counter stays far from the limits of int64. *)
Lemma add64_queue x y :
  (0 <= x <= maxMessageSize)%Z -> (- maxMessageSize <= y <= maxMessageSize)%Z ->
  add64 x y = (x + y)%Z.
Proof. unfold maxMessageSize. intros. apply add64_small. lia. Qed.

Lemma drain_spec q n :
  (queue_bytes q <= n <= maxMessageSize)%Z -> drain q n = (n - queue_bytes q)%Z.
Proof.
  revert n. induction q as [|b q IH]; intros n Hn; simpl in *; [lia|].
  pose proof (llen_nonneg b). pose proof (queue_bytes_nonneg q).
  rewrite add64_queue by lia. rewrite IH; lia.
Qed.

(** ** Session updates *)
#[local] Arguments upd_session : simpl never.

Lemma cl_upd sid f w : cl (upd_session sid f w) = cl w.
Proof. done. Qed.

Lemma sessions_upd sid f w sid' :
  sessions (upd_session sid f w) !! sid'
  = if decide (sid = sid') then f <$> sessions w !! sid else sessions w !! sid'.
Proof. unfold upd_session. simpl. rewrite lookup_alter. by case_decide; subst. Qed.

Lemma get_session_Some w sid ss : sessions w !! sid = Some ss -> get_session w sid = ss.
Proof. intros H. unfold get_session. by rewrite H. Qed.

Lemma running_upd sid f s ws fl st sid' :
  (forall ss, sessions (sw s) !! sid = Some ss -> s_done (f ss) = s_done ss) ->
  running s sid' <-> running (mk_sys (upd_session sid f (sw s)) ws fl st) sid'.
Proof.
  intros Hdone. unfold running. simpl. setoid_rewrite sessions_upd.
  case_decide as E; [subst|done]. destruct (sessions (sw s) !! sid') as [ss|]; simpl.
  - specialize (Hdone ss eq_refl). split; intros (? & [= <-] & ?); eexists; split; eauto; congruence.
  - by split; intros (? & ? & ?).
Qed.

Lemma inv_upd s sid f ws fl :
  inv s ->
  (forall ss, sessions (sw s) !! sid = Some ss -> s_done (f ss) = s_done ss) ->
  (forall sid', sid' <> sid ->
     reserved sid' ws = reserved sid' (writers s) /\ fl !! sid' = inflight s !! sid') ->
  (forall ss, sessions (sw s) !! sid = Some ss ->
     sess_ok (reserved sid (writers s)) (inflight s !! sid) (session (cl (sw s))) sid ss ->
     sess_ok (reserved sid ws) (fl !! sid) (session (cl (sw s))) sid (f ss)) ->
  (forall wr, wr ∈ ws -> writer_ok s wr) ->
  (forall b, fl !! sid = Some b -> running s sid) ->
  inv (mk_sys (upd_session sid f (sw s)) ws fl (stopping s)).
Proof.
  intros Hinv Hdone Hother Hthis Hws Hfl.
  pose proof (fun sid' => running_upd sid f s ws fl (stopping s) sid' Hdone) as Hrun.
  split; cbn [sw writers inflight stopping]; rewrite ?cl_upd.
  - intros sid' ss'. rewrite sessions_upd. case_decide as E.
    + subst sid'. destruct (sessions (sw s) !! sid) as [ss|] eqn:Es; [|done].
      intros [= <-]. apply Hthis; [done|]. by apply (inv_sess _ Hinv).
    + intros Hs. destruct (Hother sid') as [-> ->]; [congruence|]. by apply (inv_sess _ Hinv).
  - intros sid' Hc. apply (inv_alloc _ Hinv) in Hc. rewrite sessions_upd.
    case_decide; subst; [by apply fmap_is_Some|done].
  - intros wr Hwr. destruct (Hws wr Hwr) as (Hr & ? & ?). split; [|done]. by apply Hrun.
  - intros sid' b Hb. apply Hrun. destruct (decide (sid' = sid)) as [->|Hne]; [by eapply Hfl|].
    destruct (Hother sid' Hne) as [_ Heq]. rewrite Heq in Hb. by eapply (inv_flight _ Hinv).
  - intros sid' Hst. by apply (inv_stop _ Hinv).
Qed.

(** ** The steps preserve the invariant *)

Lemma inv_init id ctx : inv (init id ctx).
Proof.
  split; simpl; try done; try (by intros ? ? ?%lookup_empty_Some).
  intros wr Hwr. by apply elem_of_nil in Hwr.
Qed.

(** The invariant reads the client's [session] pointer only. *)
Lemma inv_cl s c ctx :
  inv s -> session c = session (cl (sw s)) ->
  inv (with_world (mk_world c ctx (sessions (sw s))) s).
Proof.
  intros Hinv Hc. split; simpl; rewrite ?Hc; try apply Hinv.
Qed.

Lemma inv_stopping s o :
  inv s -> (forall sid, o = Some sid -> session (cl (sw s)) = Some sid) ->
  inv (mk_sys (sw s) (writers s) (inflight s) o).
Proof. intros Hinv Ho. split; simpl; try apply Hinv. exact Ho. Qed.

(** Updates that keep the counter, the queue and [done]. *)
Lemma inv_touch s sid f :
  inv s ->
  (forall ss, s_done (f ss) = s_done ss /\ s_send (f ss) = s_send ss /\
     s_queuedBytes (f ss) = s_queuedBytes ss /\ (s_err ss <> None -> s_err (f ss) <> None)) ->
  inv (with_world (upd_session sid f (sw s)) s).
Proof.
  intros Hinv Hf. apply inv_upd; try done.
  - intros ss _. apply Hf.
  - intros ss _ [????]. destruct (Hf ss) as (? & ? & ? & ?).
    split; rewrite ?H, ?H0, ?H1; try done. naive_solver.
  - apply Hinv.
  - intros b Hb. by eapply (inv_flight _ Hinv).
Qed.

Lemma cancel_touch e ss :
  s_done (cancel_session e ss) = s_done ss /\ s_send (cancel_session e ss) = s_send ss /\
  s_queuedBytes (cancel_session e ss) = s_queuedBytes ss /\
  (s_err ss <> None -> s_err (cancel_session e ss) <> None).
Proof. split_and!; try done. simpl. by destruct (s_err ss). Qed.

Lemma method_effect w w' :
  method w w' ->
  exists c, session c = session (cl w) /\
    (w' = mk_world c (ctx_err w) (sessions w) \/
     exists sid, w' = upd_session sid (set_token true) (mk_world c (ctx_err w) (sessions w))).
Proof.
  assert (forall c, session c = session (cl w) ->
    let w1 := mk_world c (ctx_err w) (sessions w) in
    exists c', session c' = session (cl w) /\
      (notifySubscriptionLocked w1 = mk_world c' (ctx_err w) (sessions w) \/
       exists sid, notifySubscriptionLocked w1
         = upd_session sid (set_token true) (mk_world c' (ctx_err w) (sessions w)))) as Hn.
  { intros c Hc w1. exists c. split; [done|]. unfold notifySubscriptionLocked.
    case_match; [right; by eexists|by left]. }
  assert (exists c, session c = session (cl w) /\
    (w = mk_world c (ctx_err w) (sessions w) \/
     exists sid, w = upd_session sid (set_token true) (mk_world c (ctx_err w) (sessions w)))) as Hs.
  { exists (cl w). split; [done|left]. by destruct w. }
  destruct 1; try exact Hs; try (eexists; split; [|left; reflexivity]; done).
  - destruct (Subscribe addrs sd types w) as [[e|] w'] eqn:E; simpl.
    + by rewrite (Subscribe_Err _ _ _ _ _ _ E).
    + apply Subscribe_Ok in E as (? & _ & _ & _ & _ & ->). by apply Hn.
  - unfold Unsubscribe. repeat case_match; try exact Hs. by apply Hn.
  - by apply Hn.
  - destruct l; [|exact Hs]. eexists; split; [|left; reflexivity]; done.
  - destruct f; [|exact Hs]. eexists; split; [|left; reflexivity]; done.
  - destruct f; [|exact Hs]. eexists; split; [|left; reflexivity]; done.
  - destruct f; [|exact Hs]. eexists; split; [|left; reflexivity]; done.
  - unfold WithWSAuthority. repeat case_match; try exact Hs;
      (eexists; split; [|left; reflexivity]; done).
Qed.

Lemma inv_method s w' : inv s -> method (sw s) w' -> inv (with_world w' s).
Proof.
  intros Hinv (c & Hc & [->|[sid ->]])%method_effect; [by apply inv_cl|].
  apply (inv_touch (with_world (mk_world c (ctx_err (sw s)) (sessions (sw s))) s));
    [by apply inv_cl|done].
Qed.

(** All sessions but the current one are finished. *)
Lemma other_done s sid ss :
  inv s -> sessions (sw s) !! sid = Some ss -> session (cl (sw s)) <> Some sid ->
  s_done ss = true.
Proof.
  intros Hinv Hs Hc. destruct (s_done ss) eqn:Ed; [done|]. exfalso.
  by apply Hc, (so_running _ _ _ _ _ (inv_sess _ Hinv _ _ Hs)).
Qed.

Lemma inv_start s :
  inv s -> writers s = [] -> stopping s = None -> inv (with_world (snd (Start (sw s))) s).
Proof.
  intros Hinv Hw Hst. unfold Start. set (run := match session _ with Some _ => _ | None => _ end).
  destruct run eqn:Erun; [by destruct s, sw0|].
  destruct (ctx_err (sw s)); [by destruct s, sw0|].
  assert (forall sid ss, sessions (sw s) !! sid = Some ss -> s_done ss = true) as Hall.
  { intros sid ss Hs. destruct (decide (session (cl (sw s)) = Some sid)) as [Hc|Hc].
    - unfold run in Erun. rewrite Hc, (get_session_Some _ _ _ Hs) in Erun.
      by apply negb_false_iff.
    - by eapply other_done. }
  assert (forall sid, inflight s !! sid = None) as Hfl.
  { intros sid. destruct (inflight s !! sid) eqn:Ef; [|done].
    destruct (inv_flight _ Hinv _ _ Ef) as (ss & Hs & Hd). by rewrite (Hall _ _ Hs) in Hd. }
  pose proof (is_fresh (dom (sessions (sw s)))) as Hfr. set (new := fresh _) in *.
  split; simpl.
  - intros sid ss. destruct (decide (sid = new)) as [->|Hne].
    + rewrite lookup_insert_eq, Hw, Hfl. intros [= <-]. split; simpl; try done; unfold maxMessageSize, send_capacity; lia.
    + rewrite lookup_insert_ne by done. intros Hs. destruct (inv_sess _ Hinv _ _ Hs).
      split; try done. intros Hd. by rewrite (Hall _ _ Hs) in Hd.
  - intros sid [= <-]. rewrite lookup_insert_eq. by eexists.
  - rewrite Hw. intros wr Hwr. by apply elem_of_nil in Hwr.
  - intros sid b Hb. by rewrite Hfl in Hb.
  - rewrite Hst. done.
Qed.

Lemma inv_stop_end s sid :
  inv s -> writers s = [] -> stopping s = Some sid ->
  s_done (get_session (sw s) sid) = true ->
  inv (mk_sys (Stop_end (sw s)) (writers s) (inflight s) None).
Proof.
  intros Hinv Hw Hst Hd. pose proof (inv_stop _ Hinv _ Hst) as Hc.
  destruct (inv_alloc _ Hinv _ Hc) as [ss Hs]. rewrite (get_session_Some _ _ _ Hs) in Hd.
  split; simpl; try done.
  - intros sid' ss' Hs'. destruct (inv_sess _ Hinv _ _ Hs'). split; try done.
    intros Hnd. specialize (so_running0 Hnd). congruence.
  - rewrite Hw. intros wr Hwr. by apply elem_of_nil in Hwr.
  - intros sid' b Hb. apply (inv_flight _ Hinv _ _ Hb).
Qed.

Lemma inv_cancel_parent s e : inv s -> inv (with_world (cancel_parent e (sw s)) s).
Proof.
  intros Hinv. unfold cancel_parent. destruct (ctx_err (sw s)); [by destruct s, sw0|].
  assert (forall sid, running s sid -> running (with_world
    (mk_world (cl (sw s)) (Some e) (cancel_session e <$> sessions (sw s))) s) sid) as Hrun.
  { intros sid (ss & Hs & Hd). exists (cancel_session e ss). simpl.
    by rewrite lookup_fmap, Hs. }
  split; simpl.
  - intros sid ss. rewrite lookup_fmap. intros (ss0 & Hs & ->)%fmap_Some.
    destruct (inv_sess _ Hinv _ _ Hs). split; try done. simpl. intros Hd.
    destruct (so_done0 Hd) as (? & ? & ?). split_and!; try done. by destruct (s_err ss0).
  - intros sid Hc. rewrite lookup_fmap. by apply fmap_is_Some, (inv_alloc _ Hinv).
  - intros wr Hwr. destruct (inv_writers _ Hinv wr Hwr) as (? & ? & ?).
    split; [by apply Hrun|done].
  - intros sid b Hb. by eapply Hrun, (inv_flight _ Hinv).
  - apply (inv_stop _ Hinv).
Qed.

(** *** The steps of Write *)
Lemma elem_of_mid {A} (x y : A) l1 l2 : x ∈ l1 ++ l2 -> x ∈ l1 ++ y :: l2.
Proof. rewrite !elem_of_app, elem_of_cons. tauto. Qed.

(** Replace one writer by another or drop it: what remains is accounted. *)
Lemma writers_mid s l1 wr l2 :
  inv s -> writers s = l1 ++ wr :: l2 ->
  writer_ok s wr /\ (forall wr', wr' ∈ l1 ++ l2 -> writer_ok s wr') /\
  (forall sid, reserved sid (writers s) = (reserved_of sid wr + reserved sid (l1 ++ l2))%Z).
Proof.
  intros Hinv Hw. split; [|split].
  - apply (inv_writers _ Hinv). rewrite Hw, elem_of_app. right. left.
  - intros wr' Hwr'. apply (inv_writers _ Hinv). rewrite Hw. by apply elem_of_mid.
  - intros sid. rewrite Hw. apply reserved_mid.
Qed.

(** Steps of a writer that only changes its program counter. *)
Lemma inv_writers_only s ws :
  inv s -> (forall sid, reserved sid ws = reserved sid (writers s)) ->
  (forall wr, wr ∈ ws -> writer_ok s wr) ->
  inv (mk_sys (sw s) ws (inflight s) (stopping s)).
Proof.
  intros Hinv Hr Hws. split; simpl; try apply Hinv; try done.
  intros sid ss Hs. rewrite Hr. by apply (inv_sess _ Hinv).
Qed.

Lemma inv_replace s l1 wr wr' l2 :
  inv s -> writers s = l1 ++ wr :: l2 ->
  (forall sid, reserved_of sid wr' = reserved_of sid wr) -> writer_ok s wr' ->
  inv (mk_sys (sw s) (l1 ++ wr' :: l2) (inflight s) (stopping s)).
Proof.
  intros Hinv Hw Hr Hok. destruct (writers_mid s l1 wr l2 Hinv Hw) as (_ & Hrest & Hres).
  apply inv_writers_only; [done| |].
  - intros sid. by rewrite reserved_mid, Hres, Hr.
  - intros x. rewrite elem_of_app, elem_of_cons. intros [?|[->|?]]; [|done|];
      apply Hrest; rewrite elem_of_app; tauto.
Qed.

Lemma inv_drop s l1 wr l2 :
  inv s -> writers s = l1 ++ wr :: l2 -> (forall sid, reserved_of sid wr = 0%Z) ->
  inv (mk_sys (sw s) (l1 ++ l2) (inflight s) (stopping s)).
Proof.
  intros Hinv Hw Hr. destruct (writers_mid s l1 wr l2 Hinv Hw) as (_ & Hrest & Hres).
  apply inv_writers_only; [done| |done]. intros sid. rewrite Hres, Hr. lia.
Qed.

Lemma Write_enter_Ok s b sid :
  inv s -> Write_enter b (sw s) = Ok sid -> writer_ok s (WLoad sid b).
Proof.
  intros Hinv. unfold Write_enter. destruct (Z.ltb_spec maxMessageSize (llen b)); [done|].
  destruct (session (cl (sw s))) as [sid'|] eqn:Hc; [|done].
  destruct (s_err _) eqn:He; [done|]. intros [= <-]. split; [|done].
  destruct (inv_alloc _ Hinv _ Hc) as [ss Hs]. exists ss. split; [done|].
  rewrite (get_session_Some _ _ _ Hs) in He.
  destruct (s_done ss) eqn:Hd; [|done]. exfalso.
  by destruct (so_done _ _ _ _ _ (inv_sess _ Hinv _ _ Hs) Hd) as [? _].
Qed.

Lemma Write_load_Ok s sid b used :
  inv s -> writer_ok s (WLoad sid b) -> Write_load sid b (sw s) = Ok used ->
  writer_ok s (WCas sid b used).
Proof.
  intros Hinv ((ss & Hs & Hd) & Hb & _). simpl in *. unfold Write_load.
  rewrite (get_session_Some _ _ _ Hs).
  pose proof (inv_sess _ Hinv _ _ Hs) as Hok. pose proof (so_bound _ _ _ _ _ Hok).
  pose proof (so_nonneg _ _ _ _ _ (reserved_nonneg _ _) Hok).
  pose proof (llen_nonneg b). rewrite add64_queue by lia.
  destruct (Z.ltb_spec maxMessageSize (s_queuedBytes ss + llen b)); [done|].
  intros [= <-]. split; [by exists ss|]. simpl. lia.
Qed.

Lemma inv_cas s l1 sid b used l2 w' :
  inv s -> writers s = l1 ++ WCas sid b used :: l2 ->
  Write_cas sid b used (sw s) = (true, w') ->
  inv (mk_sys w' (l1 ++ WReserved sid b :: l2) (inflight s) (stopping s)).
Proof.
  intros Hinv Hw. destruct (writers_mid _ _ _ _ Hinv Hw) as ((Hrun & Hb & Hu) & Hrest & Hres).
  simpl in *. unfold Write_cas. destruct (Z.eqb_spec (s_queuedBytes (get_session (sw s) sid)) used)
    as [Heq|]; [|done]. intros [= <-]. pose proof (llen_nonneg b).
  apply inv_upd; try done.
  - intros sid' Hne. split; [|done]. rewrite Hres, reserved_mid. simpl.
    by rewrite decide_False by congruence.
  - intros ss Hs Hok. rewrite Hres in Hok. simpl in Hok. rewrite reserved_mid. simpl.
    rewrite decide_True by done. rewrite (get_session_Some _ _ _ Hs) in Heq.
    destruct Hok as [Hq Hbd ? ? ?]. split; simpl; try done; rewrite add64_queue by lia; lia.
  - intros wr. rewrite elem_of_app, elem_of_cons. intros [?|[->|?]].
    + apply Hrest. rewrite elem_of_app. tauto.
    + done.
    + apply Hrest. rewrite elem_of_app. tauto.
Qed.

(** A reserved writer leaves: its bytes go back or into the queue. *)
Lemma inv_leave s l1 sid b l2 f :
  inv s -> writers s = l1 ++ WReserved sid b :: l2 ->
  (forall ss, s_done (f ss) = s_done ss /\ s_err (f ss) = s_err ss) ->
  (forall ss R, (0 <= R)%Z -> s_done ss = false ->
     sess_ok (llen b + R) (inflight s !! sid) (session (cl (sw s))) sid ss ->
     sess_ok R (inflight s !! sid) (session (cl (sw s))) sid (f ss)) ->
  inv (mk_sys (upd_session sid f (sw s)) (l1 ++ l2) (inflight s) (stopping s)).
Proof.
  intros Hinv Hw Hf Hok. destruct (writers_mid _ _ _ _ Hinv Hw) as ((Hrun & Hb & _) & Hrest & Hres).
  apply inv_upd; try done.
  - intros ss _. apply Hf.
  - intros sid' Hne. split; [|done]. rewrite Hres. simpl. by rewrite decide_False by congruence.
  - intros ss Hs Hss. rewrite Hres in Hss. simpl in Hss. rewrite decide_True in Hss by done.
    apply Hok; [apply reserved_nonneg| |done].
    destruct Hrun as (ss' & Hs' & Hd). simpl in Hs'. congruence.
Qed.

Lemma inv_give_back s l1 sid b l2 :
  inv s -> writers s = l1 ++ WReserved sid b :: l2 ->
  inv (mk_sys (upd_session sid (add_queued (- llen b)) (sw s)) (l1 ++ l2)
         (inflight s) (stopping s)).
Proof.
  intros Hinv Hw. eapply inv_leave; try done. intros ss R HR Hd Hok.
  pose proof (llen_nonneg b). pose proof (so_bound _ _ _ _ _ Hok).
  pose proof (queue_bytes_nonneg (s_send ss)). pose proof (flight_nonneg (inflight s !! sid)).
  destruct Hok as [Hq ? ? ? ?]. split; simpl; try done; rewrite add64_queue by lia; lia.
Qed.

Lemma inv_sent s l1 sid b l2 :
  inv s -> writers s = l1 ++ WReserved sid b :: l2 ->
  length (s_send (get_session (sw s) sid)) < send_capacity ->
  inv (mk_sys (upd_session sid (enqueue b) (sw s)) (l1 ++ l2) (inflight s) (stopping s)).
Proof.
  intros Hinv Hw Hcap.
  destruct (writers_mid _ _ _ _ Hinv Hw) as (((ss0 & Hs0 & Hd0) & Hb & _) & Hrest & Hres).
  simpl in *. rewrite (get_session_Some _ _ _ Hs0) in Hcap.
  apply inv_upd; try done.
  - intros sid' Hne. split; [|done]. rewrite Hres. simpl. by rewrite decide_False by congruence.
  - intros ss Hs Hok. assert (ss0 = ss) as -> by congruence.
    rewrite Hres in Hok. simpl in Hok. rewrite decide_True in Hok by done.
    destruct Hok as [Hq ? ? ? ?]. split; simpl; try done.
    + rewrite queue_bytes_app. simpl. lia.
    + rewrite length_app. simpl. lia.
    + congruence.
  - intros b' Hb'. by eapply (inv_flight _ Hinv).
Qed.

(** *** The steps of the session's goroutine *)
Lemma inv_take s sid ss b :
  inv s -> sessions (sw s) !! sid = Some ss -> s_done ss = false ->
  inflight s !! sid = None -> head (s_send ss) = Some b ->
  inv (mk_sys (upd_session sid dequeue (sw s)) (writers s) (<[sid := b]> (inflight s))
         (stopping s)).
Proof.
  intros Hinv Hs Hd Hfl Hhd. apply inv_upd; try done.
  - intros sid' Hne. by rewrite lookup_insert_ne.
  - intros ss' Hs' Hok. assert (ss' = ss) as -> by congruence. rewrite lookup_insert_eq.
    destruct (s_send ss) as [|b' q] eqn:Eq; [done|]. injection Hhd as ->.
    destruct Hok as [Hq ? Hcap ? ?]. rewrite Eq, Hfl in *. simpl in *.
    split; simpl; rewrite ?Eq; simpl; try done; try lia. congruence.
  - apply (inv_writers _ Hinv).
  - intros b' _. by exists ss.
Qed.

Lemma inv_release s sid b :
  inv s -> inflight s !! sid = Some b ->
  inv (mk_sys (upd_session sid (add_queued (- llen b)) (sw s)) (writers s)
         (delete sid (inflight s)) (stopping s)).
Proof.
  intros Hinv Hfl. destruct (inv_flight _ Hinv _ _ Hfl) as (ss0 & Hs0 & Hd0).
  apply inv_upd; try done.
  - intros sid' Hne. by rewrite lookup_delete_ne.
  - intros ss Hs Hok. assert (ss0 = ss) as -> by congruence. rewrite lookup_delete_eq.
    pose proof (llen_nonneg b). pose proof (queue_bytes_nonneg (s_send ss)).
    pose proof (reserved_nonneg sid (writers s)).
    destruct Hok as [Hq ? ? ? ?]. rewrite Hfl in *. simpl in *.
    split; simpl; try done; try (rewrite add64_queue by lia; lia). congruence.
  - apply (inv_writers _ Hinv).
  - intros b'. by rewrite lookup_delete_eq.
Qed.

Lemma inv_finish s sid ss :
  inv s -> sessions (sw s) !! sid = Some ss -> s_done ss = false -> s_err ss <> None ->
  inflight s !! sid = None -> writers s = [] ->
  inv (mk_sys (upd_session sid finish (sw s)) (writers s) (inflight s) (stopping s)).
Proof.
  intros Hinv Hs Hd He Hfl Hw. split; cbn [sw writers inflight stopping]; rewrite ?cl_upd.
  - intros sid' ss'. rewrite sessions_upd. case_decide as E; [subst sid'|apply (inv_sess _ Hinv)].
    rewrite Hs. intros [= <-]. destruct (inv_sess _ Hinv _ _ Hs) as [Hq ? ? ? ?].
    rewrite Hw, Hfl in *. simpl in *.
    split; simpl; try done; try (rewrite drain_spec by lia; lia).
    + rewrite drain_spec by lia. pose proof (queue_bytes_nonneg (s_send ss)). lia.
    + unfold send_capacity. lia.
  - intros sid' Hc. rewrite sessions_upd. apply (inv_alloc _ Hinv) in Hc.
    case_decide; subst; [by apply fmap_is_Some|done].
  - rewrite Hw. intros wr Hwr. by apply elem_of_nil in Hwr.
  - intros sid' b Hb. destruct (inv_flight _ Hinv _ _ Hb) as (ss' & Hs' & Hd').
    exists ss'. cbn [sw]. rewrite sessions_upd. case_decide; [congruence|done].
  - apply (inv_stop _ Hinv).
Qed.

Lemma inv_step s l s' : inv s -> step s l s' -> inv s'.
Proof.
  intros Hinv Hstep. destruct Hstep.
  - by apply inv_method.
  - by apply inv_start.
  - unfold Stop_begin in H1. destruct (session (cl (sw s))) as [sid|] eqn:Hc; injection H1 as <- <- <-.
    + apply (inv_stopping (with_world (upd_session sid (cancel_session CtxCanceled) (sw s)) s)).
      * apply inv_touch; [done|]. intros ss. apply cancel_touch.
      * intros sid' [= <-]. done.
    + by apply inv_stopping.
  - by eapply inv_stop_end.
  - apply inv_touch; [done|]. intros ss. apply cancel_touch.
  - by apply inv_cancel_parent.
  - apply inv_writers_only; [done|done|]. intros wr [->|?]%elem_of_cons;
      [by apply Write_enter_Ok|by apply (inv_writers _ Hinv)].
  - done.
  - eapply inv_replace; [done..| |].
    + done.
    + eapply Write_load_Ok; [done| |done]. exact (proj1 (writers_mid _ _ _ _ Hinv H)).
  - by eapply inv_drop.
  - by eapply inv_cas.
  - unfold Write_cas in H0. case_match; [done|]. injection H0 as <-.
    eapply inv_replace; [done..| |].
    + done.
    + destruct (writers_mid _ _ _ _ Hinv H) as ((? & ? & _) & _). done.
  - by eapply inv_give_back.
  - by eapply inv_give_back.
  - by eapply inv_sent.
  - apply inv_touch; [done|]. intros ss. done.
  - by eapply inv_take.
  - by eapply inv_release.
  - by eapply inv_finish.
Qed.

Lemma exec_inv id ctx tr s : exec (init id ctx) tr s -> inv s.
Proof. induction 1; [apply inv_init|by eapply inv_step]. Qed.

(** ** What a step does to each session's queue *)
Definition enq1 (sid : nat) (l : label) : list bytes :=
  match l with LEnqueued sid' b => if decide (sid' = sid) then [b] else [] | _ => [] end.

Definition out1 (sid : nat) (l : label) : list bytes :=
  match l with
  | LTaken sid' b => if decide (sid' = sid) then [b] else []
  | LDrained sid' q => if decide (sid' = sid) then q else []
  | _ => []
  end.

(** Frames accepted by [Write] on session [sid], and frames that left its
    queue, in order. *)
Definition enqueued (sid : nat) (tr : list label) : list bytes := tr ≫= enq1 sid.
Definition left_queue (sid : nat) (tr : list label) : list bytes := tr ≫= out1 sid.

Definition queue_step (sid : nat) (l : label) (o o' : option wsSession) : Prop :=
  match o, o' with
  | Some ss, Some ss' =>
      s_send ss ++ enq1 sid l = out1 sid l ++ s_send ss' /\
      (s_done ss = true -> s_done ss' = true) /\
      (s_err ss <> None -> s_err ss' <> None)
  | None, Some ss' => enq1 sid l = [] /\ out1 sid l = [] /\ s_send ss' = []
  | None, None => enq1 sid l = [] /\ out1 sid l = []
  | Some _, None => False
  end.

Lemma queue_step_same sid l o :
  enq1 sid l = [] -> out1 sid l = [] -> queue_step sid l o o.
Proof. intros He Ho. destruct o; simpl; rewrite ?He, ?Ho, ?app_nil_r; done. Qed.

(** A step that updates session [sid0] only. *)
Lemma queue_step_upd sid sid0 l f w :
  (sid <> sid0 \/ sessions w !! sid0 = None -> enq1 sid l = [] /\ out1 sid l = []) ->
  (forall ss, sessions w !! sid0 = Some ss -> queue_step sid0 l (Some ss) (Some (f ss))) ->
  queue_step sid l (sessions w !! sid) (sessions (upd_session sid0 f w) !! sid).
Proof.
  intros Hne Hf. rewrite sessions_upd. case_decide as E.
  - subst. destruct (sessions w !! sid) as [ss|] eqn:Es; simpl; [by apply Hf|]. apply Hne. by right.
  - destruct Hne as [? ?]; [left; congruence|]. by apply queue_step_same.
Qed.

Lemma method_sessions w w' sid :
  method w w' -> queue_step sid LTau (sessions w !! sid) (sessions w' !! sid).
Proof.
  intros (c & _ & [->|[sid0 ->]])%method_effect; [by apply queue_step_same|].
  apply (queue_step_upd sid sid0 LTau (set_token true) (mk_world c (ctx_err w) (sessions w))).
  - done.
  - intros ss _. simpl. by rewrite app_nil_r.
Qed.

(** Updates that leave the queue and [done] alone, with a silent label. *)
Lemma queue_step_quiet sid sid0 l f w :
  enq1 sid l = [] -> out1 sid l = [] -> enq1 sid0 l = [] -> out1 sid0 l = [] ->
  (forall ss, s_send (f ss) = s_send ss /\ s_done (f ss) = s_done ss /\
     (s_err ss <> None -> s_err (f ss) <> None)) ->
  queue_step sid l (sessions w !! sid) (sessions (upd_session sid0 f w) !! sid).
Proof.
  intros ???? Hf. apply queue_step_upd; [done|]. intros ss _. simpl.
  destruct (Hf ss) as (-> & -> & ?). rewrite H1, H2. by rewrite app_nil_r.
Qed.

Lemma cancel_quiet e ss :
  s_send (cancel_session e ss) = s_send ss /\ s_done (cancel_session e ss) = s_done ss /\
  (s_err ss <> None -> s_err (cancel_session e ss) <> None).
Proof. by destruct (cancel_touch e ss) as (? & ? & ? & ?). Qed.

Lemma step_queue s l s' sid :
  inv s -> step s l s' ->
  queue_step sid l (sessions (sw s) !! sid) (sessions (sw s') !! sid).
Proof.
  intros Hinv Hstep. destruct Hstep; cbn [sw with_world]; try (by apply queue_step_same);
    try (by apply queue_step_quiet);
    try (apply queue_step_quiet; auto using cancel_quiet; done).
  - by apply method_sessions.
  - unfold Start. repeat case_match; simpl; try (by apply queue_step_same).
    all: destruct (decide (fresh (dom (sessions (sw s))) = sid)) as [<-|Hne];
      [|rewrite lookup_insert_ne by done; by apply queue_step_same].
    all: rewrite lookup_insert_eq, (proj1 (not_elem_of_dom _ _)) by apply is_fresh; done.
  - unfold Stop_begin in H1. case_match; injection H1 as <- <- <-;
      [apply queue_step_quiet; auto using cancel_quiet|by apply queue_step_same].
  - unfold cancel_parent. case_match; [by apply queue_step_same|]. simpl.
    rewrite lookup_fmap. destruct (sessions (sw s) !! sid); simpl; [|done].
    rewrite app_nil_r. split_and!; [done..|apply cancel_quiet].
  - unfold Write_cas in H0. destruct (_ =? _)%Z; [|done]. injection H0 as <-.
    by apply queue_step_quiet.
  - unfold Write_cas in H0. destruct (_ =? _)%Z; [done|]. injection H0 as <-.
    by apply queue_step_same.
  - apply queue_step_upd.
    + destruct (writers_mid _ _ _ _ Hinv H) as (((ss & Hs & _) & _) & _). simpl in *.
      intros [Hne|Hnone]; [by rewrite decide_False by congruence|congruence].
    + intros ss _. simpl. by rewrite decide_True.
  - apply queue_step_upd.
    + intros [Hne|Hnone]; [simpl; by rewrite decide_False by congruence|congruence].
    + intros ss' Hs'. assert (ss' = ss) as -> by congruence. simpl. rewrite decide_True by done.
      rewrite app_nil_r. by destruct (s_send ss); [|injection H2 as ->].
  - apply queue_step_upd.
    + intros [Hne|Hnone]; [simpl; by rewrite decide_False by congruence|congruence].
    + intros ss' Hs'. assert (ss' = ss) as -> by congruence. simpl. by rewrite decide_True.
Qed.

Lemma exec_queue id ctx tr s sid :
  exec (init id ctx) tr s ->
  match sessions (sw s) !! sid with
  | Some ss => enqueued sid tr = left_queue sid tr ++ s_send ss
  | None => enqueued sid tr = [] /\ left_queue sid tr = []
  end.
Proof.
  induction 1 as [|tr s l s' Hex IH Hstep]; [by simpl; rewrite lookup_empty|].
  pose proof (step_queue s l s' sid (exec_inv _ _ _ _ Hex) Hstep) as Hq.
  unfold enqueued, left_queue in *. rewrite !bind_app. simpl. rewrite !app_nil_r.
  destruct (sessions (sw s) !! sid) as [ss|], (sessions (sw s') !! sid) as [ss'|]; simpl in Hq.
  - destruct Hq as [Hq _]. by rewrite IH, <- !app_assoc, Hq.
  - done.
  - destruct IH as [-> ->], Hq as (-> & -> & ->). done.
  - destruct IH as [-> ->], Hq as (-> & ->). done.
Qed.

Lemma exec_done s tr s' sid :
  inv s -> exec s tr s' -> forall ss, sessions (sw s) !! sid = Some ss -> s_done ss = true ->
  inv s' /\ exists ss', sessions (sw s') !! sid = Some ss' /\ s_done ss' = true.
Proof.
  intros Hinv. induction 1 as [|tr s1 l s2 Hex IH Hstep]; intros ss Hs Hd; [by eauto|].
  destruct (IH ss Hs Hd) as (Hinv1 & ss1 & Hs1 & Hd1).
  pose proof (step_queue s1 l s2 sid Hinv1 Hstep) as Hq. rewrite Hs1 in Hq.
  split; [by eapply inv_step|].
  destruct (sessions (sw s2) !! sid) as [ss2|]; simpl in Hq; [|done].
  exists ss2. split; [done|]. by apply Hq.
Qed.

(** ** Stop can always be completed *)

(** The session [Stop] waits for is cancelled. *)
Lemma stop_cancelled id ctx tr s sid :
  exec (init id ctx) tr s -> stopping s = Some sid ->
  exists ss, sessions (sw s) !! sid = Some ss /\ s_err ss <> None.
Proof.
  intros Hex. revert sid. induction Hex as [|tr s l s' Hex IH Hstep]; [done|].
  intros sid Hst. pose proof (exec_inv _ _ _ _ Hex) as Hinv.
  assert (stopping s = Some sid ->
    exists ss, sessions (sw s') !! sid = Some ss /\ s_err ss <> None) as Hkeep.
  { intros (ss & Hs & He)%IH. pose proof (step_queue s l s' sid Hinv Hstep) as Hq.
    rewrite Hs in Hq. destruct (sessions (sw s') !! sid) as [ss'|]; simpl in Hq; [|done].
    exists ss'. split; [done|]. by apply Hq. }
  destruct Hstep; try (by apply Hkeep); simpl in Hst; try done.
  unfold Stop_begin in H1. destruct (session (cl (sw s))) as [sid'|] eqn:Hc;
    injection H1 as <- <- <-; [|done]. injection Hst as ->.
  destruct (inv_alloc _ Hinv _ Hc) as [ss Hs]. exists (cancel_session CtxCanceled ss).
  cbn [sw]. rewrite sessions_upd, decide_True, Hs by done. split; [done|]. simpl.
  by destruct (s_err ss).
Qed.

Lemma exec_trans s0 tr1 s1 tr2 s2 : exec s0 tr1 s1 -> exec s1 tr2 s2 -> exec s0 (tr1 ++ tr2) s2.
Proof.
  intros H1. induction 1 as [|tr s l s' Hex IH Hstep]; [by rewrite app_nil_r|].
  rewrite app_assoc. by econstructor.
Qed.

Lemma exec_one s l s' : step s l s' -> exec s [l] s'.
Proof. intros H. apply (exec_step _ [] s); [constructor|done]. Qed.

Lemma exec_inv_from s tr s' : inv s -> exec s tr s' -> inv s'.
Proof. intros Hinv. induction 1; [done|by eapply inv_step]. Qed.

(** Reached without touching the client, the flights or the waiting [Stop]. *)
Definition reaches (s s' : sys) : Prop :=
  exists tr, exec s tr s' /\ inflight s' = inflight s /\ stopping s' = stopping s.

Lemma reaches_step s l s' s'' :
  step s l s' -> inflight s' = inflight s -> stopping s' = stopping s ->
  reaches s' s'' -> reaches s s''.
Proof.
  intros Hst Hf Hs (tr & Hex & Hf' & Hs'). exists ([l] ++ tr).
  split; [|split; congruence]. eapply exec_trans; [by apply exec_one|done].
Qed.

(** The first pending call of [Write] can return. *)
Lemma writer_leaves s wr ws :
  inv s -> writers s = wr :: ws -> exists s', reaches s s' /\ writers s' = ws.
Proof.
  assert (forall s sid b ws, writers s = WReserved sid b :: ws ->
            exists s', reaches s s' /\ writers s' = ws) as Hres.
  { intros s' sid b ws' Hw. eexists. split.
    - eapply reaches_step; [by apply (st_write_timeout s' [] sid b ws')|done|done|].
      exists []. split; [constructor|done].
    - done. }
  assert (forall s sid b used ws, writers s = WCas sid b used :: ws ->
            s_queuedBytes (get_session (sw s) sid) = used ->
            exists s', reaches s s' /\ writers s' = ws) as Hcas.
  { intros s' sid b used ws' Hw Hq.
    destruct (Hres (mk_sys (upd_session sid (set_queued (add64 used (llen b))) (sw s'))
      (WReserved sid b :: ws') (inflight s') (stopping s')) sid b ws' eq_refl) as (s'' & Hr & Hw').
    exists s''. split; [|done]. eapply reaches_step; [| | |exact Hr]; [|done|done].
    eapply (st_write_cas s' [] sid b used ws'); [done|].
    unfold Write_cas. by rewrite Hq, Z.eqb_refl. }
  assert (forall s sid b ws, writers s = WLoad sid b :: ws ->
            exists s', reaches s s' /\ writers s' = ws) as Hload.
  { intros s' sid b ws' Hw. destruct (Write_load sid b (sw s')) as [used|e] eqn:El.
    - destruct (Hcas (mk_sys (sw s') (WCas sid b used :: ws') (inflight s') (stopping s'))
        sid b used ws' eq_refl) as (s'' & Hr & Hw').
      { unfold Write_load in El. case_match; [done|]. by injection El. }
      exists s''. split; [|done]. eapply reaches_step; [| | |exact Hr]; [|done|done].
      by eapply (st_write_load s' [] sid b ws').
    - eexists. split.
      + eapply reaches_step; [by apply (st_write_full s' [] sid b ws' e)|done|done|].
        exists []. split; [constructor|done].
      + done. }
  intros Hinv Hw. destruct wr as [sid b|sid b used|sid b]; [by eapply Hload| |by eapply Hres].
  destruct (decide (s_queuedBytes (get_session (sw s) sid) = used)) as [Hq|Hq]; [by eapply Hcas|].
  destruct (Hload (mk_sys (sw s) (WLoad sid b :: ws) (inflight s) (stopping s)) sid b ws eq_refl)
    as (s'' & Hr & Hw').
  exists s''. split; [|done]. eapply reaches_step; [| | |exact Hr]; [|done|done].
  eapply (st_write_retry s [] sid b used ws); [done|]. unfold Write_cas.
  by apply Z.eqb_neq in Hq as ->.
Qed.

Lemma writers_leave s : inv s -> exists s', reaches s s' /\ writers s' = [].
Proof.
  remember (writers s) as ws eqn:Hw. revert s Hw.
  induction ws as [|wr ws IH]; intros s Hw Hinv.
  - exists s. split; [|done]. exists []. split; [constructor|done].
  - destruct (writer_leaves s wr ws Hinv (eq_sym Hw)) as (s1 & (tr & Hex & Hf & Hst) & Hw1).
    destruct (IH s1 (eq_sym Hw1)) as (s2 & (tr2 & Hex2 & Hf2 & Hst2) & Hw2);
      [by eapply exec_inv_from|].
    exists s2. split; [|done]. exists (tr ++ tr2). split; [by eapply exec_trans|].
    split; congruence.
Qed.

(** ** Properties *)

(** C1: in every reachable state, for every session, the atomic byte counter is
    exactly the bytes waiting in the queue, reserved by calls of [Write] still
    selecting, and in flight to the connection; it is between 0 and 16 MiB (so
    that int64 never wraps) and at most 64 messages wait. *)
Theorem send_queue_accounting id ctx tr s sid ss
    (Hex : exec (init id ctx) tr s) (Hs : sessions (sw s) !! sid = Some ss) :
  s_queuedBytes ss = (queue_bytes (s_send ss) + reserved sid (writers s)
                      + flight_bytes (inflight s !! sid))%Z /\
  (0 <= s_queuedBytes ss <= 16 * 1024 * 1024)%Z /\
  length (s_send ss) <= 64.
Proof.
  pose proof (inv_sess _ (exec_inv _ _ _ _ Hex) _ _ Hs) as Hok.
  pose proof (so_nonneg _ _ _ _ _ (reserved_nonneg _ _) Hok).
  destruct Hok as [Hq Hb Hc _ _]. split_and!; done.
Qed.

(** Once a session is done its queue is empty and its counter zero, no
    [Write] is under way on it, and this is final: no later step brings a
    frame back. *)
Theorem session_done_final id ctx tr1 s1 tr2 s2 sid ss1 ss2
    (H1 : exec (init id ctx) tr1 s1) (Hs1 : sessions (sw s1) !! sid = Some ss1)
    (Hd : s_done ss1 = true) (H2 : exec s1 tr2 s2)
    (Hs2 : sessions (sw s2) !! sid = Some ss2) :
  s_done ss2 = true /\ s_err ss2 <> None /\ s_send ss2 = [] /\ s_queuedBytes ss2 = 0%Z /\
  forall wr, wr ∈ writers s2 -> writer_sid wr <> sid.
Proof.
  pose proof (exec_inv _ _ _ _ H1) as Hinv1.
  destruct (exec_done _ _ _ _ Hinv1 H2 _ Hs1 Hd) as (Hinv2 & ss & Hs & Hd2).
  assert (ss = ss2) as -> by congruence.
  assert (forall wr, wr ∈ writers s2 -> writer_sid wr <> sid) as Hno.
  { intros wr Hwr Heq. destruct (inv_writers _ Hinv2 _ Hwr) as ((ss & Hss & Hdd) & _). congruence. }
  assert (reserved sid (writers s2) = 0%Z) as Hres.
  { clear -Hno. induction (writers s2) as [|wr ws IH]; [done|]. simpl.
    rewrite IH by (intros x Hx; apply Hno; by right).
    assert (writer_sid wr <> sid) as Hne by (apply Hno; left).
    destruct wr; simpl in *; try done. by rewrite decide_False. }
  pose proof (inv_sess _ Hinv2 _ _ Hs) as [Hq _ _ Hdone _].
  destruct (Hdone Hd2) as (? & Hnil & Hfl). rewrite Hnil, Hfl, Hres in Hq. done.
Qed.

(** C14: at most one session runs at any time, and it is the one the client
    points to. *)
Theorem one_running_session id ctx tr s sid1 sid2
    (Hex : exec (init id ctx) tr s) (H1 : running s sid1) (H2 : running s sid2) :
  sid1 = sid2 /\ session (cl (sw s)) = Some sid1.
Proof.
  pose proof (exec_inv _ _ _ _ Hex) as Hinv.
  destruct H1 as (ss1 & Hs1 & Hd1), H2 as (ss2 & Hs2 & Hd2).
  pose proof (so_running _ _ _ _ _ (inv_sess _ Hinv _ _ Hs1) Hd1).
  pose proof (so_running _ _ _ _ _ (inv_sess _ Hinv _ _ Hs2) Hd2). split; congruence.
Qed.

(** C15: the frames of a session leave its queue in the order in which [Write]
    accepted them; none is lost, repeated or reordered: what was accepted is
    what left the queue followed by what still waits. *)
Theorem send_queue_fifo id ctx tr s sid ss
    (Hex : exec (init id ctx) tr s) (Hs : sessions (sw s) !! sid = Some ss) :
  enqueued sid tr = left_queue sid tr ++ s_send ss.
Proof. pose proof (exec_queue _ _ _ _ sid Hex) as H. by rewrite Hs in H. Qed.

(** [Stop] never waits in vain: in every reachable state in which it
    waits, the calls of [Write] under way can return, the session can drain
    and close, and [Stop] then leaves a client with no session and no
    subscription. *)
Theorem Stop_can_complete id ctx tr s sid
    (Hex : exec (init id ctx) tr s) (Hst : stopping s = Some sid) :
  exists tr' s' ss, exec s tr' s' /\ stopping s' = None /\
    session (cl (sw s')) = None /\ desired_of (cl (sw s')) = Spec.empty /\
    sessions (sw s') !! sid = Some ss /\ s_done ss = true.
Proof.
  pose proof (exec_inv _ _ _ _ Hex) as Hinv.
  destruct (writers_leave s Hinv) as (s1 & (tr1 & Hex1 & _ & Hst1) & Hw1).
  assert (exists tr2 s2, exec s1 tr2 s2 /\ inflight s2 !! sid = None /\
            stopping s2 = Some sid /\ writers s2 = []) as (tr2 & s2 & Hex2 & Hf2 & Hst2 & Hw2).
  { destruct (inflight s1 !! sid) as [b|] eqn:Ef.
    - eexists _, _. split; [by apply exec_one, (st_release s1 sid b)|]. simpl.
      rewrite lookup_delete_eq. split_and!; congruence.
    - exists [], s1. split; [constructor|]. split_and!; congruence. }
  assert (exec (init id ctx) (tr ++ tr1 ++ tr2) s2) as Hex02
    by (eapply exec_trans; [done|by eapply exec_trans]).
  destruct (stop_cancelled _ _ _ _ _ Hex02 Hst2) as (ss & Hs & He).
  assert (exists tr3 s3 ss3, exec s2 tr3 s3 /\ sessions (sw s3) !! sid = Some ss3 /\
            s_done ss3 = true /\ stopping s3 = Some sid /\ writers s3 = [])
    as (tr3 & s3 & ss3 & Hex3 & Hs3 & Hd3 & Hst3 & Hw3).
  { destruct (s_done ss) eqn:Ed; [exists [], s2, ss; split; [constructor|done]|].
    eexists _, _, (finish ss). split; [by apply exec_one, (st_finish s2 sid ss)|].
    cbn [sw stopping writers]. by rewrite sessions_upd, decide_True, Hs. }
  exists ((tr1 ++ tr2 ++ tr3) ++ [LTau]), (mk_sys (Stop_end (sw s3)) (writers s3) (inflight s3) None), ss3.
  split; [|by split_and!]. econstructor; [eapply exec_trans; [done|by eapply exec_trans]|].
  apply (st_stop_end _ sid); [done..|]. by rewrite (get_session_Some _ _ _ Hs3).
Qed.

(** ** A concrete execution: one frame is queued, then the client stops *)
Definition demo_frame_bytes : bytes := [x61; x62; x63].
Definition demo0 : sys := init "id" None.
Definition demo1 : sys := with_world (snd (Start (sw demo0))) demo0.
Definition demo2 : sys := mk_sys (sw demo1) [WLoad 0 demo_frame_bytes] ∅ None.
Definition demo3 : sys := mk_sys (sw demo1) [WCas 0 demo_frame_bytes 0] ∅ None.
Definition demo4 : sys :=
  mk_sys (upd_session 0 (set_queued (add64 0 3)) (sw demo1)) [WReserved 0 demo_frame_bytes] ∅ None.
Definition demo5 : sys :=
  mk_sys (upd_session 0 (enqueue demo_frame_bytes) (sw demo4)) [] ∅ None.
Definition demo6 : sys :=
  mk_sys (upd_session 0 (cancel_session CtxCanceled) (sw demo5)) [] ∅ (Some 0).
Definition demo7 : sys := mk_sys (upd_session 0 finish (sw demo6)) [] ∅ (Some 0).

Definition demo_trace5 : list label :=
  [LTau; LTau; LTau; LTau; LEnqueued 0 demo_frame_bytes].

Lemma demo_exec5 : exec (init "id" None) demo_trace5 demo5.
Proof.
  refine (exec_step _ [LTau; LTau; LTau; LTau] demo4 _ demo5 _ _).
  2:{ apply (st_write_sent demo4 [] 0 demo_frame_bytes []); [done|]. vm_compute. lia. }
  refine (exec_step _ [LTau; LTau; LTau] demo3 _ demo4 _ _).
  2:{ by apply (st_write_cas demo3 [] 0 demo_frame_bytes 0 []). }
  refine (exec_step _ [LTau; LTau] demo2 _ demo3 _ _).
  2:{ by apply (st_write_load demo2 [] 0 demo_frame_bytes [] 0). }
  refine (exec_step _ [LTau] demo1 _ demo2 _ _).
  2:{ by apply (st_write_enter demo1 demo_frame_bytes 0). }
  refine (exec_step _ [] demo0 _ demo1 _ _); [constructor|]. by apply (st_start demo0).
Qed.

Lemma demo_exec6 : exec (init "id" None) (demo_trace5 ++ [LTau]) demo6.
Proof.
  eapply exec_step; [apply demo_exec5|]. by eapply (st_stop_begin demo5).
Qed.

Lemma demo_exec7 :
  exec (init "id" None) ((demo_trace5 ++ [LTau]) ++ [LDrained 0 [demo_frame_bytes]]) demo7.
Proof.
  eapply exec_step; [apply demo_exec6|].
  by apply (st_finish demo6 0 (mk_session (Some CtxCanceled) false [demo_frame_bytes] false 3)).
Qed.

Lemma send_queue_accounting_witness :
  sessions (sw demo5) !! 0 = Some (mk_session None false [demo_frame_bytes] false 3) /\
  (0 <= 3 <= 16 * 1024 * 1024)%Z.
Proof.
  assert (sessions (sw demo5) !! 0 = Some (mk_session None false [demo_frame_bytes] false 3)) as E
    by reflexivity.
  split; [exact E|].
  apply (send_queue_accounting "id" None demo_trace5 demo5 0
           (mk_session None false [demo_frame_bytes] false 3) demo_exec5 E).
Defined.

Lemma session_done_final_witness :
  let ss := mk_session (Some CtxCanceled) true [] false 0 in
  sessions (sw demo7) !! 0 = Some ss /\ s_send ss = [] /\ s_queuedBytes ss = 0%Z.
Proof.
  assert (sessions (sw demo7) !! 0 = Some (mk_session (Some CtxCanceled) true [] false 0)) as E
    by reflexivity.
  split; [exact E|].
  destruct (session_done_final "id" None _ demo7 [] demo7 0 _ _ demo_exec7 E eq_refl
              (exec_refl demo7) E) as (_ & _ & ? & ? & _).
  split; assumption.
Defined.

Lemma one_running_session_witness :
  running demo5 0 /\ session (cl (sw demo5)) = Some 0.
Proof.
  assert (running demo5 0) as Hr by (eexists; split; reflexivity).
  split; [exact Hr|].
  exact (proj2 (one_running_session "id" None demo_trace5 demo5 0 0 demo_exec5 Hr Hr)).
Defined.

Lemma send_queue_fifo_witness :
  s_send (get_session (sw demo5) 0) = [demo_frame_bytes] /\
  enqueued 0 demo_trace5 = left_queue 0 demo_trace5 ++ [demo_frame_bytes].
Proof.
  split; [reflexivity|].
  exact (send_queue_fifo "id" None demo_trace5 demo5 0
           (mk_session None false [demo_frame_bytes] false 3) demo_exec5 eq_refl).
Defined.

Lemma Stop_can_complete_witness :
  stopping demo6 = Some 0 /\
  exists tr' s' ss, exec demo6 tr' s' /\ stopping s' = None /\
    session (cl (sw s')) = None /\ desired_of (cl (sw s')) = Spec.empty /\
    sessions (sw s') !! 0 = Some ss /\ s_done ss = true.
Proof.
  split; [reflexivity|].
  exact (Stop_can_complete "id" None _ demo6 0 demo_exec6 eq_refl).
Defined.

(** In every reachable state [Start] is refused as already started exactly
    when some session still runs, is refused with the parent context's error
    when that one is over, and otherwise installs a fresh session, keeping
    the subscription (a session that ended by itself is resubscribed). *)
Theorem Start_correct id ctx tr s (Hex : exec (init id ctx) tr s) :
  match Start (sw s) with
  | (Some e, w') =>
      w' = sw s /\
      (e = ErrAlreadyStarted /\ (exists sid, running s sid) \/
       (forall sid, ~ running s sid) /\ ctx_err (sw s) = Some e)
  | (None, w') =>
      (forall sid, ~ running s sid) /\ ctx_err (sw s) = None /\
      exists sid, session (cl w') = Some sid /\ sessions (sw s) !! sid = None /\
        sessions w' = <[sid := new_session]> (sessions (sw s)) /\
        desired_of (cl w') = desired_of (cl (sw s)) /\ mode (cl w') = mode (cl (sw s))
  end.
Proof.
  pose proof (exec_inv _ _ _ _ Hex) as Hinv. unfold Start.
  set (run := match session _ with Some _ => _ | None => _ end).
  assert (run = true <-> exists sid, running s sid) as Hrun.
  { unfold run. split.
    - destruct (session (cl (sw s))) as [sid|] eqn:Hc; [|done]. intros Hd%negb_true_iff.
      destruct (inv_alloc _ Hinv _ Hc) as [ss Hs]. exists sid, ss.
      by rewrite (get_session_Some _ _ _ Hs) in Hd.
    - intros (sid & ss & Hs & Hd).
      rewrite (so_running _ _ _ _ _ (inv_sess _ Hinv _ _ Hs) Hd).
      by rewrite (get_session_Some _ _ _ Hs), Hd. }
  destruct run; [split; [done|]; left; split; [done|by apply Hrun]|].
  assert (forall sid, ~ running s sid) as Hno.
  { intros sid Hr. assert (false = true) by (apply Hrun; by exists sid). done. }
  destruct (ctx_err (sw s)) as [e|]; [split; [done|]; by right|].
  split; [done|]. split; [done|]. eexists. split; [done|].
  split; [|done]. apply not_elem_of_dom, is_fresh.
Qed.

Lemma Start_correct_witness :
  Start (sw demo5) = (Some ErrAlreadyStarted, sw demo5) /\
  (ErrAlreadyStarted = ErrAlreadyStarted /\ (exists sid, running demo5 sid) \/
   (forall sid, ~ running demo5 sid) /\ ctx_err (sw demo5) = Some ErrAlreadyStarted).
Proof.
  split; [reflexivity|].
  exact (proj2 (Start_correct "id" None demo_trace5 demo5 demo_exec5)).
Defined.

(** [Stop] on a client without a session changes nothing and returns an
    [*Error] of the client's kind, code 3, that [errors.Is] recognises as
    [ErrNotStarted]; with a session it cancels exactly that one. *)
Theorem Stop_begin_correct w :
  match Stop_begin w with
  | (Some e, o, w') =>
      session (cl w) = None /\ w' = w /\ o = None /\ Error.Code e = Some 3%Z /\
      Error.Type_ e = Some CLIENTErr /\ errors_Is e ErrNotStarted
  | (None, o, w') =>
      exists sid, session (cl w) = Some sid /\ o = Some sid /\ cl w' = cl w /\
        forall sid', sessions w' !! sid' =
          (if decide (sid' = sid) then cancel_session CtxCanceled <$> sessions w !! sid'
           else sessions w !! sid')
  end.
Proof.
  unfold Stop_begin. destruct (session (cl w)) as [sid|] eqn:Hc.
  - exists sid. split_and!; try done. intros sid'. rewrite sessions_upd.
    repeat case_decide; by subst.
  - split_and!; try done. eapply Is_unwrap; [reflexivity|constructor].
Qed.
