(* ===== verification/InstanceId.v ===== *)
(** * passkey.go: the client instance identifier

    SHA-512 over four UUID-v4 texts, each made from 16 bytes of entropy. *)
From S2P Require Import Prelude GoText Sha2 Errors.

(** ** One UUID *)

(** [entropy[6] = (entropy[6] & 15) | 64; entropy[8] = (entropy[8] & 63) | 128]. *)
Definition set_version (b : byte) : byte := zb (Z.lor (Z.land (bz b) 15) 64).
Definition set_variant (b : byte) : byte := zb (Z.lor (Z.land (bz b) 63) 128).

Definition mask (entropy : bytes) : bytes := alter set_variant 8 (alter set_version 6 entropy).

(** [hex.Encode(ascii[i:...], src)]: overwrite from position [i]. *)
Definition write_at (i : nat) (src : bytes) (buf : bytes) : bytes :=
  take i buf ++ src ++ drop (i + length src) buf.

Definition hex_at (i : nat) (src : bytes) (buf : bytes) : bytes :=
  write_at i (to_bytes (Hex.EncodeToString src)) buf.

(** [entropy[i:j]]. *)
Definition subslice (i j : nat) (l : bytes) : bytes := take (j - i) (drop i l).

Definition dash : byte := x2d.

(** The 36-byte array after the five [hex.Encode] calls and the dashes. *)
Definition uuid_ascii (entropy : bytes) : bytes :=
  let ascii := replicate 36 x00 in
  let ascii := hex_at 0 (subslice 0 4 entropy) ascii in
  let ascii := hex_at 9 (subslice 4 6 entropy) ascii in
  let ascii := hex_at 14 (subslice 6 8 entropy) ascii in
  let ascii := hex_at 19 (subslice 8 10 entropy) ascii in
  let ascii := hex_at 24 (subslice 10 16 entropy) ascii in
  <[23 := dash]> (<[18 := dash]> (<[13 := dash]> (<[8 := dash]> ascii))).

(** The loop; [reads] are the outcomes of the successive reads of
    [rand.Reader] (16 bytes, or [None] for an error), [hashed] what
    [hasher.Write] has received. *)
Fixpoint uuid_loop (count : nat) (reads : list (option bytes)) (hashed : bytes)
    : result error bytes :=
  match count with
  | 0 => Ok hashed
  | S count' =>
      match reads with
      | Some entropy :: reads' =>
          uuid_loop count' reads' (hashed ++ uuid_ascii (mask entropy))
      | _ => Err (errors_New "cannot generate client instance ID")
      end
  end.

Definition createClientInstanceID (reads : list (option bytes)) : result error string :=
  hashed ← uuid_loop 4 reads [];
  Ok (Hex.EncodeToString (Sum512 hashed)).

(** ** The textual form of a UUID *)
Definition uuid_string (e : bytes) : string :=
  Hex.EncodeToString (subslice 0 4 e) +:+ "-" +:+ Hex.EncodeToString (subslice 4 6 e) +:+ "-"
  +:+ Hex.EncodeToString (subslice 6 8 e) +:+ "-" +:+ Hex.EncodeToString (subslice 8 10 e)
  +:+ "-" +:+ Hex.EncodeToString (subslice 10 16 e).

(** ** Lemmas *)

(** A list of 16 bytes, spelled out. *)
Lemma bytes16 (e : bytes) :
  length e = 16 -> exists b0 b1 b2 b3 b4 b5 b6 b7 b8 b9 b10 b11 b12 b13 b14 b15,
  e = [b0; b1; b2; b3; b4; b5; b6; b7; b8; b9; b10; b11; b12; b13; b14; b15].
Proof.
  intros Hlen. do 16 (destruct e as [|? e]; [done|]). destruct e; [|done].
  repeat eexists.
Qed.

Lemma uuid_ascii_string e : length e = 16 -> uuid_ascii e = to_bytes (uuid_string e).
Proof.
  intros (b0 & b1 & b2 & b3 & b4 & b5 & b6 & b7 & b8 & b9 & b10 & b11 & b12 & b13 & b14 & b15
          & ->)%bytes16.
  reflexivity.
Qed.

Lemma mask_length e : length (mask e) = length e.
Proof. unfold mask. by rewrite !length_alter. Qed.

Lemma to_bytes_inj s t : to_bytes s = to_bytes t -> s = t.
Proof. intros Heq. by rewrite <- (of_to_bytes s), Heq, of_to_bytes. Qed.

Lemma hex_no_dash b : all_chars (fun c => c <> "-"%char) (Hex.EncodeToString b).
Proof.
  eapply all_chars_impl, Hex.Encode_lower_hex. unfold Hex.is_lower_hex.
  intros c Hc ->. revert Hc. apply (bool_decide_unpack (¬ _)). by vm_compute.
Qed.

Lemma uuid_fields e :
  Split "-" (uuid_string e) =
  [Hex.EncodeToString (subslice 0 4 e); Hex.EncodeToString (subslice 4 6 e);
   Hex.EncodeToString (subslice 6 8 e); Hex.EncodeToString (subslice 8 10 e);
   Hex.EncodeToString (subslice 10 16 e)].
Proof.
  unfold uuid_string. rewrite !append_cons, !append_nil.
  rewrite !Split_app by apply hex_no_dash. by rewrite Split_none by apply hex_no_dash.
Qed.

Lemma subslices e :
  length e = 16 ->
  subslice 0 4 e ++ subslice 4 6 e ++ subslice 6 8 e ++ subslice 8 10 e ++ subslice 10 16 e = e.
Proof.
  intros (b0 & b1 & b2 & b3 & b4 & b5 & b6 & b7 & b8 & b9 & b10 & b11 & b12 & b13 & b14 & b15
          & ->)%bytes16. reflexivity.
Qed.

Lemma uuid_string_inj e1 e2 :
  length e1 = 16 -> length e2 = 16 -> uuid_string e1 = uuid_string e2 -> e1 = e2.
Proof.
  intros H1 H2 Heq. apply (f_equal (Split "-")) in Heq. rewrite !uuid_fields in Heq.
  injection Heq as Ha Hb Hc Hd He. rewrite <- (subslices e1 H1), <- (subslices e2 H2).
  apply Hex.Encode_inj in Ha, Hb, Hc, Hd, He. by rewrite Ha, Hb, Hc, Hd, He.
Qed.

(** The masked bytes, nibble by nibble. *)
Lemma version_nibble b : Hex.hexchar (Z.shiftr (bz (set_version b)) 4) = "4"%char.
Proof. by destruct b. Qed.

Lemma variant_nibble b :
  Hex.hexchar (Z.shiftr (bz (set_variant b)) 4) ∈ chars "89ab".
Proof. apply list_elem_of_In. destruct b; vm_compute; tauto. Qed.

(** The masks keep 4 and 6 bits of the two bytes. *)
Lemma set_version_keeps b : Z.land (bz (set_version b)) 15 = Z.land (bz b) 15.
Proof. by destruct b. Qed.

Lemma set_variant_keeps b : Z.land (bz (set_variant b)) 63 = Z.land (bz b) 63.
Proof. by destruct b. Qed.

Lemma uuid_loop_Ok n reads hashed h :
  uuid_loop n reads hashed = Ok h <->
  exists es, length es = n /\ (exists rest, reads = (Some <$> es) ++ rest) /\
    h = hashed ++ (es ≫= fun e => uuid_ascii (mask e)).
Proof.
  revert reads hashed. induction n as [|n IH]; intros reads hashed; simpl.
  - split.
    + intros [= <-]. exists []. split_and!; [done|by exists reads|by rewrite app_nil_r].
    + intros ([|] & ? & _ & ->); [by rewrite app_nil_r|done].
  - destruct reads as [|[e|] reads].
    + split; [done|]. intros ([|e es] & Hlen & [rest Hr] & _); [done|done].
    + rewrite IH. split.
      * intros (es & <- & [rest ->] & ->). exists (e :: es).
        split_and!; [done|by exists rest|]. simpl. by rewrite <- app_assoc.
      * intros ([|e' es] & Hlen & [rest Hr] & ->); [done|]. injection Hr as -> ->.
        exists es. split_and!; [by injection Hlen|by exists rest|]. simpl. by rewrite <- app_assoc.
    + split; [done|]. intros ([|e es] & Hlen & [rest Hr] & _); [done|done].
Qed.

Lemma uuid_loop_Err n reads hashed e :
  uuid_loop n reads hashed = Err e -> e = errors_New "cannot generate client instance ID".
Proof.
  revert reads hashed. induction n as [|n IH]; intros [|[x|] reads] hashed; simpl; try congruence.
  apply IH.
Qed.

Lemma to_bytes_app s t : to_bytes (s +:+ t) = to_bytes s ++ to_bytes t.
Proof.
  unfold to_bytes, String.list_byte_of_string. fold (chars (s +:+ t)).
  by rewrite chars_app, map_app.
Qed.

(** ** Properties *)

(** A UUID of version 4, variant 1, in its canonical lower-case text. *)
Definition is_uuid_v4 (u : string) : Prop :=
  slen u = 36%Z /\
  map slen (Split "-" u) = [8; 4; 4; 4; 12]%Z /\
  Forall (all_chars Hex.is_lower_hex) (Split "-" u) /\
  String.get 14 u = Some "4"%char /\
  exists c, String.get 19 u = Some c /\ c ∈ chars "89ab".

Lemma uuid_string_wf b0 b1 b2 b3 b4 b5 b6 b7 b8 b9 b10 b11 b12 b13 b14 b15 :
  is_uuid_v4 (uuid_string (mask [b0; b1; b2; b3; b4; b5; b6; b7; b8; b9; b10; b11; b12; b13;
                                 b14; b15])).
Proof.
  split; [reflexivity|]. rewrite uuid_fields. split; [reflexivity|]. split.
  { do 5 (apply Forall_cons; split; [apply Hex.Encode_lower_hex|]). by apply Forall_nil. }
  split; [|eexists; split; [|apply (variant_nibble b8)]; reflexivity].
  rewrite <- (version_nibble b6). reflexivity.
Qed.

(** The 122 bits of 16 bytes of entropy that a version-4 UUID carries. *)
Definition same_random_bits (a b : bytes) : Prop :=
  forall i, match i with
    | 6 => (fun x => Z.land (bz x) 15) <$> a !! i = (fun x => Z.land (bz x) 15) <$> b !! i
    | 8 => (fun x => Z.land (bz x) 63) <$> a !! i = (fun x => Z.land (bz x) 63) <$> b !! i
    | _ => a !! i = b !! i
    end.

Lemma lookup_mask e i :
  mask e !! i = (match i with 6 => set_version | 8 => set_variant | _ => id end) <$> e !! i.
Proof.
  unfold mask. rewrite !list_lookup_alter.
  destruct i as [|[|[|[|[|[|[|[|[|i]]]]]]]]]; simpl; by destruct (e !! _).
Qed.

Lemma mask_same_bits a b : mask a = mask b <-> same_random_bits a b.
Proof.
  split.
  - intros Heq i. assert (mask a !! i = mask b !! i) as Hi by by rewrite Heq.
    rewrite !lookup_mask in Hi.
    destruct i as [|[|[|[|[|[|[|[|[|i]]]]]]]]]; destruct (a !! _) as [x|], (b !! _) as [y|]; simplify_eq/=;
      try done; try (injection Hi as Hi).
    + by rewrite <- (set_version_keeps x), <- (set_version_keeps y), Hi.
    + by rewrite <- (set_variant_keeps x), <- (set_variant_keeps y), Hi.
  - intros Hs. apply list_eq. intros i. specialize (Hs i). rewrite !lookup_mask.
    destruct i as [|[|[|[|[|[|[|[|[|i]]]]]]]]]; destruct (a !! _) as [x|], (b !! _) as [y|]; simplify_eq/=;
      try done; f_equal; unfold set_version, set_variant; by f_equal; f_equal.
Qed.

(** C37: every client instance identifier is made from well-formed version-4
    UUIDs: whatever the 16 bytes of entropy, the 36 bytes hashed are the
    canonical lower-case text, with the version and the variant in place; and
    the masks lose nothing else - two texts are equal exactly when the entropies
    agree on the 122 random bits. *)
Theorem uuid_text_correct (a b : bytes) (Ha : length a = 16) (Hb : length b = 16) :
  is_uuid_v4 (of_bytes (uuid_ascii (mask a))) /\
  length (uuid_ascii (mask a)) = 36 /\
  (uuid_ascii (mask a) = uuid_ascii (mask b) <-> same_random_bits a b).
Proof.
  assert (is_uuid_v4 (uuid_string (mask a))) as Hwf.
  { apply bytes16 in Ha
      as (b0 & b1 & b2 & b3 & b4 & b5 & b6 & b7 & b8 & b9 & b10 & b11 & b12 & b13 & b14 & b15 & ->).
    apply uuid_string_wf. }
  rewrite <- mask_same_bits, !uuid_ascii_string, of_to_bytes by by rewrite mask_length.
  split; [done|]. split.
  - destruct Hwf as [Hlen _]. rewrite <- length_to_bytes in Hlen. unfold llen in Hlen. lia.
  - split; [|by intros ->]. intros Heq%to_bytes_inj.
    apply uuid_string_inj in Heq; by rewrite ?mask_length.
Qed.

Definition demo_entropy (b : byte) : bytes := replicate 16 b.

Lemma uuid_text_correct_witness :
  of_bytes (uuid_ascii (mask (demo_entropy xff))) = "ffffffff-ffff-4fff-bfff-ffffffffffff" /\
  is_uuid_v4 (of_bytes (uuid_ascii (mask (demo_entropy xff)))).
Proof.
  split; [vm_compute; reflexivity|].
  exact (proj1 (uuid_text_correct (demo_entropy xff) (demo_entropy x00) eq_refl eq_refl)).
Defined.

(** [createClientInstanceID] returns an identifier exactly when the first
    four reads of the system's randomness succeed; it is then the 128
    lower-case hex digits of SHA-512 over the four UUID texts, in order. On a
    failed read there is no identifier and the error is the fixed text. *)
Theorem createClientInstanceID_correct (reads : list (option bytes))
    (Hreads : Forall (fun r => match r with Some e => length e = 16 | None => True end) reads) :
  match createClientInstanceID reads with
  | Ok ident =>
      exists e1 e2 e3 e4 rest, reads = Some e1 :: Some e2 :: Some e3 :: Some e4 :: rest /\
        ident = Hex.EncodeToString (Sum512 (to_bytes
                  (uuid_string (mask e1) +:+ uuid_string (mask e2)
                   +:+ uuid_string (mask e3) +:+ uuid_string (mask e4)))) /\
        slen ident = 128%Z /\ all_chars Hex.is_lower_hex ident
  | Err e =>
      e = errors_New "cannot generate client instance ID" /\
      ~ exists es rest, length es = 4 /\ reads = (Some <$> es) ++ rest
  end.
Proof.
  unfold createClientInstanceID.
  destruct (uuid_loop 4 reads []) as [h|e] eqn:E; simpl.
  - apply uuid_loop_Ok in E as (es & Hlen & [rest ->] & ->).
    destruct es as [|e1 [|e2 [|e3 [|e4 [|]]]]]; try done.
    exists e1, e2, e3, e4, rest. simpl in Hreads.
    apply Forall_cons in Hreads as [H1 [H2 [H3 [H4 _]%Forall_cons]%Forall_cons]%Forall_cons].
    split; [done|]. split; [|split].
    + simpl. rewrite !uuid_ascii_string, app_nil_r by by rewrite mask_length.
      by rewrite !to_bytes_app.
    + by rewrite Hex.length_Encode, Sum512_size.
    + apply Hex.Encode_lower_hex.
  - assert (e = errors_New "cannot generate client instance ID") as ->.
    { by apply uuid_loop_Err in E. }
    split; [done|]. intros (es & rest & Hlen & ->).
    assert (uuid_loop 4 ((Some <$> es) ++ rest) [] = Ok (es ≫= fun e => uuid_ascii (mask e))) as E'.
    { apply uuid_loop_Ok. exists es. split_and!; [done|by exists rest|done]. }
    by rewrite E' in E.
Qed.

Definition demo_reads : list (option bytes) :=
  Some <$> [demo_entropy x01; demo_entropy x02; demo_entropy x03; demo_entropy x04].

Lemma demo_id_ok : is_Ok (createClientInstanceID demo_reads) = true.
Proof. vm_compute. reflexivity. Qed.

Lemma createClientInstanceID_correct_witness :
  exists ident, createClientInstanceID demo_reads = Ok ident /\
    slen ident = 128%Z /\ all_chars Hex.is_lower_hex ident.
Proof.
  assert (Forall (fun r => match r with Some e => length e = 16 | None => True end) demo_reads) as Hr
    by (repeat constructor).
  pose proof (createClientInstanceID_correct _ Hr) as H. pose proof demo_id_ok as Hok.
  destruct (createClientInstanceID demo_reads) as [ident|e]; [|discriminate Hok].
  destruct H as (_ & _ & _ & _ & _ & _ & _ & Hl & Hh). by exists ident.
Defined.
