(* ===== verification/Session.v ===== *)
(** * websocket.go: [runSession], the reconnecting loop of a session

    The loop is a function of what each of its iterations observes: the
    context, the client's fields, the system's randomness and clock, the dial
    and the connection. It produces the calls the loop makes, in order. The
    deferred function of [runSession] is [finish] in the file SendQueue. *)
From S2P Require Import Prelude GoText Errors Types Client Subscriptions Authority.

(** ** net/http.Header

    A map from canonical keys to values; [Add], [Set] and [Del] canonicalise. *)
Module Header.

Abbreviation header := (gmap string (list string)).

Definition is_upper (c : ascii) : bool := Query.in_range 65 90 (Z.of_N (N_of_ascii c)).
Definition is_lower (c : ascii) : bool := Query.in_range 97 122 (Z.of_N (N_of_ascii c)).
Definition is_digit (c : ascii) : bool := Query.in_range 48 57 (Z.of_N (N_of_ascii c)).

Definition upper (c : ascii) : ascii :=
  if is_lower c then ascii_of_N (N_of_ascii c - 32) else c.

(** [validHeaderFieldByte]: the characters of an RFC 7230 token. *)
Definition valid_byte (c : ascii) : bool :=
  is_upper c || is_lower c || is_digit c || existsb (Ascii.eqb c) (chars "!#$%&'*+-.^_`|~").

Fixpoint canonical_loop (s : string) (up : bool) : string :=
  match s with
  | EmptyString => EmptyString
  | String c s' =>
      let c' := if up then upper c else Hex.lower c in
      String c' (canonical_loop s' (Ascii.eqb c' "-"))
  end.

(** [textproto.CanonicalMIMEHeaderKey]: a key that is not a token is unchanged. *)
Definition CanonicalMIMEHeaderKey (s : string) : string :=
  if forallb valid_byte (chars s) then canonical_loop s true else s.

Definition Add (k v : string) (h : header) : header :=
  partial_alter (fun o => Some (default [] o ++ [v])) (CanonicalMIMEHeaderKey k) h.
Definition Set_ (k v : string) (h : header) : header :=
  <[CanonicalMIMEHeaderKey k := [v]]> h.
Definition Del (k : string) (h : header) : header := delete (CanonicalMIMEHeaderKey k) h.

(** [Values]; [Get] is its first element. *)
Definition Values (k : string) (h : header) : list string :=
  default [] (h !! CanonicalMIMEHeaderKey k).

End Header.

(** ** The websocket library, as the loop sees it *)
Definition CloseNormalClosure : Z := 1000.
Definition ClosePolicyViolation : Z := 1008.

(** [websocket.IsCloseError]: "whether the error is a [*CloseError] with one of
    the specified codes". *)
Class CloseErrors := {
  IsCloseError : option error -> list Z -> bool;
  IsCloseError_spec err codes :
    IsCloseError err codes = true <-> exists code, err = Some (CloseError code) /\ code ∈ codes;
}.

(** A connection. *)
Definition conn : Set := nat.

(** What one iteration observes. The client's fields are read under the lock
    ([it_client], [it_wsHeaders] being what [c.wsHeaders.All()] yields); the
    dial and [serveConnection] may take any time and have any outcome. *)
Record iteration := mk_iteration {
  it_head : option error;                          (* s.ctx.Err() at the loop's test *)
  it_client : client;
  it_wsHeaders : list (string * string);
  it_endpoint : string;
  it_authority : authority_env;
  it_dial : string -> Header.header -> result error conn;
  it_serve : conn -> option error;
  it_after : option error;                         (* s.ctx.Err() after the attempt *)
  it_done_first : bool;                            (* the select's choice: ctx.Done() or the timer *)
}.

(** The calls the loop makes. *)
Inductive event :=
| CallRetrievers
| Dial (endpoint : string) (headers : Header.header)
| Serve (c : conn)
| CallErrors (e : error)
| Wait (d : Z).

Inductive outcome :=
| Returned                        (* runSession returned *)
| Next (delay : Z).               (* one more turn of the loop *)

(** ** The loop's body *)
Definition millisecond : Z := 1000000.
Definition second : Z := 1000 * millisecond.
Definition initial_delay : Z := 100 * millisecond.
Definition max_delay : Z := 25 * second.

(** [headers.Add] over the client's headers. *)
Fixpoint add_headers (all : list (string * string)) (headers : Header.header) : Header.header :=
  match all with
  | [] => headers
  | (k, v) :: all' => add_headers all' (Header.Add k v headers)
  end.

(** The authority header: an error here skips the dial. *)
Definition set_authority (it : iteration) (headers : Header.header) : result error Header.header :=
  match authoritySigner (it_client it) with
  | None => Ok headers
  | Some sgn =>
      authority ← CreateWSAuthorityV3 (it_authority it) (authorityAddress (it_client it)) (Some sgn);
      Ok (Header.Set_ "X-Authority" authority headers)
  end.

(** [delay *= 2], capped; [time.Duration] is an int64. *)
Definition next_delay (delay : Z) : Z :=
  if (delay <? max_delay)%Z then
    let delay' := swrap64 (delay * 2) in
    if (max_delay <? delay')%Z then max_delay else delay'
  else delay.

(** The attempt: the calls it makes, the delay after it and its error. *)
Definition attempt (delay : Z) (it : iteration) : list event * Z * option error :=
  match set_authority it (add_headers (it_wsHeaders it) ∅) with
  | Err e => ([], delay, Some e)
  | Ok headers =>
      let d := Dial (it_endpoint it) headers in
      match it_dial it (it_endpoint it) headers with
      | Err e => ([d], delay, Some e)
      | Ok c => ([d; Serve c], initial_delay, it_serve it c)
      end
  end.

Section loop.
Context `{CloseErrors}.

Definition session_iteration (delay : Z) (it : iteration) : list event * outcome :=
  match it_head it with
  | Some _ => ([], Returned)
  | None =>
      let '(evs, delay, err) := attempt delay it in
      let evs := CallRetrievers :: evs in
      if bool_decide (it_after it <> None)
         || IsCloseError err [CloseNormalClosure; ClosePolicyViolation]
      then (evs, Returned)
      else
        let evs := evs ++ match err with Some e => [CallErrors e] | None => [] end in
        let evs := evs ++ [Wait delay] in
        if it_done_first it then (evs, Returned) else (evs, Next (next_delay delay))
  end.

(** The loop over the iterations it gets to see. *)
Fixpoint session_loop (delay : Z) (its : list iteration) : list event * outcome :=
  match its with
  | [] => ([], Next delay)
  | it :: its' =>
      match session_iteration delay it with
      | (evs, Returned) => (evs, Returned)
      | (evs, Next delay') => let '(evs', o) := session_loop delay' its' in (evs ++ evs', o)
      end
  end.

Definition runSession (its : list iteration) : list event * outcome :=
  session_loop initial_delay its.

End loop.

(** ** Specification *)

(** The loop ends with this iteration. *)
Definition attempt_error (it : iteration) : option error := snd (attempt 0 it).

Definition stops_silently `{CloseErrors} (it : iteration) : Prop :=
  it_head it <> None \/ it_after it <> None \/
  exists code, attempt_error it = Some (CloseError code) /\
    (code = CloseNormalClosure \/ code = ClosePolicyViolation).

Definition stops `{CloseErrors} (it : iteration) : Prop :=
  stops_silently it \/ it_done_first it = true.

(** The dial of this iteration reached the server. *)
Definition connected (it : iteration) : bool :=
  match set_authority it (add_headers (it_wsHeaders it) ∅) with
  | Err _ => false
  | Ok headers => is_Ok (it_dial it (it_endpoint it) headers)
  end.

(** The waits, from the number [k] of attempts since the last connection. *)
Definition backoff (k : nat) : Z := Z.min (initial_delay * 2 ^ Z.of_nat k) max_delay.

Fixpoint schedule (k : nat) (its : list iteration) : list Z :=
  match its with
  | [] => []
  | it :: its' => let k := if connected it then 0 else k in backoff k :: schedule (S k) its'
  end.

Definition waits (evs : list event) : list Z :=
  omap (fun e => match e with Wait d => Some d | _ => None end) evs.

Definition errors_reported (evs : list event) : list error :=
  omap (fun e => match e with CallErrors e => Some e | _ => None end) evs.

(** ** Lemmas *)

Lemma next_delay_backoff k : next_delay (backoff k) = backoff (S k).
Proof.
  unfold next_delay, backoff, max_delay, initial_delay, second, millisecond.
  rewrite Nat2Z.inj_succ, Z.pow_succ_r by lia.
  pose proof (Z.pow_pos_nonneg 2 (Z.of_nat k) ltac:(lia) ltac:(lia)).
  destruct (Z.ltb_spec (Z.min (100 * 1000000 * 2 ^ Z.of_nat k) (25 * (1000 * 1000000)))
              (25 * (1000 * 1000000))); [|lia].
  rewrite swrap64_small by lia.
  destruct (Z.ltb_spec (25 * (1000 * 1000000))
    (Z.min (100 * 1000000 * 2 ^ Z.of_nat k) (25 * (1000 * 1000000)) * 2)); lia.
Qed.

Lemma backoff_0 : backoff 0 = initial_delay.
Proof. reflexivity. Qed.

Lemma backoff_range k : (initial_delay <= backoff k <= max_delay)%Z.
Proof.
  unfold backoff, max_delay, initial_delay, second, millisecond.
  pose proof (Z.pow_pos_nonneg 2 (Z.of_nat k) ltac:(lia) ltac:(lia)). lia.
Qed.

Lemma attempt_delay k it :
  snd (fst (attempt (backoff k) it)) = backoff (if connected it then 0 else k).
Proof.
  unfold attempt, connected. destruct (set_authority _ _) as [h|]; [|done].
  by destruct (it_dial _ _ _).
Qed.

Lemma attempt_error_eq d it : snd (attempt d it) = attempt_error it.
Proof.
  unfold attempt_error, attempt. destruct (set_authority _ _) as [h|]; [|done].
  by destruct (it_dial _ _ _).
Qed.

Lemma attempt_calls d it e :
  e ∈ fst (fst (attempt d it)) ->
  (exists ep h, e = Dial ep h) \/ (exists c, e = Serve c).
Proof.
  unfold attempt. destruct (set_authority _ _) as [h|].
  - destruct (it_dial _ _ _); cbn; rewrite !elem_of_cons; intros Hin; repeat destruct Hin as [->|Hin];
      eauto; by apply elem_of_nil in Hin.
  - intros Hin. by apply elem_of_nil in Hin.
Qed.

Lemma attempt_no_waits d it : waits (fst (fst (attempt d it))) = [].
Proof.
  unfold attempt. destruct (set_authority _ _) as [h|]; [|done]. by destruct (it_dial _ _ _).
Qed.

Lemma attempt_no_errors d it : errors_reported (fst (fst (attempt d it))) = [].
Proof.
  unfold attempt. destruct (set_authority _ _) as [h|]; [|done]. by destruct (it_dial _ _ _).
Qed.

Lemma waits_app e1 e2 : waits (e1 ++ e2) = waits e1 ++ waits e2.
Proof. apply omap_app. Qed.

Lemma errors_reported_app e1 e2 :
  errors_reported (e1 ++ e2) = errors_reported e1 ++ errors_reported e2.
Proof. apply omap_app. Qed.

Lemma waits_cons evs : waits (CallRetrievers :: evs) = waits evs.
Proof. done. Qed.

Lemma errors_reported_cons evs : errors_reported (CallRetrievers :: evs) = errors_reported evs.
Proof. done. Qed.

Section facts.
Context `{CloseErrors}.

Lemma close_test err :
  IsCloseError err [CloseNormalClosure; ClosePolicyViolation] = true <->
  exists code, err = Some (CloseError code) /\
    (code = CloseNormalClosure \/ code = ClosePolicyViolation).
Proof.
  rewrite IsCloseError_spec. setoid_rewrite elem_of_cons. setoid_rewrite list_elem_of_singleton.
  done.
Qed.

(** One iteration, in closed form. *)
Lemma iteration_spec k it :
  let '(evs, o) := session_iteration (backoff k) it in
  let k' := if connected it then 0 else k in
  (stops_silently it /\ o = Returned /\ waits evs = [] /\ errors_reported evs = []) \/
  (~ stops_silently it /\ waits evs = [backoff k'] /\
   errors_reported evs = option_list (attempt_error it) /\
   o = if it_done_first it then Returned else Next (backoff (S k'))).
Proof.
  unfold session_iteration, stops_silently.
  destruct (it_head it) as [e|]; [left; split_and!; [by left|done..]|].
  pose proof (attempt_delay k it) as Hd. pose proof (attempt_error_eq (backoff k) it) as He.
  pose proof (attempt_no_waits (backoff k) it) as Hw.
  pose proof (attempt_no_errors (backoff k) it) as Hr.
  destruct (attempt (backoff k) it) as [[evs d] err].
  cbn [fst snd] in Hd, He, Hw, Hr. subst err d.
  destruct (bool_decide _ || _) eqn:Eb.
  - left. apply orb_true_iff in Eb as [Ha%bool_decide_eq_true|Hc%close_test].
    + split_and!; auto.
    + split_and!; auto.
  - apply orb_false_iff in Eb as [Ha%bool_decide_eq_false Hc%not_true_iff_false].
    rewrite close_test in Hc.
    assert (~ (None <> @None error \/ it_after it <> None \/
      exists code, attempt_error it = Some (CloseError code) /\
        (code = CloseNormalClosure \/ code = ClosePolicyViolation))) as Hn
      by (intros [?|[?|?]]; auto).
    rewrite next_delay_backoff.
    destruct (it_done_first it); right;
      (split_and!; [done| | |done]);
      rewrite ?waits_app, ?errors_reported_app, ?waits_cons, ?errors_reported_cons, ?Hw, ?Hr;
      by destruct (attempt_error it).
Qed.

(** The iterations the loop completes, the one it stops in and what is reported. *)
Definition loop_result (k : nat) (its : list iteration) (evs : list event) (o : outcome) : Prop :=
  match o with
  | Next d =>
      Forall (fun it => ~ stops it) its /\ waits evs = schedule k its /\
      errors_reported evs = omap attempt_error its /\ (initial_delay <= d <= max_delay)%Z
  | Returned =>
      exists pre it post, its = pre ++ it :: post /\ Forall (fun it => ~ stops it) pre /\ stops it /\
        ((stops_silently it /\ waits evs = schedule k pre /\
            errors_reported evs = omap attempt_error pre) \/
         (~ stops_silently it /\ waits evs = schedule k (pre ++ [it]) /\
            errors_reported evs = omap attempt_error (pre ++ [it])))
  end.

Lemma session_loop_spec its : forall k,
  let '(evs, o) := session_loop (backoff k) its in loop_result k its evs o.
Proof.
  induction its as [|it its IH]; intros k; cbn [session_loop].
  { split_and!; try done; apply backoff_range. }
  pose proof (iteration_spec k it) as Hit.
  destruct (session_iteration (backoff k) it) as [evs o].
  destruct Hit as [(Hs & -> & Hw & He)|(Hn & Hw & He & ->)].
  { exists [], it, its. split_and!; [done|done|by left|]. by left. }
  destruct (it_done_first it) eqn:Ed.
  { exists [], it, its. split_and!; [done|done|by right|]. right. split; [done|].
    split; [done|]. rewrite He. simpl. by destruct (attempt_error it). }
  set (k' := if connected it then 0 else k) in *.
  assert (~ stops it) as Hstop by (intros [?|?]; congruence).
  specialize (IH (S k')). destruct (session_loop _ its) as [evs' o].
  destruct o as [|d].
  - destruct IH as (pre & it' & post & -> & Hpre & Hst & IH). exists (it :: pre), it', post.
    split_and!; [done|by constructor|done|].
    rewrite waits_app, errors_reported_app, Hw, He. cbn [schedule app omap list_omap]. fold k'.
    destruct IH as [(H1 & -> & ->)|(H1 & -> & ->)]; [left|right];
      (split_and!; [done|done|]); simpl; by destruct (attempt_error it).
  - destruct IH as (Hall & H1 & H2 & Hd). split_and!; [by constructor| | |lia|lia].
    + rewrite waits_app, Hw, H1. done.
    + rewrite errors_reported_app, He, H2. simpl. by destruct (attempt_error it).
Qed.

End facts.

(** ** Headers *)
Lemma Values_Add k k' v h :
  Header.Values k (Header.Add k' v h) =
  Header.Values k h ++
  (if decide (Header.CanonicalMIMEHeaderKey k' = Header.CanonicalMIMEHeaderKey k)
   then [v] else []).
Proof.
  unfold Header.Values, Header.Add. case_decide as E.
  - rewrite <- E, lookup_partial_alter_eq. done.
  - by rewrite lookup_partial_alter_ne, app_nil_r.
Qed.

Lemma Values_Set k k' v h :
  Header.Values k (Header.Set_ k' v h) =
  if decide (Header.CanonicalMIMEHeaderKey k' = Header.CanonicalMIMEHeaderKey k)
  then [v] else Header.Values k h.
Proof.
  unfold Header.Values, Header.Set_. case_decide as E.
  - by rewrite E, lookup_insert_eq.
  - by rewrite lookup_insert_ne.
Qed.

(** The configured values of a header, in the order they were added. *)
Definition configured (k : string) (all : list (string * string)) : list string :=
  (filter (fun p => Header.CanonicalMIMEHeaderKey p.1 = Header.CanonicalMIMEHeaderKey k) all).*2.

Lemma Values_add_headers k all h :
  Header.Values k (add_headers all h) = Header.Values k h ++ configured k all.
Proof.
  revert h. induction all as [|[k' v] all IH]; intros h; simpl; [by rewrite app_nil_r|].
  rewrite IH, Values_Add, <- app_assoc. f_equal. unfold configured. rewrite filter_cons. simpl.
  by case_decide.
Qed.

(** ** Properties *)

(** C27: reconnection backs off exponentially. After the [k]-th attempt since the
    last established connection the loop waits min(100 ms * 2^k, 25 s) - at
    once 100 ms again after a connection - so every wait lies between 100 ms
    and 25 s and the doubling never overflows, however long the outage. *)
Theorem runSession_backoff `{CloseErrors} its :
  let '(evs, o) := runSession its in
  exists n, waits evs = take n (schedule 0 its) /\
    Forall (fun d => initial_delay <= d <= max_delay)%Z (waits evs) /\
    match o with Next _ => n = length its | Returned => n <= length its end.
Proof.
  unfold runSession. rewrite <- backoff_0. pose proof (session_loop_spec its 0) as Hs.
  destruct (session_loop (backoff 0) its) as [evs o].
  assert (forall l k n, Forall (fun d => initial_delay <= d <= max_delay)%Z (take n (schedule k l)))
    as Hrange.
  { induction l as [|it l IH]; intros k [|n]; simpl; try constructor; [apply backoff_range|done]. }
  assert (forall l k, length (schedule k l) = length l) as Hlen.
  { induction l as [|it l IH]; intros k; simpl; [done|]. by rewrite IH. }
  assert (forall l1 l2 k, take (length l1) (schedule k (l1 ++ l2)) = schedule k l1) as Htake.
  { induction l1 as [|it l1 IH]; intros l2 k; simpl; [done|]. by rewrite IH. }
  destruct o as [|d]; simpl in Hs.
  - destruct Hs as (pre & it & post & -> & _ & _ & [(_ & Hw & _)|(_ & Hw & _)]).
    + exists (length pre). rewrite Hw, <- (Htake pre (it :: post) 0).
      split_and!; [done|apply Hrange|]. rewrite length_app. lia.
    + exists (length (pre ++ [it])). rewrite Hw, <- (Htake (pre ++ [it]) post 0), <- app_assoc.
      split_and!; [done|apply Hrange|]. rewrite !length_app. simpl. lia.
  - destruct Hs as (_ & Hw & _). exists (length its). rewrite Hw.
    rewrite take_ge by by rewrite Hlen. split_and!; [done| |done].
    rewrite <- (take_ge (schedule 0 its) (length its)) by by rewrite Hlen. apply Hrange.
Qed.

(** C28: [runSession] returns in the first iteration that sees the session's
    context cancelled or a connection closed with a normal closure or a policy
    violation, and never for another reason: while neither happens it
    reconnects. It reports the error of every earlier failed attempt to the
    error callbacks, in order, once each, and the final one only when the
    cancellation came during the wait after it. *)
Theorem runSession_exits `{CloseErrors} its :
  let '(evs, o) := runSession its in
  match o with
  | Next _ => Forall (fun it => ~ stops it) its /\ errors_reported evs = omap attempt_error its
  | Returned =>
      exists pre it post, its = pre ++ it :: post /\ Forall (fun it => ~ stops it) pre /\ stops it /\
        ((stops_silently it /\ errors_reported evs = omap attempt_error pre) \/
         (~ stops_silently it /\ errors_reported evs = omap attempt_error (pre ++ [it])))
  end.
Proof.
  unfold runSession. rewrite <- backoff_0. pose proof (session_loop_spec its 0) as Hs.
  destruct (session_loop (backoff 0) its) as [evs [|d]]; simpl in Hs.
  - destruct Hs as (pre & it & post & -> & Hpre & Hst & Hs). exists pre, it, post.
    split_and!; [done..|]. destruct Hs as [(? & _ & ?)|(? & _ & ?)]; [by left|by right].
  - tauto.
Qed.

(** C29: every dial carries the right headers. With a signer the handshake has
    exactly one X-Authority value, made for this very dial from this
    iteration's nonce and clock - a configured value never overrides it - and
    when no authority can be made nothing is dialled and its error is the
    attempt's; without a signer, and for every other header, the configured
    values are sent unchanged and in order. *)
Theorem attempt_headers delay it :
  match authoritySigner (it_client it) with
  | Some sgn =>
      match CreateWSAuthorityV3 (it_authority it) (authorityAddress (it_client it)) (Some sgn) with
      | Err e => attempt delay it = ([], delay, Some e)
      | Ok authority =>
          exists h, head (fst (fst (attempt delay it))) = Some (Dial (it_endpoint it) h) /\
            Header.Values "X-Authority" h = [authority] /\
            forall k, Header.CanonicalMIMEHeaderKey k <> "X-Authority" ->
              Header.Values k h = configured k (it_wsHeaders it)
      end
  | None =>
      exists h, head (fst (fst (attempt delay it))) = Some (Dial (it_endpoint it) h) /\
        forall k, Header.Values k h = configured k (it_wsHeaders it)
  end.
Proof.
  unfold attempt, set_authority.
  destruct (authoritySigner (it_client it)) as [sgn|].
  - destruct (CreateWSAuthorityV3 _ _ _) as [a|e]; simpl; [|done].
    eexists. split; [by destruct (it_dial _ _ _)|].
    split; [by rewrite Values_Set, decide_True|]. intros k Hk.
    rewrite Values_Set, decide_False by (intros E; apply Hk; by rewrite <- E).
    by rewrite Values_add_headers.
  - simpl. eexists. split; [by destruct (it_dial _ _ _)|]. intros k.
    by rewrite Values_add_headers.
Qed.

(** ** Witnesses *)

(** [IsCloseError] as its documentation reads. *)
Definition is_close_error (err : option error) (codes : list Z) : bool :=
  match err with
  | Some (CloseError code) => existsb (Z.eqb code) codes
  | _ => false
  end.

Lemma is_close_error_spec err codes :
  is_close_error err codes = true <-> exists code, err = Some (CloseError code) /\ code ∈ codes.
Proof.
  destruct err as [[]|]; simpl; try (split; [done|by intros (? & ? & _)]).
  rewrite existsb_exists. setoid_rewrite <- list_elem_of_In. setoid_rewrite Z.eqb_eq. split.
  - intros (x & Hx & ->). eauto.
  - intros (c & [= ->] & Hc). eauto.
Qed.

#[local] Instance demo_close_errors : CloseErrors :=
  {| IsCloseError := is_close_error; IsCloseError_spec := is_close_error_spec |}.

Definition demo_client : client := cl (new_world "id" None).

(** A refused dial, and a connection the server closes with code 1008. *)
Definition demo_refused : iteration :=
  mk_iteration None demo_client [] "wss://node" demo_env (fun _ _ => Err (Extern "refused"))
    (fun _ => None) None false.
Definition demo_policy : iteration :=
  mk_iteration None demo_client [] "wss://node" demo_env (fun _ _ => Ok 0)
    (fun _ => Some (CloseError 1008)) None false.
Definition demo_reset : iteration :=
  mk_iteration None demo_client [] "wss://node" demo_env (fun _ _ => Ok 0)
    (fun _ => Some (CloseError 1006)) None false.

Lemma runSession_backoff_witness :
  waits (fst (runSession [demo_refused; demo_refused; demo_refused; demo_reset; demo_refused]))
    = [100000000; 200000000; 400000000; 100000000; 200000000]%Z /\
  exists n, waits (fst (runSession (replicate 12 demo_refused)))
              = take n (schedule 0 (replicate 12 demo_refused)).
Proof.
  split; [vm_compute; reflexivity|].
  pose proof (runSession_backoff (replicate 12 demo_refused)) as H.
  destruct (runSession _) as [evs o]. destruct H as (n & H & _). by exists n.
Defined.

Lemma runSession_exits_witness :
  snd (runSession [demo_refused; demo_policy; demo_refused]) = Returned /\
  exists pre it post, [demo_refused; demo_policy; demo_refused] = pre ++ it :: post /\ stops it.
Proof.
  assert (snd (runSession [demo_refused; demo_policy; demo_refused]) = Returned) as E
    by (vm_compute; reflexivity).
  split; [exact E|].
  pose proof (runSession_exits [demo_refused; demo_policy; demo_refused]) as H.
  destruct (runSession _) as [evs [|d]]; [|discriminate E].
  destruct H as (pre & it & post & H1 & _ & H2 & _). by exists pre, it, post.
Defined.
