(* ===== verification/Utf8.v ===== *)
(** * unicode/utf8, as encoding/json uses it

    The runes of a byte string, with [utf8.RuneError] for what is not UTF-8, and
    the encoding of a code point. A text is a list of bytes as characters. *)
From S2P Require Import Prelude GoText.

Abbreviation text := (list ascii).

Definition ac (c : ascii) : Z := Z.of_N (N_of_ascii c).
Definition ca (z : Z) : ascii := ascii_of_N (Z.to_N z).

Definition between (lo hi : Z) (c : ascii) : bool := Query.in_range lo hi (ac c).

(** A continuation byte, 0x80 to 0xBF. *)
Definition cont (c : ascii) : bool := between 128 191 c.

Definition two (a b : ascii) : bool := between 194 223 a && cont b.

Definition three (a b c : ascii) : bool :=
  (if (ac a =? 224)%Z then between 160 191 b
   else if (ac a =? 237)%Z then between 128 159 b
   else between 225 239 a && cont b)
  && cont c.

Definition four (a b c d : ascii) : bool :=
  (if (ac a =? 240)%Z then between 144 191 b
   else if (ac a =? 244)%Z then between 128 143 b
   else between 241 243 a && cont b)
  && cont c && cont d.

(** The length of the well-formed multi-byte sequence at the head, or 0. *)
Definition rune_len (s : text) : nat :=
  match s with
  | a :: b :: s2 =>
      if two a b then 2 else
      match s2 with
      | c :: s3 =>
          if three a b c then 3 else
          match s3 with
          | d :: _ => if four a b c d then 4 else 0
          | [] => 0
          end
      | [] => 0
      end
  | _ => 0
  end.

(** One step of [DecodeRune]: an ASCII byte, a multi-byte rune, or one byte
    of something else. *)
Inductive rune :=
| RAscii (c : ascii)
| RMulti (s : text)
| RBad (c : ascii).

Definition is_ascii (c : ascii) : bool := (ac c <? 128)%Z.

Definition next_rune (a : ascii) (s1 : text) : rune * text :=
  if is_ascii a then (RAscii a, s1)
  else match rune_len (a :: s1) with
  | 0 => (RBad a, s1)
  | n => (RMulti (take n (a :: s1)), drop n (a :: s1))
  end.

Fixpoint runes_fuel (n : nat) (s : text) : list rune :=
  match n, s with
  | S n', a :: s1 => let '(r, rest) := next_rune a s1 in r :: runes_fuel n' rest
  | _, _ => []
  end.

(** Every step takes a byte, so the length is enough fuel. *)
Definition runes (s : text) : list rune := runes_fuel (length s) s.

Definition rune_text (r : rune) : text :=
  match r with RAscii c => [c] | RMulti s => s | RBad c => [c] end.

(** U+FFFD. *)
Definition replacement : text := [ca 239; ca 191; ca 189].

(** What a conversion through runes makes of a byte string. *)
Definition clean_rune (r : rune) : text :=
  match r with RBad _ => replacement | _ => rune_text r end.

Definition clean (s : text) : text := runes s ≫= clean_rune.

Definition rune_ok (r : rune) : bool := match r with RBad _ => false | _ => true end.

(** [utf8.Valid]. *)
Definition valid (s : text) : bool := forallb rune_ok (runes s).

(** [utf8.AppendRune] for a code point below 2^21. *)
Definition append_rune (z : Z) : text :=
  if (z <? 128)%Z then [ca z]
  else if (z <? 2048)%Z then [ca (192 + z / 64); ca (128 + z mod 64)]
  else if (z <? 65536)%Z then
    [ca (224 + z / 4096); ca (128 + (z / 64) mod 64); ca (128 + z mod 64)]
  else [ca (240 + z / 262144); ca (128 + (z / 4096) mod 64); ca (128 + (z / 64) mod 64);
        ca (128 + z mod 64)].

(** ** Lemmas *)
Lemma rune_len_prefix s n rest :
  rune_len s = n -> n <> 0 -> rune_len (take n s ++ rest) = n.
Proof.
  intros Hl Hn. destruct s as [|a [|b s2]]; try (simpl in Hl; congruence).
  simpl in Hl. destruct (two a b) eqn:E2; [subst n; simpl; by rewrite E2|].
  destruct s2 as [|c s3]; [congruence|].
  destruct (three a b c) eqn:E3; [subst n; simpl; by rewrite E2, E3|].
  destruct s3 as [|d s4]; [congruence|].
  destruct (four a b c d) eqn:E4; [subst n; simpl; by rewrite E2, E3, E4|congruence].
Qed.

Lemma rune_len_length s : rune_len s <= length s.
Proof. unfold rune_len. repeat (case_match; simplify_eq/=); lia. Qed.

Lemma next_rune_text a s r rest :
  next_rune a s = (r, rest) -> a :: s = rune_text r ++ rest /\ rune_text r <> [].
Proof.
  unfold next_rune. destruct (is_ascii a); [by intros [= <- <-]|].
  destruct (rune_len (a :: s)) as [|n] eqn:E; [by intros [= <- <-]|].
  intros [= <- <-]. split; [|done]. simpl. by rewrite take_drop.
Qed.

Lemma next_rune_shorter a s r rest :
  next_rune a s = (r, rest) -> length rest <= length s.
Proof.
  intros [H Hne]%next_rune_text. apply (f_equal length) in H. rewrite length_app in H. simpl in H.
  destruct (rune_text r); [done|]. simpl in H. lia.
Qed.

(** Reading a rune that is not an error, followed by anything. *)
Lemma next_rune_app a s r rest rest' :
  next_rune a s = (r, rest) -> rune_ok r = true ->
  exists s', rune_text r ++ rest' = a :: s' /\ next_rune a s' = (r, rest').
Proof.
  unfold next_rune. destruct (is_ascii a) eqn:Ea.
  { intros [= <- <-] _. by exists rest'. }
  destruct (rune_len (a :: s)) as [|n] eqn:E; [by intros [= <- <-]|].
  intros [= <- <-] _. exists (take n s ++ rest'). split; [done|].
  pose proof (rune_len_prefix _ _ rest' E ltac:(lia)) as Hp. cbn [take app] in Hp. rewrite Hp.
  assert (n <= length s) as Hn.
  { pose proof (rune_len_length (a :: s)) as Hl. rewrite E in Hl. simpl in Hl. lia. }
  simpl. rewrite take_app_length', drop_app_length' by (rewrite length_take; lia). done.
Qed.

Lemma runes_fuel_enough n m s :
  length s <= n -> length s <= m -> runes_fuel n s = runes_fuel m s.
Proof.
  revert m s. induction n as [|n IH]; intros m s Hn Hm.
  { destruct s; [by destruct m|simpl in Hn; lia]. }
  destruct s as [|a s]; [by destruct m|]. destruct m as [|m]; [simpl in Hm; lia|]. simpl.
  destruct (next_rune a s) as [r rest] eqn:E. f_equal. apply next_rune_shorter in E.
  simpl in *. apply IH; lia.
Qed.

Lemma runes_cons a s :
  runes (a :: s) = let '(r, rest) := next_rune a s in r :: runes rest.
Proof.
  unfold runes. simpl. destruct (next_rune a s) as [r rest] eqn:E. f_equal.
  apply next_rune_shorter in E. apply runes_fuel_enough; lia.
Qed.

(** Induction on the runes of a text. *)
Lemma runes_ind (P : text -> Prop) :
  P [] ->
  (forall a s r rest, next_rune a s = (r, rest) -> P rest -> P (a :: s)) ->
  forall s, P s.
Proof.
  intros H0 H1 s. remember (length s) as n eqn:Hn. revert s Hn.
  induction (lt_wf n) as [n _ IH]. intros [|a s] Hn; [done|].
  destruct (next_rune a s) as [r rest] eqn:E. eapply H1; [done|].
  apply next_rune_shorter in E. apply (IH (length rest)); [simpl in Hn; lia|done].
Qed.

Lemma runes_text s : runes s ≫= rune_text = s.
Proof.
  induction s as [|a s r rest Hn IH] using runes_ind; [done|].
  rewrite runes_cons, Hn, bind_cons, IH. by apply next_rune_text in Hn as [-> _].
Qed.

(** Valid UTF-8 is left as it is. *)
Lemma clean_valid s : valid s = true -> clean s = s.
Proof.
  unfold valid, clean. intros Hv. rewrite <- (runes_text s) at 2.
  induction (runes s) as [|r rs IH]; [done|]. rewrite !bind_cons.
  apply andb_true_iff in Hv as [Hr Hv]. rewrite IH by done. by destruct r.
Qed.

(** The runes of a run of runes read back. *)
Lemma runes_app_ok a s r rest t :
  next_rune a s = (r, rest) -> rune_ok r = true -> runes (rune_text r ++ t) = r :: runes t.
Proof.
  intros Hn Hr. destruct (next_rune_app _ _ _ _ t Hn Hr) as (s' & -> & Hs').
  by rewrite runes_cons, Hs'.
Qed.

Lemma runes_clean s :
  runes (clean s) = (fun r => if rune_ok r then r else RMulti replacement) <$> runes s.
Proof.
  induction s as [|a s r rest Hn IH] using runes_ind; [done|].
  unfold clean in *. rewrite runes_cons, Hn, bind_cons, fmap_cons, <- IH.
  destruct (rune_ok r) eqn:Er.
  - assert (clean_rune r = rune_text r) as -> by by destruct r.
    by rewrite (runes_app_ok _ _ _ _ _ Hn Er).
  - destruct r; try done.
    assert (next_rune (ca 239) [ca 191; ca 189] = (RMulti replacement, [])) as Hrep by reflexivity.
    by rewrite (runes_app_ok _ _ _ _ (runes rest ≫= clean_rune) Hrep eq_refl).
Qed.

Lemma clean_is_valid s : valid (clean s) = true.
Proof.
  unfold valid. rewrite runes_clean. induction (runes s) as [|r rs IH]; [done|].
  rewrite fmap_cons. cbn [forallb]. rewrite IH. by destruct r.
Qed.

Lemma clean_idemp s : clean (clean s) = clean s.
Proof. apply clean_valid, clean_is_valid. Qed.

(** Text of ASCII characters is valid. *)
Lemma ascii_valid s : forallb is_ascii s = true -> valid s = true.
Proof.
  unfold valid. induction s as [|a s IH]; [done|]. cbn [forallb]. intros [Ha Hs]%andb_true_iff.
  rewrite runes_cons. unfold next_rune. rewrite Ha. simpl. by apply IH.
Qed.
