(* ===== verification/Json.v ===== *)
(** * encoding/json: values, the encoder and the scanner

    The JSON values the client sends and receives, [Marshal]'s text for them
    with Go's escaping, and the parser [Unmarshal] runs before it fills
    anything in. An object keeps its members in order, duplicates included, as
    the decoder sees them. *)
From S2P Require Import Prelude GoText Utf8.

Inductive json :=
| JNull
| JBool (b : bool)
| JNum (lit : string)
| JStr (s : string)
| JArr (l : list json)
| JObj (l : list (string * json)).

(** Induction through the lists. *)
Fixpoint json_ind' (P : json -> Prop) (Hnull : P JNull) (Hbool : forall b, P (JBool b))
    (Hnum : forall n, P (JNum n)) (Hstr : forall s, P (JStr s))
    (Harr : forall l, Forall P l -> P (JArr l))
    (Hobj : forall l, Forall (fun p => P p.2) l -> P (JObj l)) (v : json) : P v :=
  let ih := json_ind' P Hnull Hbool Hnum Hstr Harr Hobj in
  match v with
  | JNull => Hnull
  | JBool b => Hbool b
  | JNum n => Hnum n
  | JStr s => Hstr s
  | JArr l =>
      Harr l ((fix go l : Forall P l :=
                 match l with
                 | [] => List.Forall_nil P
                 | x :: l' => List.Forall_cons P x l' (ih x) (go l')
                 end) l)
  | JObj l =>
      Hobj l ((fix go l : Forall (fun p => P p.2) l :=
                 match l with
                 | [] => List.Forall_nil _
                 | x :: l' => List.Forall_cons (fun p => P p.2) x l' (ih x.2) (go l')
                 end) l)
  end.

Definition JInt (z : Z) : json := JNum (FormatInt z).

Definition str_of (t : text) : string := string_of_list_ascii t.

(** ** Encoding *)
Definition dq : ascii := ca 34.
Definition bs : ascii := ca 92.
Definition eqc (c d : ascii) : bool := Ascii.eqb c d.

(** [htmlSafeSet] and [safeSet]. *)
Definition safe (html : bool) (c : ascii) : bool :=
  (32 <=? ac c)%Z && negb (eqc c dq) && negb (eqc c bs)
  && negb (html && existsb (Ascii.eqb c) (chars "<>&")).

Definition hex_digit (z : Z) : ascii := Hex.hexchar z.

Definition esc_ascii (html : bool) (c : ascii) : text :=
  if safe html c then [c]
  else if eqc c dq || eqc c bs then [bs; c]
  else if (ac c =? 8)%Z then [bs; "b"%char]
  else if (ac c =? 12)%Z then [bs; "f"%char]
  else if (ac c =? 10)%Z then [bs; "n"%char]
  else if (ac c =? 13)%Z then [bs; "r"%char]
  else if (ac c =? 9)%Z then [bs; "t"%char]
  else [bs; "u"%char; "0"%char; "0"%char; hex_digit (Z.shiftr (ac c) 4); hex_digit (Z.land (ac c) 15)].

Definition line_sep : text := [ca 226; ca 128; ca 168].
Definition para_sep : text := [ca 226; ca 128; ca 169].

Definition esc (html : bool) (r : rune) : text :=
  match r with
  | RAscii c => esc_ascii html c
  | RMulti s =>
      if bool_decide (s = line_sep) then bs :: chars "u2028"
      else if bool_decide (s = para_sep) then bs :: chars "u2029"
      else s
  | RBad _ => bs :: chars "ufffd"
  end.

(** [appendString]. *)
Definition enc_str (html : bool) (s : string) : text :=
  dq :: (runes (chars s) ≫= esc html) ++ [dq].

Fixpoint join (l : list text) : text :=
  match l with
  | [] => []
  | x :: l' => match l' with [] => x | _ => x ++ ","%char :: join l' end
  end.

Fixpoint enc (html : bool) (v : json) : text :=
  match v with
  | JNull => chars "null"
  | JBool b => chars (if b then "true" else "false")
  | JNum lit => chars lit
  | JStr s => enc_str html s
  | JArr l => "["%char :: join (map (enc html) l) ++ ["]"%char]
  | JObj l =>
      "{"%char :: join (map (fun p => enc_str html p.1 ++ ":"%char :: enc html p.2) l)
      ++ ["}"%char]
  end.

(** [json.Marshal] escapes HTML; [Encoder.Encode] adds a line feed. *)
Definition Marshal (v : json) : string := str_of (enc true v).
Definition Encode (html : bool) (v : json) : string := str_of (enc html v ++ ["010"%char]).

(** ** Scanning strings *)
Definition is_hex (c : ascii) : bool := bool_decide (is_Some (Hex.fromHexChar c)).

Definition prepend (p : text) (o : option (text * text)) : option (text * text) :=
  match o with Some (raw, rest) => Some (p ++ raw, rest) | None => None end.

(** From after the opening quote: the text up to the closing one, and the rest. *)
Fixpoint scan_string (s : text) : option (text * text) :=
  match s with
  | [] => None
  | c :: s1 =>
      if eqc c dq then Some ([], s1)
      else if eqc c bs then
        match s1 with
        | e :: s2 =>
            if eqc e "u" then
              match s2 with
              | h1 :: h2 :: h3 :: h4 :: s6 =>
                  if is_hex h1 && is_hex h2 && is_hex h3 && is_hex h4
                  then prepend [c; e; h1; h2; h3; h4] (scan_string s6) else None
              | _ => None
              end
            else if existsb (Ascii.eqb e) (dq :: bs :: chars "/bfnrt")
            then prepend [c; e] (scan_string s2) else None
        | [] => None
        end
      else if (ac c <? 32)%Z then None
      else prepend [c] (scan_string s1)
  end.

(** [getu4], past the backslash and the [u]. *)
Definition hex4 (s : text) : option (Z * text) :=
  match s with
  | h1 :: h2 :: h3 :: h4 :: rest =>
      a ← Hex.fromHexChar h1; b ← Hex.fromHexChar h2;
      c ← Hex.fromHexChar h3; d ← Hex.fromHexChar h4;
      Some (a * 4096 + b * 256 + c * 16 + d, rest)%Z
  | _ => None
  end.

Definition is_surrogate (r : Z) : bool := Query.in_range 55296 57343 r.

(** [utf16.DecodeRune] on a pair. *)
Definition surrogates (r1 r2 : Z) : option Z :=
  if Query.in_range 55296 56319 r1 && Query.in_range 56320 57343 r2
  then Some ((r1 - 55296) * 1024 + (r2 - 56320) + 65536)%Z else None.

Definition next_u4 (s : text) : option (Z * text) :=
  match s with
  | b :: u :: s' => if eqc b bs && eqc u "u" then hex4 s' else None
  | _ => None
  end.

(** A backslash-u escape: its bytes and the text after it. *)
Definition unquote_u (s : text) : text * text :=
  match hex4 s with
  | None => ([], [])
  | Some (r, rest) =>
      if is_surrogate r then
        match (p ← next_u4 rest; z ← surrogates r p.1; Some (append_rune z, p.2)) with
        | Some res => res
        | None => (replacement, rest)
        end
      else (append_rune r, rest)
  end.

Definition unescape (e : ascii) : ascii :=
  if eqc e "b" then ca 8 else if eqc e "f" then ca 12 else if eqc e "n" then ca 10
  else if eqc e "r" then ca 13 else if eqc e "t" then ca 9 else e.

Fixpoint unquote_fuel (n : nat) (s : text) : text :=
  match n, s with
  | S n', a :: s1 =>
      if eqc a bs then
        match s1 with
        | e :: s2 =>
            if eqc e "u" then let '(t, rest) := unquote_u s2 in t ++ unquote_fuel n' rest
            else unescape e :: unquote_fuel n' s2
        | [] => []
        end
      else let '(r, rest) := next_rune a s1 in clean_rune r ++ unquote_fuel n' rest
  | _, _ => []
  end.

(** [unquote] of a scanned body. *)
Definition unquote (s : text) : text := unquote_fuel (length s) s.

(** ** Scanning values *)
Definition is_space (c : ascii) : bool := existsb (Ascii.eqb c) [ca 32; ca 9; ca 13; ca 10].

Fixpoint skip_ws (s : text) : text :=
  match s with
  | c :: s' => if is_space c then skip_ws s' else s
  | [] => []
  end.

Definition digit (c : ascii) : bool := between 48 57 c.

Fixpoint span_digits (s : text) : text * text :=
  match s with
  | c :: s' => if digit c then let '(d, rest) := span_digits s' in (c :: d, rest) else ([], s)
  | [] => ([], [])
  end.

(** At least one digit. *)
Definition digits1 (s : text) : option (text * text) :=
  match span_digits s with
  | ([], _) => None
  | r => Some r
  end.

(** [0], or digits without a leading zero. *)
Definition int_part (s : text) : option (text * text) :=
  match s with
  | c :: s' => if eqc c "0" then Some ([c], s') else digits1 s
  | [] => None
  end.

Definition frac_part (s : text) : option (text * text) :=
  match s with
  | c :: s' => if eqc c "." then prepend [c] (digits1 s') else Some ([], s)
  | [] => Some ([], [])
  end.

Definition exp_part (s : text) : option (text * text) :=
  match s with
  | c :: s' =>
      if eqc c "e" || eqc c "E" then
        match s' with
        | g :: s'' => if eqc g "+" || eqc g "-" then prepend [c; g] (digits1 s'')
                      else prepend [c] (digits1 s')
        | [] => None
        end
      else Some ([], s)
  | [] => Some ([], [])
  end.

Definition scan_number (s : text) : option (text * text) :=
  let '(sign, s1) :=
    match s with
    | c :: s' => if eqc c "-" then ([c], s') else ([], s)
    | [] => ([], [])
    end in
  p ← int_part s1;
  q ← frac_part p.2;
  r ← exp_part q.2;
  Some (sign ++ p.1 ++ q.1 ++ r.1, r.2).

Fixpoint strip (p s : text) : option text :=
  match p, s with
  | [], _ => Some s
  | c :: p', d :: s' => if eqc c d then strip p' s' else None
  | _ :: _, [] => None
  end.

(** [maxNestingDepth]. *)
Definition max_depth : Z := 10000.

(** A value at the head of [s], a list of values up to a closing bracket and
    members up to a closing brace; [d] more levels may be opened. *)
Fixpoint parse_value (n : nat) (d : Z) (s : text) {struct n} : option (json * text) :=
  match n with
  | 0 => None
  | S n' =>
      match s with
      | [] => None
      | c :: s1 =>
          if eqc c dq then
            p ← scan_string s1; Some (JStr (str_of (unquote p.1)), p.2)
          else if eqc c "[" then
            if (d <=? 0)%Z then None else
            match strip ["]"%char] (skip_ws s1) with
            | Some rest => Some (JArr [], rest)
            | None => p ← parse_elems n' (d - 1) (skip_ws s1); Some (JArr p.1, p.2)
            end
          else if eqc c "{" then
            if (d <=? 0)%Z then None else
            match strip ["}"%char] (skip_ws s1) with
            | Some rest => Some (JObj [], rest)
            | None => p ← parse_members n' (d - 1) (skip_ws s1); Some (JObj p.1, p.2)
            end
          else if eqc c "n" then rest ← strip (chars "null") s; Some (JNull, rest)
          else if eqc c "t" then rest ← strip (chars "true") s; Some (JBool true, rest)
          else if eqc c "f" then rest ← strip (chars "false") s; Some (JBool false, rest)
          else p ← scan_number s; Some (JNum (str_of p.1), p.2)
      end
  end
with parse_elems (n : nat) (d : Z) (s : text) {struct n} : option (list json * text) :=
  match n with
  | 0 => None
  | S n' =>
      p ← parse_value n' d s;
      match skip_ws p.2 with
      | c :: rest =>
          if eqc c "," then q ← parse_elems n' d (skip_ws rest); Some (p.1 :: q.1, q.2)
          else if eqc c "]" then Some ([p.1], rest)
          else None
      | [] => None
      end
  end
with parse_members (n : nat) (d : Z) (s : text) {struct n}
    : option (list (string * json) * text) :=
  match n with
  | 0 => None
  | S n' =>
      s1 ← strip [dq] s;
      k ← scan_string s1;
      s2 ← strip [":"%char] (skip_ws k.2);
      p ← parse_value n' d (skip_ws s2);
      let member := (str_of (unquote k.1), p.1) in
      match skip_ws p.2 with
      | c :: rest =>
          if eqc c "," then q ← parse_members n' d (skip_ws rest); Some (member :: q.1, q.2)
          else if eqc c "}" then Some ([member], rest)
          else None
      | [] => None
      end
  end.

(** [checkValid] and the value; the fuel is enough, see [parse_enough]. *)
Definition parse (s : string) : option json :=
  let t := chars s in
  p ← parse_value (2 * length t + 1) max_depth (skip_ws t);
  match skip_ws p.2 with
  | [] => Some p.1
  | _ => None
  end.


(** ** Lemmas: strings *)
Lemma multi_high a s m rest :
  next_rune a s = (RMulti m, rest) -> Forall (fun c => (128 <= ac c)%Z) m.
Proof.
  unfold next_rune. destruct (is_ascii a); [done|].
  destruct (rune_len (a :: s)) as [|n] eqn:E; [done|]. intros [= <- <-].
  unfold rune_len, two, three, four, cont, between, Query.in_range in E.
  repeat (case_match; simplify_eq/=; try done);
    repeat match goal with
    | H : andb _ _ = true |- _ => apply andb_true_iff in H as [? ?]
    | H : (_ <=? _)%Z = true |- _ => apply Z.leb_le in H
    | H : (_ =? _)%Z = true |- _ => apply Z.eqb_eq in H
    end;
    repeat (apply Forall_cons; split; [lia|]); by apply Forall_nil.
Qed.

Lemma high_not c d : (128 <= ac c)%Z -> (ac d < 128)%Z -> eqc c d = false.
Proof. intros Hc Hd. apply Ascii.eqb_neq. intros ->. lia. Qed.

Lemma scan_high m t :
  Forall (fun c => (128 <= ac c)%Z) m -> scan_string (m ++ t) = prepend m (scan_string t).
Proof.
  induction m as [|c m IH]; [intros _; simpl; by destruct (scan_string t) as [[]|]|].
  intros [Hc Hm]%Forall_cons. cbn [scan_string app].
  rewrite (high_not c dq), (high_not c bs) by (done || reflexivity).
  destruct (Z.ltb_spec (ac c) 32); [lia|]. rewrite IH by done.
  by destruct (scan_string t) as [[]|].
Qed.

(** The three shapes of an escaped ASCII character, checked on all of them. *)
Definition esc_shape (e : text) (c : ascii) : bool :=
  match e with
  | [x] => eqc x c && negb (eqc c dq) && negb (eqc c bs) && (32 <=? ac c)%Z
  | [b; e] => eqc b bs && negb (eqc e "u") && existsb (Ascii.eqb e) (dq :: bs :: chars "/bfnrt")
              && eqc (unescape e) c
  | [b; u; h1; h2; h3; h4] =>
      eqc b bs && eqc u "u" && (is_hex h1 && is_hex h2 && is_hex h3 && is_hex h4)
      && match hex4 [h1; h2; h3; h4] with
         | Some (r, []) => negb (is_surrogate r) && bool_decide (append_rune r = [c])
         | _ => false
         end
  | _ => false
  end.

Lemma esc_ascii_shape html c : is_ascii c = true -> esc_shape (esc_ascii html c) c = true.
Proof. destruct c as [[] [] [] [] [] [] [] []]; destruct html; vm_compute; congruence. Qed.

Lemma hex4_app h1 h2 h3 h4 r t :
  hex4 [h1; h2; h3; h4] = Some (r, []) -> hex4 (h1 :: h2 :: h3 :: h4 :: t) = Some (r, t).
Proof.
  unfold hex4. intros H. repeat (apply bind_Some in H as (? & -> & H); cbn).
  by injection H as <-.
Qed.

Ltac split_andb :=
  repeat match goal with
  | H : andb _ _ = true |- _ => apply andb_true_iff in H as [? ?]
  | H : negb _ = true |- _ => apply negb_true_iff in H
  | H : eqc _ _ = true |- _ => apply Ascii.eqb_eq in H; subst
  end.

Lemma scan_shape e c t :
  esc_shape e c = true -> scan_string (e ++ t) = prepend e (scan_string t).
Proof.
  intros H. unfold esc_shape in H.
  destruct e as [|x [|x2 [|u [|h1 [|h2 [|h3 [|]]]]]]]; try done; split_andb.
  - cbn [scan_string app]. destruct (Z.ltb_spec (ac c) 32); [lia|].
    repeat match goal with H : eqc c _ = false |- _ => rewrite H end.
    by destruct (scan_string t) as [[]|].
  - cbn [scan_string app]. rewrite (eq_refl : eqc bs dq = false), (eq_refl : eqc bs bs = true).
    repeat match goal with H : _ = _ :> bool |- _ => rewrite H; clear H end. done.
  - cbn [scan_string app]. rewrite (eq_refl : eqc bs dq = false), (eq_refl : eqc bs bs = true).
    rewrite (eq_refl : eqc "u" "u" = true).
    repeat match goal with H : is_hex _ = true |- _ => rewrite H; clear H end. done.
Qed.

Lemma unquote_shape e c t n :
  is_ascii c = true -> esc_shape e c = true -> unquote_fuel (S n) (e ++ t) = c :: unquote_fuel n t.
Proof.
  intros Hc H. unfold esc_shape in H.
  destruct e as [|x [|x2 [|u [|h1 [|h2 [|h3 [|]]]]]]]; try done; split_andb.
  - cbn [unquote_fuel app]. unfold next_rune. rewrite Hc.
    repeat match goal with H : eqc c _ = false |- _ => rewrite H; clear H end. done.
  - cbn [unquote_fuel app]. rewrite (eq_refl : eqc bs bs = true).
    repeat match goal with H : eqc _ _ = false |- _ => rewrite H; clear H end. done.
  - cbn [unquote_fuel app]. rewrite (eq_refl : eqc bs bs = true), (eq_refl : eqc "u" "u" = true).
    destruct (hex4 _) as [[r []]|] eqn:Eh; try done. split_andb.
    unfold unquote_u. rewrite (hex4_app _ _ _ _ _ t Eh).
    match goal with H : is_surrogate _ = false |- _ => rewrite H end.
    match goal with H : bool_decide _ = true |- _ => apply bool_decide_eq_true in H; rewrite H end.
    done.
Qed.

Lemma unquote_u_bmp h1 h2 h3 h4 r t :
  hex4 [h1; h2; h3; h4] = Some (r, []) -> is_surrogate r = false ->
  unquote_u (h1 :: h2 :: h3 :: h4 :: t) = (append_rune r, t).
Proof. intros H Hr. unfold unquote_u. by rewrite (hex4_app _ _ _ _ _ t H), Hr. Qed.

(** What one rune becomes, scanned and unquoted. *)
Lemma scan_esc html a s r rest t :
  next_rune a s = (r, rest) -> scan_string (esc html r ++ t) = prepend (esc html r) (scan_string t).
Proof.
  intros Hn. destruct r as [c|m|c]; cbn [esc].
  - apply scan_shape with c, esc_ascii_shape. unfold next_rune in Hn.
    destruct (is_ascii a) eqn:Ea; [by simplify_eq|]. by destruct (rune_len _).
  - case_bool_decide; [reflexivity|]. case_bool_decide; [reflexivity|].
    eapply scan_high, multi_high, Hn.
  - reflexivity.
Qed.

Lemma unquote_esc html a s r rest t n :
  next_rune a s = (r, rest) ->
  unquote_fuel (S n) (esc html r ++ t) = clean_rune r ++ unquote_fuel n t.
Proof.
  intros Hn. destruct r as [c|m|c]; cbn [esc clean_rune rune_text].
  - assert (is_ascii c = true) as Hc.
    { unfold next_rune in Hn. destruct (is_ascii a) eqn:Ea; [by simplify_eq|].
      by destruct (rune_len _). }
    by apply unquote_shape, esc_ascii_shape.
  - case_bool_decide as E1; [|case_bool_decide as E2].
    + subst m. cbn [unquote_fuel app chars list_ascii_of_string].
      rewrite (eq_refl : eqc bs bs = true), (eq_refl : eqc "u" "u" = true).
      by rewrite (unquote_u_bmp _ _ _ _ 8232).
    + subst m. cbn [unquote_fuel app chars list_ascii_of_string].
      rewrite (eq_refl : eqc bs bs = true), (eq_refl : eqc "u" "u" = true).
      by rewrite (unquote_u_bmp _ _ _ _ 8233).
    + destruct (next_rune_app _ _ _ _ t Hn eq_refl) as (s' & Heq & Hn').
      cbn [rune_text] in Heq. rewrite Heq. cbn [unquote_fuel].
      apply multi_high in Hn. destruct m as [|a' m]; [by apply next_rune_text in Hn' as [_ ?]|].
      injection Heq as <- <-. apply Forall_cons in Hn as [Ha _].
      rewrite (high_not a' bs) by done. by rewrite Hn'.
  - cbn [unquote_fuel app chars list_ascii_of_string].
    rewrite (eq_refl : eqc bs bs = true), (eq_refl : eqc "u" "u" = true).
    by rewrite (unquote_u_bmp _ _ _ _ 65533).
Qed.

Lemma scan_body html s t :
  scan_string ((runes s ≫= esc html) ++ t) = prepend (runes s ≫= esc html) (scan_string t).
Proof.
  induction s as [|a s r rest Hn IH] using runes_ind.
  - simpl. by destruct (scan_string t) as [[]|].
  - rewrite runes_cons, Hn, bind_cons, <- app_assoc, (scan_esc _ _ _ _ _ _ Hn), IH.
    destruct (scan_string t) as [[]|]; simpl; [by rewrite <- app_assoc|done].
Qed.

Lemma unquote_body_fuel html s : forall n,
  length (runes s) <= n -> unquote_fuel n (runes s ≫= esc html) = clean s.
Proof.
  unfold clean. induction s as [|a s r rest Hn IH] using runes_ind; intros n Hlen.
  - by destruct n.
  - rewrite runes_cons, Hn in *. rewrite !bind_cons. destruct n as [|n]; [simpl in Hlen; lia|].
    rewrite (unquote_esc _ _ _ _ _ _ _ Hn), IH by (simpl in Hlen; lia). done.
Qed.

Lemma esc_nonempty html r : rune_text r <> [] -> 1 <= length (esc html r).
Proof.
  destruct r as [c|m|c]; cbn [esc rune_text]; intros H.
  - unfold esc_ascii. repeat case_match; simpl; lia.
  - repeat case_bool_decide; [simpl; lia..|]. destruct m; [done|]. simpl. lia.
  - simpl. lia.
Qed.

Lemma unquote_body html s : unquote (runes s ≫= esc html) = clean s.
Proof.
  unfold unquote. apply unquote_body_fuel.
  induction s as [|a s r rest Hn IH] using runes_ind; [simpl; lia|].
  rewrite runes_cons, Hn, bind_cons, length_app. simpl.
  pose proof (esc_nonempty html r (proj2 (next_rune_text _ _ _ _ Hn))). lia.
Qed.

(** A quoted string reads back as its runes. *)
Lemma scan_enc_str html s t :
  exists body, enc_str html s ++ t = dq :: body /\
    scan_string body = Some (runes (chars s) ≫= esc html, t) /\
    unquote (runes (chars s) ≫= esc html) = clean (chars s).
Proof.
  eexists. split; [unfold enc_str; cbn [app]; by rewrite <- app_assoc|]. cbn [app].
  rewrite scan_body, unquote_body. split; [|done]. cbn [scan_string].
  rewrite (eq_refl : eqc dq dq = true). cbn [prepend]. by rewrite app_nil_r.
Qed.

(** ** Lemmas: numbers *)

(** No character of [t]'s head could continue a number. *)
Definition ends_number (t : text) : Prop :=
  match t with
  | [] => True
  | c :: _ => digit c = false /\ c <> "."%char /\ c <> "e"%char /\ c <> "E"%char
  end.

Lemma digit_char c : is_digit_char c -> digit c = true.
Proof.
  unfold is_digit_char. rewrite list_elem_of_In. simpl. intros H.
  repeat (destruct H as [<-|H]; [reflexivity|]). done.
Qed.

Lemma span_digits_app ds t :
  Forall is_digit_char ds -> ends_number t -> span_digits (ds ++ t) = (ds, t).
Proof.
  intros Hds Ht. induction Hds as [|c ds Hc Hds IH].
  - destruct t as [|c t]; [done|]. simpl. by destruct Ht as [-> _].
  - simpl. by rewrite digit_char, IH.
Qed.

Lemma frac_exp_end t : ends_number t -> frac_part t = Some ([], t) /\ exp_part t = Some ([], t).
Proof.
  destruct t as [|c t]; [done|]. intros (_ & Hp & He & HE). unfold frac_part, exp_part, eqc.
  apply Ascii.eqb_neq in Hp, He, HE. by rewrite Hp, He, HE.
Qed.

Lemma scan_FormatInt z t :
  ends_number t -> scan_number (chars (FormatInt z) ++ t) = Some (chars (FormatInt z), t).
Proof.
  intros Ht. destruct (FormatInt_shape z) as (sign & body & -> & Hsign & Hbody).
  destruct (frac_exp_end t Ht) as [Hf He].
  assert (int_part (body ++ t) = Some (body, t)) as Hint.
  { destruct Hbody as [->|(c & ds & -> & Hc & Hds)]; [reflexivity|]. cbn [int_part app].
    apply Ascii.eqb_neq in Hc. unfold eqc. rewrite Hc. unfold digits1.
    change (c :: ds ++ t) with ((c :: ds) ++ t). by rewrite span_digits_app. }
  assert (scan_number (sign ++ body ++ t) =
    (p ← int_part (body ++ t); q ← frac_part p.2; r ← exp_part q.2;
     Some (sign ++ p.1 ++ q.1 ++ r.1, r.2))) as Hscan.
  { unfold scan_number. destruct Hsign as [-> | ->]; [|reflexivity]. cbn [app].
    destruct Hbody as [->|(c & ds & -> & Hc & Hds)]; [reflexivity|]. cbn [app].
    apply Forall_cons in Hds as [Hd _]. assert (eqc c "-" = false) as ->; [|done].
    apply Ascii.eqb_neq. intros ->. revert Hd. unfold is_digit_char. rewrite list_elem_of_In.
    simpl. intros Hd. by repeat (destruct Hd as [Hd|Hd]; [discriminate|]). }
  rewrite <- app_assoc, Hscan, Hint. cbn. rewrite Hf. cbn. rewrite He. cbn.
  by rewrite !app_nil_r.
Qed.

(** ** Lemmas: the scanner consumes its input *)
Lemma prepend_Some p o raw rest :
  prepend p o = Some (raw, rest) -> exists raw', o = Some (raw', rest) /\ raw = p ++ raw'.
Proof. destruct o as [[]|]; [|done]. intros [= <- <-]. eauto. Qed.

Lemma scan_string_shorter s raw rest :
  scan_string s = Some (raw, rest) -> length rest < length s.
Proof.
  remember (length s) as n eqn:Hn. revert s raw Hn.
  induction (lt_wf n) as [n _ IH]. intros [|c s1] raw Hn; [done|]. cbn [scan_string].
  destruct (eqc c dq); [intros [= _ <-]; simpl in Hn; lia|].
  destruct (eqc c bs).
  - destruct s1 as [|e s2]; [done|]. destruct (eqc e "u").
    + destruct s2 as [|h1 [|h2 [|h3 [|h4 s6]]]]; try done. case_match; [|done].
      intros (raw' & Hs & _)%prepend_Some. eapply (IH (length s6)) in Hs; simpl in *; lia.
    + case_match; [|done]. intros (raw' & Hs & _)%prepend_Some.
      eapply (IH (length s2)) in Hs; simpl in *; lia.
  - case_match; [done|]. intros (raw' & Hs & _)%prepend_Some.
    eapply (IH (length s1)) in Hs; simpl in *; lia.
Qed.

Lemma skip_ws_length s : length (skip_ws s) <= length s.
Proof. induction s as [|c s IH]; [done|]. simpl. case_match; simpl; lia. Qed.

Lemma strip_length p s rest : strip p s = Some rest -> length s = length p + length rest.
Proof.
  revert s. induction p as [|c p IH]; intros s; simpl; [by intros [= ->]|].
  destruct s as [|d s]; [done|]. case_match; [|done]. intros HH%IH. simpl. lia.
Qed.

Lemma span_digits_length s : length (span_digits s).1 + length (span_digits s).2 = length s.
Proof.
  induction s as [|c s IH]; [done|]. simpl. case_match; [|done].
  destruct (span_digits s). simpl in *. lia.
Qed.

Lemma digits1_shorter s p : digits1 s = Some p -> length p.2 < length s.
Proof.
  unfold digits1. pose proof (span_digits_length s) as H.
  destruct (span_digits s) as [[|c d] rest]; [done|]. intros [= <-]. simpl in *. lia.
Qed.

Lemma scan_number_shorter s p : scan_number s = Some p -> length p.2 < length s.
Proof.
  unfold scan_number.
  destruct (match s with
            | c :: s' => if eqc c "-" then ([c], s') else ([], s)
            | [] => ([], [])
            end) as [sign s1] eqn:Es.
  assert (length s1 <= length s) as Hs1.
  { destruct s; [by injection Es as <- <-|]. case_match; injection Es as <- <-; simpl; lia. }
  intros (p1 & H1 & (p2 & H2 & (p3 & H3 & [= <-])%bind_Some)%bind_Some)%bind_Some. simpl.
  assert (length p1.2 < length s1) as L1.
  { destruct s1; [done|]. unfold int_part in H1. case_match.
    - injection H1 as <-. simpl. lia.
    - by apply digits1_shorter in H1. }
  assert (length p2.2 <= length p1.2) as L2.
  { destruct p1 as [? [|c s2]]; simpl in *; [by injection H2 as <-|]. case_match.
    - destruct p2 as [? r]. apply prepend_Some in H2 as (? & H2%digits1_shorter & _).
      simpl in *. lia.
    - by injection H2 as <-. }
  assert (length p3.2 <= length p2.2) as L3.
  { destruct p2 as [? [|c s2]]; simpl in *; [by injection H3 as <-|]. case_match.
    - destruct s2 as [|g s2]; [done|]. destruct p3 as [? r]. case_match;
        apply prepend_Some in H3 as (? & H3%digits1_shorter & _); simpl in *; lia.
    - by injection H3 as <-. }
  lia.
Qed.

Lemma parse_shorter n :
  (forall d s p, parse_value n d s = Some p -> length p.2 < length s) /\
  (forall d s p, parse_elems n d s = Some p -> length p.2 < length s) /\
  (forall d s p, parse_members n d s = Some p -> length p.2 < length s).
Proof.
  induction n as [|n (IHv & IHe & IHm)]; [done|]. split_and!; intros d s p.
  - destruct s as [|c s1]; [done|]. cbn [parse_value].
    destruct (eqc c dq).
    { intros ([raw rest] & Hq & [= <-])%bind_Some. apply scan_string_shorter in Hq. simpl in *. lia. }
    pose proof (skip_ws_length s1) as Hw.
    destruct (eqc c "["); [|destruct (eqc c "{")].
    1,2: destruct (d <=? 0)%Z; [done|]; destruct (strip _ _) as [rest|] eqn:Er;
      [intros [= <-]; apply strip_length in Er; simpl in *; lia|];
      intros (q & Hq & [= <-])%bind_Some; first [apply IHe in Hq|apply IHm in Hq]; simpl in *; lia.
    destruct (eqc c "n"); [|destruct (eqc c "t"); [|destruct (eqc c "f")]].
    1,2,3: intros (rest & Hq & [= <-])%bind_Some; apply strip_length in Hq; simpl in *; lia.
    intros (q & Hq & [= <-])%bind_Some. by apply scan_number_shorter in Hq.
  - cbn [parse_elems]. intros (q & Hq & H)%bind_Some. apply IHv in Hq.
    pose proof (skip_ws_length q.2) as Hw. destruct (skip_ws q.2) as [|c rest]; [done|].
    destruct (eqc c ","); [|destruct (eqc c "]"); [|done]].
    + apply bind_Some in H as (r & Hr & [= <-]). apply IHe in Hr.
      pose proof (skip_ws_length rest). simpl in *. lia.
    + injection H as <-. simpl in *. lia.
  - cbn [parse_members].
    intros (s1 & H1 & ([k r1] & H2 & (s2 & H3 & (q & H4 & H)%bind_Some)%bind_Some)%bind_Some)%bind_Some.
    apply strip_length in H1, H3. apply scan_string_shorter in H2. apply IHv in H4.
    pose proof (skip_ws_length q.2) as Hw. pose proof (skip_ws_length r1).
    pose proof (skip_ws_length s2). simpl in *.
    destruct (skip_ws q.2) as [|c rest]; [done|].
    destruct (eqc c ","); [|destruct (eqc c "}"); [|done]].
    + apply bind_Some in H as (r & Hr & [= <-]). apply IHm in Hr.
      pose proof (skip_ws_length rest). simpl in *. lia.
    + injection H as <-. simpl in *. lia.
Qed.

(** Two units of fuel per character are enough: more change nothing. *)
Lemma parse_fuel m :
  (forall d s p, parse_value m d s = Some p ->
     forall n, 2 * length s + 1 <= n -> parse_value n d s = Some p) /\
  (forall d s p, parse_elems m d s = Some p ->
     forall n, 2 * length s + 2 <= n -> parse_elems n d s = Some p) /\
  (forall d s p, parse_members m d s = Some p ->
     forall n, 2 * length s + 2 <= n -> parse_members n d s = Some p).
Proof.
  induction m as [|m (IHv & IHe & IHm)]; [done|].
  split_and!; intros d s p H [|n] Hn; try lia.
  - destruct s as [|c s1]; [done|]. cbn [parse_value] in *.
    destruct (eqc c dq); [done|]. pose proof (skip_ws_length s1) as Hw. simpl in Hn.
    destruct (eqc c "["); [|destruct (eqc c "{"); [|done]].
    1,2: destruct (d <=? 0)%Z; [done|]; destruct (strip _ _); [done|];
      apply bind_Some in H as (q & Hq & [= <-]);
      first [rewrite (IHe _ _ _ Hq) by lia|rewrite (IHm _ _ _ Hq) by lia]; done.
  - cbn [parse_elems] in *. apply bind_Some in H as (q & Hq & H).
    rewrite (IHv _ _ _ Hq) by lia. cbn [mbind option_bind].
    apply parse_shorter in Hq. pose proof (skip_ws_length q.2) as Hw.
    destruct (skip_ws q.2) as [|c rest]; [done|].
    destruct (eqc c ","); [|done]. apply bind_Some in H as (r & Hr & [= <-]).
    pose proof (skip_ws_length rest). simpl in Hw.
    by rewrite (IHe _ _ _ Hr) by lia.
  - cbn [parse_members] in *.
    apply bind_Some in H as (s1 & H1 & ([k r1] & H2 & (s2 & H3 & (q & H4 & H)%bind_Some)%bind_Some)%bind_Some).
    rewrite H1. cbn [mbind option_bind]. rewrite H2. cbn [mbind option_bind fst snd] in *.
    rewrite H3. cbn [mbind option_bind].
    apply strip_length in H1, H3. apply scan_string_shorter in H2.
    pose proof (skip_ws_length r1). pose proof (skip_ws_length s2). simpl in H1, H3.
    rewrite (IHv _ _ _ H4) by lia. cbn [mbind option_bind].
    apply parse_shorter in H4. pose proof (skip_ws_length q.2) as Hw.
    destruct (skip_ws q.2) as [|c rest]; [done|].
    destruct (eqc c ","); [|done]. apply bind_Some in H as (r & Hr & [= <-]).
    pose proof (skip_ws_length rest). simpl in Hw.
    by rewrite (IHm _ _ _ Hr) by lia.
Qed.

(** More fuel than [parse] gives changes nothing: its [None] means malformed. *)
Lemma parse_enough s n :
  2 * length (chars s) + 1 <= n ->
  parse s = (p ← parse_value n max_depth (skip_ws (chars s));
             match skip_ws p.2 with [] => Some p.1 | _ => None end).
Proof.
  intros Hn. unfold parse. pose proof (skip_ws_length (chars s)) as Hw.
  destruct (parse_value n max_depth (skip_ws (chars s))) as [p|] eqn:E.
  - apply parse_fuel with (n := 2 * length (chars s) + 1) in E; [by rewrite E|lia].
  - destruct (parse_value (2 * _ + 1) _ _) as [p|] eqn:E'; [|done].
    apply parse_fuel with (n := n) in E'; [congruence|lia].
Qed.

(** ** Round trip *)

Fixpoint depth (v : json) : Z :=
  match v with
  | JArr l => 1 + foldr Z.max 0 (map depth l)
  | JObj l => 1 + foldr Z.max 0 (map (fun p => depth p.2) l)
  | _ => 0
  end%Z.

(** Every number is an integer, as in all the requests of the client. *)
Fixpoint integral (v : json) : Prop :=
  match v with
  | JNum lit => exists z, lit = FormatInt z
  | JArr l => foldr and True (map integral l)
  | JObj l => foldr and True (map (fun p => integral p.2) l)
  | _ => True
  end.

(** The strings of a value with U+FFFD for what is not UTF-8. *)
Definition clean_string (s : string) : string := str_of (clean (chars s)).

Fixpoint clean_json (v : json) : json :=
  match v with
  | JStr s => JStr (clean_string s)
  | JArr l => JArr (map clean_json l)
  | JObj l => JObj (map (fun p => (clean_string p.1, clean_json p.2)) l)
  | _ => v
  end.

Lemma str_of_chars s : str_of (chars s) = s.
Proof. apply string_of_list_ascii_of_string. Qed.

Lemma chars_str_of t : chars (str_of t) = t.
Proof. apply list_ascii_of_string_of_list_ascii. Qed.

Lemma clean_string_valid s : valid (chars s) = true -> clean_string s = s.
Proof. intros H. unfold clean_string. by rewrite clean_valid, str_of_chars. Qed.

(** The first character of a value: not white space and not a closing bracket. *)
Definition opens (c : ascii) : bool := negb (is_space c) && negb (eqc c "]") && negb (eqc c "}").

Lemma FormatInt_opens z : exists c t, chars (FormatInt z) = c :: t /\
  (c = "-"%char \/ is_digit_char c).
Proof.
  destruct (FormatInt_shape z) as (sign & body & -> & [->| ->] & Hb); [|by eauto].
  destruct Hb as [->|(c & ds & -> & _ & Hds)]; eexists _, _; split; try done; right.
  - unfold is_digit_char. rewrite list_elem_of_In. simpl. auto.
  - by apply Forall_cons in Hds as [? _].
Qed.

Lemma number_opens c : c = "-"%char \/ is_digit_char c -> opens c = true.
Proof.
  unfold is_digit_char. rewrite list_elem_of_In. simpl. intros H.
  destruct H as [->|H]; [reflexivity|].
  repeat (destruct H as [<-|H]; [reflexivity|]). done.
Qed.

Lemma enc_opens html v : integral v -> exists c t, enc html v = c :: t /\ opens c = true.
Proof.
  destruct v as [|[]|lit|s|l|l]; intros Hi; try by (eexists _, _; split; [done|reflexivity]).
  destruct Hi as [z ->]. destruct (FormatInt_opens z) as (c & t & Heq & Hc).
  exists c, t. split; [done|by apply number_opens].
Qed.

Lemma opens_skip c t : opens c = true -> skip_ws (c :: t) = c :: t.
Proof. unfold opens. simpl. by destruct (is_space c). Qed.

Lemma opens_strip c d t : opens c = true -> (d = "]" \/ d = "}")%char -> strip [d] (c :: t) = None.
Proof.
  unfold opens, eqc. intros Hc Hd. simpl. destruct (eqc d c) eqn:E; [|done].
  apply Ascii.eqb_eq in E as ->. by destruct Hd as [-> | ->].
Qed.

(** [v] reads back at depth [d], whatever follows. *)
Definition reads_back (html : bool) (d : Z) (v : json) : Prop :=
  forall t n, ends_number t -> 2 * length (enc html v ++ t) + 1 <= n ->
    parse_value n d (enc html v ++ t) = Some (clean_json v, t).

Lemma skip_ws_punct c t : is_space c = false -> skip_ws (c :: t) = c :: t.
Proof. simpl. by intros ->. Qed.

Lemma ends_punct c t : c = ","%char \/ c = "]"%char \/ c = "}"%char -> ends_number (c :: t).
Proof. by intros [-> | [-> | ->]]. Qed.

Lemma join_cons2 x y l : join (x :: y :: l) = x ++ ","%char :: join (y :: l).
Proof. done. Qed.

Lemma elems_read_back html d l t : forall n,
  Forall (reads_back html d) l -> Forall integral l -> l <> [] ->
  2 * length (join (map (enc html) l) ++ "]"%char :: t) + 2 <= n ->
  parse_elems n d (join (map (enc html) l) ++ "]"%char :: t) = Some (map clean_json l, t).
Proof.
  induction l as [|v l IH]; [done|]. intros [|n]; [lia|].
  intros [Hv Hl]%Forall_cons [Hiv Hi]%Forall_cons _ Hn. cbn [parse_elems].
  destruct l as [|v2 l].
  - cbn [join map] in *. rewrite Hv by (lia || (apply ends_punct; auto)). done.
  - cbn [map] in *. rewrite join_cons2, <- app_assoc in *. cbn [app] in *.
    rewrite Hv by (lia || (apply ends_punct; auto)). cbn [mbind option_bind fst snd].
    rewrite skip_ws_punct by done. rewrite (eq_refl : eqc "," "," = true).
    destruct (enc_opens html v2) as (c & r & Hc & Hop); [by apply Forall_cons in Hi as [? _]|].
    assert (exists r', join (enc html v2 :: map (enc html) l) = c :: r') as [r' Hr'].
    { rewrite Hc. destruct l; [by exists r|]. cbn [map]. rewrite join_cons2. by eexists. }
    rewrite Hr' in *. cbn [app]. rewrite opens_skip by done.
    change (c :: r' ++ "]"%char :: t) with ((c :: r') ++ "]"%char :: t).
    rewrite IH; [done|done|done|done|]. rewrite length_app in Hn. simpl in *. lia.
Qed.

Definition enc_member (html : bool) (p : string * json) : text :=
  enc_str html p.1 ++ ":"%char :: enc html p.2.

Definition clean_member (p : string * json) : string * json := (clean_string p.1, clean_json p.2).

Lemma member_read_back html d p t n :
  reads_back html d p.2 -> integral p.2 -> ends_number t ->
  2 * length (enc_member html p ++ t) + 1 <= n ->
  exists s1, strip [dq] (enc_member html p ++ t) = Some s1 /\
  exists r, scan_string s1 = Some r /\ str_of (unquote r.1) = clean_string p.1 /\
  exists s2, strip [":"%char] (skip_ws r.2) = Some s2 /\
    parse_value n d (skip_ws s2) = Some (clean_json p.2, t).
Proof.
  intros Hp Hi Ht Hn. unfold enc_member in *. rewrite <- app_assoc in *. cbn [app] in *.
  destruct (scan_enc_str html p.1 (":"%char :: enc html p.2 ++ t)) as (body & Hb & Hs & Hu).
  rewrite Hb in *. eexists. split; [reflexivity|]. eexists. split; [exact Hs|].
  split; [unfold clean_string; by rewrite <- Hu|]. eexists. split; [reflexivity|].
  destruct (enc_opens html p.2 Hi) as (c & r & Hc & Hop).
  assert (skip_ws (enc html p.2 ++ t) = enc html p.2 ++ t) as ->
    by (rewrite Hc; cbn [app]; by apply opens_skip).
  apply Hp; [done|]. apply scan_string_shorter in Hs. simpl in *. lia.
Qed.

Lemma members_read_back html d l t : forall n,
  Forall (fun p => reads_back html d p.2) l -> Forall (fun p => integral p.2) l -> l <> [] ->
  2 * length (join (map (enc_member html) l) ++ "}"%char :: t) + 2 <= n ->
  parse_members n d (join (map (enc_member html) l) ++ "}"%char :: t)
  = Some (map clean_member l, t).
Proof.
  induction l as [|p l IH]; [done|]. intros [|n]; [lia|].
  intros [Hp Hl]%Forall_cons [Hip Hi]%Forall_cons _ Hn. cbn [parse_members].
  destruct l as [|p2 l].
  - cbn [join map] in *.
    destruct (member_read_back html d p ("}"%char :: t) n)
      as (s1 & -> & r & Hs & Hk & s2 & H2 & H3); [done|done|apply ends_punct; auto|lia|].
    cbn [mbind option_bind]. rewrite Hs. cbn [mbind option_bind]. rewrite H2.
    cbn [mbind option_bind]. rewrite H3. cbn [mbind option_bind fst snd].
    rewrite skip_ws_punct by done. by rewrite Hk.
  - cbn [map] in *. rewrite join_cons2, <- app_assoc in *. cbn [app] in *.
    destruct (member_read_back html d p
                (","%char :: join (enc_member html p2 :: map (enc_member html) l) ++ "}"%char :: t)
                n)
      as (s1 & -> & r & Hs & Hk & s2 & H2 & H3); [done|done|apply ends_punct; auto|lia|].
    cbn [mbind option_bind]. rewrite Hs. cbn [mbind option_bind]. rewrite H2.
    cbn [mbind option_bind]. rewrite H3. cbn [mbind option_bind fst snd].
    rewrite skip_ws_punct by done. rewrite (eq_refl : eqc "," "," = true), Hk.
    assert (exists r', join (enc_member html p2 :: map (enc_member html) l) = dq :: r') as [r' Hr'].
    { destruct l; [by eexists|]. cbn [map]. rewrite join_cons2. by eexists. }
    rewrite Hr' in *. cbn [app]. rewrite (skip_ws_punct dq) by done.
    change (dq :: r' ++ "}"%char :: t) with ((dq :: r') ++ "}"%char :: t).
    rewrite IH; [done|done|done|done|]. rewrite length_app in Hn. simpl in *. lia.
Qed.

Lemma foldr_and_Forall {A} (P : A -> Prop) l : foldr and True (map P l) <-> Forall P l.
Proof.
  induction l as [|x l IH]; simpl; [by split|]. by rewrite Forall_cons, IH.
Qed.

Lemma foldr_max_le {A} (f : A -> Z) l d :
  (0 <= d)%Z -> (foldr Z.max 0 (map f l) <= d)%Z <-> Forall (fun x => f x <= d)%Z l.
Proof.
  intros Hd. induction l as [|x l IH]; simpl; [by split|]. rewrite Forall_cons, <- IH. lia.
Qed.

Lemma number_reads_back html d z : reads_back html d (JInt z).
Proof.
  intros t [|n] Ht Hn; [lia|].
  destruct (FormatInt_opens z) as (c & r & Hc & Hop).
  unfold JInt in *. cbn [enc clean_json]. pose proof (scan_FormatInt z t Ht) as Hs. rewrite Hc in *. cbn [app] in *.
  cbn [parse_value].
  assert (eqc c dq = false /\ eqc c "[" = false /\ eqc c "{" = false /\ eqc c "n" = false /\
          eqc c "t" = false /\ eqc c "f" = false) as (-> & -> & -> & -> & -> & ->).
  { unfold is_digit_char in Hop. rewrite list_elem_of_In in Hop. simpl in Hop.
    destruct Hop as [->|Hop]; [by split_and!|].
    repeat (destruct Hop as [<-|Hop]; [by split_and!|]). done. }
  rewrite Hs. cbn [mbind option_bind fst snd]. by rewrite <- Hc, str_of_chars.
Qed.

Lemma array_reads_back html d l :
  Forall (fun v => forall d, integral v -> (depth v <= d)%Z -> reads_back html d v) l ->
  integral (JArr l) -> (depth (JArr l) <= d)%Z -> reads_back html d (JArr l).
Proof.
  intros IH Hi Hd t [|n] Ht Hn; [lia|].
  cbn [enc clean_json] in *. cbn [app parse_value].
  rewrite (eq_refl : eqc "[" dq = false), (eq_refl : eqc "[" "[" = true).
  cbn [depth] in Hd. cbn [integral] in Hi. apply foldr_and_Forall in Hi.
  assert (0 <= foldr Z.max 0 (map depth l))%Z by (clear; induction l; simpl; lia).
  destruct (Z.leb_spec d 0); [lia|]. rewrite <- app_assoc. cbn [app].
  destruct l as [|x l]; [reflexivity|].
  assert (Forall (reads_back html (d - 1)) (x :: l)) as Hl.
  { assert (Forall (fun x => depth x <= d - 1)%Z (x :: l)) as Hd' by (apply foldr_max_le; lia).
    rewrite Forall_forall in IH, Hi, Hd'. apply Forall_forall. intros y Hy. apply IH; auto. }
  assert (exists c r, join (map (enc html) (x :: l)) = c :: r /\ opens c = true) as (c & r & Hr & Hop).
  { destruct (enc_opens html x) as (c & r & Hc & Hop); [by apply Forall_cons in Hi as [? _]|].
    cbn [map]. destruct l; [by eauto|]. cbn [map]. rewrite join_cons2, Hc. eexists _, _. by split. }
  pose proof (elems_read_back html (d - 1) (x :: l) t n Hl Hi) as He. rewrite Hr in *.
  cbn [app] in *. rewrite opens_skip, opens_strip by auto.
  rewrite He; [done|done|]. simpl in Hn |- *. rewrite !length_app in *. simpl in *. lia.
Qed.

Lemma object_reads_back html d l :
  Forall (fun p => forall d, integral p.2 -> (depth p.2 <= d)%Z -> reads_back html d p.2) l ->
  integral (JObj l) -> (depth (JObj l) <= d)%Z -> reads_back html d (JObj l).
Proof.
  intros IH Hi Hd t [|n] Ht Hn; [lia|].
  cbn [enc clean_json] in *. cbn [app parse_value].
  rewrite (eq_refl : eqc "{" dq = false), (eq_refl : eqc "{" "[" = false),
    (eq_refl : eqc "{" "{" = true).
  cbn [depth] in Hd. cbn [integral] in Hi. apply foldr_and_Forall in Hi.
  assert (0 <= foldr Z.max 0 (map (fun p => depth p.2) l))%Z by (clear; induction l; simpl; lia).
  destruct (Z.leb_spec d 0); [lia|]. rewrite <- app_assoc. cbn [app].
  destruct l as [|x l]; [reflexivity|].
  assert (Forall (fun p => reads_back html (d - 1) p.2) (x :: l)) as Hl.
  { assert (Forall (fun p => depth p.2 <= d - 1)%Z (x :: l)) as Hd' by (apply foldr_max_le; lia).
    rewrite Forall_forall in IH, Hi, Hd'. apply Forall_forall. intros y Hy. apply IH; auto. }
  assert (exists r, join (map (enc_member html) (x :: l)) = dq :: r) as [r Hr].
  { cbn [map]. destruct l; [by eexists|]. cbn [map]. rewrite join_cons2. by eexists. }
  pose proof (members_read_back html (d - 1) (x :: l) t n Hl Hi) as He.
  fold (enc_member html) in Hn |- *. rewrite Hr in *.
  cbn [app] in *. rewrite skip_ws_punct by done. rewrite (eq_refl : strip ["}"%char] (dq :: _) = None).
  rewrite He; [done|done|]. simpl in Hn |- *. rewrite !length_app in *. simpl in *. lia.
Qed.

Lemma value_reads_back html v : forall d, integral v -> (depth v <= d)%Z -> reads_back html d v.
Proof.
  induction v as [|b|lit|s|l IH|l IH] using json_ind'; intros d Hi Hd.
  - intros t [|n] Ht Hn; [lia|]. reflexivity.
  - intros t [|n] Ht Hn; [lia|]. by destruct b.
  - destruct Hi as [z ->]. apply number_reads_back.
  - intros t [|n] Ht Hn; [lia|].
    destruct (scan_enc_str html s t) as (body & Hb & Hs & Hu).
    cbn [enc clean_json] in *. rewrite Hb in *. cbn [parse_value].
    rewrite (eq_refl : eqc dq dq = true), Hs. cbn [mbind option_bind fst snd]. by rewrite Hu.
  - by apply array_reads_back.
  - by apply object_reads_back.
Qed.

Lemma parse_enc html v w :
  integral v -> (depth v <= max_depth)%Z -> Forall (fun c => is_space c = true) w ->
  parse (str_of (enc html v ++ w)) = Some (clean_json v).
Proof.
  intros Hi Hd Hw. unfold parse. rewrite chars_str_of.
  destruct (enc_opens html v Hi) as (c & r & Hc & Hop).
  assert (skip_ws (enc html v ++ w) = enc html v ++ w) as ->
    by (rewrite Hc; cbn [app]; by apply opens_skip).
  assert (skip_ws w = []) as Hsw.
  { induction Hw as [|x w Hx Hw IH]; [done|]. simpl. by rewrite Hx. }
  rewrite (value_reads_back html v max_depth); [|done|done| |lia].
  - cbn [mbind option_bind fst snd]. by rewrite Hsw.
  - destruct Hw as [|x w Hx Hw]; [done|]. unfold is_space in Hx. simpl in Hx.
    repeat (apply orb_true_iff in Hx as [Hx|Hx]; [apply Ascii.eqb_eq in Hx as ->; by split_and!|]).
    done.
Qed.
