(* ===== verification/Models.v ===== *)
(** * The values read nodes send, and how encoding/json fills them in

    transaction.go, block.go, last_block.go, ns.go, received messages and the
    HTTP response types, with the decoder of each. A decoder takes the value
    the destination already holds, as [Unmarshal] does: [null] leaves a plain
    field alone, a repeated key decodes again into what is there. *)
From S2P Require Import Prelude GoText Errors Types Utf8 Json.

(** What is not modelled of the standard library: which numbers overflow a
    float64, and the texts [time.Time] accepts. *)
Class GoValues := {
  Time : Type;
  zero_time : Time;
  parse_time : string -> option Time;
  float_ok : string -> bool;
}.

(** ** encoding/base64, [StdEncoding] *)
Module Base64.

Definition alphabet : string :=
  "ABCDEFGHIJKLMNOPQRSTUVWXYZabcdefghijklmnopqrstuvwxyz0123456789+/".

Definition enc6 (n : Z) : ascii := default "A"%char (String.get (Z.to_nat n) alphabet).

Definition dec6 (c : ascii) : option Z :=
  if between 65 90 c then Some (ac c - 65)%Z
  else if between 97 122 c then Some (ac c - 71)%Z
  else if between 48 57 c then Some (ac c + 4)%Z
  else if eqc c "+" then Some 62%Z
  else if eqc c "/" then Some 63%Z
  else None.

Fixpoint encode (b : bytes) : text :=
  match b with
  | [] => []
  | [x] =>
      [enc6 (Z.shiftr (bz x) 2); enc6 (Z.shiftl (Z.land (bz x) 3) 4); "="%char; "="%char]
  | [x; y] =>
      [enc6 (Z.shiftr (bz x) 2);
       enc6 (Z.lor (Z.shiftl (Z.land (bz x) 3) 4) (Z.shiftr (bz y) 4));
       enc6 (Z.shiftl (Z.land (bz y) 15) 2); "="%char]
  | x :: y :: z :: b' =>
      enc6 (Z.shiftr (bz x) 2)
      :: enc6 (Z.lor (Z.shiftl (Z.land (bz x) 3) 4) (Z.shiftr (bz y) 4))
      :: enc6 (Z.lor (Z.shiftl (Z.land (bz y) 15) 2) (Z.shiftr (bz z) 6))
      :: enc6 (Z.land (bz z) 63) :: encode b'
  end.

(** Quanta of four characters; padding only at the end. *)
Fixpoint decode_quanta (s : text) : option bytes :=
  match s with
  | [] => Some []
  | a :: b :: c :: d :: s' =>
      p ← dec6 a; q ← dec6 b;
      let x := zb (Z.lor (Z.shiftl p 2) (Z.shiftr q 4)) in
      if eqc c "=" then
        if eqc d "=" then match s' with [] => Some [x] | _ => None end else None
      else
        r ← dec6 c;
        let y := zb (Z.lor (Z.shiftl q 4) (Z.shiftr r 2)) in
        if eqc d "=" then match s' with [] => Some [x; y] | _ => None end
        else
          u ← dec6 d;
          rest ← decode_quanta s';
          Some (x :: y :: zb (Z.lor (Z.shiftl r 6) u) :: rest)
  | _ => None
  end.

(** Line breaks are skipped. *)
Definition decode (s : text) : option bytes :=
  decode_quanta (List.filter (fun c => negb (eqc c "010" || eqc c "013")) s).

Lemma dec_enc6 n : (0 <= n < 64)%Z ->
  dec6 (enc6 n) = Some n /\ eqc (enc6 n) "=" = false /\
  negb (eqc (enc6 n) "010" || eqc (enc6 n) "013") = true.
Proof.
  intros Hn. assert (exists k, n = Z.of_nat k /\ k < 64) as (k & -> & Hk)
    by (exists (Z.to_nat n); lia). clear Hn.
  do 64 (destruct k as [|k]; [by vm_compute|]). lia.
Qed.

(** Disjoint bits add up. *)
Lemma lor_add a b k :
  (0 <= k)%Z -> (0 <= b < 2 ^ k)%Z -> Z.lor (Z.shiftl a k) b = (a * 2 ^ k + b)%Z.
Proof.
  intros Hk Hb. rewrite <- Z.shiftl_mul_pow2 by lia. rewrite <- Z.add_lor_land.
  assert (Z.land (Z.shiftl a k) b = 0%Z) as ->; [|lia]. apply Z.bits_inj_0. intros m.
  rewrite Z.land_spec. destruct (Z.ltb_spec m k).
  - by rewrite Z.shiftl_spec_low.
  - rewrite <- (Z.mod_small b (2 ^ k)), Z.mod_pow2_bits_high, andb_false_r by lia. done.
Qed.

(** [lia] with division and remainder by constants. *)
Ltac dlia := Z.to_euclidean_division_equations; lia.

(** Shifting a sextet right and gluing two of them back into a byte. *)
Lemma sextets x y z :
  (0 <= x < 256)%Z -> (0 <= y < 256)%Z -> (0 <= z < 256)%Z ->
  let p := Z.shiftr x 2 in
  let q := Z.lor (Z.shiftl (Z.land x 3) 4) (Z.shiftr y 4) in
  let r := Z.lor (Z.shiftl (Z.land y 15) 2) (Z.shiftr z 6) in
  let u := Z.land z 63 in
  (0 <= p < 64)%Z /\ (0 <= q < 64)%Z /\ (0 <= r < 64)%Z /\ (0 <= u < 64)%Z /\
  (Z.lor (Z.shiftl p 2) (Z.shiftr q 4) mod 256 = x)%Z /\
  (Z.lor (Z.shiftl q 4) (Z.shiftr r 2) mod 256 = y)%Z /\
  (Z.lor (Z.shiftl r 6) u mod 256 = z)%Z.
Proof.
  intros Hx Hy Hz p q r u.
  assert (p = x / 4)%Z as Hp by (unfold p; by rewrite Z.shiftr_div_pow2).
  assert (u = z mod 64)%Z as Hu.
  { unfold u. change 63%Z with (Z.ones 6). by rewrite Z.land_ones. }
  assert (q = x mod 4 * 16 + y / 16)%Z as Hq.
  { unfold q. rewrite Z.shiftr_div_pow2 by lia. change 3%Z with (Z.ones 2).
    rewrite Z.land_ones by lia. rewrite lor_add; [done|lia|]. change (2 ^ 4)%Z with 16%Z. dlia. }
  assert (r = y mod 16 * 4 + z / 64)%Z as Hr.
  { unfold r. rewrite Z.shiftr_div_pow2 by lia. change 15%Z with (Z.ones 4).
    rewrite Z.land_ones by lia. rewrite lor_add; [done|lia|]. change (2 ^ 6)%Z with 64%Z. dlia. }
  clearbody p q r u.
  assert (0 <= p < 64 /\ 0 <= q < 64 /\ 0 <= r < 64 /\ 0 <= u < 64)%Z as (? & ? & ? & ?)
    by (split_and!; dlia).
  split_and!; try done; try lia.
  - rewrite Z.shiftr_div_pow2 by lia. change (2 ^ 4)%Z with 16%Z.
    rewrite lor_add by (change (2 ^ 2)%Z with 4%Z; dlia). change (2 ^ 2)%Z with 4%Z. dlia.
  - rewrite Z.shiftr_div_pow2 by lia. change (2 ^ 2)%Z with 4%Z.
    rewrite lor_add by (change (2 ^ 4)%Z with 16%Z; dlia). change (2 ^ 4)%Z with 16%Z. dlia.
  - rewrite lor_add by (change (2 ^ 6)%Z with 64%Z; dlia). change (2 ^ 6)%Z with 64%Z. dlia.
Qed.

Lemma zb_mod z b : (z mod 256)%Z = bz b -> zb z = b.
Proof.
  intros H. rewrite <- (zb_bz b), <- H. unfold zb. by rewrite Z.mod_mod by lia.
Qed.
Lemma triple_ind (P : bytes -> Prop) :
  P [] -> (forall x, P [x]) -> (forall x y, P [x; y]) ->
  (forall x y z b, P b -> P (x :: y :: z :: b)) -> forall b, P b.
Proof.
  intros H0 H1 H2 H3 b. enough (P b /\ (forall x, P (x :: b)) /\ forall x y, P (x :: y :: b)) by tauto.
  induction b as [|z b (IH0 & IH1 & IH2)]; [by auto|]. split_and!; auto.
Qed.

Lemma quanta_encode b : decode_quanta (encode b) = Some b.
Proof.
  induction b as [|x|x y|x y z b IH] using triple_ind; [done|..].
  - by destruct x.
  - destruct (sextets (bz x) (bz y) 0 (bz_range x) (bz_range y) ltac:(lia))
      as (Hp & Hq & Hr & _ & Ex & Ey & _).
    rewrite Z.shiftr_0_l, Z.lor_0_r in Hr, Ey. cbn [encode decode_quanta].
    destruct (dec_enc6 _ Hp) as [-> _], (dec_enc6 _ Hq) as [-> _], (dec_enc6 _ Hr) as (-> & -> & _).
    cbn [mbind option_bind]. rewrite (eq_refl : eqc "=" "=" = true).
    by rewrite (zb_mod _ _ Ey), (zb_mod _ x).
  - destruct (sextets (bz x) (bz y) (bz z) (bz_range x) (bz_range y) (bz_range z))
      as (Hp & Hq & Hr & Hu & Ex & Ey & Ez).
    cbn [encode decode_quanta].
    destruct (dec_enc6 _ Hp) as [-> _], (dec_enc6 _ Hq) as [-> _], (dec_enc6 _ Hr) as (-> & -> & _),
      (dec_enc6 _ Hu) as (-> & -> & _).
    cbn [mbind option_bind]. rewrite IH. cbn [mbind option_bind].
    by rewrite (zb_mod _ _ Ex), (zb_mod _ _ Ey), (zb_mod _ _ Ez).
Qed.

Lemma decode_encode b : decode (encode b) = Some b.
Proof.
  unfold decode. rewrite <- (quanta_encode b). f_equal.
  induction b as [|x|x y|x y z b IH] using triple_ind; [done|by destruct x|..].
  - destruct (sextets (bz x) (bz y) 0 (bz_range x) (bz_range y) ltac:(lia))
      as (Hp & Hq & Hr & _). rewrite Z.shiftr_0_l, Z.lor_0_r in Hr.
    cbn [encode List.filter].
    destruct (dec_enc6 _ Hp) as (_ & _ & ->), (dec_enc6 _ Hq) as (_ & _ & ->),
      (dec_enc6 _ Hr) as (_ & _ & ->). done.
  - destruct (sextets (bz x) (bz y) (bz z) (bz_range x) (bz_range y) (bz_range z))
      as (Hp & Hq & Hr & Hu & _).
    cbn [encode List.filter].
    destruct (dec_enc6 _ Hp) as (_ & _ & ->), (dec_enc6 _ Hq) as (_ & _ & ->),
      (dec_enc6 _ Hr) as (_ & _ & ->), (dec_enc6 _ Hu) as (_ & _ & ->). by rewrite IH.
Qed.

End Base64.

(** ** Decoders *)

(** A decoder: the destination's value, the JSON, the new value or an error.
    [Unmarshal] goes on after a type error, but reports it in the end, and no
    caller looks at a value it filled in then. *)
Definition decoder (A : Type) : Type := A -> json -> option A.

Definition dec_string : decoder string := fun cur j =>
  match j with JStr s => Some s | JNull => Some cur | _ => None end.

Definition dec_bool : decoder bool := fun cur j =>
  match j with JBool b => Some b | JNull => Some cur | _ => None end.

(** [strconv.ParseInt] of a number, within [lo, hi]. *)
Definition in_bounds (lo hi : Z) (lit : string) : option Z :=
  z ← ParseInt lit; if (lo <=? z)%Z && (z <=? hi)%Z then Some z else None.

Definition dec_int : decoder Z := fun cur j =>
  match j with
  | JNum lit => in_bounds (- 2 ^ 63) (2 ^ 63 - 1) lit
  | JNull => Some cur
  | _ => None
  end.

(** [strconv.ParseUint] accepts no sign. *)
Definition dec_uint (bits : Z) : decoder Z := fun cur j =>
  match j with
  | JNum lit => if String.prefix "-" lit then None else in_bounds 0 (2 ^ bits - 1) lit
  | JNull => Some cur
  | _ => None
  end.

(** A pointer: allocated when nil. *)
Definition dec_ptr {A} (zero : A) (dec : decoder A) : decoder (option A) := fun cur j =>
  match j with JNull => Some None | _ => Some <$> dec (default zero cur) j end.

(** The elements of a slice are decoded into the ones it has, in order; what
    an array holds beyond its slice's length counts as zero. *)
Fixpoint dec_elems {A} (zero : A) (dec : decoder A) (cur : list A) (l : list json)
    : option (list A) :=
  match l with
  | [] => Some []
  | j :: l' =>
      x ← dec (default zero (head cur)) j;
      xs ← dec_elems zero dec (tail cur) l';
      Some (x :: xs)
  end.

Definition dec_slice {A} (zero : A) (dec : decoder A) : decoder (slice A) := fun cur j =>
  match j with
  | JNull => Some None
  | JArr l => Some <$> dec_elems zero dec (elems cur) l
  | _ => None
  end.

(** [[]byte]: base64, or an array of numbers. *)
Definition dec_bytes : decoder (slice byte) := fun cur j =>
  match j with
  | JNull => Some None
  | JStr s => b ← Base64.decode (chars s); Some (Some b)
  | JArr l => zs ← dec_elems 0%Z (dec_uint 8) (map bz (elems cur)) l; Some (Some (map zb zs))
  | _ => None
  end.

(** [map[string]string]: every value starts from the empty string. *)
Fixpoint dec_members (m : gmap string string) (l : list (string * json))
    : option (gmap string string) :=
  match l with
  | [] => Some m
  | (k, j) :: l' => v ← dec_string "" j; dec_members (<[k := v]> m) l'
  end.

Definition dec_map : decoder (option (gmap string string)) := fun cur j =>
  match j with
  | JNull => Some None
  | JObj l => Some <$> dec_members (default ∅ cur) l
  | _ => None
  end.

(** An [interface{}]: nil, or the Go value of a JSON value, kept as the JSON. *)
Inductive any := AnyNil | AnyValue (j : json).

(** *** Structs *)

(** [foldName], for comparison with the ASCII names of fields: letters in upper
    case, and the two other runes that fold to an ASCII letter. *)
Definition upper (c : ascii) : ascii := if between 97 122 c then ca (ac c - 32) else c.

Definition fold_rune (r : rune) : text :=
  match r with
  | RAscii c => [upper c]
  | RMulti s =>
      if bool_decide (s = [ca 197; ca 191]) then ["S"%char]
      else if bool_decide (s = [ca 226; ca 132; ca 170]) then ["K"%char]
      else s
  | RBad _ => replacement
  end.

Definition fold_name (s : string) : text := runes (chars s) ≫= fold_rune.

Definition field (T : Type) : Type := string * decoder T.

(** The field a key names: exactly, or else up to case. *)
Definition find_field {T} (fields : list (field T)) (key : string) : option (decoder T) :=
  match List.find (fun f => String.eqb f.1 key) fields with
  | Some f => Some f.2
  | None =>
      snd <$> List.find (fun f => bool_decide (fold_name f.1 = fold_name key)) fields
  end.

(** Unknown keys are skipped. *)
Fixpoint dec_fields {T} (fields : list (field T)) (cur : T) (l : list (string * json)) : option T :=
  match l with
  | [] => Some cur
  | (k, j) :: l' =>
      match find_field fields k with
      | Some dec => cur' ← dec cur j; dec_fields fields cur' l'
      | None => dec_fields fields cur l'
      end
  end.

Definition dec_struct {T} (fields : list (field T)) : decoder T := fun cur j =>
  match j with
  | JNull => Some cur
  | JObj l => dec_fields fields cur l
  | _ => None
  end.

(** A field of type [A], read and written by [get] and [set]. *)
Definition fld_dec {T A} (get : T -> A) (set : A -> T -> T) (dec : decoder A) : decoder T :=
  fun cur j => (fun x => set x cur) <$> dec (get cur) j.

Definition fld {T A} (name : string) (get : T -> A) (set : A -> T -> T) (dec : decoder A) : field T :=
  (name, fld_dec get set dec).

(** One member of an object, into one field. *)
Lemma dec_fields_fld {T A} (fields : list (field T)) (cur : T) k j l
    (get : T -> A) (set : A -> T -> T) dec x :
  find_field fields k = Some (fld_dec get set dec) -> dec (get cur) j = Some x ->
  dec_fields fields cur ((k, j) :: l) = dec_fields fields (set x cur) l.
Proof. intros Hf Hd. cbn [dec_fields]. rewrite Hf. unfold fld_dec. by rewrite Hd. Qed.

(** ** transaction.go *)
Record Bytea := mk_Bytea { Bytes : slice byte; BStatus : Z }.

Definition zero_Bytea : Bytea := mk_Bytea None 0.

Definition dec_Bytea : decoder Bytea := dec_struct
  [fld "Bytes" Bytes (fun x b => mk_Bytea x (BStatus b)) dec_bytes;
   fld "Status" BStatus (fun x b => mk_Bytea (Bytes b) x) dec_int].

Section models.
Context `{GoValues}.

(** [time.Time] parses its own JSON text; here, the unescaped string. *)
Definition dec_time : decoder Time := fun cur j =>
  match j with JStr s => parse_time s | JNull => Some cur | _ => None end.

(** Every number inside must fit a float64. *)
Fixpoint floats_ok (j : json) : bool :=
  match j with
  | JNum lit => float_ok lit
  | JArr l => forallb floats_ok l
  | JObj l => forallb (fun p => floats_ok p.2) l
  | _ => true
  end.

Definition dec_any : decoder any := fun cur j =>
  match j with
  | JNull => Some AnyNil
  | _ => if floats_ok j then Some (AnyValue j) else None
  end.

Record Transaction := mk_Transaction {
  Order : option Z;
  ID : any;
  Height : Z;
  Identifier : string;
  Version : Z;
  Typ : TxType;
  SenderAddr : string;
  RecipientAddr : string;
  TData : Bytea;
  AdditionalData : option Bytea;
  CipherData : option Bytea;
  Sign : Bytea;
  Fee : Z;
  Hash : string;
  InsertedAt : Time;
}.

Definition zero_Transaction : Transaction :=
  mk_Transaction None AnyNil 0 "" 0 "" "" "" zero_Bytea None None zero_Bytea 0 "" zero_time.

Definition dec_Transaction : decoder Transaction := dec_struct
  [fld "order" Order (fun x '(mk_Transaction _ b c d e f g h i j k l m n o) =>
     mk_Transaction x b c d e f g h i j k l m n o) (dec_ptr 0%Z (dec_uint 64));
   fld "id" ID (fun x '(mk_Transaction a _ c d e f g h i j k l m n o) =>
     mk_Transaction a x c d e f g h i j k l m n o) dec_any;
   fld "height" Height (fun x '(mk_Transaction a b _ d e f g h i j k l m n o) =>
     mk_Transaction a b x d e f g h i j k l m n o) (dec_uint 64);
   fld "identifier" Identifier (fun x '(mk_Transaction a b c _ e f g h i j k l m n o) =>
     mk_Transaction a b c x e f g h i j k l m n o) dec_string;
   fld "version" Version (fun x '(mk_Transaction a b c d _ f g h i j k l m n o) =>
     mk_Transaction a b c d x f g h i j k l m n o) (dec_uint 64);
   fld "typ" Typ (fun x '(mk_Transaction a b c d e _ g h i j k l m n o) =>
     mk_Transaction a b c d e x g h i j k l m n o) dec_string;
   fld "sender_addr" SenderAddr (fun x '(mk_Transaction a b c d e f _ h i j k l m n o) =>
     mk_Transaction a b c d e f x h i j k l m n o) dec_string;
   fld "recipient_addr" RecipientAddr (fun x '(mk_Transaction a b c d e f g _ i j k l m n o) =>
     mk_Transaction a b c d e f g x i j k l m n o) dec_string;
   fld "data" TData (fun x '(mk_Transaction a b c d e f g h _ j k l m n o) =>
     mk_Transaction a b c d e f g h x j k l m n o) dec_Bytea;
   fld "additional_data" AdditionalData (fun x '(mk_Transaction a b c d e f g h i _ k l m n o) =>
     mk_Transaction a b c d e f g h i x k l m n o) (dec_ptr zero_Bytea dec_Bytea);
   fld "cipher_data" CipherData (fun x '(mk_Transaction a b c d e f g h i j _ l m n o) =>
     mk_Transaction a b c d e f g h i j x l m n o) (dec_ptr zero_Bytea dec_Bytea);
   fld "sign" Sign (fun x '(mk_Transaction a b c d e f g h i j k _ m n o) =>
     mk_Transaction a b c d e f g h i j k x m n o) dec_Bytea;
   fld "fee" Fee (fun x '(mk_Transaction a b c d e f g h i j k l _ n o) =>
     mk_Transaction a b c d e f g h i j k l x n o) (dec_uint 64);
   fld "hash" Hash (fun x '(mk_Transaction a b c d e f g h i j k l m _ o) =>
     mk_Transaction a b c d e f g h i j k l m x o) dec_string;
   fld "inserted_at" InsertedAt (fun x '(mk_Transaction a b c d e f g h i j k l m n _) =>
     mk_Transaction a b c d e f g h i j k l m n x) dec_time].

(** [[]*Transaction]. *)
Definition dec_Transactions : decoder (slice (option Transaction)) :=
  dec_slice None (dec_ptr zero_Transaction dec_Transaction).

(** ** block.go *)
Record Block := mk_Block {
  BHeight : Z;
  BTXS : Z;
  BHash : option string;
  Transactions : slice (option Transaction);
  BChainName : option string;
  BChainVersion : option string;
}.

Definition zero_Block : Block := mk_Block 0 0 None None None None.

Definition dec_Block : decoder Block := dec_struct
  [fld "height" BHeight (fun x '(mk_Block _ b c d e f) => mk_Block x b c d e f) (dec_uint 64);
   fld "txs" BTXS (fun x '(mk_Block a _ c d e f) => mk_Block a x c d e f) dec_int;
   fld "hash" BHash (fun x '(mk_Block a b _ d e f) => mk_Block a b x d e f) (dec_ptr "" dec_string);
   fld "transactions" Transactions (fun x '(mk_Block a b c _ e f) => mk_Block a b c x e f)
     dec_Transactions;
   fld "chain_name" BChainName (fun x '(mk_Block a b c d _ f) => mk_Block a b c d x f)
     (dec_ptr "" dec_string);
   fld "chain_version" BChainVersion (fun x '(mk_Block a b c d e _) => mk_Block a b c d e x)
     (dec_ptr "" dec_string)].

(** ** last_block.go *)
Record LastBlock := mk_LastBlock { Blocks : slice (option Transaction); LTotalCount : Z }.

Definition zero_LastBlock : LastBlock := mk_LastBlock None 0.

Definition dec_LastBlock : decoder LastBlock := dec_struct
  [fld "data" Blocks (fun x '(mk_LastBlock _ b) => mk_LastBlock x b) dec_Transactions;
   fld "total_count" LTotalCount (fun x '(mk_LastBlock a _) => mk_LastBlock a x) (dec_uint 64)].

(** ** search.go, summary.go and broadcast.go: the responses *)
Record SearchResponse := mk_SearchResponse { TXS : slice (option Transaction); STotalCount : Z }.

Definition zero_SearchResponse : SearchResponse := mk_SearchResponse None 0.

Definition dec_SearchResponse : decoder SearchResponse := dec_struct
  [fld "data" TXS (fun x '(mk_SearchResponse _ b) => mk_SearchResponse x b) dec_Transactions;
   fld "total_count" STotalCount (fun x '(mk_SearchResponse a _) => mk_SearchResponse a x)
     (dec_uint 64)].

(** The anonymous struct [Data] of [SummaryResponse], then the response. *)
Record SummaryData := mk_SummaryData { LastBlockHeight : Z; LastTransaction : option Transaction }.
Record SummaryResponse := mk_SummaryResponse { SData : SummaryData; SumTotalCount : Z }.

Definition zero_SummaryResponse : SummaryResponse :=
  mk_SummaryResponse (mk_SummaryData 0 None) 0.

Definition dec_SummaryData : decoder SummaryData := dec_struct
  [fld "last_block_height" LastBlockHeight (fun x '(mk_SummaryData _ b) => mk_SummaryData x b)
     (dec_uint 64);
   fld "last_transaction" LastTransaction (fun x '(mk_SummaryData a _) => mk_SummaryData a x)
     (dec_ptr zero_Transaction dec_Transaction)].

Definition dec_SummaryResponse : decoder SummaryResponse := dec_struct
  [fld "data" SData (fun x '(mk_SummaryResponse _ b) => mk_SummaryResponse x b) dec_SummaryData;
   fld "total_count" SumTotalCount (fun x '(mk_SummaryResponse a _) => mk_SummaryResponse a x)
     (dec_uint 64)].

(** ** response.go: [Data] already holds what the caller put there *)
Definition dec_Response {D} (dec : decoder (option D)) : decoder (Response D) := dec_struct
  [fld "message" Message (fun x '(mk_Response _ b c d e f) => mk_Response x b c d e f)
     (dec_ptr "" dec_string);
   fld "data" Data (fun x '(mk_Response a _ c d e f) => mk_Response a x c d e f) dec;
   fld "total_count" TotalCount (fun x '(mk_Response a b _ d e f) => mk_Response a b x d e f)
     (dec_uint 64);
   fld "error" Error_flag (fun x '(mk_Response a b c _ e f) => mk_Response a b c x e f) dec_bool;
   fld "errors" Errors (fun x '(mk_Response a b c d _ f) => mk_Response a b c d x f) dec_map;
   fld "detail" Detail (fun x '(mk_Response a b c d e _) => mk_Response a b c d e x)
     (dec_ptr "" dec_string)].

Definition zero_Response {D} : Response D := mk_Response None None 0 false None None.

(** An [interface{}] without a pointer in it. *)
Definition dec_data_any : decoder (option any) := fun _ j =>
  match j with JNull => Some None | _ => Some <$> dec_any AnyNil j end.

End models.

Record BroadcastData := mk_BroadcastData {
  BrHash : string; BrCode : Z; BrData : slice byte; BrLog : string; BrCodespace : string }.
Record BroadcastResponse := mk_BroadcastResponse { BrBody : BroadcastData }.

Definition zero_BroadcastResponse : BroadcastResponse :=
  mk_BroadcastResponse (mk_BroadcastData "" 0 None "" "").

Definition dec_BroadcastData : decoder BroadcastData := dec_struct
  [fld "hash" BrHash (fun x '(mk_BroadcastData _ b c d e) => mk_BroadcastData x b c d e) dec_string;
   fld "code" BrCode (fun x '(mk_BroadcastData a _ c d e) => mk_BroadcastData a x c d e) (dec_uint 32);
   fld "data" BrData (fun x '(mk_BroadcastData a b _ d e) => mk_BroadcastData a b x d e) dec_bytes;
   fld "log" BrLog (fun x '(mk_BroadcastData a b c _ e) => mk_BroadcastData a b c x e) dec_string;
   fld "codespace" BrCodespace (fun x '(mk_BroadcastData a b c d _) => mk_BroadcastData a b c d x)
     dec_string].

Definition dec_BroadcastResponse : decoder BroadcastResponse := dec_struct
  [fld "data" BrBody (fun x _ => mk_BroadcastResponse x) dec_BroadcastData].

(** ** ns.go *)
Record NS := mk_NS { NSIdentifier : string; PublicIDs : slice string }.

Definition zero_NS : NS := mk_NS "" None.

Definition dec_NS : decoder NS := dec_struct
  [fld "identifier" NSIdentifier (fun x '(mk_NS _ b) => mk_NS x b) dec_string;
   fld "addresses" PublicIDs (fun x '(mk_NS a _) => mk_NS a x) (dec_slice "" dec_string)].
