(* ===== verification/Requests.v ===== *)
(** * search.go, summary.go, broadcast.go and message.go: what the client sends

    The request types with their validity tests, paths and JSON bodies. A body
    is the JSON value encoding/json builds from the struct's tags, and its
    text; the decoder of the same tags gives back what the server reads. *)
From S2P Require Import Prelude GoText Errors Types Client Subscriptions Sync Utf8 Json Models.

(** ** Encoding Go values *)
Definition json_strings (s : slice string) : json :=
  match s with None => JNull | Some l => JArr (map JStr l) end.

(** A map's members in the order of their keys. *)
Definition json_map (m : option (gmap string string)) : json :=
  match m with
  | None => JNull
  | Some m => JObj (map (fun k => (k, JStr (map_get m k))) (sort_Strings (map_to_list m).*1))
  end.

(** A non-nil [[]byte]. *)
Definition json_bytes (b : bytes) : json := JStr (str_of (Base64.encode b)).

Definition json_byte_slice (b : slice byte) : json :=
  match b with None => JNull | Some b => json_bytes b end.

(** A member tagged omitempty: [empty] tells its zero value. *)
Definition omit (empty : bool) (name : string) (v : json) : list (string * json) :=
  if empty then [] else [(name, v)].

Definition no_elems {A} (s : slice A) : bool := (llen (elems s) =? 0)%Z.
Definition no_string (s : string) : bool := String.eqb s "".

Definition omit_ptr (name : string) (p : option json) : list (string * json) :=
  match p with None => [] | Some v => [(name, v)] end.

(** ** message.go: [Message] *)
Definition Message_json (m : WSMessage) : json :=
  JObj (omit (no_string (ClientInstanceID m)) "client_instance_id" (JStr (ClientInstanceID m))
        ++ [("is_web", JBool (IsWeb m)); ("type", JStr (MsgType m)); ("addrs", json_strings (Addrs m));
            ("signed_addrs", json_map (SignedAddrs m)); ("tx_types", json_strings (TXTypes m))]
        ++ omit (llen (MsgData m) =? 0)%Z "data" (json_bytes (MsgData m))).

(** The decoder of the same tags. *)
Definition dec_Message : decoder WSMessage := dec_struct
  [fld "client_instance_id" ClientInstanceID
     (fun x '(mk_WSMessage _ b c d e f g) => mk_WSMessage x b c d e f g) dec_string;
   fld "is_web" IsWeb (fun x '(mk_WSMessage a _ c d e f g) => mk_WSMessage a x c d e f g) dec_bool;
   fld "type" MsgType (fun x '(mk_WSMessage a b _ d e f g) => mk_WSMessage a b x d e f g) dec_string;
   fld "addrs" Addrs (fun x '(mk_WSMessage a b c _ e f g) => mk_WSMessage a b c x e f g)
     (dec_slice "" dec_string);
   fld "signed_addrs" SignedAddrs (fun x '(mk_WSMessage a b c d _ f g) => mk_WSMessage a b c d x f g)
     dec_map;
   fld "tx_types" TXTypes (fun x '(mk_WSMessage a b c d e _ g) => mk_WSMessage a b c d e x g)
     (dec_slice "" dec_string);
   fld "data" (fun m => Some (MsgData m))
     (fun x '(mk_WSMessage a b c d e f _) => mk_WSMessage a b c d e f (elems x)) dec_bytes].

(** [WSQuery]: the text handed to [Write]. *)
Definition WSQuery_message (typ : string) (data : bytes) : WSMessage :=
  mk_WSMessage "" false typ None None None data.

Definition WSQuery_text (typ : string) (data : bytes) : string :=
  Marshal (Message_json (WSQuery_message typ data)).

(** ** search.go *)
Record Search := mk_Search {
  Limit : Z;
  SHeight : Z;
  Offset : Z;
  MaxHeight : Z;
  LastOrder : Z;
  SType : TxType;
  STypes : slice TxType;
  PHeight : string;
  SOrderBy : OrderBy;
  OrderField : string;
  SHeightOperator : HeightOperator;
  SRecipients : slice string;
  SSenders : slice string;
  SSigned : option (gmap string string);
  Hashes : slice string;
  SChainName : option string;
  SChainVersion : option string;
}.

Definition Search_URI (s : Search) : string := "/v1/tx_search/p".

(** [len] of a map that may be nil. *)
Definition maplen (m : option (gmap string string)) : Z := mlen (default ∅ m).

(** The loop over [s.Types]. *)
Fixpoint all_valid (ts : list TxType) : bool :=
  match ts with
  | [] => true
  | t :: ts' => if negb (Type_IsValid t) then false else all_valid ts'
  end.

Definition Search_IsValid (s : Search) : bool :=
  if (SHeight s <? 0)%Z then false
  else if negb (HeightOperator_IsValid (SHeightOperator s)) then false
  else if (maplen (SSigned s) =? 0)%Z then false
  else if (251 <? llen (elems (SRecipients s)))%Z then false
  else if (251 <? llen (elems (SSenders s)))%Z then false
  else if (0 <? llen (elems (SRecipients s)))%Z
          && negb (maplen (SSigned s) =? llen (elems (SRecipients s)))%Z then false
  else if (0 <? llen (elems (SSenders s)))%Z
          && negb (maplen (SSigned s) =? llen (elems (SSenders s)))%Z then false
  else if (100 <? llen (elems (Hashes s)))%Z then false
  else if negb (String.eqb (SType s) "") && negb (Type_IsValid (SType s)) then false
  else if (0 <? llen (elems (STypes s)))%Z && negb (all_valid (elems (STypes s))) then false
  else if (100 <? Limit s)%Z then false
  else if negb (String.eqb (SOrderBy s) "") && negb (OrderBy_IsValid (SOrderBy s)) then false
  else true.

(** [fmt.Sprintf("%s %d", ...)]. *)
Definition height_text (s : Search) : string := SHeightOperator s +:+ " " +:+ FormatInt (SHeight s).

Definition Search_members (s : Search) : list (string * json) :=
  ([("limit", JInt (Limit s)); ("offset", JInt (Offset s)); ("max_height", JInt (MaxHeight s));
         ("last_order", JInt (LastOrder s))]
        ++ omit (no_string (SType s)) "typ" (JStr (SType s))
        ++ omit (no_elems (STypes s)) "types" (json_strings (STypes s))
        ++ omit (no_string (PHeight s)) "height" (JStr (PHeight s))
        ++ omit (no_string (SOrderBy s)) "order_by" (JStr (SOrderBy s))
        ++ omit (no_string (OrderField s)) "order_field" (JStr (OrderField s))
        ++ omit (no_elems (SRecipients s)) "recipient_addrs" (json_strings (SRecipients s))
        ++ omit (no_elems (SSenders s)) "sender_addrs" (json_strings (SSenders s))
        ++ omit (maplen (SSigned s) =? 0)%Z "signed_addrs" (json_map (SSigned s))
        ++ omit (no_elems (Hashes s)) "hashes" (json_strings (Hashes s))
        ++ omit_ptr "chain_name" (JStr <$> SChainName s)
        ++ omit_ptr "chain_version" (JStr <$> SChainVersion s)).

Definition Search_json (s : Search) : json := JObj (Search_members s).

Definition with_PHeight (h : string) (s : Search) : Search :=
  mk_Search (Limit s) (SHeight s) (Offset s) (MaxHeight s) (LastOrder s) (SType s) (STypes s) h
    (SOrderBy s) (OrderField s) (SHeightOperator s) (SRecipients s) (SSenders s) (SSigned s)
    (Hashes s) (SChainName s) (SChainVersion s).

(** The copy gets the height's text; HTML is not escaped. *)
Definition Search_ToJSON (s : Search) : string :=
  Encode false (Search_json (with_PHeight (height_text s) s)).

(** [TxSearch]'s copy with the client's chain where none is given. *)
Definition Search_defaults (chainName chainVersion : string) (s : Search) : Search :=
  mk_Search (Limit s) (SHeight s) (Offset s) (MaxHeight s) (LastOrder s) (SType s) (STypes s)
    (PHeight s) (SOrderBy s) (OrderField s) (SHeightOperator s) (SRecipients s) (SSenders s)
    (SSigned s) (Hashes s)
    (Some (default chainName (SChainName s))) (Some (default chainVersion (SChainVersion s))).

(** ** summary.go *)
Record Summary := mk_Summary {
  URecipients : slice string;
  USenders : slice string;
  UType : TxType;
  UChainName : option string;
  UChainVersion : option string;
  USigned : option (gmap string string);
}.

Definition Summary_URI (s : Summary) : string := "/v1/tx_summary".

Definition Summary_IsValid (s : Summary) : bool :=
  if (251 <? llen (elems (URecipients s)))%Z then false
  else if (251 <? llen (elems (USenders s)))%Z then false
  else if (0 <? llen (elems (URecipients s)))%Z
          && negb (llen (elems (URecipients s)) =? maplen (USigned s))%Z then false
  else if (0 <? llen (elems (USenders s)))%Z
          && negb (llen (elems (USenders s)) =? maplen (USigned s))%Z then false
  else if negb (String.eqb (UType s) "") && negb (Type_IsValid (UType s)) then false
  else true.

Definition Summary_json (s : Summary) : json :=
  JObj (omit (no_elems (URecipients s)) "recipient_addrs" (json_strings (URecipients s))
        ++ omit (no_elems (USenders s)) "sender_addrs" (json_strings (USenders s))
        ++ omit (no_string (UType s)) "typ" (JStr (UType s))
        ++ omit_ptr "chain_name" (JStr <$> UChainName s)
        ++ omit_ptr "chain_version" (JStr <$> UChainVersion s)
        ++ omit (maplen (USigned s) =? 0)%Z "signed_addrs" (json_map (USigned s))).

Definition Summary_ToJSON (s : Summary) : string := Marshal (Summary_json s).

Definition Summary_defaults (chainName chainVersion : string) (s : Summary) : Summary :=
  mk_Summary (URecipients s) (USenders s) (UType s)
    (Some (default chainName (UChainName s))) (Some (default chainVersion (UChainVersion s)))
    (USigned s).

(** ** broadcast.go *)
Record Broadcast := mk_Broadcast {
  BID : string;
  BVersion : Z;
  BType : TxType;
  BSenderAddr : string;
  BRecipientAddr : string;
  BData : slice byte;
  BAdditionalData : option (slice byte);
  BCipherData : option (slice byte);
  BSign : slice byte;
  BFee : Z;
}.

Definition Broadcast_URI (commit sync : bool) : string :=
  if commit then "/v1/tx/commit" else if sync then "/v1/tx/sync" else "/v1/tx".

Definition Broadcast_json (b : Broadcast) : json :=
  JObj ([("id", JStr (BID b)); ("version", JInt (BVersion b)); ("type", JStr (BType b));
         ("sender_addr", JStr (BSenderAddr b)); ("recipient_addr", JStr (BRecipientAddr b));
         ("data", json_byte_slice (BData b))]
        ++ omit_ptr "additional_data" (json_byte_slice <$> BAdditionalData b)
        ++ omit_ptr "cipher_data" (json_byte_slice <$> BCipherData b)
        ++ [("sign", json_byte_slice (BSign b)); ("fee", JInt (BFee b))]).

Definition Broadcast_ToJSON (b : Broadcast) : string := Marshal (Broadcast_json b).

Definition zero_Broadcast : Broadcast := mk_Broadcast "" 0 "" "" "" None None None None 0.

Definition dec_Broadcast : decoder Broadcast := dec_struct
  [fld "id" BID (fun x '(mk_Broadcast _ b c d e f g h i j) => mk_Broadcast x b c d e f g h i j)
     dec_string;
   fld "version" BVersion
     (fun x '(mk_Broadcast a _ c d e f g h i j) => mk_Broadcast a x c d e f g h i j) (dec_uint 32);
   fld "type" BType (fun x '(mk_Broadcast a b _ d e f g h i j) => mk_Broadcast a b x d e f g h i j)
     dec_string;
   fld "sender_addr" BSenderAddr
     (fun x '(mk_Broadcast a b c _ e f g h i j) => mk_Broadcast a b c x e f g h i j) dec_string;
   fld "recipient_addr" BRecipientAddr
     (fun x '(mk_Broadcast a b c d _ f g h i j) => mk_Broadcast a b c d x f g h i j) dec_string;
   fld "data" BData (fun x '(mk_Broadcast a b c d e _ g h i j) => mk_Broadcast a b c d e x g h i j)
     dec_bytes;
   fld "additional_data" BAdditionalData
     (fun x '(mk_Broadcast a b c d e f _ h i j) => mk_Broadcast a b c d e f x h i j)
     (dec_ptr None dec_bytes);
   fld "cipher_data" BCipherData
     (fun x '(mk_Broadcast a b c d e f g _ i j) => mk_Broadcast a b c d e f g x i j)
     (dec_ptr None dec_bytes);
   fld "sign" BSign (fun x '(mk_Broadcast a b c d e f g h _ j) => mk_Broadcast a b c d e f g h x j)
     dec_bytes;
   fld "fee" BFee (fun x '(mk_Broadcast a b c d e f g h i _) => mk_Broadcast a b c d e f g h i x)
     (dec_uint 64)].

(** ** Lemmas: decoding what was encoded *)
Definition utf8 (s : string) : Prop := valid (chars s) = true.

Definition utf8_slice (s : slice string) : Prop := Forall utf8 (elems s).

Definition utf8_map (m : option (gmap string string)) : Prop :=
  forall k v, default ∅ m !! k = Some v -> utf8 k /\ utf8 v.

Lemma dec_strings s : dec_slice "" dec_string None (json_strings s) = Some s.
Proof.
  destruct s as [l|]; [|done]. cbn [json_strings dec_slice elems default].
  assert (dec_elems "" dec_string [] (map JStr l) = Some l) as ->; [|done].
  induction l as [|x l IH]; [done|]. cbn. by rewrite IH.
Qed.

Lemma dec_members_app l1 l2 m :
  dec_members m (l1 ++ l2) = (m' ← dec_members m l1; dec_members m' l2).
Proof.
  revert m. induction l1 as [|[k j] l1 IH]; intros m; [done|]. cbn.
  destruct (dec_string "" j); [|done]. cbn. by rewrite IH.
Qed.

Lemma dec_members_strings f ks m :
  dec_members m (map (fun k => (k, JStr (f k))) ks)
  = Some (list_to_map (reverse (map (fun k => (k, f k)) ks)) ∪ m).
Proof.
  revert m. induction ks as [|k ks IH]; intros m; cbn [map dec_members dec_string mbind option_bind].
  { by rewrite reverse_nil, list_to_map_nil, map_empty_union. }
  rewrite IH. f_equal. rewrite reverse_cons, list_to_map_app, <- (assoc_L (∪)). f_equal.
  by rewrite list_to_map_cons, list_to_map_nil, <- insert_union_l, map_empty_union.
Qed.

Lemma dec_json_map m : dec_map None (json_map m) = Some m.
Proof.
  destruct m as [m|]; [|done]. cbn [json_map dec_map default].
  rewrite dec_members_strings. cbn [fmap option_fmap option_map]. do 2 f_equal.
  rewrite map_union_empty. apply map_eq. intros k.
  set (ks := sort_Strings (map_to_list m).*1).
  assert (NoDup ks) as Hnd by (apply NoDup_sort_Strings, NoDup_fst_map_to_list).
  assert (forall k, k ∈ ks <-> is_Some (m !! k)) as Hks.
  { intros k'. unfold ks. rewrite elem_of_sort_Strings, list_elem_of_fmap. split.
    - intros ([k2 v] & -> & Hin). apply elem_of_map_to_list in Hin. by exists v.
    - intros [v Hv]. exists (k', v). split; [done|]. by apply elem_of_map_to_list. }
  assert (NoDup (reverse (map (fun k => (k, map_get m k)) ks)).*1) as Hnd'.
  { rewrite fmap_reverse, reverse_Permutation. rewrite <- list_fmap_compose.
    erewrite list_fmap_ext; [rewrite list_fmap_id; exact Hnd|done]. }
  destruct (m !! k) as [v|] eqn:E.
  - apply elem_of_list_to_map_1; [done|]. apply elem_of_reverse.
    apply list_elem_of_In, in_map_iff. exists k. split; [by unfold map_get; rewrite E|].
    apply list_elem_of_In, Hks. by exists v.
  - apply not_elem_of_list_to_map_1. rewrite fmap_reverse, elem_of_reverse.
    rewrite <- list_fmap_compose, list_elem_of_fmap. intros (k' & Hk & Hin%Hks).
    cbn in Hk. subst k'. rewrite E in Hin. by destruct Hin.
Qed.

Lemma dec_json_bytes b cur : dec_bytes cur (json_bytes b) = Some (Some b).
Proof. unfold json_bytes. cbn [dec_bytes]. by rewrite chars_str_of, Base64.decode_encode. Qed.

Lemma dec_json_byte_slice b cur : dec_bytes cur (json_byte_slice b) = Some b.
Proof. destruct b; [apply dec_json_bytes|done]. Qed.

(** Values whose strings are valid UTF-8 are left as they are. *)
Fixpoint utf8_json (v : json) : Prop :=
  match v with
  | JStr s => utf8 s
  | JArr l => foldr and True (map utf8_json l)
  | JObj l => foldr and True (map (fun p => utf8 p.1 /\ utf8_json p.2) l)
  | _ => True
  end.

Lemma clean_utf8_json v : utf8_json v -> clean_json v = v.
Proof.
  induction v as [|b|lit|s|l IH|l IH] using json_ind'; intros Hv; try done.
  - cbn [clean_json]. by rewrite clean_string_valid.
  - cbn [clean_json utf8_json map fst snd] in *. f_equal. apply foldr_and_Forall in Hv.
    induction l as [|x l IHl]; [done|]. apply Forall_cons in IH as [Hx IH], Hv as [Hvx Hv].
    cbn [map]. by rewrite Hx, IHl.
  - cbn [clean_json utf8_json map fst snd] in *. f_equal. apply foldr_and_Forall in Hv.
    induction l as [|[k x] l IHl]; [done|]. apply Forall_cons in IH as [Hx IH], Hv as [[Hk Hvx] Hv].
    cbn [clean_json utf8_json map fst snd] in *. by rewrite Hx, IHl, clean_string_valid.
Qed.

Lemma utf8_strings s : utf8_slice s -> utf8_json (json_strings s).
Proof.
  destruct s as [l|]; [|done]. unfold utf8_slice. cbn. intros Hl. apply foldr_and_Forall.
  apply Forall_forall. intros x Hx. apply list_elem_of_In, in_map_iff in Hx as (y & <- & Hy).
  rewrite Forall_forall in Hl. apply Hl. by apply list_elem_of_In.
Qed.

Lemma utf8_json_map m : utf8_map m -> utf8_json (json_map m).
Proof.
  destruct m as [m|]; [|done]. unfold utf8_map. cbn. intros Hm. apply foldr_and_Forall.
  apply Forall_forall. intros x Hx. apply list_elem_of_In, in_map_iff in Hx as (k & <- & Hk).
  cbn. apply list_elem_of_In in Hk. apply elem_of_sort_Strings, list_elem_of_fmap in Hk
    as ([k2 v] & -> & Hin%elem_of_map_to_list). cbn. unfold map_get. rewrite Hin. by apply Hm.
Qed.

Lemma enc6_ascii n : is_ascii (Base64.enc6 n) = true.
Proof.
  unfold Base64.enc6. destruct (String.get (Z.to_nat n) Base64.alphabet) as [c|] eqn:E; [|done].
  apply Hex.get_chars in E. rewrite list_elem_of_In in E. cbn in E.
  repeat (destruct E as [<-|E]; [reflexivity|]). done.
Qed.

Lemma base64_ascii b : forallb is_ascii (Base64.encode b) = true.
Proof.
  induction b as [|x|x y|x y z b IH] using Base64.triple_ind;
    cbn [Base64.encode forallb]; rewrite ?enc6_ascii; try done.
Qed.

Lemma utf8_json_bytes b : utf8_json (json_bytes b).
Proof.
  unfold json_bytes. cbn. unfold utf8. rewrite chars_str_of. apply ascii_valid, base64_ascii.
Qed.

(** What an encoded value reads back as, for the texts of this file. *)
Lemma parse_Marshal v :
  integral v -> (depth v <= max_depth)%Z -> utf8_json v -> parse (Marshal v) = Some v.
Proof.
  intros Hi Hd Hu. unfold Marshal. rewrite <- (app_nil_r (enc true v)).
  by rewrite parse_enc, clean_utf8_json by (done || apply Forall_nil).
Qed.

Lemma parse_Encode html v :
  integral v -> (depth v <= max_depth)%Z -> utf8_json v -> parse (Encode html v) = Some v.
Proof.
  intros Hi Hd Hu. unfold Encode.
  rewrite parse_enc, clean_utf8_json; try done. by repeat constructor.
Qed.

(** Decode the members one after the other, each by the facts at hand. *)
Ltac dec_members_with t :=
  repeat (erewrite dec_fields_fld; [|reflexivity|first [eassumption|t|reflexivity]]; cbn beta iota).

(** Integers of a width read back. *)
Lemma no_minus z : (0 <= z)%Z -> String.prefix "-" (FormatInt z) = false.
Proof.
  intros Hz. destruct z as [|p|p]; [done| |lia].
  destruct (pos_uint_shape p) as (c & ds & Heq & _ & Hds).
  change (chars (FormatInt (Z.pos p)) = c :: ds) in Heq.
  destruct (FormatInt (Z.pos p)) as [|c' s]; [discriminate|]. injection Heq as -> _.
  cbn [String.prefix]. destruct (Ascii.ascii_dec "-" c) as [<-|]; [|done].
  apply Forall_cons in Hds as [Hd%digit_char _]. discriminate Hd.
Qed.

Lemma dec_JInt bits z cur :
  (0 <= z < 2 ^ bits)%Z -> dec_uint bits cur (JInt z) = Some z.
Proof.
  intros Hz. unfold JInt, dec_uint, in_bounds. rewrite no_minus, Parse_FormatInt by lia.
  cbn [mbind option_bind]. destruct (Z.leb_spec 0 z); [|lia].
  destruct (Z.leb_spec z (2 ^ bits - 1)); [done|lia].
Qed.

(** ** Properties *)

(** Every string of a message is valid UTF-8, as the subscription's are when the
    caller's are. *)
Definition message_utf8 (m : WSMessage) : Prop :=
  utf8 (ClientInstanceID m) /\ utf8 (MsgType m) /\ utf8_slice (Addrs m) /\
  utf8_map (SignedAddrs m) /\ utf8_slice (TXTypes m).

Lemma Message_json_utf8 m : message_utf8 m -> utf8_json (Message_json m).
Proof.
  intros (H1 & H2 & H3 & H4 & H5). unfold Message_json. cbn [utf8_json]. unfold omit.
  destruct (no_string _), (llen _ =? 0)%Z; cbn [app map foldr fst snd utf8_json];
    split_and!; try done; try reflexivity;
    try apply utf8_strings; try apply utf8_json_map; try apply utf8_json_bytes; done.
Qed.

Lemma integral_strings s : integral (json_strings s).
Proof.
  destruct s as [l|]; [|done]. cbn. apply foldr_and_Forall. induction l; by constructor.
Qed.

Lemma integral_map m : integral (json_map m).
Proof.
  destruct m as [m|]; [|done]. cbn. apply foldr_and_Forall. apply Forall_forall.
  intros x Hx. by apply list_elem_of_In, in_map_iff in Hx as (k & <- & _).
Qed.

Lemma depth_strings s : (depth (json_strings s) <= 1)%Z.
Proof.
  destruct s as [l|]; [|done]. cbn.
  assert (foldr Z.max 0 (map depth (map JStr l)) <= 0)%Z; [|lia].
  apply foldr_max_le; [done|]. induction l; by constructor.
Qed.

Lemma depth_map m : (depth (json_map m) <= 1)%Z.
Proof.
  destruct m as [m|]; [|done]. cbn [json_map depth].
  assert (foldr Z.max 0 (map (fun p => depth p.2)
    (map (fun k => (k, JStr (map_get m k))) (sort_Strings (map_to_list m).*1))) <= 0)%Z; [|lia].
  apply foldr_max_le; [done|]. apply Forall_forall. intros x Hx.
  by apply list_elem_of_In, in_map_iff in Hx as (k & <- & _).
Qed.

Lemma Message_json_shape m : integral (Message_json m) /\ (depth (Message_json m) <= max_depth)%Z.
Proof.
  pose proof (integral_strings (Addrs m)). pose proof (integral_strings (TXTypes m)).
  pose proof (integral_map (SignedAddrs m)). pose proof (depth_strings (Addrs m)).
  pose proof (depth_strings (TXTypes m)). pose proof (depth_map (SignedAddrs m)).
  unfold Message_json, omit, max_depth.
  destruct (no_string _), (llen _ =? 0)%Z; cbn [app integral depth map foldr fst snd json_bytes];
    (split; [done|lia]).
Qed.

Lemma dec_Message_json m : dec_Message (zero_message "") (Message_json m) = Some m.
Proof.
  pose proof (dec_strings (Addrs m)) as Ha.
  pose proof (dec_strings (TXTypes m) : dec_slice (A:=TxType) "" _ None _ = _) as Ht.
  pose proof (dec_json_map (SignedAddrs m)) as Hs.
  destruct m as [cid web typ addrs signed types data]. unfold Message_json, omit.
  cbn [ClientInstanceID IsWeb MsgType Addrs SignedAddrs TXTypes MsgData] in *.
  assert (forall cur, dec_bytes cur (json_bytes data) = Some (Some data)) as Hb
    by (intros; apply dec_json_bytes).
  unfold dec_Message, dec_struct, zero_message.
  destruct (no_string cid) eqn:Ec, (llen data =? 0)%Z eqn:Ed; cbn [app];
    dec_members_with ltac:(apply Hb); cbn [dec_fields elems default];
    try (apply String.eqb_eq in Ec); try (apply Z.eqb_eq, llen_nil in Ed); by subst.
Qed.

(** What a reader of the JSON text decodes with the tags of [Message]. *)
Definition read_Message (s : string) : option WSMessage :=
  v ← parse s; dec_Message (zero_message "") v.

Lemma read_Message_Marshal m :
  message_utf8 m -> read_Message (Marshal (Message_json m)) = Some m.
Proof.
  intros Hu. destruct (Message_json_shape m) as [Hi Hd]. unfold read_Message.
  rewrite (parse_Marshal _ Hi Hd (Message_json_utf8 m Hu)). apply dec_Message_json.
Qed.

(** C21: the frames the client writes mean what the subscription says: whatever
    addresses, signatures and filter a message holds (as valid UTF-8), its JSON
    text parses and decodes, by the tags of [Message], to that very message -
    nil and empty lists, the omitted fields and the base64 payload included.
    The text of [WSQuery] decodes to the query's type and data. *)
Theorem message_roundtrip m (Hm : message_utf8 m) :
  read_Message (Marshal (Message_json m)) = Some m /\
  forall typ data, utf8 typ ->
    read_Message (WSQuery_text typ data) = Some (mk_WSMessage "" false typ None None None data).
Proof.
  split; [by apply read_Message_Marshal|]. intros typ data Ht. apply read_Message_Marshal.
  split_and!; [reflexivity|done|by apply Forall_nil|by intros k v|by apply Forall_nil].
Qed.

Definition demo_message : WSMessage :=
  mk_WSMessage "id" false MsgSubscribe (Some ["a<b"; "c"]) (Some {["a<b" := "s1"; "c" := "s2"]})
    None [x00; xff].

Lemma demo_message_utf8 : message_utf8 demo_message.
Proof.
  split_and!; try reflexivity; unfold utf8_slice, utf8_map; simpl; try by repeat constructor.
  intros k v. rewrite lookup_insert_Some, lookup_singleton_Some.
  by intros [[<- <-]|[_ [<- <-]]].
Qed.

Lemma message_roundtrip_witness :
  Marshal (Message_json demo_message) <> "" /\
  read_Message (Marshal (Message_json demo_message)) = Some demo_message.
Proof.
  split; [vm_compute; discriminate|].
  exact (proj1 (message_roundtrip demo_message demo_message_utf8)).
Defined.

(** *** Broadcast *)

(** The widths of the fields, and valid UTF-8. *)
Definition broadcast_wf (b : Broadcast) : Prop :=
  (0 <= BVersion b < 2 ^ 32)%Z /\ (0 <= BFee b < 2 ^ 64)%Z /\
  utf8 (BID b) /\ utf8 (BType b) /\ utf8 (BSenderAddr b) /\ utf8 (BRecipientAddr b).

(** A pointer to a nil slice is written null, as a nil pointer would be read. *)
Definition no_nil (p : option (slice byte)) : option (slice byte) :=
  match p with Some (Some b) => Some (Some b) | _ => None end.

Definition broadcast_normal (b : Broadcast) : Broadcast :=
  mk_Broadcast (BID b) (BVersion b) (BType b) (BSenderAddr b) (BRecipientAddr b) (BData b)
    (no_nil (BAdditionalData b)) (no_nil (BCipherData b)) (BSign b) (BFee b).

Lemma Broadcast_json_shape b :
  integral (Broadcast_json b) /\ (depth (Broadcast_json b) <= max_depth)%Z.
Proof.
  unfold Broadcast_json, max_depth, JInt.
  destruct (BData b), (BAdditionalData b) as [[]|], (BCipherData b) as [[]|], (BSign b);
    cbn [omit_ptr fmap option_fmap option_map app integral depth map foldr fst snd
         json_bytes json_byte_slice];
    (split; [split_and!; eauto|lia]).
Qed.

Lemma Broadcast_json_utf8 b : broadcast_wf b -> utf8_json (Broadcast_json b).
Proof.
  intros (_ & _ & H1 & H2 & H3 & H4). unfold Broadcast_json, JInt.
  destruct (BData b), (BAdditionalData b) as [[]|], (BCipherData b) as [[]|], (BSign b);
    cbn [omit_ptr fmap option_fmap option_map app utf8_json map foldr fst snd json_byte_slice];
    split_and!; try done; try apply utf8_json_bytes.
Qed.

Lemma dec_byte_ptr p cur :
  dec_ptr None dec_bytes cur (json_byte_slice p) = Some (match p with Some b => Some (Some b) | None => None end).
Proof.
  destruct p as [b|]; [|done]. cbn [json_byte_slice]. unfold dec_ptr, json_bytes.
  fold (json_bytes b). by rewrite dec_json_bytes.
Qed.

Lemma dec_Broadcast_json b :
  broadcast_wf b -> dec_Broadcast zero_Broadcast (Broadcast_json b) = Some (broadcast_normal b).
Proof.
  intros (Hv & Hf & _). destruct b as [i v t sa ra d ad cd sg fee]. cbn in Hv, Hf.
  pose proof (dec_JInt 32 v 0 Hv) as Hdv. pose proof (dec_JInt 64 fee 0 Hf) as Hdf.
  pose proof (dec_json_byte_slice d None) as Hd. pose proof (dec_json_byte_slice sg None) as Hs.
  unfold Broadcast_json, dec_Broadcast, dec_struct, broadcast_normal, zero_Broadcast.
  cbn [BID BVersion BType BSenderAddr BRecipientAddr BData BAdditionalData BCipherData BSign BFee].
  destruct ad as [ad|]; destruct cd as [cd|]; cbn [omit_ptr fmap option_fmap option_map app];
    dec_members_with ltac:(apply dec_byte_ptr); cbn [dec_fields]; repeat f_equal;
    first [by destruct ad|by destruct cd|done].
Qed.

Definition read_Broadcast (s : string) : option Broadcast :=
  v ← parse s; dec_Broadcast zero_Broadcast v.

(** C22: a broadcast body says exactly what was asked: read back by its own tags
    it gives the id, version, type, addresses, the payload bytes, signature and
    fee of the call; an additional or cipher part is present exactly when the
    caller gave one (a pointer to a nil slice counts as none). *)
Theorem broadcast_roundtrip b (Hb : broadcast_wf b) :
  read_Broadcast (Broadcast_ToJSON b) = Some (broadcast_normal b).
Proof.
  destruct (Broadcast_json_shape b) as [Hi Hd]. unfold read_Broadcast, Broadcast_ToJSON.
  rewrite (parse_Marshal _ Hi Hd (Broadcast_json_utf8 b Hb)). by apply dec_Broadcast_json.
Qed.

Definition demo_broadcast : Broadcast :=
  mk_Broadcast "h" 1 TypeMessage "from" "to" (Some [x01; x02]) (Some (Some [x03])) None (Some []) 7.

Lemma broadcast_roundtrip_witness :
  broadcast_wf demo_broadcast /\
  read_Broadcast (Broadcast_ToJSON demo_broadcast) = Some demo_broadcast.
Proof.
  assert (broadcast_wf demo_broadcast) as H by (split_and!; (reflexivity || (simpl; lia))).
  split; [exact H|]. exact (broadcast_roundtrip demo_broadcast H).
Defined.

(** *** Search and Summary *)
Lemma guard_false (b r : bool) : (if b then false else r) = true <-> b = false /\ r = true.
Proof. destruct b; naive_solver. Qed.

(** The count test on a list of addresses: at most 251, and as many as
    signatures when there are any. *)
Definition counted (l : slice string) (signed : option (gmap string string)) : Prop :=
  elems l = [] \/ (llen (elems l) = maplen signed /\ (llen (elems l) <= 251)%Z).

Lemma counted_tests l signed :
  (251 <? llen (elems l))%Z = false /\
  ((0 <? llen (elems l))%Z && negb (maplen signed =? llen (elems l))%Z) = false
  <-> counted l signed.
Proof.
  unfold counted. rewrite <- llen_nil, andb_false_iff, negb_false_iff, !Z.ltb_ge, Z.eqb_eq.
  pose proof (llen_nonneg (elems l)). lia.
Qed.

Lemma all_valid_iff ts : all_valid ts = true <-> Forall (fun t => t ∈ TypesSlice) ts.
Proof.
  induction ts as [|t ts IH]; [by split|]. cbn [all_valid].
  rewrite guard_false, negb_false_iff, IH, Type_IsValid_slice. by rewrite Forall_cons.
Qed.

Lemma types_test ts :
  ((0 <? llen ts)%Z && negb (all_valid ts)) = false <-> Forall (fun t => t ∈ TypesSlice) ts.
Proof.
  rewrite <- all_valid_iff. destruct ts as [|t ts]; [by split|].
  rewrite andb_false_iff, negb_false_iff, Z.ltb_ge, llen_cons.
  pose proof (llen_nonneg ts). split; [intros [?|?]; [lia|done]|auto].
Qed.

Lemma optional_test (s : string) (valid : bool) :
  (negb (String.eqb s "") && negb valid) = false <-> s = "" \/ valid = true.
Proof. rewrite andb_false_iff, !negb_false_iff, String.eqb_eq. done. Qed.

Lemma counted_tests' l signed :
  (251 <? llen (elems l))%Z = false /\
  ((0 <? llen (elems l))%Z && negb (llen (elems l) =? maplen signed)%Z) = false
  <-> counted l signed.
Proof. rewrite (Z.eqb_sym _ (maplen signed)). apply counted_tests. Qed.

(** C23: [Search.IsValid] accepts exactly the searches with a known height
    operator, some signed address, recipient and sender lists that are empty or
    as long as the signatures and at most 251, at most 100 hashes, known types,
    a limit of at most 100 and a known order. The height is never a reason: the
    field is unsigned. *)
Theorem Search_IsValid_correct s (Hh : (0 <= SHeight s < 2 ^ 64)%Z) :
  Search_IsValid s = true <->
  SHeightOperator s ∈ [Equal; Less; Greater; EqualOrLess; EqualOrGreater] /\
  maplen (SSigned s) <> 0%Z /\
  counted (SRecipients s) (SSigned s) /\ counted (SSenders s) (SSigned s) /\
  (llen (elems (Hashes s)) <= 100)%Z /\
  (SType s = "" \/ SType s ∈ TypesSlice) /\
  Forall (fun t => t ∈ TypesSlice) (elems (STypes s)) /\
  (Limit s <= 100)%Z /\
  (SOrderBy s = "" \/ SOrderBy s ∈ [ASC; DESC]).
Proof.
  unfold Search_IsValid. rewrite !guard_false, !types_test, !optional_test.
  rewrite negb_false_iff, !Z.ltb_ge, Z.eqb_neq, Type_IsValid_slice, OrderBy_IsValid_iff,
    HeightOperator_IsValid_iff.
  rewrite <- !counted_tests, !Z.ltb_ge. intuition lia.
Qed.

Definition demo_search : Search :=
  mk_Search 100 7 0 0 0 "" None "" ASC "" EqualOrGreater (Some ["a"]) None (Some {["a" := "s"]})
    None None None.

Lemma Search_IsValid_correct_witness :
  Search_IsValid demo_search = true /\ (Limit demo_search <= 100)%Z.
Proof.
  assert (Search_IsValid demo_search = true) as E by (vm_compute; reflexivity).
  split; [exact E|].
  assert (0 <= SHeight demo_search < 2 ^ 64)%Z as Hh by (simpl; lia).
  exact (proj1 (proj2 (proj2 (proj2 (proj2 (proj2 (proj2 (proj2
    (proj1 (Search_IsValid_correct demo_search Hh) E))))))))).
Defined.

(** [Summary.IsValid] accepts exactly the summaries whose recipient and
    sender lists are empty or as long as the signatures and at most 251, and
    whose type is empty or known. *)
Theorem Summary_IsValid_correct s :
  Summary_IsValid s = true <->
  counted (URecipients s) (USigned s) /\ counted (USenders s) (USigned s) /\
  (UType s = "" \/ UType s ∈ TypesSlice).
Proof.
  unfold Summary_IsValid. rewrite !guard_false, !optional_test, Type_IsValid_slice.
  rewrite <- !counted_tests'. tauto.
Qed.

(** The value of a member. *)
Definition member (name : string) (l : list (string * json)) : option json :=
  snd <$> List.find (fun p => String.eqb p.1 name) l.

Lemma member_app name l1 l2 :
  member name (l1 ++ l2) = match member name l1 with Some v => Some v | None => member name l2 end.
Proof.
  unfold member. induction l1 as [|[k v] l1 IH]; [done|]. cbn. by destruct (String.eqb k name).
Qed.

Lemma member_omit name b k v :
  member name (omit b k v) = if String.eqb k name then (if b then None else Some v) else None.
Proof. unfold member. destruct b; cbn; by destruct (String.eqb k name). Qed.

Lemma member_omit_ptr name k p :
  member name (omit_ptr k p) = if String.eqb k name then p else None.
Proof. unfold member. destruct p; cbn; by destruct (String.eqb k name). Qed.

Lemma Forall_omit P b k v : P (k, v) -> Forall P (omit b k v).
Proof. intros H. destruct b; by repeat constructor. Qed.

Lemma Forall_omit_ptr (P : string * json -> Prop) k p :
  (forall v, p = Some v -> P (k, v)) -> Forall P (omit_ptr k p).
Proof. intros H. destruct p; repeat constructor. by apply H. Qed.

(** A member that can be written and read back unchanged. *)
Definition plain_member (p : string * json) : Prop :=
  integral p.2 /\ (depth p.2 <= 1)%Z /\ utf8 p.1 /\ utf8_json p.2.

Lemma plain_JObj l :
  Forall plain_member l ->
  integral (JObj l) /\ (depth (JObj l) <= max_depth)%Z /\ utf8_json (JObj l).
Proof.
  intros Hl. cbn. rewrite !foldr_and_Forall. unfold max_depth.
  assert (foldr Z.max 0 (map (fun p => depth p.2) l) <= 1)%Z.
  { apply foldr_max_le; [done|]. eapply Forall_impl; [exact Hl|]. by intros p (_ & ? & _). }
  split_and!; [|lia|]; (eapply Forall_impl; [exact Hl|]); by intros p (? & _ & ? & ?).
Qed.

Lemma plain_str k s : utf8 k -> utf8 s -> plain_member (k, JStr s).
Proof. intros Hk Hs. split; [done|]. split; [cbn; lia|]. by split. Qed.

Lemma plain_int k z : utf8 k -> plain_member (k, JInt z).
Proof. intros Hk. split; [by exists z|]. split; [cbn; lia|]. by split. Qed.

Lemma plain_strings k s : utf8 k -> utf8_slice s -> plain_member (k, json_strings s).
Proof.
  intros Hk Hs. split; [apply integral_strings|]. split; [apply depth_strings|].
  split; [done|by apply utf8_strings].
Qed.

Lemma plain_map k m : utf8 k -> utf8_map m -> plain_member (k, json_map m).
Proof.
  intros Hk Hs. split; [apply integral_map|]. split; [apply depth_map|].
  split; [done|by apply utf8_json_map].
Qed.

Definition utf8_opt (p : option string) : Prop := utf8 (default "" p).

Definition search_utf8 (s : Search) : Prop :=
  utf8 (SType s) /\ utf8_slice (STypes s) /\ utf8 (SOrderBy s) /\ utf8 (OrderField s) /\
  utf8_slice (SRecipients s) /\ utf8_slice (SSenders s) /\ utf8_map (SSigned s) /\
  utf8_slice (Hashes s) /\ utf8_opt (SChainName s) /\ utf8_opt (SChainVersion s).

Lemma Search_plain s :
  search_utf8 s -> utf8 (PHeight s) -> Forall plain_member (Search_members s).
Proof.
  intros (H1 & H2 & H3 & H4 & H5 & H6 & H7 & H8 & H9 & H10) Hh.
  unfold Search_members. rewrite !Forall_app.
  assert (forall k p, utf8 k -> utf8_opt p -> Forall plain_member (omit_ptr k (JStr <$> p))) as Hptr.
  { intros k p Hk Hp. apply Forall_omit_ptr. intros v Hv. apply fmap_Some in Hv as (x & -> & ->).
    by apply plain_str. }
  split.
  { repeat (apply Forall_cons; split; [by apply plain_int|]). by apply Forall_nil. }
  repeat (split; [first [apply Forall_omit|by apply Hptr];
                  first [by apply plain_str|by apply plain_strings|by apply plain_map]|]).
  by apply Hptr.
Qed.

Lemma FormatInt_ascii z : forallb is_ascii (chars (FormatInt z)) = true.
Proof.
  apply forallb_forall. intros c Hc. pose proof (FormatInt_chars z) as Hf.
  unfold all_chars in Hf. rewrite Forall_forall in Hf.
  apply list_elem_of_In, Hf in Hc. unfold is_dec_char in Hc. rewrite list_elem_of_In in Hc.
  cbn in Hc. repeat (destruct Hc as [<-|Hc]; [reflexivity|]). done.
Qed.

(** The height's text: two words. *)
Lemma height_text_facts s :
  SHeightOperator s ∈ [Equal; Less; Greater; EqualOrLess; EqualOrGreater] ->
  utf8 (height_text s) /\ Split " " (height_text s) = [SHeightOperator s; FormatInt (SHeight s)] /\
  height_text s <> "".
Proof.
  intros Hop. unfold height_text.
  assert (forallb is_ascii (chars (SHeightOperator s)) = true /\
          all_chars (fun d => d <> " "%char) (SHeightOperator s)) as [H1 H2].
  { rewrite list_elem_of_In in Hop. cbn in Hop.
    repeat (destruct Hop as [<-|Hop]; [by split; [|repeat constructor]|]). done. }
  split_and!.
  - unfold utf8. apply ascii_valid. rewrite !chars_app, !forallb_app, H1, FormatInt_ascii. done.
  - rewrite append_cons, append_nil, Split_app by done. f_equal. apply Split_none.
    eapply all_chars_impl, FormatInt_chars. intros c Hc ->. revert Hc.
    apply (bool_decide_unpack (¬ _)). by vm_compute.
  - destruct (SHeightOperator s); [|by rewrite append_cons]. by rewrite append_nil, append_cons.
Qed.

(** The members a search may have. *)
Definition search_names : list string :=
  ["limit"; "offset"; "max_height"; "last_order"; "typ"; "types"; "height"; "order_by";
   "order_field"; "recipient_addrs"; "sender_addrs"; "signed_addrs"; "hashes"; "chain_name";
   "chain_version"].

(** A text that is left out when empty, a list when it has no element. *)
Definition text_member (s : string) : option json := if no_string s then None else Some (JStr s).
Definition list_member (l : slice string) : option json :=
  if no_elems l then None else Some (json_strings l).

(** C24: the body of a search states the search, all of it and nothing else: for
    a valid one it parses to an object in which every field of the caller stands
    under its own name - numbers always, texts and lists unless empty -, whose
    height is the operator and the number separated by a blank - whatever the
    caller put in PHeight - and whose chain is the caller's or else the
    client's. *)
Theorem Search_ToJSON_correct cn cv s
    (Hv : Search_IsValid s = true) (Hu : search_utf8 s) (Hcn : utf8 cn) (Hcv : utf8 cv) :
  exists l text, parse (Search_ToJSON (Search_defaults cn cv s)) = Some (JObj l) /\
    member "limit" l = Some (JInt (Limit s)) /\
    member "offset" l = Some (JInt (Offset s)) /\
    member "max_height" l = Some (JInt (MaxHeight s)) /\
    member "last_order" l = Some (JInt (LastOrder s)) /\
    member "typ" l = text_member (SType s) /\
    member "types" l = list_member (STypes s) /\
    member "order_by" l = text_member (SOrderBy s) /\
    member "order_field" l = text_member (OrderField s) /\
    member "recipient_addrs" l = list_member (SRecipients s) /\
    member "sender_addrs" l = list_member (SSenders s) /\
    member "signed_addrs" l = Some (json_map (SSigned s)) /\
    member "hashes" l = list_member (Hashes s) /\
    member "height" l = Some (JStr text) /\
    Split " " text = [SHeightOperator s; FormatInt (SHeight s)] /\
    member "chain_name" l = Some (JStr (default cn (SChainName s))) /\
    member "chain_version" l = Some (JStr (default cv (SChainVersion s))) /\
    (forall name, name ∉ search_names -> member name l = None).
Proof.
  assert (SHeightOperator s ∈ [Equal; Less; Greater; EqualOrLess; EqualOrGreater]) as Hop.
  { unfold Search_IsValid in Hv. rewrite !guard_false, negb_false_iff in Hv.
    apply HeightOperator_IsValid_iff. tauto. }
  assert (maplen (SSigned s) <> 0)%Z as Hsigned.
  { unfold Search_IsValid in Hv. rewrite !guard_false, Z.eqb_neq in Hv. tauto. }
  destruct (height_text_facts s Hop) as (Htu & Hts & Hne).
  set (s' := with_PHeight (height_text s) (Search_defaults cn cv s)).
  assert (Forall plain_member (Search_members s')) as Hp.
  { destruct Hu as (H1 & H2 & H3 & H4 & H5 & H6 & H7 & H8 & H9 & H10).
    apply Search_plain; [|done]. split_and!; try done; unfold utf8_opt; cbn;
      [by destruct (SChainName s)|by destruct (SChainVersion s)]. }
  destruct (plain_JObj _ Hp) as (Hi & Hd & Hj).
  exists (Search_members s'), (height_text s). split.
  { unfold Search_ToJSON. change (height_text (Search_defaults cn cv s)) with (height_text s).
    fold s'. unfold Search_json. by apply parse_Encode. }
  unfold Search_members.
  assert (no_string (PHeight s') = false) as Hph by by apply String.eqb_neq.
  apply Z.eqb_neq in Hsigned. clear Hp Hi Hd Hj.
  split_and!; [rewrite ?member_app, ?member_omit, ?member_omit_ptr, ?Hph,
    ?(Hsigned : (maplen (SSigned s') =? 0)%Z = false); cbn -[json_strings json_map no_elems JInt no_string]; unfold text_member, list_member;
    try done; try (by destruct (no_elems _));
    try (by match goal with |- context [no_string ?x] => destruct (no_string x) end)..|].
  intros name Hn. unfold search_names in Hn. repeat (apply not_elem_of_cons in Hn as [? Hn]).
  rewrite !member_app, !member_omit, !member_omit_ptr, Hph, (Hsigned : (maplen (SSigned s') =? 0)%Z = false).
  unfold member. cbn [List.find fst]. repeat rewrite (proj2 (String.eqb_neq _ _)) by done. done.
Qed.

Lemma demo_search_utf8 : search_utf8 demo_search.
Proof.
  split_and!; try reflexivity; unfold utf8_slice, utf8_map; cbn; try by repeat constructor.
  intros k v. rewrite lookup_singleton_Some. by intros [<- <-].
Qed.

Lemma Search_ToJSON_correct_witness :
  Search_IsValid demo_search = true /\
  exists l, parse (Search_ToJSON (Search_defaults "medusa" "v2" demo_search)) = Some (JObj l) /\
    member "chain_name" l = Some (JStr "medusa") /\
    member "order_by" l = text_member (SOrderBy demo_search).
Proof.
  assert (Search_IsValid demo_search = true) as E by (vm_compute; reflexivity).
  split; [exact E|].
  destruct (Search_ToJSON_correct "medusa" "v2" demo_search E demo_search_utf8 eq_refl eq_refl)
    as (l & text & Hl & _ & _ & _ & _ & _ & _ & Ho & _ & _ & _ & _ & _ & _ & _ & Hc & _).
  exists l. split; [exact Hl|]. split; [exact Hc|exact Ho].
Defined.
