(* ===== verification/Incoming.v ===== *)
(** * websocket.go: incoming messages and the callbacks they reach

    [parseIncoming] as the list of calls it makes, and [dispatch] as a step
    relation: the calling loops, the 16 slots and the callback goroutines. *)
From S2P Require Import Prelude GoText Errors Types Client Subscriptions Sync.
From S2P Require Import SendQueue Utf8 Json Models Requests.

Section incoming.
Context `{GoValues}.

(** The anonymous struct [envelope]. A [json.RawMessage] is kept as its JSON
    value; [None] is the empty one. *)
Record envelope := mk_envelope {
  EID : option json;
  EType : option json;
  EData : option json;
  EState : option State;
}.

Definition zero_envelope : envelope := mk_envelope None None None None.

Definition dec_raw : decoder (option json) := fun _ j => Some (Some j).

Definition dec_envelope : decoder envelope := dec_struct
  [fld "id" EID (fun x '(mk_envelope _ b c d) => mk_envelope x b c d) dec_raw;
   fld "type" EType (fun x '(mk_envelope a _ c d) => mk_envelope a x c d) dec_raw;
   fld "data" EData (fun x '(mk_envelope a b _ d) => mk_envelope a b x d) dec_raw;
   fld "state" EState (fun x '(mk_envelope a b c _) => mk_envelope a b c x)
     (dec_ptr (0%Z : State) dec_int)].

(** A raw message that is neither empty nor null. *)
Definition present (raw : option json) : option json :=
  match raw with
  | None | Some JNull => None
  | Some j => Some j
  end.

(** [tx.ID.(string)]. *)
Definition any_string (a : any) : option string :=
  match a with AnyValue (JStr s) => Some s | _ => None end.

(** [raw] is the JSON of the text; [None] is a text that is not JSON. *)
Definition decodeTransaction (raw : option json) : result error Transaction :=
  match (j ← raw; dec_Transaction zero_Transaction j) with
  | None => Err (errors_New "invalid transaction JSON")
  | Some tx =>
      match any_string (ID tx) with
      | None => Err (errors_New "invalid transaction id")
      | Some id => if String.eqb id "" then Err (errors_New "invalid transaction id") else Ok tx
      end
  end.

(** The calls [parseIncoming] makes. [CancelSession] is [session.cancel()]. *)
Inductive effect :=
| CallErrorCallbacks (e : error)
| CallListenCallbacks (block : option Block) (tx : option Transaction)
| CancelSession (sid : nat).

Definition report (text : string) : list effect := [CallErrorCallbacks (errors_New text)].

Definition deliver (r : result error Transaction) : list effect :=
  match r with
  | Err err => [CallErrorCallbacks err]
  | Ok tx => [CallListenCallbacks None (Some tx)]
  end.

(** The switch on the message type. *)
Definition incoming_type (c : client) (env : envelope) (typ : Z) : list effect :=
  if (typ =? 0)%Z then
    match (j ← present (EData env); dec_Block zero_Block j) with
    | None => report "invalid block message"
    | Some block => [CallListenCallbacks (Some block) None]
    end
  else if (typ =? 1)%Z then deliver (decodeTransaction (EData env))
  else if (typ =? 3)%Z then
    if bool_decide (EState env = Some State_OK) then []
    else report "listen rejected"
         ++ match session c with Some sid => [CancelSession sid] | None => [] end
  else if (typ =? 2)%Z then
    if bool_decide (EState env = Some State_Fail) then report "subscription rejected" else []
  else report "unknown websocket message type".

Definition parseIncoming (c : client) (raw : string) : list effect :=
  let doc := parse raw in
  match (j ← doc; dec_envelope zero_envelope j) with
  | None => report "invalid websocket JSON"
  | Some env =>
      match doc with
      | Some JNull => report "invalid websocket JSON"
      | _ =>
          match present (EID env) with
          | Some _ => deliver (decodeTransaction doc)
          | None =>
              match (j ← present (EType env); dec_int 0%Z j) with
              | None => report "invalid websocket message type"
              | Some typ => incoming_type c env typ
              end
          end
      end
  end.

End incoming.

(** ** dispatch *)

Definition callback_slots : nat := 16.     (* make(chan struct{}, 16) *)

Section dispatch.
Context {C : Type}.

(** A loop over a copy of the registered callbacks: the copy, how many it has
    dispatched, and whether [dispatch] returned false. *)
Record caller := mk_caller { copy : list C; sent : nat; stopped : bool }.

(** [slots] is the length of the channel; [goroutines] the callbacks started and
    not finished; [log] every start, with its loop. *)
Record dispatcher := mk_dispatcher {
  slots : nat;
  goroutines : list C;
  callers : list caller;
  log : list (nat * C);
  ctx_done : bool;
}.

Definition no_calls : dispatcher := mk_dispatcher 0 [] [] [] false.

Inductive dispatch_step : dispatcher -> dispatcher -> Prop :=
| ds_call d cbs :                       (* callListenCallbacks and its like *)
    dispatch_step d (mk_dispatcher (slots d) (goroutines d) (callers d ++ [mk_caller cbs 0 false])
                       (log d) (ctx_done d))
| ds_dispatch d i cl fn :               (* the slot is taken, the goroutine started *)
    callers d !! i = Some cl -> stopped cl = false -> copy cl !! sent cl = Some fn ->
    slots d < callback_slots ->
    dispatch_step d (mk_dispatcher (S (slots d)) (fn :: goroutines d)
                       (<[i := mk_caller (copy cl) (S (sent cl)) false]> (callers d))
                       (log d ++ [(i, fn)]) (ctx_done d))
| ds_refused d i cl fn :                (* case <-ctx.Done() *)
    callers d !! i = Some cl -> stopped cl = false -> copy cl !! sent cl = Some fn ->
    ctx_done d = true ->
    dispatch_step d (mk_dispatcher (slots d) (goroutines d)
                       (<[i := mk_caller (copy cl) (sent cl) true]> (callers d))
                       (log d) (ctx_done d))
| ds_return d g1 fn g2 :                (* a callback returns: <-c.callbackSlots *)
    goroutines d = g1 ++ fn :: g2 -> 0 < slots d ->
    dispatch_step d (mk_dispatcher (slots d - 1) (g1 ++ g2) (callers d) (log d) (ctx_done d))
| ds_done d :
    dispatch_step d (mk_dispatcher (slots d) (goroutines d) (callers d) (log d) true).

Definition started (i : nat) (l : list (nat * C)) : list C :=
  omap (fun p => if decide (p.1 = i) then Some p.2 else None) l.

(** What holds of every loop. *)
Definition caller_ok (d : dispatcher) (i : nat) (cl : caller) : Prop :=
  started i (log d) = take (sent cl) (copy cl) /\ sent cl <= length (copy cl) /\
  (stopped cl = true -> ctx_done d = true).

Record dispatch_inv (d : dispatcher) : Prop := {
  di_slots : slots d = length (goroutines d);
  di_bound : slots d <= callback_slots;
  di_callers : forall i cl, callers d !! i = Some cl -> caller_ok d i cl;
  di_log : forall i, length (callers d) <= i -> started i (log d) = [];
}.

End dispatch.
Arguments caller : clear implicits.
#[local] Arguments started : simpl never.
Arguments dispatcher : clear implicits.

(** ** Lemmas: dispatch *)
Section dispatch_facts.
Context {C : Type}.

Implicit Types (d : dispatcher C) (cl : caller C).

Lemma started_app i (l1 l2 : list (nat * C)) : started i (l1 ++ l2) = started i l1 ++ started i l2.
Proof. apply omap_app. Qed.

Lemma started_one i j (fn : C) : started i [(j, fn)] = if decide (j = i) then [fn] else [].
Proof. unfold started. cbn. by case_decide. Qed.

Lemma dispatch_step_inv d d' : dispatch_step d d' -> dispatch_inv d -> dispatch_inv d'.
Proof.
  intros Hstep [Hs Hb Hc Hl].
  destruct Hstep as [d cbs|d i cl fn Hi Hst Hfn Hlt|d i cl fn Hi Hst Hfn Hdone|d g1 fn g2 Hg Hpos|d];
    cbn in *.
  - split; cbn; try done.
    + intros i cl [Hi|[Hlen Hi]]%lookup_app_Some; [by apply Hc|].
      apply list_lookup_singleton_Some in Hi as [Hi <-]. unfold caller_ok.
      cbn [copy sent stopped log ctx_done]. rewrite Hl by lia. split_and!; [done|lia|done].
    + intros i Hi. apply Hl. rewrite length_app in Hi. simpl in Hi. lia.
  - pose proof (lookup_lt_Some _ _ _ Hi) as Hlen.
    destruct (Hc _ _ Hi) as (H1 & H2 & H3). pose proof (lookup_lt_Some _ _ _ Hfn) as Hlt'.
    split; cbn; [lia|lia| |].
    + intros j cl'. destruct (decide (j = i)) as [->|Hne].
      * rewrite list_lookup_insert_eq by done. intros [= <-]. unfold caller_ok.
        cbn [copy sent stopped log ctx_done]. rewrite started_app, started_one, decide_True, H1 by done.
        split_and!; [by rewrite (take_S_r _ _ _ Hfn)|lia|done].
      * rewrite list_lookup_insert_ne by done. intros Hj.
        destruct (Hc _ _ Hj) as (G1 & G2 & G3). unfold caller_ok.
        cbn [copy sent stopped log ctx_done]. by rewrite started_app, started_one, decide_False, app_nil_r by done.
    + intros j. rewrite length_insert. intros Hj.
      rewrite started_app, started_one, decide_False, app_nil_r by lia. by apply Hl.
  - pose proof (lookup_lt_Some _ _ _ Hi) as Hlen.
    destruct (Hc _ _ Hi) as (H1 & H2 & H3). split; cbn; [done|done| |].
    + intros j cl'. destruct (decide (j = i)) as [->|Hne].
      * rewrite list_lookup_insert_eq by done. by intros [= <-].
      * rewrite list_lookup_insert_ne by done. apply Hc.
    + intros j. rewrite length_insert. apply Hl.
  - rewrite Hg, length_app in Hs. cbn in Hs. split; cbn; try done; [|lia].
    rewrite length_app. lia.
  - split; cbn; try done. intros i cl Hi. destruct (Hc _ _ Hi) as (H1 & H2 & H3). by split_and!.
Qed.

Lemma dispatch_reachable_inv d : rtc dispatch_step no_calls d -> dispatch_inv d.
Proof.
  intros Hr. assert (dispatch_inv (@no_calls C)) as H0 by (split; cbn; (done || lia)).
  revert Hr H0. generalize (@no_calls C) as d0. intros d0 Hr.
  induction Hr as [d1|d1 d2 d3 Hs Hr IH]; [done|]. intros H1. by eapply IH, dispatch_step_inv.
Qed.

End dispatch_facts.

(** ** Messages as nodes write them *)
Section sending.
Context `{GoValues}.

(** How [time.Time] is written, read back by [parse_time]. *)
Context (format_time : Time -> string).
Context (parse_format : forall t, parse_time (format_time t) = Some t).
Context (utf8_format : forall t, utf8 (format_time t)).

Definition Bytea_json (b : Bytea) : json :=
  JObj [("Bytes", json_byte_slice (Bytes b)); ("Status", JInt (BStatus b))].

Definition any_json (a : any) : json := match a with AnyNil => JNull | AnyValue j => j end.

(** [json.Marshal] by the tags of [Transaction]. *)
Definition Transaction_json (t : Transaction) : json :=
  JObj (omit_ptr "order" (JInt <$> Order t)
        ++ [("id", any_json (ID t)); ("height", JInt (Height t));
            ("identifier", JStr (Identifier t)); ("version", JInt (Version t));
            ("typ", JStr (Typ t)); ("sender_addr", JStr (SenderAddr t));
            ("recipient_addr", JStr (RecipientAddr t)); ("data", Bytea_json (TData t))]
        ++ omit_ptr "additional_data" (Bytea_json <$> AdditionalData t)
        ++ omit_ptr "cipher_data" (Bytea_json <$> CipherData t)
        ++ [("sign", Bytea_json (Sign t)); ("fee", JInt (Fee t)); ("hash", JStr (Hash t));
            ("inserted_at", JStr (format_time (InsertedAt t)))]).

Definition uint64 (z : Z) : Prop := (0 <= z < 2 ^ 64)%Z.
Definition int64 (z : Z) : Prop := (- 2 ^ 63 <= z < 2 ^ 63)%Z.

Definition bytea_wf (b : Bytea) : Prop := int64 (BStatus b).

(** A transaction with a non-empty string identifier, its numbers within their
    widths and its strings valid UTF-8. *)
Record transaction_wf (id : string) (t : Transaction) : Prop := {
  tw_id : ID t = AnyValue (JStr id) /\ utf8 id /\ id <> "";
  tw_uints : uint64 (default 0%Z (Order t)) /\ uint64 (Height t) /\ uint64 (Version t) /\
    uint64 (Fee t);
  tw_strings : utf8 (Identifier t) /\ utf8 (Typ t) /\ utf8 (SenderAddr t) /\
    utf8 (RecipientAddr t) /\ utf8 (Hash t);
  tw_bytea : bytea_wf (TData t) /\ bytea_wf (default zero_Bytea (AdditionalData t)) /\
    bytea_wf (default zero_Bytea (CipherData t)) /\ bytea_wf (Sign t);
}.

Lemma dec_JInt_signed z cur : int64 z -> dec_int cur (JInt z) = Some z.
Proof.
  unfold int64. intros Hz. unfold JInt, dec_int, in_bounds. rewrite Parse_FormatInt.
  cbn [mbind option_bind]. destruct (Z.leb_spec (- 2 ^ 63) z); [|lia].
  destruct (Z.leb_spec z (2 ^ 63 - 1)); [done|lia].
Qed.

Lemma dec_Bytea_json b cur : bytea_wf b -> dec_Bytea cur (Bytea_json b) = Some b.
Proof.
  intros Hb. destruct b as [bs st], cur as [cb cst]. unfold dec_Bytea, dec_struct, Bytea_json.
  pose proof (dec_JInt_signed st cst Hb) as Hst.
  dec_members_with ltac:(apply dec_json_byte_slice). done.
Qed.

Lemma dec_ptr_value {A} (zero : A) dec cur j (a : A) :
  j <> JNull -> dec (default zero cur) j = Some a -> dec_ptr zero dec cur j = Some (Some a).
Proof. intros Hj Hd. unfold dec_ptr. destruct j; try done; by rewrite Hd. Qed.

Lemma Bytea_json_shape b :
  integral (Bytea_json b) /\ (depth (Bytea_json b) <= 1)%Z /\ utf8_json (Bytea_json b).
Proof.
  destruct b as [[bs|] st]; cbn; (split_and!; try done; try (by eexists); try lia).
  apply utf8_json_bytes.
Qed.

Lemma dec_Transaction_json id t :
  transaction_wf id t -> dec_Transaction zero_Transaction (Transaction_json t) = Some t.
Proof.
  intros [(Hid & _) (U1 & U2 & U3 & U4) _ (B1 & B2 & B3 & B4)].
  destruct t as [o i h idf v ty sa ra d ad cd sg fee ha ti]. cbn in *. subst i.
  pose proof (dec_JInt 64 h 0 U2) as Dh. pose proof (dec_JInt 64 v 0 U3) as Dv.
  pose proof (dec_JInt 64 fee 0 U4) as Df.
  pose proof (dec_Bytea_json d zero_Bytea B1) as Dd.
  pose proof (dec_Bytea_json sg zero_Bytea B4) as Ds.
  assert (forall x, o = Some x -> dec_ptr 0%Z (dec_uint 64) None (JInt x) = Some (Some x)) as Do.
  { intros x ->. apply dec_ptr_value; [done|]. by apply dec_JInt. }
  assert (forall x, ad = Some x -> dec_ptr zero_Bytea dec_Bytea None (Bytea_json x) = Some (Some x)) as Da.
  { intros x ->. apply dec_ptr_value; [done|]. by apply dec_Bytea_json. }
  assert (forall x, cd = Some x -> dec_ptr zero_Bytea dec_Bytea None (Bytea_json x) = Some (Some x)) as Dc.
  { intros x ->. apply dec_ptr_value; [done|]. by apply dec_Bytea_json. }
  assert (forall x cur, dec_string cur (JStr x) = Some x) as Dstr by done.
  assert (forall cur, dec_time cur (JStr (format_time ti)) = Some ti) as Dt
    by (intros; apply parse_format).
  unfold Transaction_json, dec_Transaction, dec_struct.
  destruct o as [o|], ad as [ad|], cd as [cd|];
    cbn [omit_ptr fmap option_fmap option_map app Order ID Height Identifier Version Typ
         SenderAddr RecipientAddr TData AdditionalData CipherData Sign Fee Hash InsertedAt any_json].
  all: dec_members_with ltac:(first [apply Dstr|apply Dt|by apply Do|by apply Da|by apply Dc]).
  all: done.
Qed.

Lemma any_json_id t id : ID t = AnyValue (JStr id) -> any_json (ID t) = JStr id.
Proof. by intros ->. Qed.

Lemma Transaction_json_shape id t :
  transaction_wf id t ->
  integral (Transaction_json t) /\ (depth (Transaction_json t) <= 2)%Z /\
  utf8_json (Transaction_json t).
Proof.
  intros [(Hid & Hu & _) _ (S1 & S2 & S3 & S4 & S5) _].
  pose proof (utf8_format (InsertedAt t)).
  unfold Transaction_json. rewrite (any_json_id _ _ Hid).
  assert (forall k b, utf8 k -> integral (Bytea_json b) /\ (depth (Bytea_json b) <= 1)%Z /\
            utf8 k /\ utf8_json (Bytea_json b)) as HB.
  { intros k b Hk. destruct (Bytea_json_shape b) as (? & ? & ?). by split_and!. }
  assert (Forall (fun p : string * json => integral p.2 /\ (depth p.2 <= 1)%Z /\ utf8 p.1 /\ utf8_json p.2)
    (omit_ptr "order" (JInt <$> Order t)
        ++ [("id", JStr id); ("height", JInt (Height t));
            ("identifier", JStr (Identifier t)); ("version", JInt (Version t));
            ("typ", JStr (Typ t)); ("sender_addr", JStr (SenderAddr t));
            ("recipient_addr", JStr (RecipientAddr t)); ("data", Bytea_json (TData t))]
        ++ omit_ptr "additional_data" (Bytea_json <$> AdditionalData t)
        ++ omit_ptr "cipher_data" (Bytea_json <$> CipherData t)
        ++ [("sign", Bytea_json (Sign t)); ("fee", JInt (Fee t)); ("hash", JStr (Hash t));
            ("inserted_at", JStr (format_time (InsertedAt t)))])) as Hall.
  { rewrite !Forall_app. split_and!.
    - apply Forall_omit_ptr. intros v Hv. apply fmap_Some in Hv as (x & _ & ->). by apply plain_int.
    - repeat (apply Forall_cons; split;
        [first [by apply HB|by apply plain_str|by apply plain_int]|]). by apply Forall_nil.
    - apply Forall_omit_ptr. intros v Hv. apply fmap_Some in Hv as (x & _ & ->). by apply HB.
    - apply Forall_omit_ptr. intros v Hv. apply fmap_Some in Hv as (x & _ & ->). by apply HB.
    - repeat (apply Forall_cons; split;
        [first [by apply HB|by apply plain_str|by apply plain_int]|]). by apply Forall_nil. }
  set (l := omit_ptr _ _ ++ _) in *. clearbody l. cbn [integral depth utf8_json].
  rewrite !foldr_and_Forall.
  assert (foldr Z.max 0 (map (fun p => depth p.2) l) <= 1)%Z.
  { apply foldr_max_le; [done|]. eapply Forall_impl; [exact Hall|]. by intros p (_ & ? & _). }
  split_and!; [|lia|]; (eapply Forall_impl; [exact Hall|]); by intros p (? & _ & ? & ?).
Qed.

(** A message of type 1 around a transaction. *)
Definition transaction_message (t : Transaction) : json :=
  JObj [("type", JInt 1); ("data", Transaction_json t)].

Lemma decodeTransaction_json id t :
  transaction_wf id t -> decodeTransaction (Some (Transaction_json t)) = Ok t.
Proof.
  intros Hwf. unfold decodeTransaction. cbn [mbind option_bind].
  rewrite (dec_Transaction_json id t Hwf). destruct Hwf as [(-> & _ & Hne) _ _ _]. cbn [any_string].
  by apply String.eqb_neq in Hne as ->.
Qed.

Lemma envelope_of_transaction id t :
  transaction_wf id t ->
  exists env, dec_envelope zero_envelope (Transaction_json t) = Some env /\
    present (EID env) = Some (JStr id).
Proof.
  intros [(Hid & _) _ _ _]. unfold Transaction_json. rewrite (any_json_id _ _ Hid).
  destruct (Order t), (AdditionalData t), (CipherData t); eexists; (split; [reflexivity|done]).
Qed.

(** C5: what a node sends is what the listeners get: the JSON of a transaction
    with a non-empty identifier, bare or as the data of a type-1 message, makes
    [parseIncoming] call the listen callbacks once, with exactly that
    transaction, and do nothing else. *)
Theorem incoming_transaction_roundtrip c id t (Hwf : transaction_wf id t) :
  parseIncoming c (Marshal (Transaction_json t)) = [CallListenCallbacks None (Some t)] /\
  parseIncoming c (Marshal (transaction_message t)) = [CallListenCallbacks None (Some t)].
Proof.
  destruct (Transaction_json_shape id t Hwf) as (Hi & Hd & Hu).
  pose proof (decodeTransaction_json id t Hwf) as Hdec. split.
  - unfold parseIncoming. rewrite parse_Marshal by (try done; unfold max_depth; lia).
    cbn [mbind option_bind]. destruct (envelope_of_transaction id t Hwf) as (env & -> & ->).
    unfold Transaction_json at 1. cbn [app]. fold (Transaction_json t).
    by rewrite Hdec.
  - unfold parseIncoming, transaction_message. rewrite parse_Marshal.
    + cbn [mbind option_bind].
      assert (dec_envelope zero_envelope (JObj [("type", JInt 1); ("data", Transaction_json t)])
        = Some (mk_envelope None (Some (JInt 1)) (Some (Transaction_json t)) None)) as -> by reflexivity.
      cbn [present EID EType JInt]. fold (JInt 1). cbn [mbind option_bind].
      rewrite (eq_refl : dec_int 0%Z (JInt 1) = Some 1%Z).
      unfold incoming_type. cbn [Z.eqb Pos.eqb EData]. by rewrite Hdec.
    + cbn. split; [by exists 1%Z|]. by split.
    + cbn -[Transaction_json]. unfold max_depth. lia.
    + cbn -[Transaction_json]. by split_and!.
Qed.

End sending.

(** Times as integers, for examples. *)
#[local] Instance demo_values : GoValues :=
  {| Time := Z; zero_time := 0%Z; parse_time := ParseInt; float_ok := fun _ => true |}.

Lemma demo_format_utf8 (t : Time) : utf8 (FormatInt t).
Proof. unfold utf8. apply ascii_valid, FormatInt_ascii. Qed.

Definition demo_transaction : Transaction :=
  mk_Transaction (Some 3%Z) (AnyValue (JStr "tx")) 7 "n" 1 TypeMessage "from" "to"
    (mk_Bytea (Some [x01]) 1) None (Some (mk_Bytea None (-2))) (mk_Bytea (Some []) 2) 5 "h" 1700%Z.

Lemma demo_transaction_wf : transaction_wf "tx" demo_transaction.
Proof.
  split; (split_and!; try reflexivity; try discriminate);
    unfold bytea_wf, uint64, int64; cbn; lia.
Qed.

Lemma incoming_transaction_roundtrip_witness :
  Marshal (Transaction_json FormatInt demo_transaction) <> "" /\
  parseIncoming (new_client "id") (Marshal (Transaction_json FormatInt demo_transaction))
  = [CallListenCallbacks None (Some demo_transaction)].
Proof.
  split; [vm_compute; discriminate|].
  exact (proj1 (incoming_transaction_roundtrip FormatInt Parse_FormatInt demo_format_utf8
                  (new_client "id") "tx" demo_transaction demo_transaction_wf)).
Defined.

(** ** Properties of parseIncoming *)

(** Every error the callbacks can get from a message: fixed texts. *)
Definition incoming_errors : list error :=
  errors_New <$> ["invalid websocket JSON"; "invalid transaction JSON"; "invalid transaction id";
    "invalid websocket message type"; "invalid block message"; "listen rejected";
    "subscription rejected"; "unknown websocket message type"].

(** What the callbacks may be called with. *)
Definition delivered `{GoValues} (block : option Block) (tx : option Transaction) : Prop :=
  (exists b, block = Some b /\ tx = None) \/
  (exists t id, block = None /\ tx = Some t /\ any_string (ID t) = Some id /\ id <> "").

(** [raw] is a message of this type, without an identifier and with this state. *)
Definition typed_message `{GoValues} (raw : string) (typ : Z) (state : option State) : Prop :=
  exists j env, parse raw = Some j /\ j <> JNull /\ dec_envelope zero_envelope j = Some env /\
    present (EID env) = None /\ (t ← present (EType env); dec_int 0%Z t) = Some typ /\
    EState env = state.

(** The answer to a Listen frame that is not OK. *)
Definition refused_listen `{GoValues} (raw : string) : Prop :=
  exists state, typed_message raw 3 state /\ state <> Some State_OK.

(** The answers that need no callback. *)
Definition acknowledged `{GoValues} (raw : string) : Prop :=
  typed_message raw 3 (Some State_OK) \/
  exists state, typed_message raw 2 state /\ state <> Some State_Fail.

(** The outcomes of [parseIncoming], in the shape of its branches. *)
Inductive incoming_outcome `{GoValues} (c : client) (raw : string) : list effect -> Prop :=
| io_ignored : acknowledged raw -> incoming_outcome c raw []
| io_error e : e ∈ incoming_errors -> incoming_outcome c raw [CallErrorCallbacks e]
| io_listen block tx : delivered block tx -> incoming_outcome c raw [CallListenCallbacks block tx]
| io_rejected sid :
    session c = Some sid -> refused_listen raw ->
    incoming_outcome c raw [CallErrorCallbacks (errors_New "listen rejected"); CancelSession sid].

Lemma report_outcome `{GoValues} c raw text :
  errors_New text ∈ incoming_errors -> incoming_outcome c raw (report text).
Proof. apply io_error. Qed.

Ltac known_error := unfold incoming_errors; rewrite list_elem_of_In; cbn; tauto.

Lemma deliver_outcome `{GoValues} c raw doc :
  incoming_outcome c raw (deliver (decodeTransaction doc)).
Proof.
  unfold decodeTransaction. destruct (_ ≫= _) as [tx|]; [|apply io_error; known_error].
  destruct (any_string (ID tx)) as [id|] eqn:Eid; [|apply io_error; known_error].
  destruct (String.eqb_spec id "") as [->|Hne]; [apply io_error; known_error|].
  apply io_listen. right. by exists tx, id.
Qed.

Lemma parseIncoming_outcome `{GoValues} c raw : incoming_outcome c raw (parseIncoming c raw).
Proof.
  unfold parseIncoming.
  destruct (parse raw) as [j|] eqn:Ej; [|apply report_outcome; known_error].
  cbn [mbind option_bind].
  destruct (dec_envelope zero_envelope j) as [env|] eqn:Eenv; [|apply report_outcome; known_error].
  assert (forall effs, j <> JNull -> incoming_outcome c raw effs ->
    incoming_outcome c raw (match Some j with Some JNull => report "invalid websocket JSON" | _ => effs end)) as Hnull
    by (intros effs Hj; by destruct j).
  destruct (decide (j = JNull)) as [->|Hj] || (assert (j = JNull \/ j <> JNull) as [->|Hj] by (destruct j; auto; right; discriminate)).
  { apply report_outcome. known_error. }
  apply Hnull; [done|]. clear Hnull.
  destruct (present (EID env)) as [i|] eqn:Ei; [apply deliver_outcome|].
  destruct (present (EType env) ≫= fun t => dec_int 0%Z t) as [typ|] eqn:Et;
    [|apply report_outcome; known_error].
  unfold incoming_type.
  destruct (Z.eqb_spec typ 0).
  { destruct (present (EData env) ≫= fun j => dec_Block zero_Block j) as [b|];
      [|apply report_outcome; known_error]. apply io_listen. left. by exists b. }
  destruct (Z.eqb_spec typ 1); [apply deliver_outcome|].
  destruct (Z.eqb_spec typ 3) as [->|].
  { assert (typed_message raw 3 (EState env)) as Hm by (by exists j, env).
    case_bool_decide as Hok; [apply io_ignored; left; by rewrite <- Hok|].
    destruct (session c) as [sid|] eqn:Es; [|apply report_outcome; known_error].
    apply io_rejected; [done|by exists (EState env)]. }
  destruct (Z.eqb_spec typ 2) as [->|]; [|apply report_outcome; known_error].
  case_bool_decide; [apply report_outcome; known_error|].
  apply io_ignored. right. exists (EState env). split; [by exists j, env|done].
Qed.

(** A refused listen, with and without a session. *)
Lemma refused_listen_effects `{GoValues} c raw :
  refused_listen raw ->
  parseIncoming c raw = CallErrorCallbacks (errors_New "listen rejected") ::
    match session c with Some sid => [CancelSession sid] | None => [] end.
Proof.
  intros (state & (j & env & Hp & Hj & He & Hi & Ht & <-) & Hok). unfold parseIncoming. rewrite Hp.
  cbn [mbind option_bind]. rewrite He, Hi, Ht.
  assert (incoming_type c env 3 = CallErrorCallbacks (errors_New "listen rejected") ::
    match session c with Some sid => [CancelSession sid] | None => [] end) as Hr.
  { unfold incoming_type. cbn [Z.eqb Pos.eqb]. by rewrite bool_decide_eq_false_2. }
  by destruct j.
Qed.

(** The rounds of callbacks among the calls. *)
Definition rounds `{GoValues} (effs : list effect) : list effect :=
  List.filter (fun e => match e with CancelSession _ => false | _ => true end) effs.

(** C16: whatever text arrives, [parseIncoming] makes at most one round of
    callbacks, and none only for an acknowledgement: no other message is dropped
    without a report. Listeners get a block or a transaction, never both, and a
    transaction always has a non-empty string identifier; error callbacks get
    one of eight fixed texts, once, never one of the server's; only a message of
    type 3 without an identifier and without the state OK cancels the session,
    after reporting it. *)
Theorem parseIncoming_effects `{GoValues} c raw :
  let effs := parseIncoming c raw in
  length (rounds effs) <= 1 /\
  (rounds effs = [] -> effs = [] /\ acknowledged raw) /\
  (forall block tx, CallListenCallbacks block tx ∈ effs ->
     effs = [CallListenCallbacks block tx] /\ delivered block tx) /\
  (forall e, CallErrorCallbacks e ∈ effs ->
     e ∈ incoming_errors /\
     (effs = [CallErrorCallbacks e] \/ exists sid, effs = [CallErrorCallbacks e; CancelSession sid])) /\
  (forall sid, CancelSession sid ∈ effs ->
     effs = [CallErrorCallbacks (errors_New "listen rejected"); CancelSession sid] /\
     session c = Some sid /\ refused_listen raw).
Proof.
  assert (errors_New "listen rejected" ∈ incoming_errors) as Hrej by known_error.
  cbn zeta. destruct (parseIncoming_outcome c raw) as [Ha|e He|b t Hd|sid Hs Hr];
    (split; [simpl; lia|split; [by intros|]]);
    (split; [intros block tx Hin|split; [intros e' Hin|intros sid' Hin]]);
    rewrite ?elem_of_cons, ?elem_of_nil in Hin;
    repeat destruct Hin as [Hin|Hin]; simplify_eq; try done; eauto 10.
Qed.

(** C30: a refused listen ends the right session, and nothing else ends one: in
    every reachable state with a session running, the message that refuses a
    listen is reported once and makes the reader cancel exactly that session,
    and no other message cancels any. *)
Theorem listen_rejection_cancels_own_session `{GoValues} id ctx tr s sid raw
    (Hex : exec (init id ctx) tr s) (Hrun : running s sid) :
  (refused_listen raw ->
   parseIncoming (cl (sw s)) raw
   = [CallErrorCallbacks (errors_New "listen rejected"); CancelSession sid]) /\
  (forall sid', CancelSession sid' ∈ parseIncoming (cl (sw s)) raw ->
   refused_listen raw /\ sid' = sid).
Proof.
  destruct Hrun as (ss & Hss & Hd).
  pose proof (so_running _ _ _ _ _ (inv_sess _ (exec_inv _ _ _ _ Hex) _ _ Hss) Hd) as Hs.
  split; [intros Hr; by rewrite (refused_listen_effects _ _ Hr), Hs|].
  intros sid' Hin. destruct (parseIncoming_outcome (cl (sw s)) raw); rewrite ?elem_of_cons, ?elem_of_nil in Hin;
    repeat destruct Hin as [Hin|Hin]; simplify_eq; done.
Qed.

Definition rejected_listen : json := JObj [("type", JInt 3); ("state", JInt 2)].

Lemma demo_running : exec (init "id" None) [LTau] demo1.
Proof.
  apply (exec_step _ [] (init "id" None)); [apply exec_refl|].
  exact (st_start (init "id" None) eq_refl eq_refl).
Qed.

Lemma listen_rejection_cancels_own_session_witness :
  refused_listen (Marshal rejected_listen) /\
  parseIncoming (cl (sw demo1)) (Marshal rejected_listen)
  = [CallErrorCallbacks (errors_New "listen rejected"); CancelSession 0].
Proof.
  assert (refused_listen (Marshal rejected_listen)) as Hr.
  { exists (Some 2%Z). split; [|discriminate].
    exists rejected_listen, (mk_envelope None (Some (JInt 3)) None (Some 2%Z)).
    split_and!; [vm_compute; reflexivity|discriminate|reflexivity..]. }
  split; [exact Hr|].
  apply (listen_rejection_cancels_own_session "id" None [LTau] demo1 0 (Marshal rejected_listen));
    [exact demo_running| |exact Hr].
  exists new_session. split; reflexivity.
Defined.

(** ** Properties of dispatch *)

(** C18: slow callbacks hold the reader back instead of piling up: at most 16
    callbacks run at any moment, one per taken slot; every round starts its
    callbacks in the order of registration, each once and none skipped, and
    stops early only after the context was cancelled. *)
Theorem dispatch_bounded {C} (d : dispatcher C) (Hr : rtc dispatch_step no_calls d) :
  length (goroutines d) <= 16 /\ slots d = length (goroutines d) /\
  forall i cl, callers d !! i = Some cl ->
    started i (log d) = take (sent cl) (copy cl) /\
    (sent cl < length (copy cl) -> stopped cl = true -> ctx_done d = true).
Proof.
  destruct (dispatch_reachable_inv d Hr) as [Hs Hb Hc _]. unfold callback_slots in Hb.
  split; [lia|]. split; [done|]. intros i cl Hi. destruct (Hc _ _ Hi) as (H1 & _ & H3). auto.
Qed.

Definition demo_round : dispatcher nat := mk_dispatcher 1 [7] [mk_caller [7; 8] 1 false] [(0, 7)] false.

Lemma dispatch_bounded_witness :
  rtc dispatch_step no_calls demo_round /\ length (goroutines demo_round) <= 16.
Proof.
  assert (rtc dispatch_step no_calls demo_round) as Hr.
  { eapply rtc_l; [exact (ds_call no_calls [7; 8])|].
    eapply rtc_l; [|apply rtc_refl].
    exact (ds_dispatch (mk_dispatcher 0 [] [mk_caller [7; 8] 0 false] [] false) 0
             (mk_caller [7; 8] 0 false) 7 eq_refl eq_refl eq_refl ltac:(unfold callback_slots; simpl; lia)). }
  split; [exact Hr|]. exact (proj1 (dispatch_bounded demo_round Hr)).
Defined.
