(* ===== verification/Received.v ===== *)
(** * What a callback is given is what the message says

    The transactions and blocks of the listen callbacks, field by field, against
    the members of the message: the last member that bears the field's JSON name,
    in any letter case. *)
From S2P Require Import Prelude GoText Errors Types Client Utf8 Json Models Requests Incoming.

(** ** The members of an object *)









(** ** Fields that depend on the last member only *)


































Section received.
Context `{GoValues}.














(** ** The message around them *)






End received.

(** ** Properties *)


#[local] Existing Instance demo_values.



