(* ===== verification/Reader.v ===== *)
(** * websocket.go: the reading side of a connection

    The goroutine [serveConnection] starts: whole messages of a bounded size,
    read one after the other, handed to [parseIncoming]; and the bounded read
    it shares with the constructor. *)
From S2P Require Import Prelude GoText Errors Types Client Subscriptions Sync.
From S2P Require Import SendQueue Utf8 Json Models Requests Incoming.

(** An [io.Reader]: its bytes, then a last read that reports the end or an
    error. *)
Record reader := mk_reader { content : bytes; fails : option error }.

(** [io.ReadAll(io.LimitReader(r, limit+1))]: an error beyond the limit is not
    reached. *)
Definition read_limited (limit : Z) (r : reader) : result error bytes :=
  if (limit <? llen (content r))%Z then Ok (take (Z.to_nat (limit + 1)) (content r))
  else match fails r with
  | Some err => Err err
  | None => Ok (content r)
  end.

Definition TextMessage : Z := 1.           (* websocket.TextMessage *)

Definition read_message (r : reader) : result error bytes :=
  msg ← read_limited maxMessageSize r;
  if (maxMessageSize <? llen msg)%Z then Err (errors_New "websocket message too large") else Ok msg.

Section reading.
Context `{GoValues}.

(** The reader's loop: for each round the client as [parseIncoming] finds it
    and what [conn.NextReader()] returns. The results are the calls made and
    the error sent on [readDone]; when the list ends first, the loop waits in
    [NextReader]. *)
Fixpoint read_loop (rounds : list (client * result error (Z * reader)))
    : list effect * option error :=
  match rounds with
  | [] => ([], None)
  | (c, next) :: rounds' =>
      match next with
      | Err err => ([], Some err)
      | Ok (typ, r) =>
          match read_message r with
          | Err err => ([], Some err)
          | Ok msg =>
              let effects := if (typ =? TextMessage)%Z then parseIncoming c (of_bytes msg) else [] in
              let '(rest, err) := read_loop rounds' in (effects ++ rest, err)
          end
      end
  end.

(** ** Specification *)

(** What a round that goes well makes of its message, all of it. *)
Definition handled (round : client * result error (Z * reader)) : list effect :=
  match round.2 with
  | Ok (typ, r) =>
      if decide (typ = TextMessage) then parseIncoming round.1 (of_bytes (content r)) else []
  | Err _ => []
  end.

(** A round that delivers a whole message within the limit. *)
Definition whole (round : client * result error (Z * reader)) : Prop :=
  exists typ r, round.2 = Ok (typ, r) /\ fails r = None /\ (llen (content r) <= maxMessageSize)%Z.

(** A round that ends the connection with [e]. *)
Definition broken (round : client * result error (Z * reader)) (e : error) : Prop :=
  round.2 = Err e \/
  exists typ r, round.2 = Ok (typ, r) /\
    (((maxMessageSize < llen (content r))%Z /\ e = errors_New "websocket message too large") \/
     ((llen (content r) <= maxMessageSize)%Z /\ fails r = Some e)).

(** ** Lemmas *)
Lemma read_message_cases r :
  match read_message r with
  | Ok msg => msg = content r /\ fails r = None /\ (llen (content r) <= maxMessageSize)%Z
  | Err e =>
      ((maxMessageSize < llen (content r))%Z /\ e = errors_New "websocket message too large") \/
      ((llen (content r) <= maxMessageSize)%Z /\ fails r = Some e)
  end.
Proof.
  unfold read_message, read_limited.
  destruct (Z.ltb_spec maxMessageSize (llen (content r))) as [Hlt|Hle]; cbn [mbind result_bind].
  - assert (llen (take (Z.to_nat (maxMessageSize + 1)) (content r)) = maxMessageSize + 1)%Z as ->.
    { unfold llen in *. rewrite length_take. unfold maxMessageSize in *. lia. }
    destruct (Z.ltb_spec maxMessageSize (maxMessageSize + 1)); [by left|lia].
  - destruct (fails r); [by right|]. cbn [mbind result_bind].
    destruct (Z.ltb_spec maxMessageSize (llen (content r))); [lia|done].
Qed.

(** C17: the reader hands every text message to [parseIncoming] whole, once and
    in order, up to the first round that fails, and nothing of that round or
    after it: a read error ends it with that error, a message over the limit
    with the size error. Messages of other types have no effect. *)
Theorem reader_delivers rounds :
  exists n, n <= length rounds /\
    (read_loop rounds).1 = take n rounds ≫= handled /\
    Forall whole (take n rounds) /\
    match (read_loop rounds).2 with
    | None => n = length rounds
    | Some e => exists round, rounds !! n = Some round /\ broken round e
    end.
Proof.
  induction rounds as [|[c next] rounds (n & Hn & Heff & Hwhole & Hend)]; [by exists 0|].
  cbn [read_loop].
  destruct next as [[typ r]|err].
  2:{ exists 0. split; [lia|]. split_and!; [done..|]. eexists. split; [done|]. by left. }
  pose proof (read_message_cases r) as Hr. destruct (read_message r) as [msg|err].
  2:{ exists 0. split; [lia|]. split_and!; [done..|]. eexists. split; [done|]. right. by exists typ, r. }
  destruct Hr as (-> & Hf & Hl). exists (S n).
  destruct (read_loop rounds) as [rest err]. cbn [fst snd] in *. split; [simpl; lia|].
  split_and!.
  - cbn [take mbind list_bind]. rewrite Heff. f_equal. unfold handled. cbn [fst snd].
    case_decide; destruct (Z.eqb_spec typ TextMessage); done.
  - constructor; [by exists typ, r|done].
  - destruct err; [done|]. simpl. lia.
Qed.

End reading.
