(* ===== verification/Lifecycle.v ===== *)
(** * websocket.go: the goroutines of a session

    [runSession], [dialConnection] and [serveConnection] with the goroutines
    they start - the reader and the two [context.AfterFunc] hooks - as one step
    relation over the system of the file SendQueue. A step is the goroutines'
    own, or the outside's: the peer, time, the user's callbacks and every other
    goroutine of the program. *)
From S2P Require Import Prelude GoText Errors Types Client Subscriptions Sync SendQueue.
From S2P Require Import Authority Session Utf8 Json Models Requests Incoming Reader.

(** ** State *)

(** A function registered by [context.AfterFunc]: not registered, waiting for
    the context, started, finished, and unregistered by its stop function. *)
Inductive hook := HNone | HArmed | HFired | HRan | HStopped.

(** The stop function: no effect once the function has started. *)
Definition stop_hook (h : hook) : hook := match h with HArmed => HStopped | _ => h end.

Section state.
Context `{GoValues}.

(** The reading goroutine: not started, in [NextReader] or [ReadAll], in
    [parseIncoming] with the calls left to make, before [readDone <- err], gone. *)
Inductive reader_state :=
| RNone
| RNext
| RParsing (rest : list effect)
| RSend (e : error)
| RGone.

(** What a connection carried to the server. *)
Inductive output := OFrame (m : WSMessage) | OData (b : bytes) | OPing.

(** A connection and what belongs to it. [k_inbox] is what has arrived and was
    not read yet, [k_readDone] the one-element channel, [k_dial] and [k_serve]
    the hooks of the two functions; both close the socket. *)
Record connection := mk_connection {
  k_open : bool;
  k_inbox : list (Z * reader);
  k_dial : hook;
  k_serve : hook;
  k_reader : reader_state;
  k_readDone : option error;
  k_st : serve_state;
  k_out : list output;
}.

Definition no_connection : connection :=
  mk_connection false [] HNone HNone RNone None serve_init [].

(** The connection [NetDialContext] returns, with [stopCancel] set. *)
Definition dialed : connection :=
  mk_connection true [] HArmed HNone RNone None serve_init [].

Definition with_open (o : bool) (k : connection) : connection :=
  mk_connection o (k_inbox k) (k_dial k) (k_serve k) (k_reader k) (k_readDone k) (k_st k) (k_out k).
Definition with_inbox (l : list (Z * reader)) (k : connection) : connection :=
  mk_connection (k_open k) l (k_dial k) (k_serve k) (k_reader k) (k_readDone k) (k_st k) (k_out k).
Definition with_dial (h : hook) (k : connection) : connection :=
  mk_connection (k_open k) (k_inbox k) h (k_serve k) (k_reader k) (k_readDone k) (k_st k) (k_out k).
Definition with_serve (h : hook) (k : connection) : connection :=
  mk_connection (k_open k) (k_inbox k) (k_dial k) h (k_reader k) (k_readDone k) (k_st k) (k_out k).
Definition with_reader (r : reader_state) (k : connection) : connection :=
  mk_connection (k_open k) (k_inbox k) (k_dial k) (k_serve k) r (k_readDone k) (k_st k) (k_out k).
Definition with_readDone (o : option error) (k : connection) : connection :=
  mk_connection (k_open k) (k_inbox k) (k_dial k) (k_serve k) (k_reader k) o (k_st k) (k_out k).
Definition with_st (st : serve_state) (k : connection) : connection :=
  mk_connection (k_open k) (k_inbox k) (k_dial k) (k_serve k) (k_reader k) (k_readDone k) st (k_out k).
Definition with_out (l : list output) (k : connection) : connection :=
  mk_connection (k_open k) (k_inbox k) (k_dial k) (k_serve k) (k_reader k) (k_readDone k) (k_st k)
    (k_out k ++ l).

(** Where the session's goroutine stands. *)
Inductive pc :=
(* runSession *)
| PHead                               (* for s.ctx.Err() == nil *)
| PRetrieve (cbs : list callback)     (* in callRetrievers *)
| PConnect                            (* the client's fields, the authority *)
(* dialConnection *)
| PNetDial                            (* NetDialContext *)
| PShake                              (* the websocket handshake *)
| PDialed                             (* the deferred stopCancel, after a success *)
| PRefused (e : error)                (* the same, after a failure *)
(* serveConnection *)
| PSetup                              (* up to the start of the reader *)
| PTop                                (* the loop: reading the revision *)
| PSync (c1 : client)                 (* the revision test, syncSubscription *)
| PSelect
| PWrite (b : bytes)                  (* writeFrame of a queued frame *)
| PResend (e : error)                 (* readDone <- err *)
| PExit (e : error)                   (* the deferred calls: conn.Close, *)
| PJoin (e : error)                   (* <-readDone, *)
| PUnhook (e : error)                 (* conn.Close and stopClose *)
(* runSession *)
| PAfter (e : error)                  (* the attempt is over *)
| PErrors (cbs : list callback)       (* in callErrorCallbacks *)
| PTimer
| PCancel                             (* the deferred function: s.cancel(), *)
| PFinish                             (* the drain and close(s.done) *)
| PDone.

Record goroutine := mk_goroutine {
  g_pc : pc;
  g_delay : Z;
  g_conn : connection;
}.

(** [go c.runSession(s)]. *)
Definition spawned : goroutine := mk_goroutine PHead initial_delay no_connection.

Definition at_pc (p : pc) (g : goroutine) : goroutine := mk_goroutine p (g_delay g) (g_conn g).
Definition on_conn (f : connection -> connection) (g : goroutine) : goroutine :=
  mk_goroutine (g_pc g) (g_delay g) (f (g_conn g)).
Definition with_delay (d : Z) (g : goroutine) : goroutine := mk_goroutine (g_pc g) d (g_conn g).

End state.

(** ** The session's context, queue and counter *)
Definition err_of (s : sys) (sid : nat) : option error := s_err (get_session (sw s) sid).

(** The context [dispatch] selects on. *)
Definition dispatch_ctx (w : world) : option error :=
  match session (cl w) with
  | Some sid => s_err (get_session w sid)
  | None => ctx_err w
  end.

Definition cancelled_session (sid : nat) (s : sys) : sys :=
  with_world (upd_session sid (cancel_session CtxCanceled) (sw s)) s.

Definition taken (sid : nat) (b : bytes) (s : sys) : sys :=
  mk_sys (upd_session sid dequeue (sw s)) (writers s) (<[sid := b]> (inflight s)) (stopping s).

Definition released (sid : nat) (b : bytes) (s : sys) : sys :=
  mk_sys (upd_session sid (add_queued (- llen b)) (sw s)) (writers s)
    (delete sid (inflight s)) (stopping s).

Definition finished (sid : nat) (s : sys) : sys :=
  mk_sys (upd_session sid finish (sw s)) (writers s) (inflight s) (stopping s).

(** ** Steps *)
Section steps.
Context `{GoValues} `{CloseErrors}.

(** The authority of [runSession], before the dial. *)
Definition authority_error (a : authority_env) (c : client) : option error :=
  match authoritySigner c with
  | None => None
  | Some sgn =>
      match CreateWSAuthorityV3 a (authorityAddress c) (Some sgn) with
      | Err e => Some e
      | Ok _ => None
      end
  end.

(** Writing to a connection: any outcome while the socket is open, an error
    once it is closed. *)
Definition write_outcome (k : connection) (write : nat -> option error) : Prop :=
  forall i, k_open k = false -> write i <> None.

(** The session's goroutine. *)
Inductive main_step (sid : nat) (s : sys) (g : goroutine) : sys -> goroutine -> Prop :=
| ms_head_done e :
    g_pc g = PHead -> err_of s sid = Some e -> main_step sid s g s (at_pc PCancel g)
| ms_head :
    g_pc g = PHead -> err_of s sid = None ->
    main_step sid s g s (at_pc (PRetrieve (retrieveCallbacks (cl (sw s)))) g)
| ms_retrieve_refused cb cbs e :
    g_pc g = PRetrieve (cb :: cbs) -> dispatch_ctx (sw s) = Some e ->
    main_step sid s g s (at_pc PConnect g)
| ms_retrieved :
    g_pc g = PRetrieve [] -> main_step sid s g s (at_pc PConnect g)
| ms_connect a :
    g_pc g = PConnect -> authority_error a (cl (sw s)) = None ->
    main_step sid s g s (at_pc PNetDial g)
| ms_no_authority a e :
    g_pc g = PConnect -> authority_error a (cl (sw s)) = Some e ->
    main_step sid s g s (at_pc (PAfter e) g)
| ms_dial_cancelled c e :             (* NetDialContext honours its context *)
    g_pc g = PNetDial -> err_of s sid = Some c -> main_step sid s g s (at_pc (PAfter e) g)
| ms_shake_closed e :                 (* handshake I/O on a closed socket *)
    g_pc g = PShake -> k_open (g_conn g) = false -> main_step sid s g s (at_pc (PRefused e) g)
| ms_dialed :
    g_pc g = PDialed ->
    main_step sid s g s
      (at_pc PSetup (with_delay initial_delay
         (on_conn (fun k => with_dial (stop_hook (k_dial k)) k) g)))
| ms_refused e :                      (* DialContext closed the socket it gave up *)
    g_pc g = PRefused e ->
    main_step sid s g s
      (at_pc (PAfter e) (on_conn (fun k => with_open false (with_dial (stop_hook (k_dial k)) k)) g))
| ms_setup :
    g_pc g = PSetup -> k_open (g_conn g) = true ->
    main_step sid s g s
      (at_pc PTop (on_conn (fun k => with_serve HArmed (with_st serve_init (with_reader RNext k))) g))
| ms_setup_failed e :                 (* SetReadDeadline *)
    g_pc g = PSetup ->
    main_step sid s g s (at_pc (PUnhook e) (on_conn (with_serve HArmed) g))
| ms_top :
    g_pc g = PTop -> main_step sid s g s (at_pc (PSync (cl (sw s))) g)
| ms_sync c1 write iter frames st :
    g_pc g = PSync c1 -> write_outcome (g_conn g) write -> iteration_of (cl (sw s)) iter ->
    serve_top write iter c1 (cl (sw s)) (k_st (g_conn g)) = (frames, Ok st) ->
    main_step sid s g s
      (at_pc PSelect (on_conn (fun k => with_st st (with_out (map OFrame frames) k)) g))
| ms_sync_failed c1 write iter frames e :
    g_pc g = PSync c1 -> write_outcome (g_conn g) write -> iteration_of (cl (sw s)) iter ->
    serve_top write iter c1 (cl (sw s)) (k_st (g_conn g)) = (frames, Err e) ->
    main_step sid s g s (at_pc (PExit e) (on_conn (with_out (map OFrame frames)) g))
| ms_done e :                         (* case <-s.ctx.Done() *)
    g_pc g = PSelect -> err_of s sid = Some e -> main_step sid s g s (at_pc (PExit e) g)
| ms_read_failed e :                  (* case err := <-readDone *)
    g_pc g = PSelect -> k_readDone (g_conn g) = Some e ->
    main_step sid s g s (at_pc (PResend e) (on_conn (with_readDone None) g))
| ms_token :                          (* case <-s.subscriptions *)
    g_pc g = PSelect -> s_subscriptions (get_session (sw s) sid) = true ->
    main_step sid s g (with_world (upd_session sid (set_token false) (sw s)) s) (at_pc PTop g)
| ms_take b :                         (* case b := <-s.send *)
    g_pc g = PSelect -> head (s_send (get_session (sw s) sid)) = Some b ->
    main_step sid s g (taken sid b s) (at_pc (PWrite b) g)
| ms_written b :
    g_pc g = PWrite b -> k_open (g_conn g) = true ->
    main_step sid s g (released sid b s) (at_pc PTop (on_conn (with_out [OData b]) g))
| ms_write_failed b e :
    g_pc g = PWrite b -> main_step sid s g (released sid b s) (at_pc (PExit e) g)
| ms_resend e :
    g_pc g = PResend e -> k_readDone (g_conn g) = None ->
    main_step sid s g s (at_pc (PExit e) (on_conn (with_readDone (Some e)) g))
| ms_close e :
    g_pc g = PExit e -> main_step sid s g s (at_pc (PJoin e) (on_conn (with_open false) g))
| ms_join e e' :
    g_pc g = PJoin e -> k_readDone (g_conn g) = Some e' ->
    main_step sid s g s (at_pc (PUnhook e) (on_conn (with_readDone None) g))
| ms_unhook e :
    g_pc g = PUnhook e ->
    main_step sid s g s
      (at_pc (PAfter e) (on_conn (fun k => with_open false (with_serve (stop_hook (k_serve k)) k)) g))
| ms_return e :
    g_pc g = PAfter e ->
    err_of s sid <> None \/
      IsCloseError (Some e) [CloseNormalClosure; ClosePolicyViolation] = true ->
    main_step sid s g s (at_pc PCancel g)
| ms_report e :
    g_pc g = PAfter e -> err_of s sid = None ->
    IsCloseError (Some e) [CloseNormalClosure; ClosePolicyViolation] = false ->
    main_step sid s g s (at_pc (PErrors (errorCallbacks (cl (sw s)))) g)
| ms_errors_refused cb cbs e :
    g_pc g = PErrors (cb :: cbs) -> dispatch_ctx (sw s) = Some e ->
    main_step sid s g s (at_pc PTimer g)
| ms_reported :
    g_pc g = PErrors [] -> main_step sid s g s (at_pc PTimer g)
| ms_timer_done e :                   (* case <-s.ctx.Done() *)
    g_pc g = PTimer -> err_of s sid = Some e -> main_step sid s g s (at_pc PCancel g)
| ms_cancel :
    g_pc g = PCancel -> main_step sid s g (cancelled_session sid s) (at_pc PFinish g)
| ms_finish :                         (* c.mut.Lock(): no call of Write is under way *)
    g_pc g = PFinish -> writers s = [] ->
    main_step sid s g (finished sid s) (at_pc PDone g).

(** The reader. A call into the callbacks gives up once the context is done. *)
Inductive reader_step (s : sys) (k : connection) : sys -> connection -> Prop :=
| rs_message typ r inbox msg :
    k_reader k = RNext -> k_inbox k = (typ, r) :: inbox -> read_message r = Ok msg ->
    reader_step s k s
      (with_inbox inbox (with_reader
         (if (typ =? TextMessage)%Z then RParsing (parseIncoming (cl (sw s)) (of_bytes msg))
          else RNext) k))
| rs_bad_message typ r inbox e :
    k_reader k = RNext -> k_inbox k = (typ, r) :: inbox -> read_message r = Err e ->
    reader_step s k s (with_inbox inbox (with_reader (RSend e) k))
| rs_closed e :                       (* reading from a closed socket *)
    k_reader k = RNext -> k_open k = false -> reader_step s k s (with_reader (RSend e) k)
| rs_refused eff rest e :
    k_reader k = RParsing (eff :: rest) -> (forall sid, eff <> CancelSession sid) ->
    dispatch_ctx (sw s) = Some e -> reader_step s k s (with_reader (RParsing rest) k)
| rs_cancel sid rest :
    k_reader k = RParsing (CancelSession sid :: rest) ->
    reader_step s k (cancelled_session sid s) (with_reader (RParsing rest) k)
| rs_parsed :
    k_reader k = RParsing [] -> reader_step s k s (with_reader RNext k)
| rs_send e :
    k_reader k = RSend e -> k_readDone k = None ->
    reader_step s k s (with_readDone (Some e) (with_reader RGone k)).

(** The hooks of a session whose context has the error [err]. *)
Inductive hook_step (err : option error) (k : connection) : connection -> Prop :=
| hs_dial_start : k_dial k = HArmed -> err <> None -> hook_step err k (with_dial HFired k)
| hs_dial_run : k_dial k = HFired -> hook_step err k (with_open false (with_dial HRan k))
| hs_serve_start : k_serve k = HArmed -> err <> None -> hook_step err k (with_serve HFired k)
| hs_serve_run : k_serve k = HFired -> hook_step err k (with_open false (with_serve HRan k)).

(** The goroutines' own steps. *)
Inductive own (sid : nat) : sys * goroutine -> sys * goroutine -> Prop :=
| own_main s g s' g' : main_step sid s g s' g' -> own sid (s, g) (s', g')
| own_reader s g s' k : reader_step s (g_conn g) s' k -> own sid (s, g) (s', on_conn (fun _ => k) g)
| own_hook s g k :
    hook_step (err_of s sid) (g_conn g) k -> own sid (s, g) (s, on_conn (fun _ => k) g).

(** What the other goroutines leave alone: the frame in flight, [done], the
    frames that wait, and a token once it is there. *)
Definition session_kept (sid : nat) (s s' : sys) : Prop :=
  inflight s' !! sid = inflight s !! sid /\
  forall ss, sessions (sw s) !! sid = Some ss -> exists ss' q,
    sessions (sw s') !! sid = Some ss' /\ s_done ss' = s_done ss /\
    s_send ss' = s_send ss ++ q /\ (s_subscriptions ss = true -> s_subscriptions ss' = true).

(** The outside. *)
Inductive outside (sid : nat) : sys * goroutine -> sys * goroutine -> Prop :=
| os_program s l s' g :               (* API calls, calls of Write, cancellation *)
    step s l s' -> session_kept sid s s' -> outside sid (s, g) (s', g)
| os_retriever s g cb cbs :           (* dispatch got a slot *)
    g_pc g = PRetrieve (cb :: cbs) -> outside sid (s, g) (s, at_pc (PRetrieve cbs) g)
| os_error_callback s g cb cbs :
    g_pc g = PErrors (cb :: cbs) -> outside sid (s, g) (s, at_pc (PErrors cbs) g)
| os_callbacks s g eff rest :         (* one round of callbacks was dispatched *)
    k_reader (g_conn g) = RParsing (eff :: rest) -> (forall sid', eff <> CancelSession sid') ->
    outside sid (s, g) (s, on_conn (with_reader (RParsing rest)) g)
| os_net_dialed s g :
    g_pc g = PNetDial -> outside sid (s, g) (s, at_pc PShake (on_conn (fun _ => dialed) g))
| os_net_failed s g e :
    g_pc g = PNetDial -> outside sid (s, g) (s, at_pc (PAfter e) g)
| os_shaken s g :
    g_pc g = PShake -> outside sid (s, g) (s, at_pc PDialed g)
| os_shake_failed s g e :             (* a refusal, the handshake's deadline *)
    g_pc g = PShake -> outside sid (s, g) (s, at_pc (PRefused e) g)
| os_arrives s g m :
    k_open (g_conn g) = true ->
    outside sid (s, g) (s, on_conn (fun k => with_inbox (k_inbox k ++ [m]) k) g)
| os_read_fails s g e :               (* the peer, the read deadline, the read limit *)
    k_reader (g_conn g) = RNext ->
    outside sid (s, g) (s, on_conn (with_reader (RSend e)) g)
| os_ping s g :                       (* case <-ticker.C *)
    g_pc g = PSelect -> k_open (g_conn g) = true ->
    outside sid (s, g) (s, at_pc PTop (on_conn (with_out [OPing]) g))
| os_ping_failed s g e :
    g_pc g = PSelect -> outside sid (s, g) (s, at_pc (PExit e) g)
| os_timer s g :                      (* case <-timer.C *)
    g_pc g = PTimer ->
    outside sid (s, g) (s, at_pc PHead (with_delay (next_delay (g_delay g)) g)).

(** From the call of [Start] that made the session: everything that can happen
    in [n] steps. *)
Inductive life (sid : nat) : nat -> sys * goroutine -> Prop :=
| life_start id ctx tr s0 w :
    exec (init id ctx) tr s0 -> step s0 LTau (with_world w s0) -> (None, w) = Start (sw s0) ->
    session (cl w) = Some sid -> life sid 0 (with_world w s0, spawned)
| life_own n x x' : life sid n x -> own sid x x' -> life sid (S n) x'
| life_outside n x x' : life sid n x -> outside sid x x' -> life sid (S n) x'.

(** ** The invariant *)

(** Registered and not unregistered. *)
Definition registered (h : hook) : Prop := h = HArmed \/ h = HFired \/ h = HRan.

Definition reader_idle (k : connection) : Prop :=
  (k_reader k = RNone \/ k_reader k = RGone) /\ k_readDone k = None.

(** The reader runs, or has left its error in the channel. *)
Definition reader_up (k : connection) : Prop :=
  k_reader k <> RNone /\ (k_reader k = RGone <-> k_readDone k <> None).

(** The connection, by the place of the session's goroutine. *)
Definition conn_phase (p : pc) (k : connection) : Prop :=
  match p with
  | PShake | PDialed | PRefused _ => reader_idle k /\ k_serve k = HNone /\ registered (k_dial k)
  | PSetup => reader_idle k /\ k_serve k = HNone /\ k_dial k <> HArmed
  | PTop | PSync _ | PSelect | PWrite _ | PExit _ =>
      reader_up k /\ registered (k_serve k) /\ k_dial k <> HArmed
  | PResend _ =>
      (k_reader k = RGone /\ k_readDone k = None) /\ registered (k_serve k) /\ k_dial k <> HArmed
  | PJoin _ =>
      (reader_up k /\ k_open k = false) /\ registered (k_serve k) /\ k_dial k <> HArmed
  | PUnhook _ => reader_idle k /\ registered (k_serve k) /\ k_dial k <> HArmed
  | _ => (reader_idle k /\ k_open k = false) /\ k_serve k <> HArmed /\ k_dial k <> HArmed
  end.

Record conn_ok (p : pc) (k : connection) : Prop := {
  ko_phase : conn_phase p k;
  ko_hooks : k_dial k = HRan \/ k_serve k = HRan -> k_open k = false;
}.

Definition frame_of (p : pc) : option bytes := match p with PWrite b => Some b | _ => None end.

Record life_ok (sid : nat) (s : sys) (g : goroutine) : Prop := {
  lo_inv : inv s;
  lo_session : exists ss, sessions (sw s) !! sid = Some ss /\
    (s_done ss = true <-> g_pc g = PDone);
  lo_flight : inflight s !! sid = frame_of (g_pc g);
  lo_finish : g_pc g = PFinish -> err_of s sid <> None;
  lo_conn : conn_ok (g_pc g) (g_conn g);
}.

End steps.

(** ** Lemmas *)
Section facts.
Context `{GoValues} `{CloseErrors}.

Implicit Types (s : sys) (g : goroutine) (k : connection).

Lemma conn_ok_start : conn_ok PHead no_connection.
Proof. split; [|by intros []]. split_and!; try done. split; [by left|done]. Qed.

Lemma conn_ok_hook err p k k' : conn_ok p k -> hook_step err k k' -> conn_ok p k'.
Proof.
  intros [Hph Hh] Hst. destruct Hst; (split; [|by simpl in *; auto || naive_solver]);
    destruct p; simpl in *; unfold reader_idle, reader_up, registered in *; simpl in *;
    intuition congruence.
Qed.

Lemma conn_ok_reader s p k s' k' : conn_ok p k -> reader_step s k s' k' -> conn_ok p k'.
Proof.
  intros [Hph Hh] Hst.
  destruct Hst; (split; [|by simpl in *; auto]);
    destruct p; simpl in *; unfold reader_idle, reader_up in *; simpl in *;
    try case_match; intuition congruence.
Qed.

(** *** The goroutines' steps are steps of the system *)
Lemma err_of_Some s sid ss : sessions (sw s) !! sid = Some ss -> err_of s sid = s_err ss.
Proof. intros Hs. unfold err_of. by rewrite (get_session_Some _ _ _ Hs). Qed.

Lemma not_done (b : bool) (p : pc) : (b = true <-> p = PDone) -> p <> PDone -> b = false.
Proof. destruct b; naive_solver. Qed.

Lemma reader_guarantee s k s' k' : reader_step s k s' k' -> s' = s \/ step s LTau s'.
Proof. destruct 1; try (by left). right. apply st_cancel. Qed.

Lemma main_guarantee sid s g s' g' :
  life_ok sid s g -> main_step sid s g s' g' -> s' = s \/ exists l, step s l s'.
Proof.
  intros Hok Hst. destruct (lo_session _ _ _ Hok) as (ss & Hs & Hd).
  pose proof (lo_flight _ _ _ Hok) as Hf. pose proof (lo_finish _ _ _ Hok) as Hfin.
  destruct Hst; try (by left); right;
    match goal with Hpc : g_pc g = _ |- _ => rewrite Hpc in *; clear Hpc end.
  - exists LTau. apply st_token. rewrite (get_session_Some _ _ _ Hs). by eapply not_done.
  - exists (LTaken sid b). rewrite (get_session_Some _ _ _ Hs) in *.
    apply (st_take s sid ss b); try done. by eapply not_done.
  - exists LTau. by apply st_release.
  - exists LTau. by apply st_release.
  - exists LTau. apply st_cancel.
  - exists (LDrained sid (s_send ss)). apply st_finish; try done.
    + by eapply not_done.
    + rewrite <- (err_of_Some _ _ _ Hs). by apply Hfin.
Qed.

Lemma own_guarantee sid s g s' g' :
  life_ok sid s g -> own sid (s, g) (s', g') -> s' = s \/ exists l, step s l s'.
Proof.
  intros Hok Hst. inversion Hst as [? ? ? ? Hm|? ? ? ? Hr|]; subst.
  - by eapply main_guarantee.
  - apply reader_guarantee in Hr as [?|?]; [by left|right; by eexists].
  - by left.
Qed.

(** *** The invariant holds *)

(** What a step of the system does to the session of a goroutine that made it. *)
Lemma session_upd sid f s ss ws fl st :
  sessions (sw s) !! sid = Some ss ->
  sessions (sw (mk_sys (upd_session sid f (sw s)) ws fl st)) !! sid = Some (f ss).
Proof. intros Hs. cbn [sw]. by rewrite sessions_upd, decide_True, Hs. Qed.

Lemma session_cancel sid sid' s ss :
  sessions (sw s) !! sid = Some ss -> exists ss', sessions (sw (cancelled_session sid' s)) !! sid = Some ss' /\
    s_done ss' = s_done ss /\ (s_err ss <> None -> s_err ss' <> None).
Proof.
  intros Hs. unfold cancelled_session. cbn [sw with_world]. rewrite sessions_upd.
  case_decide as E; [subst; rewrite Hs|by eauto]. eexists. split; [done|].
  split; [done|]. simpl. by destruct (s_err ss).
Qed.

Lemma life_ok_sys sid s s' g :
  life_ok sid s g -> inv s' -> inflight s' !! sid = inflight s !! sid ->
  (forall ss, sessions (sw s) !! sid = Some ss -> exists ss',
     sessions (sw s') !! sid = Some ss' /\ s_done ss' = s_done ss /\
     (s_err ss <> None -> s_err ss' <> None)) ->
  life_ok sid s' g.
Proof.
  intros [Hinv (ss & Hs & Hd) Hf Hfin Hc] Hinv' Hf' Hss.
  destruct (Hss ss Hs) as (ss' & Hs' & Hd' & He'). split; try done.
  - exists ss'. by rewrite Hd'.
  - congruence.
  - intros Hpc. rewrite (err_of_Some _ _ _ Hs'). apply He'.
    rewrite <- (err_of_Some _ _ _ Hs). by apply Hfin.
Qed.

Lemma life_ok_program sid s l s' g :
  life_ok sid s g -> step s l s' -> session_kept sid s s' -> life_ok sid s' g.
Proof.
  intros Hok Hst (Hf & Hss). pose proof (lo_inv _ _ _ Hok) as Hinv.
  eapply life_ok_sys; [done|by eapply inv_step|done|].
  intros ss Hs. destruct (Hss ss Hs) as (ss' & q & Hs' & Hd & _ & _).
  exists ss'. split_and!; [done..|]. pose proof (step_queue _ _ _ sid Hinv Hst) as Hq.
  rewrite Hs, Hs' in Hq. by destruct Hq as (_ & _ & ?).
Qed.

Lemma life_ok_cancel sid sid' s g : life_ok sid s g -> life_ok sid (cancelled_session sid' s) g.
Proof.
  intros Hok. eapply life_ok_sys; [done| |done|].
  - eapply inv_step; [by apply (lo_inv _ _ _ Hok)|apply st_cancel].
  - intros ss. apply session_cancel.
Qed.

Lemma life_ok_conn sid s g k :
  life_ok sid s g -> conn_ok (g_pc g) k -> life_ok sid s (on_conn (fun _ => k) g).
Proof. intros [? ? ? ? _] Hk. by split. Qed.

Lemma life_ok_reader sid s g s' k :
  life_ok sid s g -> reader_step s (g_conn g) s' k -> life_ok sid s' (on_conn (fun _ => k) g).
Proof.
  intros Hok Hst. pose proof (conn_ok_reader _ _ _ _ _ (lo_conn _ _ _ Hok) Hst) as Hk.
  destruct Hst; try (by apply life_ok_conn). apply life_ok_conn; [|done]. by apply life_ok_cancel.
Qed.

(** A move of the session's goroutine that leaves the system alone. *)
Lemma life_ok_move sid s g p d k :
  life_ok sid s g -> g_pc g <> PDone -> p <> PDone -> p <> PFinish ->
  frame_of (g_pc g) = None -> frame_of p = None -> conn_ok p k ->
  life_ok sid s (mk_goroutine p d k).
Proof.
  intros [Hinv (ss & Hs & Hd) Hf Hfin Hc] Hg Hp Hpf Hfg Hfp Hk.
  split; try done; simpl.
  - exists ss. split; [done|]. naive_solver.
  - congruence.
Qed.

(** A move that is a step of the system. *)
Lemma life_ok_step sid s s' g p d k :
  life_ok sid s g -> inv s' -> g_pc g <> PDone ->
  (forall ss, sessions (sw s) !! sid = Some ss -> exists ss',
     sessions (sw s') !! sid = Some ss' /\ (s_done ss = false -> s_done ss' = true <-> p = PDone) /\
     (p = PFinish -> s_err ss' <> None)) ->
  inflight s' !! sid = frame_of p -> conn_ok p k ->
  life_ok sid s' (mk_goroutine p d k).
Proof.
  intros [Hinv (ss & Hs & Hd) Hf Hfin Hc] Hinv' Hg Hss Hfl Hk.
  destruct (Hss ss Hs) as (ss' & Hs' & Hd' & He').
  split; try done; simpl.
  - exists ss'. split; [done|]. apply Hd'. by eapply not_done.
  - intros Hp. rewrite (err_of_Some _ _ _ Hs'). by apply He'.
Qed.

Lemma stop_hook_ran h : stop_hook h = HRan <-> h = HRan.
Proof. by destruct h. Qed.

Lemma stop_hook_armed h : stop_hook h <> HArmed.
Proof. by destruct h. Qed.

(** The conditions on the connection of a move. *)
Ltac conn_cases :=
  match goal with Hc : conn_ok _ _ |- _ => destruct Hc as [Hph Hh] end;
  split; [|by simpl in *; rewrite ?stop_hook_ran; auto || naive_solver];
  simpl in *; unfold reader_idle, reader_up, registered in *; simpl in *;
  intuition (congruence || (exfalso; by eapply stop_hook_armed)).

Ltac at_pc_tac := match goal with Hpc : g_pc _ = _ |- _ => rewrite Hpc end.

Lemma own_inv sid s g s' g' : life_ok sid s g -> own sid (s, g) (s', g') -> inv s'.
Proof.
  intros Hok Hst. pose proof (lo_inv _ _ _ Hok).
  apply own_guarantee in Hst as [->|[l Hl]]; [done..|by eapply inv_step|done].
Qed.

Lemma life_ok_main sid s g s' g' : life_ok sid s g -> main_step sid s g s' g' -> life_ok sid s' g'.
Proof.
  intros Hok Hst. pose proof (lo_conn _ _ _ Hok) as Hc.
  pose proof (own_inv _ _ _ _ _ Hok (own_main _ _ _ _ _ Hst)) as Hinv'.
  pose proof (lo_flight _ _ _ Hok) as Hf.
  destruct Hst; match goal with Hpc : g_pc g = _ |- _ => rewrite Hpc in Hc, Hf end;
  try (eapply life_ok_move; [exact Hok|congruence|done|done|by at_pc_tac|done|conn_cases]).
  all: eapply life_ok_step; [exact Hok|exact Hinv'|congruence| | |];
    try (intros ss Hs; eexists; split; [by apply session_upd|]; simpl; split;
         [by intros Hd; rewrite ?Hd|done || by destruct (s_err ss)]);
    try (by simpl; rewrite ?lookup_insert_eq, ?lookup_delete_eq); try conn_cases.
Qed.

Lemma life_ok_own sid s g s' g' : life_ok sid s g -> own sid (s, g) (s', g') -> life_ok sid s' g'.
Proof.
  intros Hok Hst. inversion Hst; subst.
  - by eapply life_ok_main.
  - by eapply life_ok_reader.
  - apply life_ok_conn; [done|]. eapply conn_ok_hook; [apply (lo_conn _ _ _ Hok)|done].
Qed.

Lemma life_ok_outside sid s g s' g' :
  life_ok sid s g -> outside sid (s, g) (s', g') -> life_ok sid s' g'.
Proof.
  intros Hok Hst. pose proof (lo_conn _ _ _ Hok) as Hc.
  inversion Hst; subst; try match goal with Hpc : g_pc g = _ |- _ => rewrite Hpc in Hc end;
  try (eapply life_ok_move; [exact Hok|congruence|done|done|by at_pc_tac|done|conn_cases]).
  - by eapply life_ok_program.
  - change (on_conn (with_reader (RParsing rest)) g)
      with (on_conn (fun _ => with_reader (RParsing rest) (g_conn g)) g).
    apply life_ok_conn; [done|]. destruct (g_pc g); conn_cases.
  - change (on_conn (fun k => with_inbox (k_inbox k ++ [m]) k) g)
      with (on_conn (fun _ => with_inbox (k_inbox (g_conn g) ++ [m]) (g_conn g)) g).
    apply life_ok_conn; [done|]. destruct (g_pc g); conn_cases.
  - change (on_conn (with_reader (RSend e)) g)
      with (on_conn (fun _ => with_reader (RSend e) (g_conn g)) g).
    apply life_ok_conn; [done|]. destruct (g_pc g); conn_cases.
Qed.

Lemma life_ok_start sid s w :
  inv s -> inv (with_world w s) -> (None, w) = Start (sw s) -> session (cl w) = Some sid ->
  life_ok sid (with_world w s) spawned.
Proof.
  intros Hinv Hinv' Hstart Hses. unfold Start in Hstart.
  assert (sessions (sw s) !! fresh (dom (sessions (sw s))) = None) as Hfresh
    by (apply not_elem_of_dom, is_fresh).
  repeat case_match; try done. all: injection Hstart as ->; simpl in Hses; injection Hses as <-.
  all: split; try done; try apply conn_ok_start; simpl.
  all: try (exists new_session; by rewrite lookup_insert_eq).
  all: destruct (inflight s !! _) as [b|] eqn:Ef; [|done];
    destruct (inv_flight _ Hinv _ _ Ef) as (ss & Hs & _); congruence.
Qed.

Lemma life_reachable sid n x : life sid n x -> life_ok sid (fst x) (snd x).
Proof.
  induction 1 as [id ctx tr s0 w Hex Hst Hstart Hses|n [s g] [s' g'] Hl IH Hst
                 |n [s g] [s' g'] Hl IH Hst]; simpl in *.
  - pose proof (exec_inv _ _ _ _ Hex). by eapply life_ok_start; [|by eapply inv_step|..].
  - by eapply life_ok_own.
  - by eapply life_ok_outside.
Qed.

(** The steps of a life are steps of the system. *)
Lemma life_step sid s g s' g' :
  life_ok sid s g -> own sid (s, g) (s', g') \/ outside sid (s, g) (s', g') ->
  s' = s \/ exists l, step s l s'.
Proof.
  intros Hok [Hst|Hst]; [by eapply own_guarantee|]. inversion Hst; subst; eauto.
Qed.

Lemma life_exec sid n x :
  life sid n x -> exists id ctx tr, exec (init id ctx) tr (fst x).
Proof.
  assert (forall s s' g g', life_ok sid s g ->
    own sid (s, g) (s', g') \/ outside sid (s, g) (s', g') ->
    (exists id ctx tr, exec (init id ctx) tr s) -> exists id ctx tr, exec (init id ctx) tr s') as Hgo.
  { intros s s' g g' Hok Hst (id & ctx & tr & Hex). exists id, ctx.
    destruct (life_step _ _ _ _ _ Hok Hst) as [->|[l Hl]]; [by eexists|].
    exists (tr ++ [l]). by econstructor. }
  induction 1 as [id ctx tr s0 w Hex Hst Hstart Hses|n [s g] [s' g'] Hl IH Hst
                 |n [s g] [s' g'] Hl IH Hst]; simpl in *.
  - exists id, ctx, (tr ++ [LTau]). by econstructor.
  - eapply Hgo; eauto. by apply (life_reachable _ _ _ Hl).
  - eapply Hgo; eauto. by apply (life_reachable _ _ _ Hl).
Qed.
End facts.
