(* ===== verification/Announce.v ===== *)
(** * websocket.go: the subscription a waiting connection has announced

    The composition of the files Sync and Lifecycle: the loop of
    [serveConnection] inside the life of its session, with every method of the
    client running beside it. *)
From S2P Require Import Prelude GoText Errors Types Client Subscriptions Sync SendQueue.
From S2P Require Import Authority Session Utf8 Json Models Requests Incoming Reader Lifecycle.

(** ** A step of the system is at most one call of a method *)
Lemma method_api w w' : method w w' -> api w w'.
Proof. destruct 1; constructor. Qed.

Lemma step_api s l s' : step s l s' -> exists m, m <= 1 /\ nsteps api m (sw s) (sw s').
Proof.
  assert (forall w w', api w w' -> exists m, m <= 1 /\ nsteps api m w w') as Hone.
  { intros w w' Ha. exists 1. split; [done|]. by apply nsteps_once. }
  assert (forall w, exists m, m <= 1 /\ nsteps api m w w) as Hnone
    by (intros w; exists 0; split; [lia|constructor]).
  destruct 1; cbn [sw with_world]; auto using api.
  - apply Hone. by apply method_api.
  - assert (w' = snd (Stop_begin (sw s))) as ->
      by (by match goal with Hb : Stop_begin _ = _ |- _ => rewrite Hb end).
    apply Hone, api_Stop_begin.
  - unfold Write_cas in *. case_match; simplify_eq. apply Hone, api_session.
  - unfold Write_cas in *. case_match; simplify_eq. apply Hnone.
Qed.

Lemma exec_wf id ctx tr s : exec (init id ctx) tr s -> wf_subs (cl (sw s)).
Proof.
  induction 1 as [|tr s l s' _ IH Hst]; [apply wf_new|].
  destruct (step_api _ _ _ Hst) as (m & _ & Hm). by eapply nsteps_wf.
Qed.

(** ** A change of the subscription leaves a token *)
Lemma notify_token sid w ss :
  session (cl w) = Some sid -> sessions w !! sid = Some ss ->
  s_subscriptions (get_session (notifySubscriptionLocked w) sid) = true.
Proof.
  intros Hc Hs. unfold notifySubscriptionLocked. rewrite Hc.
  unfold get_session. rewrite sessions_upd, decide_True by done. by rewrite Hs.
Qed.

Lemma method_notifies w w' sid ss :
  method w w' -> session (cl w) = Some sid -> sessions w !! sid = Some ss ->
  subscriptionRevision (cl w') = subscriptionRevision (cl w) \/
  s_subscriptions (get_session w' sid) = true.
Proof.
  intros Hm Hc Hs. destruct Hm.
  - destruct (Subscribe addrs sd types w) as [[e|] w'] eqn:E; simpl.
    + left. by rewrite (Subscribe_Err _ _ _ _ _ _ E).
    + apply Subscribe_Ok in E as (? & _ & _ & _ & _ & ->). right. by eapply notify_token.
  - unfold Unsubscribe. repeat case_match; simpl; try by left.
    right. eapply notify_token; [simpl; congruence|done].
  - unfold WithMode. right. by eapply notify_token.
  - destruct l; by left.
  - by left.
  - destruct f; by left.
  - destruct f; by left.
  - destruct f; by left.
  - left. unfold WithWSAuthority. by repeat case_match.
Qed.

Lemma step_notifies s l s' sid ss :
  inv s -> step s l s' -> sessions (sw s) !! sid = Some ss -> s_done ss = false ->
  subscriptionRevision (cl (sw s')) = subscriptionRevision (cl (sw s)) \/
  s_subscriptions (get_session (sw s') sid) = true.
Proof.
  intros Hinv Hst Hs Hd. pose proof (so_running _ _ _ _ _ (inv_sess _ Hinv _ _ Hs) Hd) as Hc.
  destruct Hst; cbn [sw with_world]; try by left.
  - by eapply method_notifies.
  - left. unfold Start. by repeat case_match.
  - left. unfold Stop_begin in *. by case_match; simplify_eq.
  - exfalso. pose proof (inv_stop _ Hinv sid0 ltac:(done)) as Hc'.
    assert (sid0 = sid) as -> by congruence.
    match goal with Hdone : s_done _ = true |- _ => rewrite (get_session_Some _ _ _ Hs) in Hdone end.
    congruence.
  - left. unfold cancel_parent. by case_match.
  - left. unfold Write_cas in *. by case_match; simplify_eq.
  - left. unfold Write_cas in *. by case_match; simplify_eq.
Qed.

(** ** The invariant *)
Section announced.
Context `{GoValues} `{CloseErrors}.

Implicit Types (s : sys) (g : goroutine) (k : connection).

(** The subscription frames a connection carried, and what they told. *)
Definition frames_of (out : list output) : list WSMessage :=
  omap (fun o => match o with OFrame m => Some m | _ => None end) out.

Definition told (k : connection) : Ledger.ledger :=
  Ledger.apply_frames Ledger.empty (frames_of (k_out k)).

Definition token (sid : nat) (s : sys) : bool := s_subscriptions (get_session (sw s) sid).

(** The loop is a connection being served in the sense of the file Sync. *)
Definition serves (n : nat) (s : sys) (p : pc) (k : connection) : Prop :=
  match p with
  | PShake | PDialed | PSetup => k_out k = []
  | PTop | PSelect | PWrite _ => exists m, m <= n /\ serving m (sw s) (k_st k) (told k)
  | PSync c1 => exists m i w1, m + i <= n /\ c1 = cl w1 /\
      serving m w1 (k_st k) (told k) /\ nsteps api i w1 (sw s)
  | _ => True
  end.

(** A revision the loop has not seen has left a token. *)
Definition noticed (sid : nat) (s : sys) (p : pc) (k : connection) : Prop :=
  match p with
  | PSync c1 => subscriptionRevision c1 = subscriptionRevision (cl (sw s)) \/ token sid s = true
  | PSelect =>
      first (k_st k) = false /\
      (revision (k_st k) = subscriptionRevision (cl (sw s)) \/ token sid s = true)
  | _ => True
  end.

Record announced (sid n : nat) (s : sys) (g : goroutine) : Prop := {
  an_wf : wf_subs (cl (sw s));
  an_serves : serves n s (g_pc g) (g_conn g);
  an_noticed : noticed sid s (g_pc g) (g_conn g);
}.

Lemma frames_of_app o1 o2 : frames_of (o1 ++ o2) = frames_of o1 ++ frames_of o2.
Proof. apply omap_app. Qed.

Lemma frames_of_frames ms : frames_of (map OFrame ms) = ms.
Proof. induction ms as [|m ms IH]; [done|]. change (m :: frames_of (map OFrame ms) = m :: ms). by rewrite IH. Qed.

Lemma told_frames ms k : told (with_out (map OFrame ms) k) = Ledger.apply_frames (told k) ms.
Proof.
  unfold told, Ledger.apply_frames. simpl. by rewrite frames_of_app, frames_of_frames, foldl_app.
Qed.

Lemma told_other o k : frames_of o = [] -> told (with_out o k) = told k.
Proof. intros Ho. unfold told. simpl. by rewrite frames_of_app, Ho, app_nil_r. Qed.

(** Only the frames sent and the loop's variables matter. *)
Lemma announced_conn sid n s g k :
  announced sid n s g -> k_out k = k_out (g_conn g) -> k_st k = k_st (g_conn g) ->
  announced sid n s (on_conn (fun _ => k) g).
Proof.
  intros [Hwf Hs Hn] Ho Hst. split; [done| |]; simpl.
  - destruct (g_pc g); simpl in *; unfold told in *; rewrite ?Ho, ?Hst; done.
  - destruct (g_pc g); simpl in *; rewrite ?Hst; done.
Qed.

Lemma announced_later sid n s g : announced sid n s g -> announced sid (S n) s g.
Proof.
  intros [Hwf Hs Hn]. split; [done| |done].
  destruct (g_pc g); simpl in *; try done.
  2: destruct Hs as (m & i & w1 & Hi & Hs); exists m, i, w1; split; [lia|done].
  all: destruct Hs as (m & Hm & Hs); exists m; split; [lia|done].
Qed.

Lemma serving_apis n m w w' st v : serving n w st v -> nsteps api m w w' -> serving (n + m) w' st v.
Proof.
  intros Hs Hm. revert n Hs. induction Hm as [w|m w1 w2 w3 Ha _ IH]; intros n Hs.
  - by rewrite Nat.add_0_r.
  - rewrite Nat.add_succ_r. apply (IH (S n)). by eapply serving_api.
Qed.

Lemma serves_step n s l s' p k :
  step s l s' -> wf_subs (cl (sw s)) -> serves n s p k ->
  wf_subs (cl (sw s')) /\ serves (S n) s' p k.
Proof.
  intros Hst Hwf Hs. destruct (step_api _ _ _ Hst) as (m & Hm & Happ).
  split; [by eapply nsteps_wf|]. destruct p; simpl in *; try done.
  2: destruct Hs as (i & j & w1 & Hij & -> & Hs & Hj); exists i, (j + m), w1;
     split; [lia|]; split_and!; [done..|]; by eapply nsteps_trans.
  all: destruct Hs as (i & Hi & Hs); exists (i + m); split; [lia|]; by eapply serving_apis.
Qed.

(** Whatever step of the system others make. *)
Lemma announced_step sid n s l s' g :
  life_ok sid s g -> announced sid n s g -> step s l s' ->
  (token sid s = true -> token sid s' = true) -> announced sid (S n) s' g.
Proof.
  intros Hok [Hwf Hs Hn] Hst Htok.
  destruct (serves_step _ _ _ _ _ _ Hst Hwf Hs) as [Hwf' Hs']. split; [done..|].
  destruct (lo_session _ _ _ Hok) as (ss & Hss & Hd).
  assert (g_pc g <> PDone -> subscriptionRevision (cl (sw s')) = subscriptionRevision (cl (sw s)) \/
                             token sid s' = true) as Hno.
  { intros Hpc. eapply step_notifies; [apply (lo_inv _ _ _ Hok)|done..|by eapply not_done]. }
  destruct (g_pc g); simpl in *; try done; destruct (Hno ltac:(done)) as [->|Ht]; naive_solver.
Qed.

(** The moves of the session's goroutine. *)
Lemma announced_sync sid n s g c1 write iter frames st :
  announced sid n s g -> g_pc g = PSync c1 -> iteration_of (cl (sw s)) iter ->
  serve_top write iter c1 (cl (sw s)) (k_st (g_conn g)) = (frames, Ok st) ->
  announced sid (S n) s
    (at_pc PSelect (on_conn (fun k => with_st st (with_out (map OFrame frames) k)) g)).
Proof.
  intros [Hwf Hs Hn] Hpc Hiter Htop. rewrite Hpc in *. simpl in Hs, Hn.
  destruct Hs as (m & i & w1 & Hmi & -> & Hs & Hi).
  split; [done| |]; cbn [g_pc g_conn at_pc on_conn serves noticed].
  - exists (m + i). split; [lia|].
    change (told (with_st st (with_out (map OFrame frames) (g_conn g))))
      with (told (with_out (map OFrame frames) (g_conn g))).
    rewrite told_frames. by eapply serving_top.
  - cbn [with_st k_st]. unfold serve_top in Htop. destruct (first _ || _) eqn:Eb.
    + unfold syncSubscription in Htop. repeat case_match; simplify_eq; simpl; auto.
    + injection Htop as <- <-. apply orb_false_iff in Eb as [Ef Er%negb_false_iff%Z.eqb_eq].
      split; [done|]. destruct Hn as [Hn|?]; [left; congruence|by right].
Qed.

Lemma announced_main sid n s g s' g' :
  life_ok sid s g -> announced sid n s g -> main_step sid s g s' g' -> announced sid (S n) s' g'.
Proof.
  intros Hok Hann Hst. pose proof (main_guarantee _ _ _ _ _ Hok Hst) as Hg.
  assert (forall p k d, serves n s p k -> noticed sid s' p k -> announced sid (S n) s' (mk_goroutine p d k))
    as Hgo.
  { intros p k d Hs Hn. pose proof (an_wf _ _ _ _ Hann) as Hwf. destruct Hg as [->|[l Hl]].
    - by apply (announced_later sid n s (mk_goroutine p d k)).
    - destruct (serves_step _ _ _ _ _ _ Hl Hwf Hs). by split. }
  pose proof (an_serves _ _ _ _ Hann) as Hs.
  destruct Hst; try (by eapply announced_sync);
    match goal with Hpc : g_pc g = _ |- _ => rewrite Hpc in Hs; clear Hpc end;
    apply Hgo; simpl in *; try done.
  - exists 0. split; [lia|]. unfold told. cbn. rewrite Hs.
    apply serving_open. apply (an_wf _ _ _ _ Hann).
  - destruct Hs as (m & Hm & Hs). exists m, 0, (sw s). split; [lia|].
    split_and!; [done..|constructor].
  - by left.
  - by rewrite told_other.
Qed.

Lemma announced_own sid n s g s' g' :
  life_ok sid s g -> announced sid n s g -> own sid (s, g) (s', g') -> announced sid (S n) s' g'.
Proof.
  intros Hok Hann Hst. inversion Hst as [? ? ? ? Hm|? ? ? k Hr|? ? k Hh]; subst.
  - by eapply announced_main.
  - pose proof (reader_guarantee _ _ _ _ Hr) as Hg.
    assert (k_out k = k_out (g_conn g) /\ k_st k = k_st (g_conn g)) as [Ho Hs]
      by by destruct Hr.
    assert (token sid s = true -> token sid s' = true) as Htok.
    { intros Ht. destruct Hr; try done. unfold token in *.
      destruct (lo_session _ _ _ Hok) as (ss & Hss & _).
      rewrite (get_session_Some _ _ _ Hss) in Ht. unfold cancelled_session, get_session.
      cbn [sw with_world]. rewrite sessions_upd.
      case_decide; subst; rewrite Hss; [by destruct ss|done]. }
    apply announced_conn; [|done..].
    destruct Hg as [->|Hl]; [by apply announced_later|by eapply announced_step].
  - apply announced_conn; [by apply announced_later|by destruct Hh..].
Qed.

Lemma announced_outside sid n s g s' g' :
  life_ok sid s g -> announced sid n s g -> outside sid (s, g) (s', g') ->
  announced sid (S n) s' g'.
Proof.
  intros Hok Hann Hst. pose proof (announced_later _ _ _ _ Hann) as [Hwf Hs Hn].
  inversion Hst as [? l ? ? Hl Hkept| | | | | | | | | | | |]; subst;
    try match goal with Hpc : g_pc g = _ |- _ => rewrite Hpc in Hs, Hn end;
    try (split; [done|done|done]).
  - eapply announced_step; [done..|]. intros Ht. destruct Hkept as [_ Hkept].
    destruct (lo_session _ _ _ Hok) as (ss & Hss & _).
    destruct (Hkept _ Hss) as (ss' & q & Hss' & _ & _ & Htok). unfold token in *.
    rewrite (get_session_Some _ _ _ Hss) in Ht. rewrite (get_session_Some _ _ _ Hss'). auto.
  - split; [done| |done]. simpl in *. by rewrite told_other.
Qed.

Lemma announced_life sid n x : life sid n x -> announced sid n (fst x) (snd x).
Proof.
  induction 1 as [id ctx tr s0 w Hex Hst Hstart Hses|n [s g] [s' g'] Hl IH Hst
                 |n [s g] [s' g'] Hl IH Hst]; simpl in *.
  - assert (exec (init id ctx) (tr ++ [LTau]) (with_world w s0)) as Hex' by by econstructor.
    split; [|done..]. exact (exec_wf _ _ _ _ Hex').
  - eapply announced_own; [|done..]. by apply (life_reachable _ _ _ Hl).
  - eapply announced_outside; [|done..]. by apply (life_reachable _ _ _ Hl).
Qed.
End announced.

(** C6: a connection never forgets to announce: whenever its loop waits in the
    select with no notification pending, the frames it has sent since it was
    opened tell the server exactly the client's current subscription - the
    addresses with their signatures, the type filter - and mode, whatever calls
    of the client's methods were interleaved, up to 2^64 - 1 steps (the revision
    is a uint64). *)
Theorem subscription_announced `{GoValues} `{CloseErrors} sid n s g
    (Hl : life sid n (s, g)) (Hn : (Z.of_nat n < 2 ^ 64)%Z) (Hpc : g_pc g = PSelect)
    (Htok : s_subscriptions (get_session (sw s) sid) = false) :
  told (g_conn g) = Ledger.wanted (cl (sw s)).
Proof.
  pose proof (announced_life _ _ _ Hl) as [Hwf Hs Hno]. cbn [fst snd] in *.
  rewrite Hpc in *. simpl in Hs, Hno. destruct Hs as (m & Hm & Hs), Hno as [Hf Hrev].
  destruct (serving_invariant _ _ _ _ Hs) as (_ & _ & [?|Hinv]); [lia|congruence|].
  destruct Hinv as (w0 & i & Hi & Hwf0 & Hsteps & _ & Hr & -> & _). symmetry.
  apply (nsteps_same_revision i _ _ Hsteps Hwf0); [lia|].
  destruct Hrev as [Hrev|Ht]; [congruence|]. unfold token in Ht. congruence.
Qed.

(** ** A schedule *)
#[local] Existing Instance demo_close_errors.
#[local] Existing Instance demo_values.

(** A session is started, the client subscribes, and the first connection
    announces it; [served] is where it stands then. *)
Definition subscribed_sys : sys := with_world demo_subscribed demo1.

Definition noticed_sys : sys :=
  with_world (upd_session 0 (set_token false) demo_subscribed) subscribed_sys.

Definition set_up : goroutine :=
  mk_goroutine PTop initial_delay (mk_connection true [] HStopped HArmed RNext None serve_init []).

Definition served : goroutine :=
  mk_goroutine PSelect initial_delay
    (mk_connection true [] HStopped HArmed RNext None
       (mk_serve_state (Some ["alice"; "bob"]) false 1 false) [OFrame demo_frame]).

Lemma life_set_up : life 0 8 (subscribed_sys, set_up).
Proof.
  assert (life 0 0 (demo1, spawned)) as L0.
  { apply (life_start 0 "id" None [] demo0 (snd (Start (sw demo0)))); [constructor| |done..].
    by apply (st_start demo0). }
  assert (life 0 1 (subscribed_sys, spawned)) as L1.
  { eapply life_outside; [exact L0|]. eapply os_program.
    - apply (st_method demo1); [done|].
      exact (m_Subscribe ["bob"; "alice"] {["alice" := "s1"; "bob" := "s2"]} [] demo_world).
    - split; [done|]. intros ss [= <-]. by eexists _, []. }
  clear L0. do 3 (eapply life_own in L1; [|eapply own_main; first
    [by apply ms_head|by apply ms_retrieved
    |by apply (ms_connect _ _ _ (mk_env false None None 0 None))]]).
  eapply life_outside in L1; [|by apply os_net_dialed].
  eapply life_outside in L1; [|by apply os_shaken].
  do 2 (eapply life_own in L1; [|eapply own_main; first [by apply ms_dialed|by apply ms_setup]]).
  exact L1.
Qed.

Lemma demo_iteration : iteration_of (cl demo_subscribed) ["bob"; "alice"].
Proof. split; [by apply (bool_decide_unpack _); vm_compute|vm_compute; reflexivity]. Qed.

Lemma life_served : life 0 10 (subscribed_sys, served).
Proof.
  eapply life_own; [eapply life_own; [exact life_set_up|]|]; apply own_main.
  - by apply ms_top.
  - refine (ms_sync 0 subscribed_sys (at_pc (PSync (cl demo_subscribed)) set_up) (cl demo_subscribed) (fun _ => None) ["bob"; "alice"] [demo_frame]
             (mk_serve_state (Some ["alice"; "bob"]) false 1 false) _ _ _ _);
      [done|by intros i|exact demo_iteration|vm_compute; reflexivity].
Qed.

Lemma life_noticed : life 0 13 (noticed_sys, served).
Proof.
  eapply life_own; [eapply life_own; [eapply life_own; [exact life_served|]|]|]; apply own_main.
  - by apply ms_token.
  - by apply ms_top.
  - refine (ms_sync 0 noticed_sys (at_pc (PSync (cl demo_subscribed)) served) (cl demo_subscribed) (fun _ => None) ["bob"; "alice"] []
             (mk_serve_state (Some ["alice"; "bob"]) false 1 false) _ _ _ _);
      [done|by intros i|exact demo_iteration|vm_compute; reflexivity].
Qed.

Lemma subscription_announced_witness :
  told (g_conn served) = Ledger.wanted (cl demo_subscribed).
Proof.
  apply (subscription_announced 0 13 noticed_sys served life_noticed).
  - lia.
  - reflexivity.
  - reflexivity.
Defined.
