(* ===== verification/Delivery.v ===== *)
(** * websocket.go: from Write to the connections

    The composition of the files SendQueue and Lifecycle: which of the frames
    [Write] accepted the connection of a session has carried. *)
From S2P Require Import Prelude GoText Errors Types Client Subscriptions Sync SendQueue.
From S2P Require Import Authority Session Utf8 Json Models Requests Incoming Reader Lifecycle Announce.

Section delivery.
Context `{GoValues} `{CloseErrors}.

Implicit Types (s : sys) (g : goroutine) (k : connection).

(** The frames of [Write] that a connection carried, in order. *)
Definition data_of (o : output) : option bytes := match o with OData b => Some b | _ => None end.
Definition carried (k : connection) : list bytes := omap data_of (k_out k).

(** ** Histories

    A life with what it did: the labels of the system's steps, the connections
    it is done with, each with the frame whose write failed, and the present
    connection's lost frame. *)
Record life_log := mk_log {
  h_trace : list label;
  h_past : list (connection * option bytes);
  h_lost : option bytes;
}.

(** What a step of the life adds: a failed write loses its frame, a new
    connection ends the one before it. *)
Definition note (g g' : goroutine) (ls : list label) (h : life_log) : life_log :=
  match g_pc g, g_pc g' with
  | PWrite b, PExit _ => mk_log (h_trace h ++ ls) (h_past h) (Some b)
  | PNetDial, PShake => mk_log (h_trace h ++ ls) (h_past h ++ [(g_conn g, h_lost h)]) None
  | _, _ => mk_log (h_trace h ++ ls) (h_past h) (h_lost h)
  end.

(** The step of the system a step of the life is, or none. *)
Definition moved (s : sys) (ls : list label) (s' : sys) : Prop :=
  (s' = s /\ ls = []) \/ exists l, ls = [l] /\ step s l s'.

Inductive history (sid : nat) : life_log -> nat -> sys * goroutine -> Prop :=
| hi_start id ctx tr s0 w :
    exec (init id ctx) tr s0 -> step s0 LTau (with_world w s0) -> (None, w) = Start (sw s0) ->
    session (cl w) = Some sid ->
    history sid (mk_log (tr ++ [LTau]) [] None) 0 (with_world w s0, spawned)
| hi_own h n s g s' g' ls :
    history sid h n (s, g) -> own sid (s, g) (s', g') -> moved s ls s' ->
    history sid (note g g' ls h) (S n) (s', g')
| hi_outside h n s g s' g' ls :
    history sid h n (s, g) -> outside sid (s, g) (s', g') -> moved s ls s' ->
    history sid (note g g' ls h) (S n) (s', g').

(** The frames the drain dropped. *)
Definition dropped1 (sid : nat) (l : label) : list bytes :=
  match l with LDrained sid' q => if decide (sid' = sid) then q else [] | _ => [] end.
Definition dropped (sid : nat) (tr : list label) : list bytes := tr ≫= dropped1 sid.

(** What a connection took over: the frames it carried, and the one it lost. *)
Definition taken_over (x : connection * option bytes) : list bytes := carried x.1 ++ option_list x.2.

(** No write of the present connection has failed. *)
Definition clean (p : pc) : bool :=
  match p with
  | PShake | PDialed | PSetup | PTop | PSync _ | PSelect | PWrite _ | PResend _ => true
  | _ => false
  end.

Record accounted (sid : nat) (h : life_log) (g : goroutine) : Prop := {
  ac_left : left_queue sid (h_trace h) =
    (h_past h ≫= taken_over) ++ carried (g_conn g) ++ option_list (h_lost h) ++
    option_list (frame_of (g_pc g)) ++ dropped sid (h_trace h);
  ac_lost : clean (g_pc g) = true -> h_lost h = None;
  ac_dropped : g_pc g <> PDone -> dropped sid (h_trace h) = [];
}.

(** ** Histories and lives *)
Lemma life_history sid n x : life sid n x -> exists h, history sid h n x.
Proof.
  induction 1 as [id ctx tr s0 w|n [s g] [s' g'] Hl [h IH] Hst|n [s g] [s' g'] Hl [h IH] Hst].
  - eexists. by eapply hi_start.
  - destruct (own_guarantee _ _ _ _ _ (life_reachable _ _ _ Hl) Hst) as [->|[l Hs]].
    + eexists. eapply (hi_own _ _ _ _ _ _ _ []); [done..|by left].
    + eexists. eapply (hi_own _ _ _ _ _ _ _ [l]); [done..|by right; eexists].
  - assert (s' = s \/ exists l, step s l s') as [->|[l Hs]] by (inversion Hst; subst; eauto).
    + eexists. eapply (hi_outside _ _ _ _ _ _ _ []); [done..|by left].
    + eexists. eapply (hi_outside _ _ _ _ _ _ _ [l]); [done..|by right; eexists].
Qed.

Lemma history_life sid h n x : history sid h n x -> life sid n x.
Proof. induction 1; [by eapply life_start|by eapply life_own|by eapply life_outside]. Qed.

Lemma note_trace g g' ls h : h_trace (note g g' ls h) = h_trace h ++ ls.
Proof. unfold note. destruct (g_pc g), (g_pc g'); done. Qed.

Lemma history_exec sid h n x :
  history sid h n x -> exists id ctx, exec (init id ctx) (h_trace h) x.1.
Proof.
  assert (forall id ctx h s g g' ls s', exec (init id ctx) (h_trace h) s -> moved s ls s' ->
    exec (init id ctx) (h_trace (note g g' ls h)) s') as Hgo.
  { intros * Hex [[-> ->]|(l & -> & Hst)]; rewrite note_trace; [by rewrite app_nil_r|].
    by eapply exec_step. }
  induction 1 as [id ctx tr s0 w|h n s g s' g' ls _ (id & ctx & IH)|h n s g s' g' ls _ (id & ctx & IH)];
    exists id, ctx; [by eapply exec_step|by eapply Hgo..].
Qed.

(** ** What a step takes from the queue *)
Lemma left_queue_app sid tr ls : left_queue sid (tr ++ ls) = left_queue sid tr ++ (ls ≫= out1 sid).
Proof. apply bind_app. Qed.

Lemma dropped_app sid tr ls : dropped sid (tr ++ ls) = dropped sid tr ++ (ls ≫= dropped1 sid).
Proof. apply bind_app. Qed.

Lemma dropped_left sid ls : ls ≫= out1 sid = [] -> ls ≫= dropped1 sid = [].
Proof.
  induction ls as [|l ls IH]; [done|]. rewrite !bind_cons. intros [Ho Hl]%app_nil.
  rewrite (IH Hl), app_nil_r. by destruct l.
Qed.

(** Nothing, when frames are at most added. *)
Lemma moved_quiet sid s ls s' ss ss' q :
  inv s -> sessions (sw s) !! sid = Some ss -> sessions (sw s') !! sid = Some ss' ->
  s_send ss' = s_send ss ++ q -> moved s ls s' -> ls ≫= out1 sid = [].
Proof.
  intros Hinv Hs Hs' Hq [[-> ->]|(l & -> & Hst)]; [done|].
  pose proof (step_queue _ _ _ sid Hinv Hst) as Hstep. rewrite Hs, Hs' in Hstep.
  destruct Hstep as [Heq _]. rewrite Hq in Heq. apply (f_equal length) in Heq.
  rewrite !length_app in Heq. simpl. rewrite app_nil_r.
  destruct l as [| | |sid' b|sid' q']; try done; simpl in *; (case_decide; [|done]); simpl in *; [lia|].
  apply nil_length_inv. lia.
Qed.

Lemma moved_taken sid s ls s' ss ss' b :
  inv s -> sessions (sw s) !! sid = Some ss -> sessions (sw s') !! sid = Some ss' ->
  s_send ss = b :: s_send ss' -> inflight s' !! sid = Some b -> moved s ls s' ->
  ls ≫= out1 sid = [b] /\ ls ≫= dropped1 sid = [].
Proof.
  intros Hinv Hs Hs' Hq Hb [[-> ->]|(l & -> & Hst)].
  { rewrite Hs in Hs'. injection Hs' as ->. by apply (f_equal length) in Hq; simpl in Hq; lia. }
  pose proof (step_queue _ _ _ sid Hinv Hst) as Hstep. rewrite Hs, Hs' in Hstep.
  destruct Hstep as [Heq _]. rewrite Hq in Heq. simpl. rewrite !app_nil_r.
  assert (forall q, b :: s_send ss' ++ q <> s_send ss') as Hne.
  { intros q He. apply (f_equal length) in He. simpl in He. rewrite length_app in He. lia. }
  destruct l as [| |sid' b'|sid' b'|sid' q']; simpl in *; try (by destruct (Hne _ Heq));
    case_decide as E; try (by destruct (Hne _ Heq)).
  - rewrite app_nil_r in Heq. simpl in Heq. split; [congruence|done].
  - exfalso. inversion Hst; subst. cbn [inflight] in Hb. congruence.
Qed.

Lemma moved_finished sid s ls s' ss ss' :
  inv s -> sessions (sw s) !! sid = Some ss -> sessions (sw s') !! sid = Some ss' ->
  s_send ss' = [] -> s_done ss = false -> s_done ss' = true -> inflight s' !! sid = None ->
  moved s ls s' -> ls ≫= out1 sid = ls ≫= dropped1 sid.
Proof.
  intros Hinv Hs Hs' Hq Hd Hd' Hf [[-> ->]|(l & -> & Hst)]; [done|].
  simpl. rewrite !app_nil_r. destruct l as [| | |sid' b|]; try done. simpl. case_decide as E; [|done].
  exfalso. inversion Hst; subst. cbn [inflight] in Hf. by rewrite lookup_insert_eq in Hf.
Qed.

(** ** The invariant *)
Lemma carried_out l k : carried (with_out l k) = carried k ++ omap data_of l.
Proof. unfold carried. cbn. by rewrite omap_app. Qed.

Lemma carried_frames frames k : carried (with_out (map OFrame frames) k) = carried k.
Proof.
  rewrite carried_out. assert (forall fs, omap data_of (map OFrame fs) = []) as -> by by induction fs.
  by rewrite app_nil_r.
Qed.

(** A move that takes nothing from the queue and writes no frame of it. *)
Lemma accounted_quiet sid h g g' ls :
  accounted sid h g -> ls ≫= out1 sid = [] ->
  note g g' ls h = mk_log (h_trace h ++ ls) (h_past h) (h_lost h) ->
  carried (g_conn g') = carried (g_conn g) -> frame_of (g_pc g') = frame_of (g_pc g) ->
  (clean (g_pc g') = true -> clean (g_pc g) = true) ->
  (g_pc g' <> PDone -> g_pc g <> PDone) ->
  accounted sid (note g g' ls h) g'.
Proof.
  intros [Hl Hc Hd] Ho -> Hk Hf Hclean Hdone. apply dropped_left in Ho as Hdr.
  split; cbn [h_trace h_past h_lost]; rewrite ?left_queue_app, ?dropped_app, ?Ho, ?app_nil_r;
    rewrite ?Hdr, ?app_nil_r; [by rewrite Hk, Hf|auto..].
Qed.

Lemma accounted_taken sid h g b ls :
  accounted sid h g -> g_pc g = PSelect -> ls ≫= out1 sid = [b] -> ls ≫= dropped1 sid = [] ->
  accounted sid (note g (at_pc (PWrite b) g) ls h) (at_pc (PWrite b) g).
Proof.
  intros [Hl Hc Hd] Hp Ho Hdr. rewrite Hp in *. unfold note. rewrite Hp.
  split; cbn [h_trace h_past h_lost at_pc g_pc g_conn];
    rewrite ?left_queue_app, ?dropped_app, ?Ho; rewrite ?Hdr, ?app_nil_r; [|auto..].
  rewrite Hl, Hd, (Hc eq_refl) by done. simpl. by rewrite ?app_nil_r, <- !app_assoc.
Qed.

Lemma accounted_written sid h g b ls :
  accounted sid h g -> g_pc g = PWrite b -> ls ≫= out1 sid = [] ->
  let g' := at_pc PTop (on_conn (with_out [OData b]) g) in accounted sid (note g g' ls h) g'.
Proof.
  intros [Hl Hc Hdr] Hp Ho. rewrite Hp in *. apply dropped_left in Ho as Hdr'.
  unfold note. cbn zeta. rewrite Hp. split; cbn [h_trace h_past h_lost at_pc g_pc g_conn on_conn];
    rewrite ?left_queue_app, ?dropped_app, ?Ho, ?Hdr', ?app_nil_r; [|auto..].
  rewrite Hl, Hdr, (Hc eq_refl), carried_out by done. simpl. by rewrite <- !app_assoc.
Qed.

Lemma accounted_lost sid h g b e ls :
  accounted sid h g -> g_pc g = PWrite b -> ls ≫= out1 sid = [] ->
  accounted sid (note g (at_pc (PExit e) g) ls h) (at_pc (PExit e) g).
Proof.
  intros [Hl Hc Hdr] Hp Ho. rewrite Hp in *. apply dropped_left in Ho as Hdr'.
  unfold note. rewrite Hp. split; cbn [h_trace h_past h_lost at_pc g_pc g_conn];
    rewrite ?left_queue_app, ?dropped_app, ?Ho, ?Hdr', ?app_nil_r; [|done|auto].
  by rewrite Hl, (Hc eq_refl).
Qed.

Lemma accounted_drained sid h g ls :
  accounted sid h g -> g_pc g = PFinish -> ls ≫= out1 sid = ls ≫= dropped1 sid ->
  accounted sid (note g (at_pc PDone g) ls h) (at_pc PDone g).
Proof.
  intros [Hl Hc Hdr] Hp Ho. rewrite Hp in *. unfold note. rewrite Hp.
  split; cbn [h_trace h_past h_lost at_pc g_pc g_conn]; [|done..].
  rewrite left_queue_app, dropped_app, Hl, Ho, Hdr by done. simpl. by rewrite <- !app_assoc.
Qed.

Lemma accounted_main sid h s g s' g' ls :
  life_ok sid s g -> accounted sid h g -> main_step sid s g s' g' -> moved s ls s' ->
  accounted sid (note g g' ls h) g'.
Proof.
  intros Hok Hac Hst Hmv. pose proof (lo_inv _ _ _ Hok) as Hinv.
  destruct (lo_session _ _ _ Hok) as (ss & Hs & Hd). pose proof (lo_flight _ _ _ Hok) as Hf.
  assert (forall f ws fl st, s_send (f ss) = s_send ss ->
    s' = mk_sys (upd_session sid f (sw s)) ws fl st -> ls ≫= out1 sid = []) as Hquiet.
  { intros f ws fl st Hsend ->. eapply moved_quiet; [done..|by eapply session_upd| |done].
    by rewrite Hsend, app_nil_r. }
  assert (s' = s -> ls ≫= out1 sid = []) as Hstay.
  { intros ->. eapply moved_quiet; [done..|by rewrite app_nil_r|done]. }
  destruct Hst; match goal with Hpc : g_pc g = _ |- _ => rename Hpc into Hp end;
  try (by apply accounted_quiet; [done|first [by apply Hstay|by eapply Hquiet]|by unfold note; rewrite Hp|
    first [done|apply carried_frames|by rewrite carried_out, app_nil_r]|by rewrite Hp..]).
  - apply accounted_quiet; [done|by eapply (Hquiet (set_token false))|by unfold note; rewrite Hp
      |done|by rewrite Hp..].
  - rewrite (get_session_Some _ _ _ Hs) in *. destruct (s_send ss) as [|b' q] eqn:Eq; [done|].
    simplify_eq/=. destruct (moved_taken sid s ls (taken sid b s) ss (dequeue ss) b) as [Ho Hdr];
      [done|done|by apply session_upd|by rewrite Eq; simpl; rewrite Eq|apply lookup_insert_eq|done|].
    by apply accounted_taken.
  - apply accounted_written; [done|done|]. by eapply (Hquiet (add_queued (- llen b))).
  - apply (accounted_lost _ _ _ b); [done|done|]. by eapply (Hquiet (add_queued (- llen b))).
  - apply accounted_quiet; [done|eapply (Hquiet (cancel_session CtxCanceled)); [apply cancel_quiet|done]
      |by unfold note; rewrite Hp|done|by rewrite Hp..].
  - pose proof (lo_finish _ _ _ Hok Hp) as He. rewrite Hp in Hf.
    assert (ls ≫= out1 sid = ls ≫= dropped1 sid) as Ho.
    { eapply (moved_finished sid s ls (finished sid s) ss (finish ss));
        [done|done|by apply session_upd|done|by apply (not_done _ _ Hd); rewrite Hp|done|done|done]. }
    by apply accounted_drained.
Qed.

Lemma accounted_conn sid h g k ls :
  accounted sid h g -> ls ≫= out1 sid = [] -> carried k = carried (g_conn g) ->
  accounted sid (note g (on_conn (fun _ => k) g) ls h) (on_conn (fun _ => k) g).
Proof.
  intros Hac Ho Hk. apply accounted_quiet; try done. unfold note. cbn [on_conn g_pc].
  by destruct (g_pc g).
Qed.

Lemma accounted_own sid h s g s' g' ls :
  life_ok sid s g -> accounted sid h g -> own sid (s, g) (s', g') -> moved s ls s' ->
  accounted sid (note g g' ls h) g'.
Proof.
  intros Hok Hac Hst Hmv. pose proof (lo_inv _ _ _ Hok) as Hinv.
  destruct (lo_session _ _ _ Hok) as (ss & Hs & _).
  inversion Hst as [? ? ? ? Hm|? ? ? k Hr|? ? k Hh]; subst.
  - by eapply accounted_main.
  - apply accounted_conn; [done| |by destruct Hr].
    assert (s' = s \/ exists sid', s' = cancelled_session sid' s) as [->|[sid' ->]]
      by (destruct Hr; eauto).
    + eapply moved_quiet; [done..|by rewrite app_nil_r|done].
    + destruct (decide (sid' = sid)) as [->|Hne].
      * eapply moved_quiet; [done..|by apply session_upd| |done].
        rewrite app_nil_r. apply cancel_quiet.
      * eapply moved_quiet; [done..| |by rewrite app_nil_r|done].
        unfold cancelled_session. cbn [sw with_world]. rewrite sessions_upd. by case_decide.
  - apply accounted_conn; [done| |by destruct Hh].
    eapply moved_quiet; [done..|by rewrite app_nil_r|done].
Qed.

Lemma accounted_outside sid h s g s' g' ls :
  life_ok sid s g -> accounted sid h g -> outside sid (s, g) (s', g') -> moved s ls s' ->
  accounted sid (note g g' ls h) g'.
Proof.
  intros Hok Hac Hst Hmv. pose proof (lo_inv _ _ _ Hok) as Hinv.
  destruct (lo_session _ _ _ Hok) as (ss & Hs & _).
  assert (ls ≫= out1 sid = []) as Ho.
  { assert (exists ss' q, sessions (sw s') !! sid = Some ss' /\ s_send ss' = s_send ss ++ q)
      as (ss' & q & Hs' & Hq).
    { inversion Hst; subst; try (by exists ss, []; rewrite app_nil_r).
      match goal with Hk : session_kept _ _ _ |- _ => destruct Hk as [_ Hk];
        destruct (Hk _ Hs) as (ss' & q & ? & _ & ? & _) end. eauto. }
    by eapply moved_quiet. }
  inversion Hst as [? ? ? ? ? ?|? ? cb cbs Hp|? ? cb cbs Hp| |? ? Hp|? ? e Hp|? ? Hp|? ? e Hp
    | | |? ? Hp|? ? e Hp|? ? Hp]; subst;
    try (apply accounted_quiet; [done|done|by unfold note; rewrite Hp|
      first [done|by rewrite carried_out; simpl; rewrite app_nil_r]|by rewrite Hp..]);
    try (apply accounted_conn; done).
  - apply accounted_quiet; try done. unfold note. by destruct (g_pc g').
  - destruct Hac as [Hl Hc Hd]. apply dropped_left in Ho as Hdr. rewrite Hp in *.
    unfold note. rewrite Hp. split; cbn [h_trace h_past h_lost at_pc g_pc g_conn on_conn];
      rewrite ?left_queue_app, ?dropped_app, ?Ho; rewrite ?Hdr, ?app_nil_r; [|done|auto].
    rewrite Hl, Hd, bind_app, bind_cons by done. simpl. unfold taken_over. simpl.
    by rewrite !app_nil_r, <- ?app_assoc.
  - apply accounted_quiet; [done|done|by unfold note; rewrite Hp| |by rewrite Hp..].
    cbn [at_pc on_conn g_conn]. rewrite carried_out. apply app_nil_r.
Qed.

Lemma accounted_start sid id ctx tr s w :
  exec (init id ctx) tr s -> (None, w) = Start (sw s) ->
  session (cl w) = Some sid -> accounted sid (mk_log (tr ++ [LTau]) [] None) spawned.
Proof.
  intros Hex Hstart Hses.
  assert (sessions (sw s) !! sid = None) as Hnew.
  { unfold Start in Hstart. repeat case_match; try done. all: injection Hstart as ->.
    all: simpl in Hses; injection Hses as <-; apply not_elem_of_dom, is_fresh. }
  pose proof (exec_queue _ _ _ _ sid Hex) as Hq. rewrite Hnew in Hq. destruct Hq as [_ Hl].
  assert (left_queue sid (tr ++ [LTau]) = []) as Hl' by by rewrite left_queue_app, Hl.
  apply dropped_left in Hl' as Hd. by split; cbn [h_trace]; rewrite ?Hl'; rewrite ?Hd.
Qed.

Lemma history_accounted sid h n x : history sid h n x -> accounted sid h x.2.
Proof.
  induction 1 as [id ctx tr s0 w|h n s g s' g' ls Hh IH Hst|h n s g s' g' ls Hh IH Hst].
  - by eapply accounted_start.
  - apply history_life, life_reachable in Hh. by eapply accounted_own.
  - apply history_life, life_reachable in Hh. by eapply accounted_outside.
Qed.
End delivery.

(** C11: a connection carries what [Write] accepted, each frame once and in
    order. Every life of a session has a history - the labels of its own steps,
    the connections it had before, the frames lost to failed writes -, every
    history is the trace of an execution of the system, and in all of them the
    frames accepted so far are, in this order: for each earlier connection the
    frames it carried and at most one whose write failed; those the present
    connection carried, and the one it lost; the one being written; what the
    drain dropped, nothing before the session is done; and those that wait.
    While the connection is served, none of its frames is lost. *)
Theorem connection_delivers `{GoValues} `{CloseErrors} sid n s g (Hl : life sid n (s, g)) :
  (exists h, history sid h n (s, g)) /\
  forall h, history sid h n (s, g) ->
    (exists id ctx, exec (init id ctx) (h_trace h) s) /\
    enqueued sid (h_trace h) =
      (h_past h ≫= taken_over) ++ carried (g_conn g) ++ option_list (h_lost h) ++
      option_list (frame_of (g_pc g)) ++ dropped sid (h_trace h) ++
      s_send (get_session (sw s) sid) /\
    (clean (g_pc g) = true -> h_lost h = None) /\
    (g_pc g <> PDone -> dropped sid (h_trace h) = []).
Proof.
  split; [by apply life_history|]. intros h Hh.
  destruct (history_exec _ _ _ _ Hh) as (id & ctx & Hex). cbn [fst] in Hex.
  destruct (history_accounted _ _ _ _ Hh) as [Hleft Hc Hd]. cbn [snd] in *.
  split; [by eexists _, _|]. split; [|done].
  destruct (lo_session _ _ _ (life_reachable _ _ _ Hl)) as (ss & Hs & _). cbn [fst] in Hs.
  pose proof (exec_queue _ _ _ _ sid Hex) as Hq. rewrite Hs in Hq.
  rewrite (get_session_Some _ _ _ Hs), Hq, Hleft. by rewrite <- !app_assoc.
Qed.

(** ** Instances *)
#[local] Existing Instance demo_close_errors.
#[local] Existing Instance demo_values.

(** The connection of the file Announce, after a call of [Write] and the write
    of its frame. *)
Definition wrote (f : wsSession -> wsSession) (ws : list writer) : sys :=
  mk_sys (upd_session 0 f (sw noticed_sys)) ws ∅ None.

Definition queued_sys : sys :=
  wrote (fun ss => enqueue demo_frame_bytes (set_queued (add64 0 3) ss)) [].

Definition sent_sys : sys := released 0 demo_frame_bytes (taken 0 demo_frame_bytes queued_sys).

Definition sent_once : goroutine :=
  at_pc PTop (on_conn (with_out [OData demo_frame_bytes]) served).

Lemma life_queued : life 0 17 (queued_sys, served).
Proof.
  assert (life 0 14 (mk_sys (sw noticed_sys) [WLoad 0 demo_frame_bytes] ∅ None, served)) as L.
  { eapply life_outside; [exact life_noticed|]. eapply os_program.
    - by apply (st_write_enter noticed_sys demo_frame_bytes 0).
    - split; [done|]. intros ss [= <-]. by eexists _, []. }
  eapply life_outside in L; [|eapply os_program; [by eapply (st_write_load _ [] 0 _ [])|]].
  2:{ split; [done|]. intros ss [= <-]. by eexists _, []. }
  eapply life_outside in L; [|eapply os_program; [by eapply (st_write_cas _ [] 0 _ _ [])|]].
  2:{ split; [done|]. intros ss [= <-]. by eexists _, []. }
  eapply life_outside in L; [|eapply os_program; [eapply (st_write_sent _ [] 0 _ []); [done|vm_compute; lia]|]].
  2:{ split; [done|]. intros ss [= <-]. by eexists _, [demo_frame_bytes]. }
  exact L.
Qed.

Lemma life_sent : life 0 19 (sent_sys, sent_once).
Proof.
  eapply life_own; [eapply life_own; [exact life_queued|]|]; apply own_main.
  - by apply (ms_take 0 queued_sys served demo_frame_bytes).
  - by apply (ms_written 0 _ (at_pc (PWrite demo_frame_bytes) served) demo_frame_bytes).
Qed.

Lemma connection_delivers_witness :
  exists h, history 0 h 19 (sent_sys, sent_once) /\
    enqueued 0 (h_trace h) = (h_past h ≫= taken_over) ++ [demo_frame_bytes].
Proof.
  destruct (connection_delivers 0 19 sent_sys sent_once life_sent) as [[h Hh] Hall].
  destruct (Hall h Hh) as (_ & Hq & Hc & Hd). exists h. split; [exact Hh|].
  rewrite Hq, (Hc eq_refl), Hd by discriminate. reflexivity.
Defined.
