(* ===== verification/Shutdown.v ===== *)
(** * websocket.go: a cancelled session ends

    Under every schedule: once the context of a session is done, its
    goroutines can take finitely many steps of their own, and they come to rest
    only when [runSession] has returned, or waits for the write lock. *)
From S2P Require Import Prelude GoText Errors Types Client Subscriptions Sync SendQueue.
From S2P Require Import Authority Session Utf8 Json Models Requests Incoming Reader Lifecycle Announce.

Section measure.
Context `{GoValues} `{CloseErrors}.

Implicit Types (s : sys) (g : goroutine) (k : connection).

(** ** A measure of the steps left, for a context that is done *)
Definition rank (p : pc) : nat :=
  match p with
  | PDone => 0 | PFinish => 1 | PCancel => 2
  | PHead | PTimer | PAfter _ => 3
  | PErrors _ | PUnhook _ | PRefused _ | PNetDial => 4
  | PJoin _ | PShake | PConnect => 5
  | PExit _ | PRetrieve _ => 6
  | PResend _ => 7 | PSelect => 8 | PSync _ => 9 | PTop => 10 | PWrite _ => 11
  | PSetup => 15 | PDialed => 16
  end.

Definition reader_rank (r : reader_state) : nat :=
  match r with
  | RNone | RGone => 0
  | RSend _ => 1
  | RNext => 2
  | RParsing rest => 3 + length rest
  end.

Definition hook_rank (h : hook) : nat :=
  match h with HArmed => 2 | HFired => 1 | _ => 0 end.

(** What the select still finds: queued frames and the token. *)
Definition waiting (ss : wsSession) : nat :=
  length (s_send ss) + (if s_subscriptions ss then 1 else 0).

Definition conn_measure (k : connection) : nat :=
  reader_rank (k_reader k) + 4 * length (k_inbox k) + hook_rank (k_dial k) + hook_rank (k_serve k).

Definition measure (sid : nat) (x : sys * goroutine) : nat :=
  rank (g_pc x.2) + 4 * waiting (get_session (sw x.1) sid) + conn_measure (g_conn x.2).

Lemma hook_rank_stop h : hook_rank (stop_hook h) <= hook_rank h.
Proof. destruct h; simpl; lia. Qed.

Lemma waiting_cancel sid sid' s :
  waiting (get_session (sw (cancelled_session sid' s)) sid) = waiting (get_session (sw s) sid).
Proof.
  unfold get_session, cancelled_session. cbn [sw with_world]. rewrite sessions_upd.
  case_decide as E; [subst|done]. by destruct (sessions (sw s) !! sid).
Qed.

Lemma parseIncoming_length c raw : length (parseIncoming c raw) <= 2.
Proof. destruct (parseIncoming_outcome c raw); simpl; lia. Qed.

Lemma hook_decreases err k k' : hook_step err k k' -> conn_measure k' < conn_measure k.
Proof.
  destruct 1 as [Hk|Hk|Hk|Hk]; unfold conn_measure; simpl; rewrite Hk; simpl; lia.
Qed.

Lemma reader_decreases sid s k s' k' :
  reader_step s k s' k' ->
  conn_measure k' < conn_measure k /\
  waiting (get_session (sw s') sid) = waiting (get_session (sw s) sid).
Proof.
  intros Hst. split; [|by destruct Hst; rewrite ?waiting_cancel].
  destruct Hst as [typ r inbox msg Hk Hi|typ r inbox e Hk Hi|e Hk|eff rest e Hk|sid' rest Hk|Hk|e Hk];
    unfold conn_measure; simpl; rewrite ?Hi, Hk; simpl; try lia.
  pose proof (parseIncoming_length (cl (sw s)) (of_bytes msg)). case_match; simpl; lia.
Qed.

Lemma waiting_upd sid f s ss ws fl st :
  sessions (sw s) !! sid = Some ss ->
  waiting (get_session (sw (mk_sys (upd_session sid f (sw s)) ws fl st)) sid) = waiting (f ss).
Proof. intros Hs. by rewrite (get_session_Some _ _ _ (session_upd _ _ _ _ _ _ _ Hs)). Qed.

Lemma main_decreases sid s g s' g' :
  life_ok sid s g -> err_of s sid <> None -> main_step sid s g s' g' ->
  measure sid (s', g') < measure sid (s, g).
Proof.
  intros Hok He Hst. destruct (lo_session _ _ _ Hok) as (ss & Hs & _).
  pose proof (hook_rank_stop (k_dial (g_conn g))). pose proof (hook_rank_stop (k_serve (g_conn g))).
  pose proof (lo_conn _ _ _ Hok) as [Hph _].
  unfold measure; cbn [fst snd]; destruct Hst;
    match goal with Hpc : g_pc g = _ |- _ => rewrite Hpc in *; clear Hpc end;
    try done; cbn [fst snd g_pc g_conn at_pc on_conn with_delay]; rewrite ?waiting_cancel;
    unfold taken, released, finished, with_world; rewrite ?(waiting_upd _ _ _ _ _ _ _ Hs);
    rewrite (get_session_Some _ _ _ Hs) in *; unfold conn_measure; cbn;
    try lia.
  all: unfold waiting; destruct (s_subscriptions ss), (s_send ss); simplify_eq/=; lia.
Qed.

Lemma own_decreases sid s g s' g' :
  life_ok sid s g -> err_of s sid <> None -> own sid (s, g) (s', g') ->
  measure sid (s', g') < measure sid (s, g).
Proof.
  intros Hok He Hst. inversion Hst as [? ? ? ? Hm|? ? ? ? Hr|? ? ? Hh]; subst.
  - by apply main_decreases.
  - apply (reader_decreases sid) in Hr as [Hlt Heq]. unfold measure. cbn. rewrite Heq. lia.
  - apply hook_decreases in Hh. unfold measure. cbn. lia.
Qed.

(** A context that is done stays done. *)
Lemma step_err s l s' sid :
  inv s -> err_of s sid <> None -> step s l s' -> err_of s' sid <> None.
Proof.
  intros Hinv He Hst. pose proof (step_queue _ _ _ sid Hinv Hst) as Hq.
  unfold err_of, get_session in *.
  destruct (sessions (sw s) !! sid), (sessions (sw s') !! sid); try done. by apply Hq.
Qed.

Lemma own_err sid s g s' g' :
  life_ok sid s g -> err_of s sid <> None -> own sid (s, g) (s', g') -> err_of s' sid <> None.
Proof.
  intros Hok He Hst. destruct (own_guarantee _ _ _ _ _ Hok Hst) as [->|[l Hl]]; [done|].
  by eapply step_err; [apply (lo_inv _ _ _ Hok)| |exact Hl].
Qed.

Lemma own_rtc sid x x' :
  rtc (own sid) x x' -> life_ok sid x.1 x.2 -> err_of x.1 sid <> None ->
  life_ok sid x'.1 x'.2 /\ err_of x'.1 sid <> None.
Proof.
  induction 1 as [|[s g] [s1 g1] x' Hst _ IH]; [done|]. simpl in *. intros Hok He.
  apply IH; [by eapply life_ok_own|by eapply own_err].
Qed.

Lemma own_terminates sid x :
  life_ok sid x.1 x.2 -> err_of x.1 sid <> None -> sn (own sid) x.
Proof.
  remember (measure sid x) as n eqn:Hn. revert x Hn.
  induction (lt_wf n) as [n _ IH]. intros [s g] -> Hok He. constructor. intros [s' g'] Hst.
  eapply IH; [by apply own_decreases|done|by eapply life_ok_own|by eapply own_err].
Qed.

(** ** No goroutine of a cancelled session is stuck *)
Lemma running_dispatch sid s g :
  life_ok sid s g -> g_pc g <> PDone -> dispatch_ctx (sw s) = err_of s sid.
Proof.
  intros Hok Hpc. destruct (lo_session _ _ _ Hok) as (ss & Hs & Hd).
  unfold dispatch_ctx. rewrite (so_running _ _ _ _ _ (inv_sess _ (lo_inv _ _ _ Hok) _ _ Hs)); [done|].
  by eapply not_done.
Qed.

Definition can_step (sid : nat) (s : sys) (g : goroutine) : Prop := exists x', own sid (s, g) x'.

Lemma main_can sid s g s' g' : main_step sid s g s' g' -> can_step sid s g.
Proof. intros Hst. eexists. by apply own_main. Qed.

Lemma reader_can sid s g s' k' : reader_step s (g_conn g) s' k' -> can_step sid s g.
Proof. intros Hst. eexists. by apply own_reader. Qed.

Lemma hook_can sid s g k' : hook_step (err_of s sid) (g_conn g) k' -> can_step sid s g.
Proof. intros Hst. eexists. by apply own_hook. Qed.

(** The reader of a closed connection gets to its send. *)
Lemma reader_progress sid s g :
  life_ok sid s g -> err_of s sid <> None -> g_pc g <> PDone ->
  reader_up (g_conn g) -> k_open (g_conn g) = false ->
  k_readDone (g_conn g) <> None \/ can_step sid s g.
Proof.
  intros Hok He Hpc [Hnone Hgone] Hopen. pose proof (running_dispatch _ _ _ Hok Hpc) as Hd.
  destruct (err_of s sid) as [e|] eqn:Ee; [|done].
  destruct (k_reader (g_conn g)) as [| |[|eff rest]|e'|] eqn:Er; [done|right..|left].
  - eapply reader_can, (rs_closed _ _ e); done.
  - eapply reader_can, rs_parsed; done.
  - destruct eff as [e0|b t|sid'].
    + eapply reader_can, rs_refused; [done|discriminate|done].
    + eapply reader_can, rs_refused; [done|discriminate|done].
    + eapply reader_can, rs_cancel; done.
  - eapply reader_can, rs_send; [done|].
    destruct (k_readDone (g_conn g)); [|done]. exfalso. by assert (RSend e' = RGone) by by apply Hgone.
  - by apply Hgone.
Qed.

Lemma handshake_progress sid s g :
  err_of s sid <> None -> g_pc g = PShake -> conn_ok PShake (g_conn g) -> can_step sid s g.
Proof.
  intros He Hpc [(_ & _ & Hreg) Hh].
  destruct Hreg as [Ha|[Hf|Hr]].
  - eapply hook_can, hs_dial_start; done.
  - eapply hook_can, hs_dial_run; done.
  - eapply main_can, (ms_shake_closed _ _ _ CtxCanceled); auto.
Qed.

Lemma sync_progress sid s g c1 : g_pc g = PSync c1 -> can_step sid s g.
Proof.
  intros Hpc. set (iter := elements (dom (subscribedAddresses (cl (sw s))))).
  assert (iteration_of (cl (sw s)) iter) as Hiter.
  { split; [apply NoDup_elements|]. apply list_to_set_elements_L. }
  destruct (serve_top (fun _ => Some CtxCanceled) iter c1 (cl (sw s)) (k_st (g_conn g)))
    as [frames [st|e]] eqn:E; eapply main_can.
  - eapply (ms_sync _ _ _ c1); [done| |exact Hiter|exact E]; by intros i _.
  - eapply (ms_sync_failed _ _ _ c1); [done| |exact Hiter|exact E]; by intros i _.
Qed.

Lemma some_environment : authority_env.
Proof. exact (mk_env false None None 0 None). Qed.

Lemma session_progress sid s g :
  life_ok sid s g -> err_of s sid <> None -> g_pc g <> PDone ->
  can_step sid s g \/ (g_pc g = PFinish /\ writers s <> []).
Proof.
  intros Hok He Hnd. pose proof (running_dispatch _ _ _ Hok Hnd) as Hd.
  pose proof (lo_conn _ _ _ Hok) as Hc. destruct (err_of s sid) as [e|] eqn:Ee; [|done].
  destruct (g_pc g) as [|[|cb cbs]| | | | |e'| | |c1| |b|e'|e'|e'|e'|e'|[|cb cbs]| | | |] eqn:Epc;
    try done; try (left; eapply main_can; by econstructor).
  - left. destruct (authority_error some_environment (cl (sw s))) eqn:Ea; eapply main_can.
    + by eapply ms_no_authority.
    + by eapply ms_connect.
  - left. apply handshake_progress; [by rewrite Ee|done..].
  - left. by eapply sync_progress.
  - left. destruct Hc as [((_ & Hr) & _) _]. by eapply main_can, ms_resend.
  - destruct Hc as [((Hup & Hopen) & _) _]. left.
    destruct (reader_progress sid s g) as [Hr|?]; [done|by rewrite Ee|by rewrite Epc|done..| |done].
    destruct (k_readDone (g_conn g)) as [e0|] eqn:Er; [|done]. by eapply main_can, ms_join.
  - left. eapply main_can, ms_return; [done|]. left. by rewrite Ee.
  - destruct (writers s) as [|wr ws] eqn:Ew; [left|by right]. by eapply main_can, ms_finish.
  Unshelve. all: exact CtxCanceled.
Qed.


(** ** The calls of Write, and Stop *)

(** A call of [Write] under way makes a step or returns. *)
Definition write_moves (s s' : sys) : Prop :=
  exists l, step s l s' /\ writers s' <> writers s /\ length (writers s') <= length (writers s).

(** The goroutines of the session and the calls of [Write]. *)
Inductive busy (sid : nat) : sys * goroutine -> sys * goroutine -> Prop :=
| busy_own x x' : own sid x x' -> busy sid x x'
| busy_write s s' g : write_moves s s' -> busy sid (s, g) (s', g).

Definition writer_weight (wr : writer) : nat := match wr with WReserved _ _ => 6 | _ => 7 end.

(** Steps to the next change of the counter: a stale value is loaded again. *)
Definition writer_turn (s : sys) (wr : writer) : nat :=
  match wr with
  | WLoad _ _ => 1
  | WCas sid _ used => if (s_queuedBytes (get_session (sw s) sid) =? used)%Z then 0 else 2
  | WReserved _ _ => 0
  end.

Definition weight (sid : nat) (x : sys * goroutine) : nat :=
  measure sid x + sum_list_with writer_weight (writers x.1).

Definition turns (x : sys * goroutine) : nat := sum_list_with (writer_turn x.1) (writers x.1).

Lemma waiting_at sid sid' f s ws fl st :
  waiting (get_session (sw (mk_sys (upd_session sid' f (sw s)) ws fl st)) sid)
  = if decide (sid' = sid) then
      match sessions (sw s) !! sid with Some ss => waiting (f ss) | None => 0 end
    else waiting (get_session (sw s) sid).
Proof.
  unfold get_session. cbn [sw]. rewrite sessions_upd. case_decide as E; [subst|done].
  by destruct (sessions (sw s) !! sid).
Qed.

Lemma waiting_quiet sid sid' f s ws fl st :
  (forall ss, waiting (f ss) = waiting ss) ->
  waiting (get_session (sw (mk_sys (upd_session sid' f (sw s)) ws fl st)) sid)
  = waiting (get_session (sw s) sid).
Proof.
  intros Hf. rewrite waiting_at. case_decide as E; [subst|done].
  unfold get_session. by destruct (sessions (sw s) !! sid); [apply Hf|].
Qed.

Lemma waiting_enqueue sid sid' b s ws fl st :
  waiting (get_session (sw (mk_sys (upd_session sid' (enqueue b) (sw s)) ws fl st)) sid)
  <= S (waiting (get_session (sw s) sid)).
Proof.
  rewrite waiting_at. case_decide as E; [subst|lia]. unfold get_session.
  destruct (sessions (sw s) !! sid); [|cbn; lia]. cbn. unfold waiting. cbn.
  rewrite length_app. cbn. lia.
Qed.

(** One writer of the list is replaced by [o], or removed. *)
Lemma weight_mid l1 wr l2 ws :
  ws = l1 ++ wr :: l2 ->
  sum_list_with writer_weight ws = writer_weight wr + sum_list_with writer_weight (l1 ++ l2).
Proof. intros ->. rewrite !sum_list_with_app. simpl. lia. Qed.

Lemma turns_mid s l1 wr l2 :
  sum_list_with (writer_turn s) (l1 ++ wr :: l2)
  = writer_turn s wr + sum_list_with (writer_turn s) (l1 ++ l2).
Proof. rewrite !sum_list_with_app. simpl. lia. Qed.

(** Either the weight falls, or the counter is unchanged and a turn is used. *)
Lemma write_decreases sid s s' g :
  write_moves s s' ->
  weight sid (s', g) < weight sid (s, g) \/
  (weight sid (s', g) = weight sid (s, g) /\ turns (s', g) < turns (s, g)).
Proof.
  intros (l & Hst & Hne & Hlen). unfold weight, turns, measure; cbn [fst snd].
  destruct Hst as [| | | | | | | |s l1 sid' b l2 used Hw Hx|s l1 sid' b l2 e Hw Hx
    |s l1 sid' b used l2 w' Hw Hx|s l1 sid' b used l2 w' Hw Hx|s l1 sid' b l2 e Hw Hx
    |s l1 sid' b l2 Hw|s l1 sid' b l2 Hw Hx| | | |];
    cbn [writers sw with_world] in *; try done; try (cbn [length] in Hlen; lia).
  - right. rewrite Hw, !(turns_mid _ l1), !(weight_mid l1 _ l2 _ eq_refl).
    unfold Write_load in Hx. case_match; [done|]. injection Hx as <-. cbn [writer_turn sw]. rewrite Z.eqb_refl.
    split; [done|]. enough (sum_list_with (writer_turn (mk_sys (sw s)
      (l1 ++ WCas sid' b (s_queuedBytes (get_session (sw s) sid')) :: l2) (inflight s) (stopping s)))
      (l1 ++ l2) = sum_list_with (writer_turn s) (l1 ++ l2)) by lia. done.
  - left. rewrite (weight_mid _ _ _ _ Hw). cbn. lia.
  - left. rewrite (weight_mid _ _ _ _ Hw), (weight_mid l1 _ l2 _ eq_refl).
    unfold Write_cas in Hx. case_match; [|done]. injection Hx as <-.
    pose proof (waiting_quiet sid sid' (set_queued (add64 used (llen b))) s [] ∅ None) as Hq.
    cbn [sw] in Hq. rewrite Hq by done. cbn. lia.
  - right. rewrite Hw, !(turns_mid _ l1), !(weight_mid l1 _ l2 _ eq_refl).
    unfold Write_cas in Hx. destruct (_ =? used)%Z eqn:E; [done|]. injection Hx as <-.
    cbn [writer_turn sw]. rewrite E. split; [done|].
    enough (sum_list_with (writer_turn (mk_sys (sw s)
      (l1 ++ WLoad sid' b :: l2) (inflight s) (stopping s)))
      (l1 ++ l2) = sum_list_with (writer_turn s) (l1 ++ l2)) by lia. done.
  - left. rewrite (weight_mid _ _ _ _ Hw). pose proof (waiting_quiet sid sid' (add_queued (- llen b))
      s [] ∅ None) as Hq. cbn [sw] in Hq. rewrite Hq by done. cbn. lia.
  - left. rewrite (weight_mid _ _ _ _ Hw). pose proof (waiting_quiet sid sid' (add_queued (- llen b))
      s [] ∅ None) as Hq. cbn [sw] in Hq. rewrite Hq by done. cbn. lia.
  - left. rewrite (weight_mid _ _ _ _ Hw). pose proof (waiting_enqueue sid sid' b s [] ∅ None) as Hq.
    cbn [sw] in Hq. cbn [writer_weight]. lia.
Qed.

Lemma own_writers sid s g s' g' :
  own sid (s, g) (s', g') -> writers s' = writers s /\ stopping s' = stopping s.
Proof.
  intros Hst. inversion Hst as [? ? ? ? Hm|? ? ? ? Hr|]; subst; [by destruct Hm|by destruct Hr|done].
Qed.

Lemma session_kept_quiet sid sid' f s ws st q :
  (forall ss, s_done (f ss) = s_done ss /\ s_send (f ss) = s_send ss ++ q /\
     s_subscriptions (f ss) = s_subscriptions ss) ->
  session_kept sid s (mk_sys (upd_session sid' f (sw s)) ws (inflight s) st).
Proof.
  intros Hf. split; [done|]. intros ss Hs. cbn [sw]. rewrite sessions_upd.
  case_decide as E; [subst; rewrite Hs|].
  - exists (f ss), q. destruct (Hf ss) as (? & ? & Ht). split_and!; try done. by rewrite Ht.
  - exists ss, []. by rewrite app_nil_r.
Qed.

Lemma session_kept_refl sid s ws : session_kept sid s (mk_sys (sw s) ws (inflight s) (stopping s)).
Proof. split; [done|]. intros ss Hs. exists ss, []. by rewrite app_nil_r. Qed.

Lemma write_moves_outside sid s s' g :
  write_moves s s' -> outside sid (s, g) (s', g) /\ stopping s' = stopping s.
Proof.
  intros (l & Hst & Hne & Hlen).
  enough (session_kept sid s s' /\ stopping s' = stopping s) as [? ?]
    by by split; [eapply os_program|].
  destruct Hst; cbn [writers with_world] in *; try done; try (cbn [length] in Hlen; lia);
    (split; [|done]); try apply session_kept_refl.
  - unfold Write_cas in *. case_match; simplify_eq.
    apply (session_kept_quiet _ _ _ _ _ _ []). intros ss. by rewrite app_nil_r.
  - unfold Write_cas in *. case_match; simplify_eq. apply session_kept_refl.
  - apply (session_kept_quiet _ _ _ _ _ _ []). intros ss. by rewrite app_nil_r.
  - apply (session_kept_quiet _ _ _ _ _ _ []). intros ss. by rewrite app_nil_r.
  - by apply (session_kept_quiet _ _ _ _ _ _ [b]).
Qed.

(** A busy step continues the life. *)
Lemma busy_life sid n s g s' g' :
  life sid n (s, g) -> busy sid (s, g) (s', g') ->
  life sid (S n) (s', g') /\ stopping s' = stopping s.
Proof.
  intros Hl Hst. inversion Hst as [x x' Ho|? ? ? Hw]; subst.
  - split; [by eapply life_own|]. by apply own_writers in Ho as [_ ?].
  - apply (write_moves_outside sid _ _ g') in Hw as [Hw ?]. split; [by eapply life_outside|done].
Qed.

Lemma busy_err sid n s g s' g' :
  life sid n (s, g) -> err_of s sid <> None -> busy sid (s, g) (s', g') -> err_of s' sid <> None.
Proof.
  intros Hl He Hst. pose proof (life_reachable _ _ _ Hl) as Hok. cbn [fst snd] in Hok.
  inversion Hst as [x x' Ho|? ? ? (l & Hw & _)]; subst; [by eapply own_err|].
  by eapply step_err; [apply (lo_inv _ _ _ Hok)| |exact Hw].
Qed.

(** [Stop] waits for a session whose context is done. *)
Lemma stopping_cancelled id ctx tr s sid :
  exec (init id ctx) tr s -> stopping s = Some sid -> err_of s sid <> None.
Proof.
  remember (init id ctx) as s0 eqn:E. intros Hex. revert sid.
  induction Hex as [|tr s l s' Hex IH Hst]; subst; [done|]. intros sid Hs'.
  pose proof (exec_inv _ _ _ _ Hex) as Hinv.
  destruct (decide (stopping s = Some sid)) as [Hs|Hs]; [by eapply step_err; [done|by apply IH|exact Hst]|].
  clear IH. destruct Hst; cbn [stopping with_world] in *; try congruence.
  unfold Stop_begin in *. destruct (session (cl (sw s))) as [sid'|] eqn:Ec; simplify_eq.
  destruct (inv_alloc _ Hinv _ Ec) as [ss Hss].
  rewrite (err_of_Some _ _ _ (session_upd _ _ _ _ _ _ _ Hss)). simpl. by destruct (s_err ss).
Qed.

Lemma busy_terminates sid n x :
  life sid n x -> err_of x.1 sid <> None -> sn (busy sid) x.
Proof.
  remember (weight sid x) as w eqn:Hw. revert n x Hw. induction (lt_wf w) as [w _ IHw].
  intros n x. remember (turns x) as t eqn:Ht. revert n x Ht. induction (lt_wf t) as [t _ IHt].
  intros n [s g] -> -> Hl He. constructor. intros [s' g'] Hst.
  pose proof (busy_life _ _ _ _ _ _ Hl Hst) as [Hl' _].
  pose proof (busy_err _ _ _ _ _ _ Hl He Hst) as He'.
  assert (weight sid (s', g') < weight sid (s, g) \/
    (weight sid (s', g') = weight sid (s, g) /\ turns (s', g') < turns (s, g))) as [Hlt|[Heq Hlt]].
  { inversion Hst as [x x' Ho|? ? ? Hm]; subst; [left|by apply write_decreases].
    unfold weight. cbn [fst]. destruct (own_writers _ _ _ _ _ Ho) as [-> _].
    apply own_decreases in Ho; [lia|by apply (life_reachable _ _ _ Hl)|done]. }
  - by eapply IHw.
  - by eapply IHt.
Qed.

(** No call of [Write] is ever stuck. *)
Lemma writer_can sid s g : writers s <> [] -> exists x', busy sid (s, g) x'.
Proof.
  intros Hne. enough (exists s', write_moves s s') as [s' Hs'] by by eexists; apply busy_write.
  destruct (writers s) as [|wr ws] eqn:Ew; [done|].
  destruct wr as [sid' b|sid' b used|sid' b].
  - destruct (Write_load sid' b (sw s)) as [used|e] eqn:El; eexists; eexists.
    + split; [by eapply (st_write_load s [])|]. rewrite Ew. by split.
    + split; [by eapply (st_write_full s [])|]. rewrite Ew. simpl. split; [|lia].
      intros Heq. apply (f_equal length) in Heq. simpl in Heq. lia.
  - destruct (Write_cas sid' b used (sw s)) as [[|] w'] eqn:El; eexists; eexists.
    + split; [by eapply (st_write_cas s [])|]. rewrite Ew. by split.
    + split; [by eapply (st_write_retry s [])|]. rewrite Ew. by split.
  - eexists; eexists. split; [by eapply (st_write_timeout s [])|]. rewrite Ew. simpl. split; [|lia].
    intros Heq. apply (f_equal length) in Heq. simpl in Heq. lia.
Qed.

Lemma busy_rtc sid x x' :
  rtc (busy sid) x x' -> (exists n, life sid n x) -> err_of x.1 sid <> None ->
  (exists n, life sid n x') /\ err_of x'.1 sid <> None /\ stopping x'.1 = stopping x.1.
Proof.
  induction 1 as [|[s g] [s1 g1] x' Hst _ IH]; [done|]. intros [n Hl] He.
  pose proof (busy_life _ _ _ _ _ _ Hl Hst) as [Hl' Hs]. cbn [fst] in *. rewrite <- Hs.
  apply IH; [by exists (S n)|by apply (busy_err _ _ _ _ _ _ Hl He Hst)].
Qed.

End measure.

(** ** Properties *)

(** [runSession] has drained the queue and closed [done]. *)
Definition ended (sid : nat) (s : sys) (p : pc) : Prop :=
  p = PDone /\ s_done (get_session (sw s) sid) = true.

(** No connection is being set up or served. *)
Definition between_connections (p : pc) : Prop :=
  match p with
  | PHead | PRetrieve _ | PConnect | PNetDial | PAfter _ | PErrors _ | PTimer
  | PCancel | PFinish | PDone => True
  | _ => False
  end.

(** The same state of the system, or one step of it. *)
Definition projects (s s' : sys) : Prop := s' = s \/ exists l, step s l s'.

(** C9: every way a session is cancelled leads to its end, whatever the
    schedule: from any point of its life at which its context is done, the
    session's goroutine, the reader and the hooks can only take finitely many
    steps, and where they can take no more, [runSession] has drained and closed
    [done] - or waits for the write lock, which a call of [Write] still holds.
    Nothing the peer or the callbacks do is needed for it. *)
Theorem cancelled_session_ends `{GoValues} `{CloseErrors} sid n s g
    (Hl : life sid n (s, g)) (Hc : err_of s sid <> None) :
  sn (own sid) (s, g) /\
  forall s' g', rtc (own sid) (s, g) (s', g') -> nf (own sid) (s', g') ->
    ended sid s' (g_pc g') \/ (g_pc g' = PFinish /\ writers s' <> []).
Proof.
  pose proof (life_reachable _ _ _ Hl) as Hok. split; [by apply own_terminates|].
  intros s' g' Hr Hnf. apply own_rtc in Hr as [Hok' Hc']; [|done..]. cbn [fst snd] in *.
  destruct (decide (rank (g_pc g') = 0)) as [Hz|Hz].
  - left. assert (g_pc g' = PDone) as Hd by by destruct (g_pc g'). split; [done|].
    destruct (lo_session _ _ _ Hok') as (ss & Hs & Hdone).
    rewrite (get_session_Some _ _ _ Hs). by apply Hdone.
  - right. assert (g_pc g' <> PDone) as Hd by by intros Hd; rewrite Hd in Hz.
    destruct (session_progress _ _ _ Hok' Hc' Hd) as [[x Hx]|?]; [|done]. destruct Hnf. by exists x.
Qed.

(** C7: [Stop] returns, under every schedule and whatever the peer and the
    callbacks do: once it waits for its session, the goroutines of the session
    and the calls of [Write] under way - including the compare-and-swap loop,
    which may retry - can only take finitely many steps, and where they have
    all come to rest the session is done, nobody holds the lock and [Stop]'s
    second critical section can run. *)
Theorem Stop_returns `{GoValues} `{CloseErrors} sid n s g
    (Hl : life sid n (s, g)) (Hs : stopping s = Some sid) :
  sn (busy sid) (s, g) /\
  forall s' g', rtc (busy sid) (s, g) (s', g') -> nf (busy sid) (s', g') ->
    ended sid s' (g_pc g') /\ step s' LTau (mk_sys (Stop_end (sw s')) [] (inflight s') None).
Proof.
  assert (err_of s sid <> None) as He.
  { destruct (life_exec _ _ _ Hl) as (id & ctx & tr & Hex). by eapply stopping_cancelled. }
  split; [by eapply busy_terminates|]. intros s' g' Hr Hnf.
  apply busy_rtc in Hr as ([n' Hl'] & He' & Hs'); [|by eexists|done]. cbn [fst] in *.
  pose proof (life_reachable _ _ _ Hl') as Hok. cbn [fst snd] in Hok.
  assert (writers s' = []) as Hw.
  { destruct (writers s') eqn:Ew; [done|]. destruct Hnf. apply writer_can. by rewrite Ew. }
  assert (g_pc g' = PDone) as Hd.
  { destruct (decide (rank (g_pc g') = 0)) as [Hz|Hz]; [by destruct (g_pc g')|].
    assert (g_pc g' <> PDone) as Hnd by by intros E; rewrite E in Hz.
    destruct (session_progress _ _ _ Hok He' Hnd) as [[x Hx]|[_ Hne]]; [|done].
    destruct Hnf. exists x. by apply busy_own. }
  destruct (lo_session _ _ _ Hok) as (ss & Hss & Hdone).
  assert (s_done (get_session (sw s') sid) = true) as Hdn
    by by rewrite (get_session_Some _ _ _ Hss); apply Hdone.
  split_and!; [done..|].
  pose proof (st_stop_end s' sid Hw (eq_trans Hs' Hs) Hdn) as Hend. by rewrite Hw in Hend.
Qed.

(** C10: what a connection owns is gone before anything else happens: while no
    connection is being set up or served - before a dial, during a wait, when
    the session is done - the socket is closed, its reader has ended, no
    completion is left in its channel and both hooks are off. Meanwhile neither
    side of the channel ever blocks on a full one, the frame in flight is the
    one being written, and [done] is closed exactly at the end. *)
Theorem connection_joined `{GoValues} `{CloseErrors} sid n s g (Hl : life sid n (s, g)) :
  (between_connections (g_pc g) ->
   k_open (g_conn g) = false /\ k_readDone (g_conn g) = None /\
   (k_reader (g_conn g) = RNone \/ k_reader (g_conn g) = RGone) /\
   k_dial (g_conn g) <> HArmed /\ k_serve (g_conn g) <> HArmed) /\
  (forall e, k_reader (g_conn g) = RSend e \/ g_pc g = PResend e -> k_readDone (g_conn g) = None) /\
  inflight s !! sid = frame_of (g_pc g) /\
  (s_done (get_session (sw s) sid) = true <-> g_pc g = PDone).
Proof.
  pose proof (life_reachable _ _ _ Hl) as [Hinv (ss & Hs & Hd) Hf _ [Hph Hh]]. cbn [fst snd] in *.
  unfold conn_phase, reader_idle, reader_up in Hph.
  split; [|split; [|split; [done|by rewrite (get_session_Some _ _ _ Hs)]]].
  - destruct (g_pc g); naive_solver.
  - intros e [Hr|Hp]; [|rewrite Hp in Hph; tauto].
    destruct (g_pc g); destruct (k_readDone (g_conn g)); try done;
      rewrite Hr in Hph; intuition congruence.
Qed.

(** The goroutines of a session do to the shared state only what the
    system of the file SendQueue allows: every life, whatever the network, the
    clock and the callbacks do, projects to an execution of it, step by step. *)
Theorem life_refines_system `{GoValues} `{CloseErrors} sid n s g (Hl : life sid n (s, g)) :
  (exists id ctx tr, exec (init id ctx) tr s) /\
  forall s' g', own sid (s, g) (s', g') \/ outside sid (s, g) (s', g') ->
    projects s s'.
Proof.
  split; [by apply (life_exec _ _ _ Hl)|]. intros s' g'. apply life_step.
  by apply (life_reachable _ _ _ Hl).
Qed.

(** ** Instances *)
#[local] Existing Instance demo_close_errors.
#[local] Existing Instance demo_values.

(** [Stop] begins while the session of the file Announce is served. *)
Definition stopping_sys : sys :=
  mk_sys (upd_session 0 (cancel_session CtxCanceled) demo_subscribed) [] ∅ (Some 0).

Lemma life_stopping : life 0 11 (stopping_sys, served).
Proof.
  eapply life_outside; [exact life_served|]. eapply os_program.
  - by apply (st_stop_begin subscribed_sys _ (Some 0) None).
  - split; [done|]. intros ss [= <-]. by eexists _, [].
Qed.

Lemma cancelled_session_ends_witness :
  sn (own 0) (stopping_sys, served) /\ ~ nf (own 0) (stopping_sys, served).
Proof.
  destruct (cancelled_session_ends 0 11 stopping_sys served life_stopping
    ltac:(vm_compute; discriminate)) as [Hsn Hend].
  split; [exact Hsn|]. intros Hnf.
  by destruct (Hend _ _ (rtc_refl _ _) Hnf) as [[? _]|[? _]].
Defined.

Lemma Stop_returns_witness :
  stopping stopping_sys = Some 0 /\ sn (busy 0) (stopping_sys, served) /\
  ~ nf (busy 0) (stopping_sys, served).
Proof.
  split; [reflexivity|].
  destruct (Stop_returns 0 11 stopping_sys served life_stopping eq_refl) as [Hsn Hend].
  split; [exact Hsn|]. intros Hnf. by destruct (Hend _ _ (rtc_refl _ _) Hnf) as [[? _] _].
Defined.

Lemma connection_joined_witness :
  g_pc served = PSelect /\ k_open (g_conn served) = true /\ s_done (get_session demo_subscribed 0) = false.
Proof.
  destruct (connection_joined 0 10 subscribed_sys served life_served) as (_ & _ & _ & Hd).
  split_and!; [reflexivity..|]. cbn [sw subscribed_sys with_world] in Hd.
  destruct (s_done (get_session demo_subscribed 0)) eqn:E; [|reflexivity].
  by discriminate (proj1 Hd eq_refl).
Defined.

Lemma life_refines_system_witness : exists id ctx tr, exec (init id ctx) tr stopping_sys.
Proof. apply (life_refines_system 0 11 stopping_sys served life_stopping). Defined.
