(* ===== verification/Locks.v ===== *)
(** * The mutexes of the client: every call returns

    [c.lifecycle], [c.httpMu], [c.mut] (client.go) and [fingerprintsMu]
    (certificate.go) as every method and goroutine takes them, with what the
    goroutines of a session wait for: its cancellation, its sockets, the world
    outside, and the channels [s.done] and [readDone]. What is done between
    these operations is in the other files; choices that depend on it are left
    to the outside. *)
From S2P Require Import Prelude.

(** ** Programs *)
Inductive lock := Lifecycle | HttpMu | Mut | Fingerprints.

(** [s.done] of a session, [readDone] of one of its connections. *)
Inductive event := Done (sid : nat) | ReadDone (sid conn : nat).

#[export] Instance lock_eq_dec : EqDecision lock.
Proof. solve_decision. Defined.
#[export] Instance event_eq_dec : EqDecision event.
Proof. solve_decision. Defined.

Inductive action :=
| Lock (l : lock) | Unlock (l : lock)
| RLock (l : lock) | RUnlock (l : lock)
| Await (e : event)                    (* a receive that returns once e is signalled *)
| Signal (e : event)                   (* close(s.done), readDone <- err *)
| Cancel (sid : nat)                   (* s.cancel() *)
| Close (conn : nat).                  (* conn.Close() *)

(** Where a goroutine of a session waits for the outside. *)
Inductive wait :=
| AtLoop (sid : nat)                   (* the head of runSession's loop, its timer *)
| Dialing (sid : nat)                  (* the authority, NetDialContext *)
| Shaking (sid conn : nat)             (* the websocket handshake *)
| After (sid : nat)                    (* the attempt is over: what was its error? *)
| Syncing (sid conn n : nat)           (* writeFrame of syncSubscription, n to go *)
| Select (sid conn : nat)              (* the select of serveConnection *)
| Writing (sid conn : nat)             (* writeFrame of a queued frame, a ping *)
| Reading (sid conn : nat)             (* NextReader, ReadAll *)
| Dispatching (sid n : nat).           (* a slot of dispatch, n calls to go *)

(** [Idle w p] waits at [w] and runs [p] if the wait is broken off.
    [GoSession] and [GoReader] start the two goroutines. *)
Inductive program :=
| Return
| Then (a : action) (p : program)
| Idle (w : wait) (p : program)
| GoSession (p : program)
| GoReader (sid conn : nat) (p : program).

Definition exclusive (l : lock) (p : program) : program := Then (Lock l) (Then (Unlock l) p).
Definition shared (l : lock) (p : program) : program := Then (RLock l) (Then (RUnlock l) p).

(** ** The goroutines of a session *)

(** [dispatch] looks at [c.session], then waits for a slot or the end of the
    session's context; the loops over the callbacks end with the latter. *)
Definition dispatches (sid n : nat) (p : program) : program :=
  match n with 0 => p | S n => shared Mut (Idle (Dispatching sid n) p) end.

(** [callRetrievers], [callListenCallbacks] and [callErrorCallbacks], with [n]
    callbacks. *)
Definition callbacks (sid n : nat) (p : program) : program := shared Mut (dispatches sid n p).

(** The deferred function. *)
Definition runSession_deferred (sid : nat) : program :=
  Then (Cancel sid) (Then (Lock Mut) (Then (Signal (Done sid)) (Then (Unlock Mut) Return))).

Definition runSession (sid : nat) : program := Idle (AtLoop sid) (runSession_deferred sid).

(** An attempt: the retrievers, the client's fields, [dialConnection]. *)
Definition attempt (sid n : nat) (p : program) : program :=
  callbacks sid n (shared Mut (Idle (Dialing sid) (Idle (After sid) p))).

Definition reader_program (sid conn : nat) : program :=
  Idle (Reading sid conn) (Then (Signal (ReadDone sid conn)) Return).

Definition sync_frames (sid conn n : nat) (p : program) : program :=
  match n with 0 => Idle (Select sid conn) p | S n => Idle (Syncing sid conn n) p end.

Definition syncSubscription (sid conn n : nat) (p : program) : program :=
  shared Mut (sync_frames sid conn n p).

(** The loop of [serveConnection] from its top, with a new revision that takes
    [n] frames or none. *)
Definition serve_top (sid conn : nat) (changed : option nat) (p : program) : program :=
  shared Mut
    match changed with
    | Some n => syncSubscription sid conn n p
    | None => Idle (Select sid conn) p
    end.

(** Its deferred join. *)
Definition serve_join (sid conn : nat) (p : program) : program :=
  Then (Close conn) (Then (Await (ReadDone sid conn)) p).

Definition serveConnection (sid conn n : nat) (p : program) : program :=
  GoReader sid conn (serve_top sid conn (Some n) (serve_join sid conn p)).

(** ** The methods *)

(** [go] if the client is not already started, nor its context done. *)
Definition Start (go : bool) : program :=
  Then (Lock Lifecycle) (Then (Lock Mut)
    (let rest := Then (Unlock Mut) (Then (Unlock Lifecycle) Return) in
     if go then GoSession rest else rest)).

Definition Stop (session : option nat) : program :=
  Then (Lock Lifecycle) (Then (Lock Mut)
    match session with
    | None => Then (Unlock Mut) (Then (Unlock Lifecycle) Return)
    | Some sid =>
        Then (Cancel sid) (Then (Unlock Mut) (Then (Await (Done sid))
          (exclusive Mut (exclusive HttpMu (Then (Unlock Lifecycle) Return)))))
    end).

(** [Write] holds the lock over its loop and its select, which ends with its
    timer. *)
Definition Write : program := shared Mut Return.

(** [Subscribe], [Unsubscribe], [WithMode], [WithLogger], [WithWSAuthority],
    the callback and the header methods, past their first checks. *)
Definition configure : program := exclusive Mut Return.

Definition WithProxy : program :=
  Then (Lock HttpMu) (Then (Lock Mut) (Then (Unlock Mut) (Then (Unlock HttpMu) Return))).

(** The HTTP methods: [copyHeaders] and [logError] look at the client; [do]
    holds [httpMu] over the request, which ends with its timeouts and whose
    handshakes verify their peers. *)
Inductive http_part := CopyHeaders | LogError | Do (handshakes : nat).

Definition http_piece (h : http_part) (p : program) : program :=
  match h with
  | CopyHeaders | LogError => shared Mut p
  | Do n => Then (RLock HttpMu) (Nat.iter n (shared Fingerprints) (Then (RUnlock HttpMu) p))
  end.

Definition http_method (parts : list http_part) : program := foldr http_piece Return parts.

Definition set_fingerprints : program := exclusive Fingerprints Return.
Definition GetFormattedFingerprints : program := shared Fingerprints Return.

(** ** Runs *)

(** What a goroutine holds: a lock, or an event it owes. *)
Inductive holding := HWrite (l : lock) | HRead (l : lock) | HOwes (e : event).

#[export] Instance holding_eq_dec : EqDecision holding.
Proof. solve_decision. Defined.

Record thread := mk_thread { todo : program; held : list holding }.

(** The sessions and connections there were: events somebody owes or owed,
    events signalled, sessions cancelled, sockets with their sessions, sockets
    closed. *)
Record facts := mk_facts {
  opened : list event;
  signalled : list event;
  cancelled : list nat;
  sockets : list (nat * nat);
  closed : list nat;
}.

Record state := mk_state { threads : list thread; known : facts }.

Definition add_opened (e : event) (f : facts) : facts :=
  mk_facts (e :: opened f) (signalled f) (cancelled f) (sockets f) (closed f).
Definition add_signalled (e : event) (f : facts) : facts :=
  mk_facts (opened f) (e :: signalled f) (cancelled f) (sockets f) (closed f).
Definition add_cancelled (sid : nat) (f : facts) : facts :=
  mk_facts (opened f) (signalled f) (sid :: cancelled f) (sockets f) (closed f).
Definition add_socket (conn sid : nat) (f : facts) : facts :=
  mk_facts (opened f) (signalled f) (cancelled f) ((conn, sid) :: sockets f) (closed f).
Definition add_closed (conn : nat) (f : facts) : facts :=
  mk_facts (opened f) (signalled f) (cancelled f) (sockets f) (conn :: closed f).

Definition drop (h : holding) (l : list holding) : list holding := filter (fun x => x <> h) l.

(** Does a goroutine stand before [Lock l]? *)
Definition at_Lock (l : lock) (t : thread) : bool :=
  match todo t with Then (Lock l') _ => bool_decide (l' = l) | _ => false end.

Definition writer_waits (l : lock) (s : state) : bool := existsb (at_Lock l) (threads s).

Definition nobody (h : holding) (s : state) : Prop := forall t, t ∈ threads s -> h ∉ held t.

(** What breaks a wait off: the context where the code selects on it or passes
    it on, a closed socket where it reads or writes, the reader's end. *)
Definition breaks (f : facts) (w : wait) : Prop :=
  match w with
  | AtLoop sid | Dialing sid | After sid | Dispatching sid _ => sid ∈ cancelled f
  | Select sid conn => sid ∈ cancelled f \/ ReadDone sid conn ∈ signalled f
  | Shaking _ conn | Syncing _ conn _ | Writing _ conn | Reading _ conn => conn ∈ closed f
  end.

(** What the outside makes of a wait: the peer, time, the user's callbacks, and
    the values this file leaves out. *)
Inductive resume (f : facts) : wait -> program -> program -> facts -> Prop :=
| re_head sid n p :
    sid ∉ cancelled f -> resume f (AtLoop sid) p (attempt sid n p) f
| re_dial_failed sid p : resume f (Dialing sid) p p f
| re_dialed sid conn p :
    conn ∉ (sockets f).*1 ->
    resume f (Dialing sid) p (Idle (Shaking sid conn) (Then (Close conn) p)) (add_socket conn sid f)
| re_verify sid conn p :
    resume f (Shaking sid conn) p (shared Fingerprints (Idle (Shaking sid conn) p)) f
| re_refused sid conn p : resume f (Shaking sid conn) p p f
| re_shaken sid conn n p :
    resume f (Shaking sid conn) (Then (Close conn) p) (serveConnection sid conn n p) f
| re_frame sid conn n p : resume f (Syncing sid conn n) p (sync_frames sid conn n p) f
| re_frame_failed sid conn n p : resume f (Syncing sid conn n) p p f
| re_token sid conn changed p : resume f (Select sid conn) p (serve_top sid conn changed p) f
| re_send sid conn p : resume f (Select sid conn) p (Idle (Writing sid conn) p) f
| re_written sid conn changed p : resume f (Writing sid conn) p (serve_top sid conn changed p) f
| re_write_failed sid conn p : resume f (Writing sid conn) p p f
| re_received sid conn n p :
    resume f (Reading sid conn) p (callbacks sid n (Idle (Reading sid conn) p)) f
| re_rejected sid conn n p :
    resume f (Reading sid conn) p
      (shared Mut (callbacks sid n (Then (Cancel sid) (Idle (Reading sid conn) p)))) f
| re_read_failed sid conn p : resume f (Reading sid conn) p p f
| re_slot sid n p : resume f (Dispatching sid n) p (dispatches sid n p) f
| re_close_error sid p : resume f (After sid) p p f
| re_report sid n p :
    sid ∉ cancelled f -> resume f (After sid) p (callbacks sid n (Idle (AtLoop sid) p)) f.

(** One goroutine moves; what takes its place, and what is known then. A
    RWMutex admits a reader while nobody writes; under [strict], only if no
    writer waits either: "if another goroutine might call Lock, no goroutine
    should expect to be able to acquire a read lock". *)
Inductive moves (strict : bool) (s : state) : thread -> list thread -> facts -> Prop :=
| mv_lock l p h :
    nobody (HWrite l) s -> nobody (HRead l) s ->
    moves strict s (mk_thread (Then (Lock l) p) h) [mk_thread p (HWrite l :: h)] (known s)
| mv_rlock l p h :
    nobody (HWrite l) s -> (strict = true -> writer_waits l s = false) ->
    moves strict s (mk_thread (Then (RLock l) p) h) [mk_thread p (HRead l :: h)] (known s)
| mv_unlock l p h :
    HWrite l ∈ h ->
    moves strict s (mk_thread (Then (Unlock l) p) h) [mk_thread p (drop (HWrite l) h)] (known s)
| mv_runlock l p h :
    HRead l ∈ h ->
    moves strict s (mk_thread (Then (RUnlock l) p) h) [mk_thread p (drop (HRead l) h)] (known s)
| mv_await e p h :
    e ∈ signalled (known s) ->
    moves strict s (mk_thread (Then (Await e) p) h) [mk_thread p h] (known s)
| mv_signal e p h :
    HOwes e ∈ h ->
    moves strict s (mk_thread (Then (Signal e) p) h) [mk_thread p (drop (HOwes e) h)]
      (add_signalled e (known s))
| mv_cancel sid p h :
    moves strict s (mk_thread (Then (Cancel sid) p) h) [mk_thread p h] (add_cancelled sid (known s))
| mv_close conn p h :
    moves strict s (mk_thread (Then (Close conn) p) h) [mk_thread p h] (add_closed conn (known s))
| mv_break w p h :
    breaks (known s) w -> moves strict s (mk_thread (Idle w p) h) [mk_thread p h] (known s)
| mv_session sid p h :
    Done sid ∉ opened (known s) ->
    moves strict s (mk_thread (GoSession p) h)
      [mk_thread (runSession sid) [HOwes (Done sid)]; mk_thread p h] (add_opened (Done sid) (known s))
| mv_reader sid conn p h :
    moves strict s (mk_thread (GoReader sid conn p) h)
      [mk_thread (reader_program sid conn) [HOwes (ReadDone sid conn)]; mk_thread p h]
      (add_opened (ReadDone sid conn) (known s))
| mv_return : moves strict s (mk_thread Return []) [] (known s).

(** The program's own steps: a goroutine's, or [context.AfterFunc] closing a
    socket of a cancelled session. *)
Inductive own (strict : bool) (s : state) : state -> Prop :=
| own_moves l1 t l2 ts f :
    threads s = l1 ++ t :: l2 -> moves strict s t ts f ->
    own strict s (mk_state (l1 ++ ts ++ l2) f)
| own_hook conn sid :
    (conn, sid) ∈ sockets (known s) -> sid ∈ cancelled (known s) -> conn ∉ closed (known s) ->
    own strict s (mk_state (threads s) (add_closed conn (known s))).

(** The programs of the exported methods. [Stop] waits for a session that was
    started. *)
Inductive method (s : state) : program -> Prop :=
| m_Start go : method s (Start go)
| m_Stop sid : (forall n, sid = Some n -> Done n ∈ opened (known s)) -> method s (Stop sid)
| m_Write : method s Write
| m_configure : method s configure
| m_WithProxy : method s WithProxy
| m_http parts : method s (http_method parts)
| m_set_fingerprints : method s set_fingerprints
| m_GetFormattedFingerprints : method s GetFormattedFingerprints.

(** The outside: calls, made at any time by the program or by its callbacks,
    the end of the parent context, and the waits. *)
Inductive outside (s : state) : state -> Prop :=
| out_call p : method s p -> outside s (mk_state (mk_thread p [] :: threads s) (known s))
| out_cancel sid : outside s (mk_state (threads s) (add_cancelled sid (known s)))
| out_resume l1 w p h l2 q f :
    threads s = l1 ++ mk_thread (Idle w p) h :: l2 -> resume (known s) w p q f ->
    outside s (mk_state (l1 ++ mk_thread q h :: l2) f).

Inductive reachable : state -> Prop :=
| r_start : reachable (mk_state [] (mk_facts [] [] [] [] []))
| r_outside s s' : reachable s -> outside s s' -> reachable s'
| r_own s s' : reachable s -> own false s s' -> reachable s'.

(** ** The order of the locks *)
Definition lock_rank (l : lock) : nat :=
  match l with Lifecycle => 0 | HttpMu => 3 | Mut => 4 | Fingerprints => 5 end.

Definition event_rank (e : event) : nat := match e with Done _ => 1 | ReadDone _ _ => 2 end.

Definition rank (h : holding) : nat :=
  match h with HWrite l | HRead l => lock_rank l | HOwes e => event_rank e end.

Definition below (n : nat) (h : list holding) : Prop := Forall (fun x => rank x < n) h.

(** The session's goroutine, and a reader of it, hold nothing else where they
    wait. *)
Definition runs_for (sid : nat) (h : list holding) : Prop :=
  h = [HOwes (Done sid)] \/ exists conn, h = [HOwes (ReadDone sid conn)].

Definition wait_ok (f : facts) (h : list holding) (w : wait) : Prop :=
  match w with
  | AtLoop sid | Dialing sid | After sid => h = [HOwes (Done sid)]
  | Shaking sid conn | Syncing sid conn _ | Select sid conn | Writing sid conn =>
      h = [HOwes (Done sid)] /\ (conn, sid) ∈ sockets f
  | Reading sid conn => h = [HOwes (ReadDone sid conn)] /\ (conn, sid) ∈ sockets f
  | Dispatching sid _ => runs_for sid h
  end.

(** A program takes its locks in order, releases what it holds, pays what it
    owes, waits with no lock, and joins only what it has cancelled or closed. *)
Fixpoint ordered (f : facts) (h : list holding) (p : program) : Prop :=
  match p with
  | Return => h = []
  | Then (Lock l) p => below (lock_rank l) h /\ ordered f (HWrite l :: h) p
  | Then (RLock l) p => below (lock_rank l) h /\ ordered f (HRead l :: h) p
  | Then (Unlock l) p => HWrite l ∈ h /\ ordered f (drop (HWrite l) h) p
  | Then (RUnlock l) p => HRead l ∈ h /\ ordered f (drop (HRead l) h) p
  | Then (Await (Done sid)) p =>
      Done sid ∈ opened f /\ sid ∈ cancelled f /\ below (event_rank (Done sid)) h /\ ordered f h p
  | Then (Await (ReadDone sid conn)) p =>
      ReadDone sid conn ∈ opened f /\ conn ∈ closed f /\ h = [HOwes (Done sid)] /\ ordered f h p
  | Then (Signal e) p => HOwes e ∈ h /\ ordered f (drop (HOwes e) h) p
  | Then (Cancel sid) p => ordered (add_cancelled sid f) h p
  | Then (Close conn) p => ordered (add_closed conn f) h p
  | Idle w p => wait_ok f h w /\ ordered f h p
  | GoSession p => ordered f h p
  | GoReader sid conn p =>
      h = [HOwes (Done sid)] /\ (conn, sid) ∈ sockets f /\
      ordered (add_opened (ReadDone sid conn) f) h p
  end.

(** What is known stays known. *)
Record facts_le (f f' : facts) : Prop := {
  le_opened : opened f ⊆ opened f';
  le_signalled : signalled f ⊆ signalled f';
  le_cancelled : cancelled f ⊆ cancelled f';
  le_sockets : sockets f ⊆ sockets f';
  le_closed : closed f ⊆ closed f';
}.

#[export] Instance facts_le_preorder : PreOrder facts_le.
Proof.
  split; [intros f; by split|]. intros f1 f2 f3 [] []. split; by etransitivity.
Qed.

Lemma le_add_opened e f : facts_le f (add_opened e f).
Proof. split; set_solver. Qed.
Lemma le_add_signalled e f : facts_le f (add_signalled e f).
Proof. split; set_solver. Qed.
Lemma le_add_cancelled sid f : facts_le f (add_cancelled sid f).
Proof. split; set_solver. Qed.
Lemma le_add_closed conn f : facts_le f (add_closed conn f).
Proof. split; set_solver. Qed.
Lemma le_add_socket conn sid f : facts_le f (add_socket conn sid f).
Proof. split; set_solver. Qed.

#[local] Hint Resolve le_add_opened le_add_signalled le_add_cancelled le_add_closed le_add_socket : core.

Lemma wait_ok_mono f f' h w : facts_le f f' -> wait_ok f h w -> wait_ok f' h w.
Proof.
  intros Hle. destruct w; simpl; auto; intros [? Hs]; (split; [done|]); by apply (le_sockets _ _ Hle).
Qed.

Lemma ordered_mono f f' h p : facts_le f f' -> ordered f h p -> ordered f' h p.
Proof.
  revert f f' h. induction p as [|a p IH|w p IH|p IH|sid conn p IH]; intros f f' h Hle; simpl.
  - done.
  - destruct a as [l|l|l|l|[sid|sid conn]|e|sid|conn]; simpl;
      try (intros []; split; [done|by eapply IH]).
    + intros (? & ? & ? & ?). pose proof Hle as []. split_and!; [set_solver..|done|by eapply IH].
    + intros (? & ? & ? & ?). pose proof Hle as []. split_and!; [set_solver..|done|by eapply IH].
    + apply IH. destruct Hle. split; set_solver.
    + apply IH. destruct Hle. split; set_solver.
  - intros []. split; [by eapply wait_ok_mono|by eapply IH].
  - by apply IH.
  - intros (? & ? & ?). destruct Hle. split_and!; [done|set_solver|].
    eapply IH; [|done]. split; set_solver.
Qed.

Lemma drop_fresh x h : x ∉ h -> drop x (x :: h) = h.
Proof.
  intros Hx. unfold drop. rewrite filter_cons_False by auto.
  induction h as [|y h IH]; [done|]. rewrite elem_of_cons in Hx.
  rewrite filter_cons_True by (intros ->; tauto). f_equal. apply IH. tauto.
Qed.

Lemma drop_other x y h : x <> y -> drop x (y :: h) = y :: drop x h.
Proof. intros Hne. unfold drop. by rewrite filter_cons_True by auto. Qed.

Lemma below_fresh x h : below (rank x) h -> x ∉ h.
Proof. intros Hb Hx. apply (proj1 (Forall_forall _ _) Hb) in Hx. lia. Qed.

Lemma ordered_exclusive f h l p :
  below (lock_rank l) h -> ordered f h p -> ordered f h (exclusive l p).
Proof.
  intros Hb Hp. simpl. split_and!; [done|by left|].
  by rewrite drop_fresh by by apply (below_fresh (HWrite l)).
Qed.

Lemma ordered_shared f h l p :
  below (lock_rank l) h -> ordered f h p -> ordered f h (shared l p).
Proof.
  intros Hb Hp. simpl. split_and!; [done|by left|].
  by rewrite drop_fresh by by apply (below_fresh (HRead l)).
Qed.

Ltac below_tac :=
  unfold below; repeat (apply Forall_cons_2; [simpl; lia|]); apply Forall_nil_2.
Ltac drop_tac := repeat first [rewrite drop_other by discriminate|rewrite drop_fresh by set_solver].
Ltac ordered_tac :=
  repeat first [progress (cbn [ordered]; drop_tac) | split | below_tac | by left | by right; left | done].

Lemma runs_below sid h : runs_for sid h -> below (lock_rank Mut) h /\ below (lock_rank Fingerprints) h.
Proof. intros [->|[conn ->]]; split; below_tac. Qed.

(** *** The goroutines of a session *)
Section session.
Context (f : facts) (sid : nat) (h : list holding).
Hypothesis (Hh : runs_for sid h).

Lemma ordered_dispatches n p : ordered f h p -> ordered f h (dispatches sid n p).
Proof. intros Hp. destruct n; [done|]. by apply ordered_shared; [by eapply runs_below|]. Qed.

Lemma ordered_callbacks n p : ordered f h p -> ordered f h (callbacks sid n p).
Proof. intros Hp. apply ordered_shared; [by eapply runs_below|]. by apply ordered_dispatches. Qed.
End session.

Lemma ordered_deferred f sid : ordered f [HOwes (Done sid)] (runSession_deferred sid).
Proof. ordered_tac. Qed.

Lemma ordered_session f sid : ordered f [HOwes (Done sid)] (runSession sid).
Proof. split; [done|apply ordered_deferred]. Qed.

Lemma ordered_reader f sid conn :
  (conn, sid) ∈ sockets f -> ordered f [HOwes (ReadDone sid conn)] (reader_program sid conn).
Proof. intros Hs. ordered_tac. Qed.

(** What may follow a wait of the serving loop. *)
Section serving.
Context (f : facts) (sid conn : nat) (p : program).
Hypothesis (Hs : (conn, sid) ∈ sockets f) (Hp : ordered f [HOwes (Done sid)] p).

Lemma ordered_frames n : ordered f [HOwes (Done sid)] (sync_frames sid conn n p).
Proof. by destruct n. Qed.

Lemma ordered_top changed : ordered f [HOwes (Done sid)] (serve_top sid conn changed p).
Proof.
  apply ordered_shared; [below_tac|]. destruct changed; [|done].
  apply ordered_shared; [below_tac|]. apply ordered_frames.
Qed.
End serving.

Lemma ordered_serve f sid conn n p :
  (conn, sid) ∈ sockets f -> ordered (add_closed conn f) [HOwes (Done sid)] p ->
  ordered f [HOwes (Done sid)] (serveConnection sid conn n p).
Proof.
  intros Hs Hp. split_and!; [done..|]. apply ordered_top; [done|]. simpl.
  split_and!; [by left|by left|done|].
  eapply ordered_mono; [|done]. split; set_solver.
Qed.

Lemma ordered_resume f h w p q f' :
  wait_ok f h w -> ordered f h p -> resume f w p q f' -> facts_le f f' /\ ordered f' h q.
Proof.
  intros Hw Hp Hr. destruct Hr; simpl in Hw;
    repeat match goal with Hc : _ /\ _ |- _ => destruct Hc end; try subst h; (split; [done || auto|]);
    try done; try (by apply ordered_top); try (by apply ordered_frames).
  - apply (ordered_callbacks _ sid); [by left|]. apply ordered_shared; [below_tac|]. done.
  - split; [by split; [|by left]|]. simpl. eapply ordered_mono; [|exact Hp].
    split; set_solver.
  - by apply ordered_shared; [below_tac|].
  - by apply ordered_serve.
  - apply (ordered_callbacks _ sid); [by right; eexists|done].
  - apply ordered_shared; [below_tac|]. apply (ordered_callbacks _ sid); [by right; eexists|].
    simpl. split; [done|]. eapply ordered_mono; [|exact Hp]. auto.
  - by apply (ordered_dispatches _ sid).
  - apply (ordered_callbacks _ sid); [by left|done].
Qed.

(** *** The methods *)
Lemma ordered_http f parts : ordered f [] (http_method parts).
Proof.
  unfold http_method. induction parts as [|[| |n] parts IH]; [done|..].
  - by apply ordered_shared; [below_tac|].
  - by apply ordered_shared; [below_tac|].
  - split; [below_tac|]. assert (forall q, ordered f [HRead HttpMu] q ->
      ordered f [HRead HttpMu] (Nat.iter n (shared Fingerprints) q)) as Hn.
    { intros q Hq. induction n; [done|]. by apply ordered_shared; [below_tac|]. }
    apply Hn. split; [by left|]. by drop_tac.
Qed.

Lemma ordered_method s p : method s p -> ordered (known s) [] p.
Proof.
  destruct 1 as [[]|[sid|] Hsid| | | |parts| |]; try apply ordered_http;
    unfold Start, Stop, Write, configure, WithProxy, set_fingerprints, GetFormattedFingerprints,
      exclusive, shared; cbn zeta iota; ordered_tac.
  by apply Hsid.
Qed.

(** ** The invariant *)

(** How many goroutines hold [h]. *)
Definition holds (h : holding) (l : list holding) : nat := if decide (h ∈ l) then 1 else 0.
Definition count (h : holding) (ts : list thread) : nat := sum_list_with (fun t => holds h (held t)) ts.

Record locks_ok (s : state) : Prop := {
  ok_ordered : Forall (fun t => ordered (known s) (held t) (todo t)) (threads s);
  ok_owed : forall e, e ∈ opened (known s) ->
    e ∈ signalled (known s) \/ 0 < count (HOwes e) (threads s);
  ok_excl : forall l, count (HWrite l) (threads s) <= 1 /\
    (count (HWrite l) (threads s) = 0 \/ count (HRead l) (threads s) = 0);
}.

Lemma count_app x l1 l2 : count x (l1 ++ l2) = count x l1 + count x l2.
Proof. apply sum_list_with_app. Qed.

Lemma count_cons x t l : count x (t :: l) = holds x (held t) + count x l.
Proof. done. Qed.

Lemma count_nil x : count x [] = 0.
Proof. done. Qed.

Lemma holds_cons x y h : holds x (y :: h) = if decide (x = y) then 1 else holds x h.
Proof. unfold holds. repeat case_decide; set_solver. Qed.

Lemma holds_drop x y h : holds x (drop y h) = if decide (x = y) then 0 else holds x h.
Proof.
  unfold holds, drop. repeat case_decide; try done;
    match goal with Hx : context [filter _ _] |- _ => rewrite list_elem_of_filter in Hx end; naive_solver.
Qed.

Lemma holds_nil x : holds x [] = 0.
Proof. done. Qed.

Lemma holds_le x h : holds x h <= 1.
Proof. unfold holds. case_decide; lia. Qed.

Lemma count_pos x ts : 0 < count x ts -> exists t, t ∈ ts /\ x ∈ held t.
Proof.
  induction ts as [|t ts IH]; [by intros ?%Nat.lt_irrefl|]. rewrite count_cons. intros Hc.
  unfold holds in Hc. case_decide as E.
  - exists t. split; [by left|done].
  - destruct IH as (t' & ? & ?); [lia|]. exists t'. split; [by right|done].
Qed.

Lemma nobody_count x s : nobody x s <-> count x (threads s) = 0.
Proof.
  split; intros Hn.
  - destruct (count x (threads s)) eqn:E; [done|].
    destruct (count_pos x (threads s)) as (t & Ht & Hx); [lia|]. by destruct (Hn t Ht).
  - intros t Ht Hx. apply list_elem_of_split in Ht as (l1 & l2 & E).
    rewrite E, count_app, count_cons in Hn. unfold holds in Hn. rewrite decide_True in Hn by done. lia.
Qed.

(** The conditions on what takes a goroutine's place. *)
Lemma locks_ok_replace s l1 t l2 ts f :
  locks_ok s -> threads s = l1 ++ t :: l2 -> facts_le (known s) f ->
  (ordered (known s) (held t) (todo t) -> Forall (fun t => ordered f (held t) (todo t)) ts) ->
  (forall e, e ∈ opened f -> e ∈ opened (known s) \/ 0 < count (HOwes e) ts) ->
  (forall e, holds (HOwes e) (held t) <= count (HOwes e) ts \/ e ∈ signalled f) ->
  (forall l, count (HWrite l) ts <= holds (HWrite l) (held t) \/
     count (HWrite l) (threads s) = 0 /\ count (HRead l) (threads s) = 0) ->
  (forall l, count (HRead l) ts <= holds (HRead l) (held t) \/ count (HWrite l) (threads s) = 0) ->
  (forall l, count (HWrite l) ts + count (HRead l) ts
     <= S (holds (HWrite l) (held t) + holds (HRead l) (held t))) ->
  locks_ok (mk_state (l1 ++ ts ++ l2) f).
Proof.
  intros [Hord Howed Hexcl] Ht Hle Ho Hnew He Hw Hr Hwr. rewrite Ht in *.
  split; cbn [threads known].
  - assert (forall ts, Forall (fun t => ordered (known s) (held t) (todo t)) ts ->
      Forall (fun t => ordered f (held t) (todo t)) ts) as Hmono.
    { intros us HF. eapply Forall_impl; [exact HF|]. intros u. by apply ordered_mono. }
    rewrite !Forall_app, Forall_cons in *. naive_solver.
  - intros e Hop. rewrite !count_app. destruct (Hnew e Hop) as [Hold|?]; [|right; lia].
    destruct (He e) as [?|?]; [|by left].
    destruct (Howed e Hold) as [?|Hc]; [left; by apply (le_signalled _ _ Hle)|].
    rewrite count_app, count_cons in Hc. right. lia.
  - intros l. specialize (Hexcl l). specialize (Hw l). specialize (Hr l). specialize (Hwr l).
    rewrite !count_app, !count_cons in *. pose proof (holds_le (HWrite l) (held t)). lia.
Qed.

(** One goroutine in the place of one. *)
Lemma locks_ok_one s l1 t l2 t' f :
  locks_ok s -> threads s = l1 ++ t :: l2 -> facts_le (known s) f ->
  (ordered (known s) (held t) (todo t) -> ordered f (held t') (todo t')) ->
  (forall e, e ∈ opened f -> e ∈ opened (known s)) ->
  (forall e, holds (HOwes e) (held t) <= holds (HOwes e) (held t') \/ e ∈ signalled f) ->
  (forall l, holds (HWrite l) (held t') <= holds (HWrite l) (held t) \/
     count (HWrite l) (threads s) = 0 /\ count (HRead l) (threads s) = 0) ->
  (forall l, holds (HRead l) (held t') <= holds (HRead l) (held t) \/ count (HWrite l) (threads s) = 0) ->
  (forall l, holds (HWrite l) (held t') + holds (HRead l) (held t')
     <= S (holds (HWrite l) (held t) + holds (HRead l) (held t))) ->
  locks_ok (mk_state (l1 ++ t' :: l2) f).
Proof.
  intros. assert (forall x, count x [t'] = holds x (held t')) as Hc
    by (intros; rewrite count_cons; apply Nat.add_0_r).
  eapply (locks_ok_replace s l1 t l2 [t']); try done; intros; rewrite ?Hc; auto.
Qed.

(** The goroutine holds what it held. *)
Lemma locks_ok_same s l1 p h l2 q f :
  locks_ok s -> threads s = l1 ++ mk_thread p h :: l2 -> facts_le (known s) f ->
  (ordered (known s) h p -> ordered f h q) -> opened f = opened (known s) ->
  locks_ok (mk_state (l1 ++ mk_thread q h :: l2) f).
Proof.
  intros ????  Ho. eapply locks_ok_one; try done; cbn [held]; auto with lia. by rewrite Ho.
Qed.

Lemma locks_ok_facts s f :
  locks_ok s -> facts_le (known s) f -> opened f = opened (known s) -> locks_ok (mk_state (threads s) f).
Proof.
  intros [Hord Howed Hexcl] Hle Ho. split; cbn [threads known]; [|rewrite Ho|done].
  - eapply Forall_impl; [exact Hord|]. intros t. by apply ordered_mono.
  - intros e He. destruct (Howed e He); [left; by apply (le_signalled _ _ Hle)|by right].
Qed.

Ltac holds_tac :=
  intros; rewrite ?count_cons; cbn [held];
  rewrite ?holds_cons, ?holds_drop, ?holds_nil, ?count_nil; repeat case_decide; simplify_eq; auto with lia.

Ltac one_tac :=
  eapply locks_ok_one; [eassumption|eassumption|reflexivity|..]; cbn [held todo];
    [by intros []|done|holds_tac..].

Lemma locks_moves_ok strict s l1 t l2 ts f :
  locks_ok s -> threads s = l1 ++ t :: l2 -> moves strict s t ts f ->
  locks_ok (mk_state (l1 ++ ts ++ l2) f).
Proof.
  intros Hok Ht Hst.
  destruct Hst as [l p h Hw Hr|l p h Hw _|l p h Hin|l p h Hin|e p h Hin|e p h Hin|sid p h|conn p h|w p h Hb
    |sid p h Hf|sid conn p h|]; rewrite ?nobody_count in *; cbn [app].
  - one_tac.
  - one_tac.
  - one_tac.
  - one_tac.
  - eapply locks_ok_same; [eassumption|eassumption|reflexivity| |done]. destruct e; simpl; tauto.
  - eapply locks_ok_one; [eassumption|eassumption|auto|..]; cbn [held todo known].
    + intros []. eapply ordered_mono; [|eassumption]. auto.
    + done.
    + intros e'. rewrite holds_drop. case_decide; simplify_eq; [right; by left|by left].
    + holds_tac.
    + holds_tac.
    + holds_tac.
  - eapply locks_ok_same; [eassumption|eassumption|auto|by simpl|done].
  - eapply locks_ok_same; [eassumption|eassumption|auto|by simpl|done].
  - eapply locks_ok_same; [eassumption|eassumption|reflexivity|by intros []|done].
  - eapply (locks_ok_replace s l1 _ l2 [_; _]); [eassumption|eassumption|auto| | | |holds_tac..]; cbn [held todo].
    + intros Hp. simpl in Hp. apply Forall_cons_2; [apply ordered_session|].
      apply Forall_singleton. eapply ordered_mono; [|eassumption]. auto.
    + cbn [opened add_opened]. intros e [->|?]%elem_of_cons; [right|by left]. rewrite count_cons. cbn [held].
      rewrite holds_cons, decide_True by done. lia.
    + intros e. left. rewrite !count_cons. cbn [held]. lia.
  - eapply (locks_ok_replace s l1 _ l2 [_; _]); [eassumption|eassumption|auto| | | |holds_tac..]; cbn [held todo].
    + intros (-> & Hs & Hp). apply Forall_cons_2; [by apply ordered_reader|].
      by apply Forall_singleton.
    + cbn [opened add_opened]. intros e [->|?]%elem_of_cons; [right|by left]. rewrite count_cons. cbn [held].
      rewrite holds_cons, decide_True by done. lia.
    + intros e. left. rewrite !count_cons. cbn [held]. lia.
  - eapply (locks_ok_replace s l1 _ l2 []); [eassumption|eassumption|reflexivity|..]; auto.
Qed.

Lemma locks_own_ok strict s s' : locks_ok s -> own strict s s' -> locks_ok s'.
Proof.
  intros Hok [l1 t l2 ts f Ht Hm|conn sid _ _ _]; [by eapply locks_moves_ok|].
  by apply locks_ok_facts; [|auto|].
Qed.

Lemma resume_opened f w p q f' : resume f w p q f' -> opened f' = opened f.
Proof. by destruct 1. Qed.

Lemma locks_outside_ok s s' : locks_ok s -> outside s s' -> locks_ok s'.
Proof.
  intros Hok [p Hm|sid|l1 w p h l2 q f Ht Hr].
  - destruct Hok as [Hord Howed Hexcl]. split; cbn [threads known].
    + constructor; [by apply ordered_method|done].
    + done.
    + done.
  - by apply locks_ok_facts; [|auto|].
  - pose proof (ok_ordered _ Hok) as Hord. rewrite Ht, Forall_app, Forall_cons in Hord.
    destruct Hord as (_ & [Hw Hp] & _). destruct (ordered_resume _ _ _ _ _ _ Hw Hp Hr) as [Hle Hq].
    eapply locks_ok_same; [eassumption|eassumption|done|done|by eapply resume_opened].
Qed.

Lemma locks_reachable_ok s : reachable s -> locks_ok s.
Proof.
  induction 1 as [|s s' _ IH Hst|s s' _ IH Hst].
  - split; simpl; [done|by intros ? ?%elem_of_nil|by auto].
  - by eapply locks_outside_ok.
  - by eapply locks_own_ok.
Qed.

(** ** Progress *)

(** What a goroutine wants of another. *)
Definition wants (p : program) : option nat :=
  match p with
  | Then (Lock l) _ | Then (RLock l) _ => Some (lock_rank l)
  | Then (Await e) _ => Some (event_rank e)
  | _ => None
  end.

Definition can_step (s : state) : Prop := exists s', own true s s'.

(** The session joins a reader that waits for a slot. *)
Definition joins (s : state) (sid : nat) (t : thread) : Prop :=
  exists conn p t' n q,
    todo t = Then (Await (ReadDone sid conn)) p /\ held t = [HOwes (Done sid)] /\
    t' ∈ threads s /\ held t' = [HOwes (ReadDone sid conn)] /\ todo t' = Idle (Dispatching sid n) q.

(** A goroutine of session [sid] at rest. *)
Definition rests (s : state) (sid : nat) (t : thread) : Prop :=
  (exists w p, todo t = Idle w p /\ runs_for sid (held t)) \/ joins s sid t.

Lemma ok_at s t : locks_ok s -> t ∈ threads s -> ordered (known s) (held t) (todo t).
Proof. intros Hok Ht. exact (proj1 (Forall_forall _ _) (ok_ordered _ Hok) _ Ht). Qed.

Lemma can_move s t : t ∈ threads s -> (exists ts f, moves true s t ts f) -> can_step s.
Proof.
  intros (l1 & l2 & Ht)%list_elem_of_split (ts & f & Hm). eexists. by eapply own_moves.
Qed.

Lemma fresh_session f : exists sid, Done sid ∉ opened f.
Proof.
  set (sids := omap (fun e => match e with Done sid => Some sid | _ => None end) (opened f)).
  exists (fresh sids). intros Hin. apply (infinite_is_fresh sids).
  apply list_elem_of_omap. by exists (Done (fresh sids)).
Qed.

Lemma can_at s t :
  locks_ok s -> t ∈ threads s -> wants (todo t) = None ->
  can_step s \/ exists w p, todo t = Idle w p.
Proof.
  intros Hok Ht Hw. pose proof (ok_at _ _ Hok Ht) as Ho.
  destruct t as [p h]. cbn [held todo] in *.
  destruct p as [|[]| | |]; simpl in *; try done; [left; eapply can_move; [exact Ht|]..|right|left|left];
    try (eapply can_move; [exact Ht|]).
  - subst h. eexists _, _. apply mv_return.
  - destruct Ho. eexists _, _. by apply mv_unlock.
  - destruct Ho. eexists _, _. by apply mv_runlock.
  - destruct Ho. eexists _, _. by apply mv_signal.
  - eexists _, _. apply mv_cancel.
  - eexists _, _. apply mv_close.
  - eauto.
  - destruct (fresh_session (known s)) as [sid Hf]. eexists _, _. by apply (mv_session _ _ sid).
  - eexists _, _. apply mv_reader.
Qed.

Lemma wait_runs f h w : wait_ok f h w -> exists sid, runs_for sid h.
Proof.
  destruct w as [sid|sid|sid|sid|sid|sid|sid|sid conn|sid]; simpl; intros Hw; exists sid;
    try (by left); try (by destruct Hw; left); try (by destruct Hw; right; exists conn). done.
Qed.

Lemma idle_runs s t w p :
  locks_ok s -> t ∈ threads s -> todo t = Idle w p -> exists sid, runs_for sid (held t).
Proof.
  intros Hok Ht Hp. pose proof (ok_at _ _ Hok Ht) as Ho.
  rewrite Hp in Ho. destruct Ho as [Hw _]. by eapply wait_runs.
Qed.

Definition session_of (e : event) : nat := match e with Done sid | ReadDone sid _ => sid end.

Lemma runs_owes sid h x : runs_for sid h -> x ∈ h -> exists e, x = HOwes e /\ session_of e = sid.
Proof. intros [->|[conn ->]] ->%list_elem_of_singleton; by eexists. Qed.

(** A wait of a session that is cancelled does not last. *)
Lemma cancelled_breaks s t w p sid :
  locks_ok s -> t ∈ threads s -> todo t = Idle w p -> runs_for sid (held t) ->
  sid ∈ cancelled (known s) -> can_step s.
Proof.
  intros Hok Ht Hp Hr Hc. pose proof (ok_at _ _ Hok Ht) as Ho.
  rewrite Hp in Ho. destruct Ho as [Hw _]. destruct t as [q h]. cbn [held todo] in *. subst q.
  assert (breaks (known s) w -> can_step s) as Hb.
  { intros Hb. eapply can_move; [exact Ht|]. eexists _, _. by apply mv_break. }
  assert (forall conn, (conn, sid) ∈ sockets (known s) ->
    (conn ∈ closed (known s) -> breaks (known s) w) -> can_step s) as Hconn.
  { intros conn Hs Hcl. destruct (decide (conn ∈ closed (known s))); [by apply Hb, Hcl|].
    eexists. by eapply own_hook. }
  assert (forall sid', runs_for sid' h -> sid' = sid) as Hsame.
  { intros sid' Hr'. destruct Hr as [->|[conn ->]], Hr' as [?|[conn' ?]]; congruence. }
  destruct w as [sid'|sid'|sid' conn|sid'|sid' conn n|sid' conn|sid' conn|sid' conn|sid' n]; simpl in Hw;
    try (assert (sid' = sid) as -> by (apply Hsame; first [done|by left|by destruct Hw; left|
           by destruct Hw; right; eexists]));
    try (apply Hb; simpl; by auto); try (by apply (Hconn conn); destruct Hw).
Qed.

Lemma wants_above s t x r :
  locks_ok s -> t ∈ threads s -> x ∈ held t -> wants (todo t) = Some r -> rank x < r.
Proof.
  intros Hok Ht Hx Hw. pose proof (ok_at _ _ Hok Ht) as Ho.
  destruct t as [p h]; cbn [held todo] in *.
  assert (below r h) as Hb.
  { destruct p as [|[| | | |[]| | |]| | |]; simpl in *; simplify_eq; try tauto.
    destruct Ho as (_ & _ & -> & _). below_tac. }
  by apply (proj1 (Forall_forall _ _) Hb).
Qed.

(** The reader of a closed socket goes on, or waits for a slot. *)
Lemma reader_joined s sid conn p h t w q :
  locks_ok s -> h = [HOwes (Done sid)] -> conn ∈ closed (known s) -> sid ∉ cancelled (known s) ->
  t ∈ threads s -> HOwes (ReadDone sid conn) ∈ held t -> todo t = Idle w q ->
  can_step s \/ exists sid', sid' ∉ cancelled (known s) /\
    joins s sid' (mk_thread (Then (Await (ReadDone sid conn)) p) h).
Proof.
  intros Hok -> Hcl Hc Ht Hx Hq.
  pose proof (ok_at _ _ Hok Ht) as Ho.
  rewrite Hq in Ho. destruct Ho as [Hw _]. destruct t as [p' h]. cbn [held todo] in *. subst p'.
  destruct w as [sid'|sid'|sid' conn'|sid'|sid' conn' n|sid' conn'|sid' conn'|sid' conn'|sid' n];
    simpl in Hw; try (apply proj1 in Hw); try subst h;
    try (by apply list_elem_of_singleton in Hx).
  - apply list_elem_of_singleton in Hx as [= -> ->]. left. eapply can_move; [exact Ht|].
    eexists _, _. by apply mv_break.
  - destruct Hw as [->|[conn' ->]]; apply list_elem_of_singleton in Hx; [done|].
    injection Hx as <- <-. right. exists sid. split; [done|].
    eexists _, _, _, _, _. split_and!; [done..|exact Ht|done|done].
Qed.

(** Who wants something of rank [r] goes on, if all who want something higher
    do. *)
Section step_at.
Context (s : state) (r : nat).
Hypothesis (Hok : locks_ok s).
Hypothesis (IH : forall t m, t ∈ threads s -> wants (todo t) = Some m -> r < m ->
  can_step s \/ exists sid, sid ∉ cancelled (known s) /\ joins s sid t).

Lemma holder_rests x :
  r <= rank x -> 0 < count x (threads s) -> can_step s \/
  exists t sid, t ∈ threads s /\ x ∈ held t /\ runs_for sid (held t) /\
    ((exists w p, todo t = Idle w p) \/ sid ∉ cancelled (known s) /\ held t = [HOwes (Done sid)]).
Proof.
  intros Hle (t & Ht & Hx)%count_pos. destruct (wants (todo t)) as [m|] eqn:Hm.
  - pose proof (wants_above _ _ _ _ Hok Ht Hx Hm).
    destruct (IH t m) as [?|(sid & Hc & Hj)]; [done..|lia|by left|right].
    destruct Hj as (conn & p & t' & k & q & Hp & Hh & _). exists t, sid.
    split_and!; [done..|by left|by right].
  - destruct (can_at s t Hok Ht Hm) as [?|(w & p & Hp)]; [by left|right].
    destruct (idle_runs _ _ _ _ Hok Ht Hp) as [sid Hrs]. exists t, sid. eauto 8.
Qed.

Lemma lock_free x :
  r <= rank x -> (forall e, x <> HOwes e) -> count x (threads s) = 0 \/ can_step s.
Proof.
  intros Hle Hx. destruct (count x (threads s)) eqn:E; [by left|right].
  destruct (holder_rests x) as [?|(t & sid & _ & Hin & Hrs & _)]; [done|lia|done|].
  destruct (runs_owes _ _ _ Hrs Hin) as (e & He & _). by destruct (Hx e).
Qed.

Lemma writer_steps l t : t ∈ threads s -> at_Lock l t = true -> r = lock_rank l -> can_step s.
Proof.
  destruct t as [p h]. intros Hin Hat Hr. destruct p as [|[l'| | | | | | |] p| | |]; try done.
  apply bool_decide_eq_true in Hat as ->.
  destruct (lock_free (HWrite l)) as [Ew|?]; [by rewrite Hr|done| |done].
  destruct (lock_free (HRead l)) as [Er|?]; [by rewrite Hr|done| |done].
  eapply can_move; [exact Hin|]. eexists _, _. by apply mv_lock; apply nobody_count.
Qed.

Lemma reader_steps l p h :
  mk_thread (Then (RLock l) p) h ∈ threads s -> r = lock_rank l -> can_step s.
Proof.
  intros Ht Hr. destruct (lock_free (HWrite l)) as [Ew|?]; [by rewrite Hr|done| |done].
  destruct (writer_waits l s) eqn:Ewr.
  - apply existsb_exists in Ewr as (t' & Hin%list_elem_of_In & Hat). by eapply writer_steps.
  - eapply can_move; [exact Ht|]. eexists _, _. apply mv_rlock; [by apply nobody_count|done].
Qed.

(** An event is signalled, or its debtor found. *)
Lemma awaited_debtor e p h :
  mk_thread (Then (Await e) p) h ∈ threads s -> e ∈ opened (known s) -> r = event_rank e ->
  can_step s \/
  exists t, t ∈ threads s /\ HOwes e ∈ held t /\ runs_for (session_of e) (held t) /\
    ((exists w p, todo t = Idle w p) \/
     session_of e ∉ cancelled (known s) /\ held t = [HOwes (Done (session_of e))]).
Proof.
  intros Ht He Hr. destruct (ok_owed _ Hok _ He) as [Hs|Hcnt].
  - left. eapply can_move; [exact Ht|]. eexists _, _. by apply mv_await.
  - destruct (holder_rests (HOwes e)) as [?|(t & sid & Ht' & Hx & Hrs & Hor)];
      [by rewrite Hr|done|by left|right].
    destruct (runs_owes _ _ _ Hrs Hx) as (e' & [= <-] & <-). by exists t.
Qed.

Lemma wanting_steps t :
  t ∈ threads s -> wants (todo t) = Some r ->
  can_step s \/ exists sid, sid ∉ cancelled (known s) /\ joins s sid t.
Proof.
  intros Ht Hw. pose proof (ok_at _ _ Hok Ht) as Ho. destruct t as [p h]; cbn [held todo] in *.
  destruct p as [|[l|l|l|l|[sid|sid conn]|e|sid|conn] p| | |]; try done; injection Hw as Hr; simpl in Ho.
  - left. eapply writer_steps; [exact Ht| |done]. by apply bool_decide_eq_true.
  - left. by eapply reader_steps.
  - destruct Ho as (He & Hc & _). left.
    destruct (awaited_debtor _ _ _ Ht He)
      as [?|(t & Ht' & _ & Hrs & [(w & q & Hq)|[? _]])]; try done.
    by eapply cancelled_breaks.
  - destruct Ho as (He & Hcl & -> & _).
    destruct (awaited_debtor _ _ _ Ht He) as [?|(t & Ht' & Hx & Hrs & Hor)]; [done|by left|].
    destruct Hor as [(w & q & Hq)|[_ Hh]];
      [|rewrite Hh in Hx; by apply list_elem_of_singleton in Hx].
    destruct (decide (sid ∈ cancelled (known s))) as [Hc|Hc]; [left; by eapply cancelled_breaks|].
    by eapply reader_joined.
Qed.
End step_at.

Lemma progress_rank n s t r :
  locks_ok s -> t ∈ threads s -> wants (todo t) = Some r -> 6 - n <= r ->
  can_step s \/ exists sid, sid ∉ cancelled (known s) /\ joins s sid t.
Proof.
  revert t r. induction n as [|n IH]; intros t r Hok Ht Hw Hr.
  { destruct t as [[|[[]|[]|[]|[]|[]|[]| |]| | |] h]; simplify_eq/=; lia. }
  eapply wanting_steps; [done| |done..]. intros t' m Ht' Hm Hlt. apply (IH t' m); [done..|lia].
Qed.

(** Where nothing can go on, only goroutines of running sessions are left. *)
Lemma locks_rest s t :
  locks_ok s -> nf (own true) s -> t ∈ threads s ->
  exists sid, sid ∉ cancelled (known s) /\ rests s sid t.
Proof.
  intros Hok Hnf Ht. destruct (wants (todo t)) as [r|] eqn:Hw.
  - destruct (progress_rank 6 s t r) as [?|(sid & Hc & Hj)]; [done..|lia|by destruct Hnf|].
    exists sid. split; [done|by right].
  - destruct (can_at s t Hok Ht Hw) as [?|(w & p & Hp)]; [by destruct Hnf|].
    destruct (idle_runs _ _ _ _ Hok Ht Hp) as [sid Hrs]. exists sid. split; [|left; eauto].
    intros Hc. destruct Hnf. by eapply cancelled_breaks.
Qed.

(** ** The steps left *)

(** Six operations of [runSession], three of a reader. *)
Fixpoint size (p : program) : nat :=
  match p with
  | Return => 1
  | Then _ p | Idle _ p => S (size p)
  | GoSession p => 7 + size p
  | GoReader _ _ p => 4 + size p
  end.

Definition still_open (f : facts) : list (nat * nat) := filter (fun x => x.1 ∉ closed f) (sockets f).

Definition work (s : state) : nat :=
  sum_list_with (fun t => size (todo t)) (threads s) + length (still_open (known s)).

Lemma still_open_closed conn f : length (still_open (add_closed conn f)) <= length (still_open f).
Proof.
  unfold still_open. cbn [sockets closed add_closed]. induction (sockets f) as [|x l IH]; [done|].
  rewrite !filter_cons. repeat case_decide; simpl; try lia. set_solver.
Qed.

Lemma still_open_hook conn sid f :
  (conn, sid) ∈ sockets f -> conn ∉ closed f ->
  length (still_open (add_closed conn f)) < length (still_open f).
Proof.
  intros Hs Hc. apply list_elem_of_split in Hs as (l1 & l2 & Hs). unfold still_open.
  cbn [sockets closed add_closed]. rewrite Hs, !filter_app, !length_app, !filter_cons.
  rewrite decide_False, decide_True by set_solver.
  assert (forall l, length (filter (fun x : nat * nat => x.1 ∉ conn :: closed f) l) <=
    length (filter (fun x => x.1 ∉ closed f) l)) as Hl.
  { intros l. pose proof (still_open_closed conn (mk_facts [] [] [] l (closed f))). done. }
  pose proof (Hl l1). pose proof (Hl l2). simpl. lia.
Qed.

Lemma own_work strict s s' : own strict s s' -> work s' < work s.
Proof.
  intros [l1 t l2 ts f Ht Hm|conn sid Hs _ Hc]; unfold work; cbn [threads known].
  - rewrite Ht, !sum_list_with_app. simpl.
    destruct Hm; cbn [todo]; try (simpl; unfold still_open; simpl; lia).
    simpl. pose proof (still_open_closed conn (known s)). lia.
  - pose proof (still_open_hook _ _ _ Hs Hc). lia.
Qed.

Lemma own_sn strict s : sn (own strict) s.
Proof.
  remember (work s) as n eqn:Hn. revert s Hn. induction (lt_wf n) as [n _ IH].
  intros s ->. constructor. intros s' Hst. by eapply IH; [by apply (own_work strict)|].
Qed.

(** ** Properties *)

(** C8: no lock is ever fatal: however the methods of the client, its sessions,
    their readers and its HTTP requests were interleaved, whatever calls were
    made, also from callbacks, and whatever the outside did, no two goroutines
    hold a lock against each other; the program can take finitely many steps
    before the outside moves again; and where it can take none, every call has
    returned, every session that is cancelled is gone with its readers, and what
    is left are goroutines of running sessions, which hold no lock and wait for
    the outside - or join a reader that waits for a slot for a callback. So a
    call of [Stop], which cancels its session, returns; a reader that a RWMutex
    holds back for a waiting writer is included. *)
Theorem every_call_returns s (Hr : reachable s) :
  (forall l, count (HWrite l) (threads s) <= 1 /\
     (count (HWrite l) (threads s) = 0 \/ count (HRead l) (threads s) = 0)) /\
  sn (own false) s /\
  forall s', rtc (own false) s s' -> nf (own true) s' ->
    forall t, t ∈ threads s' -> exists sid, sid ∉ cancelled (known s') /\ rests s' sid t.
Proof.
  apply locks_reachable_ok in Hr as Hok. split; [apply (ok_excl _ Hok)|]. split; [apply own_sn|].
  intros s' Hrtc Hnf t Ht. assert (locks_ok s') as Hok'
    by (clear Hr Hnf Ht; induction Hrtc; [done|eauto using locks_own_ok]).
  by apply locks_rest.
Qed.

(** A session under way, a [Stop] that waits for it and a [WithProxy]. *)
Definition demo_start : state :=
  mk_state [mk_thread WithProxy []; mk_thread (Stop (Some 0)) [];
            mk_thread (attempt 0 2 (runSession_deferred 0)) [HOwes (Done 0)]]
    (mk_facts [Done 0] [] [] [] []).

Lemma nobody_check h s :
  forallb (fun t => negb (bool_decide (h ∈ held t))) (threads s) = true -> nobody h s.
Proof.
  rewrite forallb_forall. intros Hall t Ht Hh. apply list_elem_of_In, Hall in Ht.
  by rewrite bool_decide_eq_true_2 in Ht.
Qed.

Lemma demo_start_reachable : reachable demo_start.
Proof.
  assert (R := r_outside _ _ r_start (out_call _ _ (m_Start _ true))).
  eapply r_own in R; [|eapply (own_moves _ _ []); [reflexivity|by apply mv_lock; apply nobody_check]].
  eapply r_own in R; [|eapply (own_moves _ _ []); [reflexivity|by apply mv_lock; apply nobody_check]].
  eapply r_own in R; [|eapply (own_moves _ _ []); [reflexivity|apply (mv_session _ _ 0); set_solver]].
  eapply r_own in R; [|eapply (own_moves _ _ [_]); [reflexivity|apply mv_unlock; by left]].
  eapply r_own in R; [|eapply (own_moves _ _ [_]); [reflexivity|apply mv_unlock; by left]].
  eapply r_own in R; [|eapply (own_moves _ _ [_]); [reflexivity|apply mv_return]].
  eapply r_outside in R; [|eapply (out_resume _ []); [done|apply (re_head _ 0 2); set_solver]].
  eapply r_outside in R; [|eapply out_call, (m_Stop _ (Some 0)); intros n [= <-]; by left].
  eapply r_outside in R; [|eapply out_call, m_WithProxy]. exact R.
Qed.

Lemma every_call_returns_witness : sn (own false) demo_start /\ ~ nf (own true) demo_start.
Proof.
  destruct (every_call_returns demo_start demo_start_reachable) as (_ & Hsn & Hnf).
  split; [exact Hsn|]. intros Hn.
  destruct (Hnf _ (rtc_refl _ _) Hn (mk_thread WithProxy []) ltac:(by left))
    as (sid & _ & [(w & p & Hp & _)|(conn & p & t & n & q & Hp & _)]); discriminate.
Defined.
