(* ===== verification/Http.v ===== *)
(** * client.go: the HTTP requests

    Each method as a function of what the network answers: the request it hands
    to fasthttp, the calls of the logger and the Go results. *)
From S2P Require Import Prelude GoText Errors Types Client Utf8 Json Models Requests.

(** What the client uses of fasthttp's headers and status texts. *)
Class Fasthttp := {
  header : Type;
  Header_Set : string -> string -> header -> header;
  Header_Add : string -> string -> header -> header;
  Header_Del : string -> header -> header;
  StatusMessage : Z -> string;
}.

(** net/url: the parts of a parsed URL the client reads. *)
Record URL := mk_URL { Scheme : string; Host : string; Hostname : string }.

(** [url.Parse], and the error [json.Unmarshal] returns for a body it cannot
    decode into a target type. *)
Class GoErrors := {
  url_Parse : string -> result error URL;
  unmarshal_error : string -> string -> error;
}.

(** A method's outcome: the texts logged, then the Go results. [None] is a panic. *)
Abbreviation logged A := (option (list string * result error A)).

Definition ret {A} (logs : list string) (r : result error A) : logged A := Some (logs, r).

Section http.
Context `{Fasthttp} `{GoErrors} `{GoValues}.

(** The fields the methods read. *)
Record http_client := mk_http_client {
  address : string;
  chainName : string;
  chainVersion : string;
  headers : header;
  logger_set : bool;                (* c.lgr != nil *)
}.

(** A request, as the calls on [fasthttp.Request] and [fasthttp.URI] made it;
    what is not set is [None]. *)
Record request := mk_request {
  rq_method : option string;
  rq_scheme : string;
  rq_host : string;
  rq_path : string;
  rq_query : option string;
  rq_header : header;
  rq_body : option bytes;
}.

(** [logError] drops the error and logs a fixed text. *)
Definition logError (c : http_client) (err : error) : list string :=
  if logger_set c then ["read node request failed"] else [].

(** [AddHeader], [RemoveHeader] (and the same two on [wsHeaders]). *)
Definition with_headers (h : header) (c : http_client) : http_client :=
  mk_http_client (address c) (chainName c) (chainVersion c) h (logger_set c).
Definition AddHeader (key value : string) (c : http_client) : http_client :=
  with_headers (Header_Add key value (headers c)) c.
Definition RemoveHeader (key : string) (c : http_client) : http_client :=
  with_headers (Header_Del key (headers c)) c.

(** [parsedAddr]: a nil URL is dereferenced when the address does not parse. *)
Definition parsedAddr (c : http_client) : option (string * string) :=
  match url_Parse (address c) with
  | Ok uri => Some (Scheme uri, Host uri)
  | Err _ => None
  end.

(** The chain parameters: both of the caller's, or else both of the client's. *)
Definition chain_query (c : http_client) (cn cv : option string) : string :=
  match cn, cv with
  | Some n, Some v =>
      "chain_name=" +:+ Query.QueryEscape n +:+ "&chain_version=" +:+ Query.QueryEscape v
  | _, _ =>
      "chain_name=" +:+ Query.QueryEscape (chainName c) +:+ "&chain_version="
      +:+ Query.QueryEscape (chainVersion c)
  end.

Definition json_header (c : http_client) : header :=
  Header_Set "Content-Type" "application/json" (headers c).

(** ** Responses *)
Definition Unmarshal {A} (dec : decoder A) (zero : A) (target : string) (body : bytes)
    : result error A :=
  match (j ← parse (of_bytes body); dec zero j) with
  | Some a => Ok a
  | None => Err (unmarshal_error target (of_bytes body))
  end.

(** [json.Unmarshal(resp.Body(), &errorResponse)]. *)
Definition error_response (body : bytes) : result error (Response any) :=
  Unmarshal (dec_Response dec_data_any) zero_Response "Response" body.

Definition unexpected_status (status : Z) : error :=
  errors_New ("unexpected status code: " +:+ FormatInt status).

(** The part every method but [LastBlock] has after a request that went
    through; [log_last] tells whether a body that does not decode is logged. *)
Definition handle_response {A} (c : http_client) (ok : Z -> bool)
    (decode : bytes -> result error A) (log_last : bool) (resp : http_response) : logged A :=
  let status := StatusCode resp in
  if (400 <=? status)%Z && (status <? 500)%Z then
    match error_response (Body resp) with
    | Err err => ret (logError c err) (Err err)
    | Ok _ =>
        let err := errors_New "read node request rejected" in
        ret (logError c err) (Err err)
    end
  else if (500 <=? status)%Z then ret [] (Err (errors_New (StatusMessage status)))
  else if negb (ok status) then ret [] (Err (unexpected_status status))
  else match decode (Body resp) with
  | Err err => ret (if log_last then logError c err else []) (Err err)
  | Ok a => ret [] (Ok a)
  end.

(** The transport's error is logged and returned. *)
Definition do_request {A} (c : http_client) (net : request -> result error http_response)
    (req : request) (k : http_response -> logged A) : logged A :=
  match net req with
  | Err err => ret (logError c err) (Err err)
  | Ok resp => k resp
  end.

(** ** LastBlock *)
Definition LastBlock_request (c : http_client) (cn cv : option string) (addr : string * string)
    : request :=
  mk_request None addr.1 addr.2 "/v1/blocks" (Some ("limit=1&offset=0&" +:+ chain_query c cn cv))
    (json_header c) None.

(** [&Error{origin: err, message: err.Error(), typ: CLIENTErr, ...}]. *)
Definition client_error (err : error) (code status : Z) (resp : option http_response) : error :=
  ClientError CLIENTErr (Some err) (error_text err) code status (responseSnapshot resp).

Definition LastBlock_response (c : http_client) (resp : http_response) : logged Models.LastBlock :=
  let status := StatusCode resp in
  if (400 <=? status)%Z && (status <? 500)%Z then
    match error_response (Body resp) with
    | Err err => ret (logError c err) (Err (client_error err 6 status (Some resp)))
    | Ok _ =>
        let err := errors_New "read node request rejected" in
        ret (logError c err) (Err err)
    end
  else if (500 <=? status)%Z then
    ret [] (Err (client_error (errors_New (StatusMessage status)) 7 status (Some resp)))
  else if negb (status =? 200)%Z then ret [] (Err (unexpected_status status))
  else match Unmarshal dec_LastBlock zero_LastBlock "LastBlock" (Body resp) with
  | Err err => ret (logError c err) (Err (client_error err 8 status (Some resp)))
  | Ok b => ret [] (Ok b)
  end.

Definition LastBlock (c : http_client) (net : request -> result error http_response)
    (cn cv : option string) : logged Models.LastBlock :=
  addr ← parsedAddr c;
  match net (LastBlock_request c cn cv addr) with
  | Err err => ret (logError c err) (Err (client_error err 5 0 None))
  | Ok resp => LastBlock_response c resp
  end.

(** ** Tx *)

(** [Response.Data] holding a pointer: [null] drops it, anything else is decoded
    into what it points to; once dropped it is any JSON. *)
Inductive data_value (T : Type) := DPointer (t : T) | DAny (a : any).
Arguments DPointer {T} t.
Arguments DAny {T} a.

Definition dec_data {T} (dec : decoder T) : decoder (option (data_value T)) := fun cur j =>
  match cur, j with
  | _, JNull => Some None
  | Some (DPointer t), _ => t' ← dec t j; Some (Some (DPointer t'))
  | _, _ => a ← dec_any AnyNil j; Some (Some (DAny a))
  end.

Definition response_with {T} (t : T) : Response (data_value T) :=
  mk_Response None (Some (DPointer t)) 0 false None None.

(** [resp.GetData().( *T )]. *)
Definition pointer_of {T} (r : Response (data_value T)) : option T :=
  match GetData r with Some (DPointer t) => Some t | _ => None end.


Definition Tx_request (c : http_client) (id signature : string) (cn cv : option string)
    (addr : string * string) : request :=
  mk_request None addr.1 addr.2 ("/v1/tx/" +:+ id) (Some (chain_query c cn cv))
    (Header_Set "X-Signature" signature (json_header c)) None.

(** A decoded response without a transaction is not logged. *)
Definition Tx_response (c : http_client) (resp : http_response) : logged Transaction :=
  match handle_response c (fun s => s =? 200)%Z
          (Unmarshal (dec_Response (dec_data dec_Transaction)) (response_with zero_Transaction)
             "Response") true resp with
  | None => None
  | Some (logs, Err err) => ret logs (Err err)
  | Some (logs, Ok r) =>
      match pointer_of r with
      | Some t => ret logs (Ok t)
      | None => ret logs (Err (errors_New "invalid transaction response"))
      end
  end.

Definition Tx (c : http_client) (net : request -> result error http_response)
    (id signature : string) (cn cv : option string) : logged Transaction :=
  if String.eqb id "" then
    ret [] (Err (ClientError PARAMETERErr (Some (errors_New "invalid tx id")) "invalid tx id" 9 0 None))
  else
    addr ← parsedAddr c;
    do_request c net (Tx_request c id signature cn cv addr) (Tx_response c).

(** ** TxSummary and TxSearch *)
Definition TxSummary_request (c : http_client) (s : Summary) (addr : string * string) : request :=
  let s := Summary_defaults (chainName c) (chainVersion c) s in
  mk_request (Some "POST") addr.1 addr.2 (Summary_URI s) None (json_header c)
    (Some (to_bytes (Summary_ToJSON s))).

(** The results are the height of the last block, the last transaction and the
    count; the zero values accompany an error. *)
Definition TxSummary (c : http_client) (net : request -> result error http_response)
    (summary : option Summary) : logged (Z * option Transaction * Z) :=
  match summary with
  | None => ret [] (Err (errors_New "invalid parameters"))
  | Some s =>
      if negb (Summary_IsValid s) then ret [] (Err (errors_New "invalid parameters"))
      else
        addr ← parsedAddr c;
        do_request c net (TxSummary_request c s addr)
          (handle_response c (fun st => st =? 200)%Z
             (fun body =>
                r ← Unmarshal dec_SummaryResponse zero_SummaryResponse "SummaryResponse" body;
                Ok (LastBlockHeight (SData r), LastTransaction (SData r), SumTotalCount r)) true)
  end.

Definition TxSearch_request (c : http_client) (s : Search) (addr : string * string) : request :=
  let s := Search_defaults (chainName c) (chainVersion c) s in
  mk_request (Some "POST") addr.1 addr.2 (Search_URI s) None (json_header c)
    (Some (to_bytes (Search_ToJSON s))).

Definition TxSearch (c : http_client) (net : request -> result error http_response)
    (search : option Search) : logged (slice (option Transaction) * Z) :=
  let invalid :=
    let err := errors_New "invalid parameters" in ret (logError c err) (Err err) in
  match search with
  | None => invalid
  | Some s =>
      if negb (Search_IsValid s) then invalid
      else
        addr ← parsedAddr c;
        do_request c net (TxSearch_request c s addr)
          (handle_response c (fun st => st =? 200)%Z
             (fun body =>
                r ← Unmarshal dec_SearchResponse zero_SearchResponse "SearchResponse" body;
                Ok (TXS r, STotalCount r)) true)
  end.

(** ** Broadcast *)
Definition broadcast_request (c : http_client) (b : Broadcast) (commit sync : bool)
    (addr : string * string) : request :=
  mk_request (Some "POST") addr.1 addr.2 (Broadcast_URI commit sync) None (json_header c)
    (Some (to_bytes (Broadcast_ToJSON b))).

Definition broadcast (c : http_client) (net : request -> result error http_response)
    (b : Broadcast) (commit sync : bool) : logged BroadcastResponse :=
  if negb (Type_IsValid (BType b)) then
    let err := errors_New "invalid type" in ret (logError c err) (Err err)
  else
    addr ← parsedAddr c;
    do_request c net (broadcast_request c b commit sync addr)
      (handle_response c (fun st => st =? 201)%Z
         (Unmarshal dec_BroadcastResponse zero_BroadcastResponse "BroadcastResponse") false).

(** The exported methods log an error once more. *)
Definition log_again {A} (c : http_client) (r : logged A) : logged A :=
  match r with
  | Some (logs, Err err) => ret (logs ++ logError c err) (Err err)
  | _ => r
  end.

Definition Broadcast (c : http_client) (net : request -> result error http_response)
    (b : Requests.Broadcast) : logged BroadcastResponse :=
  log_again c (broadcast c net b false false).
Definition BroadcastSync (c : http_client) (net : request -> result error http_response)
    (b : Requests.Broadcast) : logged BroadcastResponse :=
  log_again c (broadcast c net b false true).
Definition BroadcastCommit (c : http_client) (net : request -> result error http_response)
    (b : Requests.Broadcast) : logged BroadcastResponse :=
  log_again c (broadcast c net b true false).

(** ** Query and FetchNS *)

(** The loop over the caller's headers; [iter] is the map in the order the
    runtime visits it. *)
Fixpoint add_values (k : string) (vs : list string) (h : header) : header :=
  match vs with
  | [] => h
  | v :: vs' => add_values k vs' (Header_Add k v h)
  end.

Fixpoint add_all (iter : list (string * list string)) (h : header) : header :=
  match iter with
  | [] => h
  | (k, vs) :: iter' => add_all iter' (add_values k vs h)
  end.

Definition Query_request (c : http_client) (method path : string) (data : option bytes)
    (iter : list (string * list string)) (addr : string * string) : request :=
  mk_request (Some method) addr.1 addr.2 path None (add_all iter (json_header c)) data.

Definition Query_method_ok (method : string) : bool :=
  fst (fst (InArray method (RSlice ["GET"; "POST"]))).

Definition Query (c : http_client) (net : request -> result error http_response)
    (method path : string) (data : option bytes) (iter : list (string * list string))
    : logged (Response any) :=
  if negb (Query_method_ok method) then ret [] (Err (errors_New "invalid method"))
  else
    addr ← parsedAddr c;
    do_request c net (Query_request c method path data iter addr)
      (handle_response c (fun st => negb ((st <? 200) || (300 <=? st)))%Z error_response true).

Definition FetchNS_request (c : http_client) (identifier : string) (addr : string * string)
    : request :=
  mk_request (Some "GET") addr.1 addr.2 ("/v1/ns/" +:+ identifier) None (json_header c) None.

Definition FetchNS_response (c : http_client) (resp : http_response) : logged NS :=
  match handle_response c (fun s => s =? 200)%Z
          (Unmarshal (dec_Response (dec_data dec_NS)) (response_with zero_NS) "Response") true resp with
  | None => None
  | Some (logs, Err err) => ret logs (Err err)
  | Some (logs, Ok r) =>
      match pointer_of r with
      | Some ns => ret logs (Ok ns)
      | None => ret logs (Err (errors_New "invalid namespace response"))
      end
  end.

Definition FetchNS (c : http_client) (net : request -> result error http_response)
    (identifier : string) : logged NS :=
  addr ← parsedAddr c;
  do_request c net (FetchNS_request c identifier addr) (FetchNS_response c).

End http.
Arguments DPointer {T} t.
Arguments DAny {T} a.

(** ** Lemmas *)

(** A query string as a server reads it: fields between ampersands, the name and
    the value around the equals sign, both unescaped. *)
Definition read_field (f : string) : option (string * string) :=
  match Split "=" f with
  | [k; v] => k' ← Query.QueryUnescape k; v' ← Query.QueryUnescape v; Some (k', v')
  | _ => None
  end.

Definition read_query (q : string) : list (option (string * string)) := read_field <$> Split "&" q.

Lemma escape_no c s : c ∈ chars "&=" -> all_chars (fun d => d <> c) (Query.QueryEscape s).
Proof.
  intros Hc. apply Query.QueryEscape_no_sep. revert Hc. rewrite !list_elem_of_In. cbn. tauto.
Qed.

Lemma append_assoc s t u : (s +:+ t) +:+ u = s +:+ (t +:+ u).
Proof. induction s as [|c s IH]; [done|]. by rewrite !append_cons, IH. Qed.

(** No character of [k] is special: it stands for itself. *)
Definition plain_name (k : string) : Prop :=
  all_chars (fun d => d <> "&"%char) k /\ all_chars (fun d => d <> "="%char) k /\
  Query.QueryUnescape k = Some k.

Lemma read_field_escape k v :
  plain_name k -> read_field (k +:+ String "=" (Query.QueryEscape v)) = Some (k, v).
Proof.
  intros (_ & Hk & Hu). unfold read_field. rewrite Split_app by done.
  rewrite Split_none by (apply escape_no; rewrite list_elem_of_In; cbn; tauto).
  rewrite Hu. cbn [mbind option_bind]. by rewrite Query.Unescape_Escape.
Qed.

Lemma Split_field k v rest :
  plain_name k ->
  Split "&" ((k +:+ String "=" (Query.QueryEscape v)) +:+ String "&" rest)
  = (k +:+ String "=" (Query.QueryEscape v)) :: Split "&" rest.
Proof.
  intros (Hk & _ & _). apply Split_app. apply all_chars_app. split; [done|].
  apply Forall_cons. split; [done|]. apply escape_no. rewrite list_elem_of_In. cbn. tauto.
Qed.

Lemma Split_last_field k v :
  plain_name k -> Split "&" (k +:+ String "=" (Query.QueryEscape v))
                  = [k +:+ String "=" (Query.QueryEscape v)].
Proof.
  intros (Hk & _ & _). apply Split_none. apply all_chars_app. split; [done|].
  apply Forall_cons. split; [done|]. apply escape_no. rewrite list_elem_of_In. cbn. tauto.
Qed.

Ltac plain := split_and!; [repeat constructor; discriminate..|reflexivity].

(** The two chain parameters read back. *)
Lemma read_chain n v :
  read_query ("chain_name=" +:+ Query.QueryEscape n +:+ "&chain_version=" +:+ Query.QueryEscape v)
  = [Some ("chain_name", n); Some ("chain_version", v)].
Proof.
  assert (plain_name "chain_name") as H1 by plain.
  assert (plain_name "chain_version") as H2 by plain.
  change ("chain_name=" +:+ Query.QueryEscape n +:+ "&chain_version=" +:+ Query.QueryEscape v)
    with ("chain_name" +:+ String "=" (Query.QueryEscape n +:+
            String "&" ("chain_version" +:+ String "=" (Query.QueryEscape v)))).
  rewrite <- append_cons, <- append_assoc. unfold read_query.
  rewrite Split_field, Split_last_field by done. cbn [fmap list_fmap].
  by rewrite !read_field_escape.
Qed.

Lemma read_paged q :
  read_query ("limit=1&offset=0&" +:+ q) = Some ("limit", "1") :: Some ("offset", "0") :: read_query q.
Proof.
  unfold read_query.
  change ("limit=1&offset=0&" +:+ q) with ("limit=1" +:+ String "&" ("offset=0" +:+ String "&" q)).
  by rewrite !Split_app by (repeat constructor; discriminate).
Qed.

Section properties.
Context `{Fasthttp} `{GoErrors} `{GoValues}.

(** The chain a request names: the caller's when both parts are given, and
    otherwise the client's. *)
Definition chain_of (c : http_client) (cn cv : option string) : string * string :=
  match cn, cv with
  | Some n, Some v => (n, v)
  | _, _ => (chainName c, chainVersion c)
  end.

Lemma read_chain_query c cn cv :
  read_query (chain_query c cn cv)
  = [Some ("chain_name", (chain_of c cn cv).1); Some ("chain_version", (chain_of c cn cv).2)].
Proof. unfold chain_query, chain_of. destruct cn, cv; apply read_chain. Qed.

(** C25: [LastBlock] and [Tx] ask for the chain they were told to ask for, and
    nothing else: each makes a single request, whose query a server reads as
    exactly the paging and the chain's name and version - the caller's if both
    are given, else the client's - whatever characters these contain. *)
Theorem chain_requests c cn cv id signature addr (Haddr : parsedAddr c = Some addr) :
  read_query (default "" (rq_query (LastBlock_request c cn cv addr)))
  = [Some ("limit", "1"); Some ("offset", "0"); Some ("chain_name", (chain_of c cn cv).1);
     Some ("chain_version", (chain_of c cn cv).2)] /\
  read_query (default "" (rq_query (Tx_request c id signature cn cv addr)))
  = [Some ("chain_name", (chain_of c cn cv).1); Some ("chain_version", (chain_of c cn cv).2)] /\
  (forall net1 net2,
     net1 (LastBlock_request c cn cv addr) = net2 (LastBlock_request c cn cv addr) ->
     LastBlock c net1 cn cv = LastBlock c net2 cn cv) /\
  (forall net1 net2,
     net1 (Tx_request c id signature cn cv addr) = net2 (Tx_request c id signature cn cv addr) ->
     Tx c net1 id signature cn cv = Tx c net2 id signature cn cv).
Proof.
  split_and!.
  - change (default "" (rq_query (LastBlock_request c cn cv addr)))
      with ("limit=1&offset=0&" +:+ chain_query c cn cv).
    by rewrite read_paged, read_chain_query.
  - apply read_chain_query.
  - intros net1 net2 Hnet. unfold LastBlock. rewrite Haddr. cbn [mbind option_bind].
    by rewrite Hnet.
  - intros net1 net2 Hnet. unfold Tx. destruct (String.eqb id ""); [done|].
    rewrite Haddr. cbn [mbind option_bind]. unfold do_request. by rewrite Hnet.
Qed.

(** Everything a method logs is the one fixed text. *)
Definition logs_fixed {A} (r : logged A) : Prop :=
  forall logs res, r = Some (logs, res) -> Forall (fun t => t = "read node request failed") logs.

Lemma logError_fixed c err : Forall (fun t => t = "read node request failed") (logError c err).
Proof. unfold logError. destruct (logger_set c); by repeat constructor. Qed.

Lemma ret_fixed {A} logs (r : result error A) :
  Forall (fun t => t = "read node request failed") logs -> logs_fixed (ret logs r).
Proof. by intros Hl logs' res [= <- <-]. Qed.

Lemma handle_fixed {A} c ok (decode : bytes -> result error A) b resp :
  logs_fixed (handle_response c ok decode b resp).
Proof.
  unfold handle_response.
  repeat (case_match; try (apply ret_fixed; first [apply logError_fixed|by apply Forall_nil])).
Qed.

Lemma do_fixed {A} c net req (k : http_response -> logged A) :
  (forall resp, logs_fixed (k resp)) -> logs_fixed (do_request c net req k).
Proof.
  intros Hk. unfold do_request. destruct (net req); [apply Hk|]. apply ret_fixed, logError_fixed.
Qed.

Lemma bind_fixed {A} c (k : string * string -> logged A) :
  (forall addr, logs_fixed (k addr)) -> logs_fixed (parsedAddr c ≫= k).
Proof. intros Hk. destruct (parsedAddr c); [apply Hk|by intros ? ?]. Qed.

Lemma log_again_fixed {A} c (r : logged A) : logs_fixed r -> logs_fixed (log_again c r).
Proof.
  intros Hr. destruct r as [[logs [a|err]]|]; [done| |done]. apply ret_fixed, Forall_app.
  split; [by apply (Hr logs (Err err))|apply logError_fixed].
Qed.

Lemma LastBlock_response_fixed c resp : logs_fixed (LastBlock_response c resp).
Proof.
  unfold LastBlock_response.
  repeat (case_match; try (apply ret_fixed; first [apply logError_fixed|by apply Forall_nil])).
Qed.

(** A decoded pointer that is missing adds no log line. *)
Lemma pointer_fixed {A B} (r : logged A) (f : A -> result error B) :
  logs_fixed r ->
  logs_fixed (match r with
              | None => None
              | Some (logs, Err err) => ret logs (Err err)
              | Some (logs, Ok a) => ret logs (f a)
              end).
Proof.
  intros Hr. destruct r as [[logs [a|err]]|]; [| |by intros ? ?];
    apply ret_fixed; by eapply Hr.
Qed.

Lemma Tx_response_fixed c resp : logs_fixed (Tx_response c resp).
Proof.
  unfold Tx_response. set (r := handle_response _ _ _ _ _).
  assert (logs_fixed r) as Hr by apply handle_fixed.
  destruct r as [[logs [a|err]]|]; [|by apply ret_fixed, (Hr logs (Err err))|by intros ? ?].
  destruct (pointer_of a); by apply ret_fixed, (Hr logs (Ok a)).
Qed.

Lemma FetchNS_response_fixed c resp : logs_fixed (FetchNS_response c resp).
Proof.
  unfold FetchNS_response. set (r := handle_response _ _ _ _ _).
  assert (logs_fixed r) as Hr by apply handle_fixed.
  destruct r as [[logs [a|err]]|]; [|by apply ret_fixed, (Hr logs (Err err))|by intros ? ?].
  destruct (pointer_of a); by apply ret_fixed, (Hr logs (Ok a)).
Qed.

Lemma broadcast_fixed c net b commit sync : logs_fixed (broadcast c net b commit sync).
Proof.
  unfold broadcast. destruct (negb _); [apply ret_fixed, logError_fixed|].
  apply bind_fixed. intros addr. apply do_fixed. intros resp. apply handle_fixed.
Qed.

(** C31: no request method logs anything but one fixed text, whatever the caller
    passes and whatever the network and the server answer: addresses,
    signatures, bodies and raw errors never reach the logger. *)
Theorem methods_log_fixed_text c net cn cv id signature summary search b method path data iter ns :
  logs_fixed (LastBlock c net cn cv) /\ logs_fixed (Tx c net id signature cn cv) /\
  logs_fixed (TxSummary c net summary) /\ logs_fixed (TxSearch c net search) /\
  logs_fixed (Broadcast c net b) /\ logs_fixed (BroadcastSync c net b) /\
  logs_fixed (BroadcastCommit c net b) /\ logs_fixed (Query c net method path data iter) /\
  logs_fixed (FetchNS c net ns).
Proof.
  split_and!.
  - apply bind_fixed. intros addr. destruct (net _); [apply LastBlock_response_fixed|].
    apply ret_fixed, logError_fixed.
  - unfold Tx. destruct (String.eqb id ""); [by apply ret_fixed|].
    apply bind_fixed. intros addr. apply do_fixed, Tx_response_fixed.
  - unfold TxSummary. destruct summary as [s|]; [|by apply ret_fixed].
    destruct (negb _); [by apply ret_fixed|]. apply bind_fixed. intros addr.
    apply do_fixed. intros resp. apply handle_fixed.
  - unfold TxSearch. destruct search as [s|]; [|apply ret_fixed, logError_fixed].
    destruct (negb _); [apply ret_fixed, logError_fixed|]. apply bind_fixed. intros addr.
    apply do_fixed. intros resp. apply handle_fixed.
  - apply log_again_fixed, broadcast_fixed.
  - apply log_again_fixed, broadcast_fixed.
  - apply log_again_fixed, broadcast_fixed.
  - unfold Query. destruct (negb _); [by apply ret_fixed|]. apply bind_fixed. intros addr.
    apply do_fixed. intros resp. apply handle_fixed.
  - apply bind_fixed. intros addr. apply do_fixed, FetchNS_response_fixed.
Qed.

(** ** Results *)
Lemma handle_Ok {A} c ok (decode : bytes -> result error A) b resp l a :
  handle_response c ok decode b resp = Some (l, Ok a) ->
  l = [] /\ ok (StatusCode resp) = true /\ (StatusCode resp < 400)%Z /\ decode (Body resp) = Ok a.
Proof.
  unfold handle_response. destruct ((_ <=? _)%Z && _) eqn:E4; [by case_match|].
  destruct (Z.leb_spec 500 (StatusCode resp)); [done|].
  destruct (ok (StatusCode resp)); [|done]. cbn [negb].
  destruct (decode (Body resp)); [|by case_match]. intros [= <- <-]. split_and!; try done.
  apply andb_false_iff in E4 as [?%Z.leb_gt|?%Z.ltb_ge]; lia.
Qed.

(** A call that went out to the address and came back with [resp]. *)
Definition answered (c : http_client) (net : request -> result error http_response)
    (mk : string * string -> request) (resp : http_response) : Prop :=
  exists addr, parsedAddr c = Some addr /\ net (mk addr) = Ok resp.

Lemma do_Ok {A} c net mk (k : http_response -> logged A) l a :
  (addr ← parsedAddr c; do_request c net (mk addr) k) = Some (l, Ok a) ->
  exists resp, answered c net mk resp /\ k resp = Some (l, Ok a).
Proof.
  intros (addr & Haddr & Hd)%bind_Some. unfold do_request in Hd.
  destruct (net (mk addr)) as [resp|] eqn:En; [|done]. exists resp. split; [|done]. by exists addr.
Qed.

Lemma log_again_Ok {A} c (r : logged A) l a : log_again c r = Some (l, Ok a) -> r = Some (l, Ok a).
Proof. by destruct r as [[logs []]|]. Qed.

Lemma pointer_of_Some {T} (r : Response (data_value T)) t :
  pointer_of r = Some t -> Data r = Some (DPointer t).
Proof. unfold pointer_of, GetData. destruct (Data r) as [[|]|]; congruence. Qed.

(** A broadcast accepted by the node, on the path of its mode. *)
Definition broadcast_answered (c : http_client) (net : request -> result error http_response)
    (b : Requests.Broadcast) (commit sync : bool) (l : list string) (r : BroadcastResponse) : Prop :=
  Type_IsValid (BType b) = true /\ l = [] /\ exists resp,
    answered c net (broadcast_request c b commit sync) resp /\ StatusCode resp = 201%Z /\
    Unmarshal dec_BroadcastResponse zero_BroadcastResponse "BroadcastResponse" (Body resp) = Ok r.

Lemma broadcast_Ok c net b commit sync l a :
  log_again c (broadcast c net b commit sync) = Some (l, Ok a) ->
  broadcast_answered c net b commit sync l a.
Proof.
  intros Hd%log_again_Ok. revert Hd. unfold broadcast, broadcast_answered.
  destruct (Type_IsValid (BType b)); [|done]. cbn [negb].
  intros (resp & Ha & (-> & Hok%Z.eqb_eq & _ & Hd)%handle_Ok)%do_Ok.
  split_and!; [done..|]. by exists resp.
Qed.

(** C19: a method succeeds only on a well-formed answer of the right status to
    its own request: 200 for the lookups, 201 for a broadcast on the path of its
    mode, 2xx for a raw query - and its result is what that answer's body
    decodes to, with nothing logged. *)
Theorem success_means_answer c net cn cv id signature s sm b method path data iter identifier :
  (forall l blk, LastBlock c net cn cv = Some (l, Ok blk) -> l = [] /\ exists resp,
     answered c net (LastBlock_request c cn cv) resp /\ StatusCode resp = 200%Z /\
     Unmarshal dec_LastBlock zero_LastBlock "LastBlock" (Body resp) = Ok blk) /\
  (forall l t, Tx c net id signature cn cv = Some (l, Ok t) -> id <> "" /\ l = [] /\ exists resp r,
     answered c net (Tx_request c id signature cn cv) resp /\ StatusCode resp = 200%Z /\
     Unmarshal (dec_Response (dec_data dec_Transaction)) (response_with zero_Transaction) "Response"
       (Body resp) = Ok r /\ Data r = Some (DPointer t)) /\
  (forall l txs n, TxSearch c net (Some s) = Some (l, Ok (txs, n)) ->
     Search_IsValid s = true /\ l = [] /\ exists resp,
     answered c net (TxSearch_request c s) resp /\ StatusCode resp = 200%Z /\
     Unmarshal dec_SearchResponse zero_SearchResponse "SearchResponse" (Body resp)
     = Ok (mk_SearchResponse txs n)) /\
  (forall l h t n, TxSummary c net (Some sm) = Some (l, Ok (h, t, n)) ->
     Summary_IsValid sm = true /\ l = [] /\ exists resp,
     answered c net (TxSummary_request c sm) resp /\ StatusCode resp = 200%Z /\
     Unmarshal dec_SummaryResponse zero_SummaryResponse "SummaryResponse" (Body resp)
     = Ok (mk_SummaryResponse (mk_SummaryData h t) n)) /\
  (forall l ns, FetchNS c net identifier = Some (l, Ok ns) -> l = [] /\ exists resp r,
     answered c net (FetchNS_request c identifier) resp /\ StatusCode resp = 200%Z /\
     Unmarshal (dec_Response (dec_data dec_NS)) (response_with zero_NS) "Response" (Body resp) = Ok r /\
     Data r = Some (DPointer ns)) /\
  (forall l r, Broadcast c net b = Some (l, Ok r) -> broadcast_answered c net b false false l r) /\
  (forall l r, BroadcastSync c net b = Some (l, Ok r) -> broadcast_answered c net b false true l r) /\
  (forall l r, BroadcastCommit c net b = Some (l, Ok r) -> broadcast_answered c net b true false l r) /\
  (forall l r, Query c net method path data iter = Some (l, Ok r) ->
     (method = "GET" \/ method = "POST") /\ l = [] /\ exists resp,
     answered c net (Query_request c method path data iter) resp /\
     (200 <= StatusCode resp < 300)%Z /\ error_response (Body resp) = Ok r).
Proof.
  split_and!.
  - intros l blk (addr & Haddr & Hd)%bind_Some.
    destruct (net (LastBlock_request c cn cv addr)) as [resp|] eqn:En; [|done].
    unfold LastBlock_response in Hd. destruct (_ && _); [by case_match|].
    destruct (500 <=? _)%Z; [done|]. destruct (Z.eqb_spec (StatusCode resp) 200); [|done].
    cbn [negb] in Hd. destruct (Unmarshal _ _ _ _) as [blk'|] eqn:Eu; [|done].
    injection Hd as <- <-. split; [done|]. exists resp. split_and!; [by exists addr|done|done].
  - intros l t Hd. unfold Tx in Hd. destruct (String.eqb_spec id ""); [done|].
    apply do_Ok in Hd as (resp & Ha & Hk). unfold Tx_response in Hk.
    destruct (handle_response _ _ _ _ _) as [[logs [r|]]|] eqn:Eh; [|done..].
    destruct (pointer_of r) as [t'|] eqn:Ep; [|done]. injection Hk as <- <-.
    apply handle_Ok in Eh as (-> & Hst%Z.eqb_eq & _ & Hu).
    split_and!; [done..|]. exists resp, r. split_and!; [done..|]. by apply pointer_of_Some.
  - intros l txs n Hd. unfold TxSearch in Hd. destruct (Search_IsValid s); [|done].
    apply do_Ok in Hd as (resp & Ha & (-> & Hst%Z.eqb_eq & _ & Hu)%handle_Ok).
    split_and!; [done..|]. exists resp. split_and!; [done..|].
    apply result_bind_Ok in Hu as ([txs' n'] & -> & [= -> ->]). done.
  - intros l h t n Hd. unfold TxSummary in Hd. destruct (Summary_IsValid sm); [|done].
    apply do_Ok in Hd as (resp & Ha & (-> & Hst%Z.eqb_eq & _ & Hu)%handle_Ok).
    split_and!; [done..|]. exists resp. split_and!; [done..|].
    apply result_bind_Ok in Hu as ([[h' t'] n'] & -> & [= -> -> ->]). done.
  - intros l ns Hd. apply do_Ok in Hd as (resp & Ha & Hk). unfold FetchNS_response in Hk.
    destruct (handle_response _ _ _ _ _) as [[logs [r|]]|] eqn:Eh; [|done..].
    destruct (pointer_of r) as [ns'|] eqn:Ep; [|done]. injection Hk as <- <-.
    apply handle_Ok in Eh as (-> & Hst%Z.eqb_eq & _ & Hu).
    split; [done|]. exists resp, r. split_and!; [done..|]. by apply pointer_of_Some.
  - intros l r. apply broadcast_Ok.
  - intros l r. apply broadcast_Ok.
  - intros l r. apply broadcast_Ok.
  - intros l r Hd. unfold Query in Hd. destruct (Query_method_ok method) eqn:Em; [|done].
    apply do_Ok in Hd as (resp & Ha & (-> & Hst & _ & Hu)%handle_Ok). split; [|split; [done|]].
    + unfold Query_method_ok in Em. cbn in Em. unfold InArray_loop in Em.
      repeat case_decide; [by left|by right|discriminate Em].
    + exists resp. apply negb_true_iff, orb_false_iff in Hst as [?%Z.ltb_ge ?%Z.leb_gt].
      split; [done|]. split; [lia|done].
Qed.

(** The response an error keeps: the status, no header, no body. *)
Definition status_only (status : Z) : option http_response := Some (mk_http_response status [] []).

(** C26: the error of [LastBlock] is exactly this. For a transport failure code
    5 without a response; for a rejection whose body does not decode code 6, for
    a server failure code 7, for a block that does not decode code 8, each with
    the status and a response that itself holds the status only - no header, no
    body of what was received -, wrapping its cause, whose text is its message:
    the transport's error, the status' text, or the decoder's error for that
    body. A decodable rejection and another status give fixed texts. The cause
    is found by errors.Is, and the response's headers never matter. *)
Theorem LastBlock_errors c net cn cv addr l e
    (Haddr : parsedAddr c = Some addr) (He : LastBlock c net cn cv = Some (l, Err e)) :
  match net (LastBlock_request c cn cv addr) with
  | Err err => e = ClientError CLIENTErr (Some err) (error_text err) 5 0 None
  | Ok resp =>
      let status := StatusCode resp in
      ((400 <= status < 500)%Z /\
         match error_response (Body resp) with
         | Ok _ => e = errors_New "read node request rejected"
         | Err err => e = ClientError CLIENTErr (Some err) (error_text err) 6 status (status_only status)
         end) \/
      ((500 <= status)%Z /\
         e = ClientError CLIENTErr (Some (errors_New (StatusMessage status))) (StatusMessage status) 7
               status (status_only status)) \/
      ((status < 400)%Z /\ status <> 200%Z /\ e = unexpected_status status) \/
      (status = 200%Z /\ exists err,
         Unmarshal dec_LastBlock zero_LastBlock "LastBlock" (Body resp) = Err err /\
         e = ClientError CLIENTErr (Some err) (error_text err) 8 status (status_only status))
  end /\
  (forall err, Error.Unwrap e = Some err -> errors_Is e err) /\
  (forall resp h, net (LastBlock_request c cn cv addr) = Ok resp ->
     LastBlock c (fun _ => Ok (mk_http_response (StatusCode resp) h (Body resp))) cn cv = Some (l, Err e)).
Proof.
  unfold LastBlock in *. rewrite Haddr in *. cbn [mbind option_bind] in *.
  split; [|split; [intros err Hu; eapply Is_unwrap; [exact Hu|apply Is_here]|]].
  2:{ intros resp h Hnet. by rewrite Hnet in He. }
  destruct (net (LastBlock_request c cn cv addr)) as [resp|err]; [|by injection He as _ <-].
  unfold LastBlock_response in He. cbn zeta.
  destruct (Z.leb_spec 400 (StatusCode resp)), (Z.ltb_spec (StatusCode resp) 500);
    cbn [andb] in He.
  - left. split; [done|]. destruct (error_response (Body resp)); by injection He as _ <-.
  - destruct (Z.leb_spec 500 (StatusCode resp)); [|lia]. right; left. by injection He as _ <-.
  - destruct (Z.leb_spec 500 (StatusCode resp)); [lia|]. right; right.
    destruct (Z.eqb_spec (StatusCode resp) 200); cbn [negb] in He; [right|left].
    + split; [done|]. destruct (Unmarshal _ _ _ _) as [b|err]; [done|]. injection He as _ <-. by exists err.
    + by injection He as _ <-.
  - lia.
Qed.
End properties.

(** ** Examples *)
#[local] Instance demo_fasthttp : Fasthttp :=
  {| header := list (string * string);
     Header_Set k v h := (k, v) :: List.filter (fun p => negb (String.eqb p.1 k)) h;
     Header_Add k v h := h ++ [(k, v)];
     Header_Del k h := List.filter (fun p => negb (String.eqb p.1 k)) h;
     StatusMessage s := "status " +:+ FormatInt s |}.

#[local] Instance demo_go_errors : GoErrors :=
  {| url_Parse s := if String.eqb s "" then Err (Extern "empty url") else Ok (mk_URL "https" s s);
     unmarshal_error _ _ := Extern "unexpected end of JSON input" |}.

#[local] Instance demo_go_values : GoValues :=
  {| Time := Z; zero_time := 0%Z; parse_time := ParseInt; float_ok := fun _ => true |}.

Definition demo_http : http_client := mk_http_client "node" "medusa" "v2" [] true.

Lemma chain_requests_witness :
  parsedAddr demo_http = Some ("https", "node") /\
  read_query (default "" (rq_query (Tx_request demo_http "id" "s" (Some "a&b=c") (Some "x y")
                                      ("https", "node"))))
  = [Some ("chain_name", "a&b=c"); Some ("chain_version", "x y")].
Proof.
  split; [reflexivity|].
  exact (proj1 (proj2 (chain_requests demo_http (Some "a&b=c") (Some "x y") "id" "s"
                         ("https", "node") eq_refl))).
Defined.

(** A node that fails with status 502 and says why. *)
Definition demo_failing (req : request) : result error http_response :=
  Ok (mk_http_response 502 [("X-Secret", "s")] [x61]).

Lemma LastBlock_errors_witness :
  exists e, LastBlock demo_http demo_failing None None = Some ([], Err e) /\
    e = ClientError CLIENTErr (Some (errors_New "status 502")) "status 502" 7 502 (status_only 502) /\
    errors_Is e (errors_New "status 502").
Proof.
  assert (parsedAddr demo_http = Some ("https", "node")) as Ha by reflexivity.
  eexists. split; [reflexivity|].
  pose proof (LastBlock_errors demo_http demo_failing None None ("https", "node") [] _
                Ha eq_refl) as (_ & Hu & _).
  split; [reflexivity|]. apply Hu. reflexivity.
Defined.
