(* ===== verification/Transport.v ===== *)
(** * transport.go, logger.go, and the switches of client.go that set them

    [RoundTrip] and [SetVerbose]; the logger; [WithProxy] with the pointers it
    is about. fasthttp, logrus and net/url are parameters. *)
From S2P Require Import Prelude GoText Errors.

(** ** transport.go: RoundTrip *)
Module Verbose.

Section verbose.
(** [fasthttp.DefaultTransport.RoundTrip] on a host and a request: whether to
    retry, the error, and what it left in [resp]; [host], [req] and [resp] stand
    for the library's types. *)
Context {host req resp : Type} (Default_RoundTrip : host -> req -> resp -> (bool * option error) * resp)
  (resp_StatusCode : resp -> Z) (resp_Body : resp -> bytes).

(** [%t]. *)
Definition FormatBool (b : bool) : string := if b then "true" else "false".

(** The line of [fmt.Fprintf]. *)
Definition verbose_line (status size : Z) (failed : bool) : string :=
  "tcabci HTTP status=" +:+ FormatInt status +:+ " bytes=" +:+ FormatInt size +:+
  " failed=" +:+ FormatBool failed +:+ String (Ascii.ascii_of_nat 10) "".

Definition not_nil (err : option error) : bool := match err with Some _ => true | None => false end.

(** What is written to standard error, the results, and the response. [verbose]
    is loaded once the exchange is over. *)
Definition RoundTrip (verbose : bool) (hc : host) (rq : req) (rs : resp)
    : list string * (bool * option error) * resp :=
  let '((retry, err), rs') := Default_RoundTrip hc rq rs in
  (if verbose
   then [verbose_line (resp_StatusCode rs') (llen (resp_Body rs')) (not_nil err)] else [],
   (retry, err), rs').

End verbose.

(** What stands before the first [c] of a text. *)
Lemma until_char c a b x y :
  all_chars (fun d => d <> c) a -> all_chars (fun d => d <> c) b ->
  a +:+ String c x = b +:+ String c y -> a = b /\ x = y.
Proof.
  unfold all_chars. revert b. induction a as [|d a IH]; intros [|e b] Ha Hb E; simpl in *.
  - by injection E.
  - injection E as <- _. by inversion Hb.
  - injection E as -> _. by inversion Ha.
  - injection E as <- E. inversion Ha. inversion Hb. by destruct (IH b) as [-> ->].
Qed.

Lemma no_space z : all_chars (fun d => d <> " "%char) (FormatInt z).
Proof.
  eapply all_chars_impl, FormatInt_chars. intros d Hd ->. revert Hd.
  unfold is_dec_char. by rewrite list_elem_of_In; simpl; intuition.
Qed.

Lemma verbose_line_inj st1 sz1 f1 st2 sz2 f2 :
  verbose_line st1 sz1 f1 = verbose_line st2 sz2 f2 -> st1 = st2 /\ sz1 = sz2 /\ f1 = f2.
Proof.
  unfold verbose_line. intros E. apply app_string_inj_l in E.
  apply until_char in E as [->%FormatInt_inj E]; [|apply no_space..].
  change (("bytes=" +:+ (FormatInt sz1 +:+ " failed=" +:+ FormatBool f1 +:+ String "010" ""))
    = ("bytes=" +:+ (FormatInt sz2 +:+ " failed=" +:+ FormatBool f2 +:+ String "010" ""))) in E.
  apply app_string_inj_l, until_char in E as [->%FormatInt_inj E]; [|apply no_space..].
  split_and!; [done..|]. by destruct f1, f2.
Qed.

End Verbose.

(** [transport.verbose], an atomic.Bool: [SetVerbose] stores it and never fails. *)
Definition SetVerbose (v : bool) (verbose : bool) : bool * option error := (v, None).

(** ** logger.go *)
Module Logger.

(** A logrus field, and the entry's fields: "WithFields adds a map of fields to
    the entry", the later value winning; it returns a new entry. *)
Inductive value := VString (s : string) | VInt (n : Z).
Definition fields : Type := gmap string value.

Definition WithFields (e : fields) (add : fields) : fields := add ∪ e.

(** [log.Logger.Print] logs at the info level. *)
Inductive level := InfoLevel | ErrorLevel.

(** A record handed to the formatter. *)
Record record := mk_record { r_level : level; r_fields : fields; r_args : list string }.

(** [init]: the entry every call starts from. *)
Definition init : fields := WithFields ∅ {["name" := VString "tcabci-read-go-client"]}.

(** A call site: what [runtime.Caller(1)] reports. *)
Record site := mk_site { fn : string; no : Z }.

Definition located (s : site) (e : fields) : fields :=
  WithFields e (<["file" := VString (fn s)]> {["line" := VInt (no s)]}).

Definition Print (s : site) (args : list string) (e : fields) : record :=
  mk_record InfoLevel (located s e) args.
Definition Info (s : site) (args : list string) (e : fields) : record :=
  mk_record InfoLevel (located s e) args.
Definition Error (s : site) (args : list string) (e : fields) : record :=
  mk_record ErrorLevel (located s e) args.

(** The methods of the interface, and the records a series of calls leaves. *)
Inductive call :=
| CallInfo (s : site) (args : list string)
| CallError (s : site) (args : list string)
| CallPrint (s : site) (args : list string).

Definition log (e : fields) (c : call) : record :=
  match c with
  | CallInfo s args => Info s args e
  | CallError s args => Error s args e
  | CallPrint s args => Print s args e
  end.

Definition call_site (c : call) : site :=
  match c with CallInfo s _ | CallError s _ | CallPrint s _ => s end.

(** Whatever was logged before, a record names the client and the place of its
    own call, and has no other field. *)
Lemma log_fields c :
  r_fields (log init c) !! "name" = Some (VString "tcabci-read-go-client") /\
  r_fields (log init c) !! "file" = Some (VString (fn (call_site c))) /\
  r_fields (log init c) !! "line" = Some (VInt (no (call_site c))) /\
  dom (r_fields (log init c)) = {["name"; "file"; "line"]}.
Proof. by destruct c; split_and!; simpl; try done; vm_compute. Qed.

End Logger.

(** ** client.go: WithProxy *)
Module Proxy.

Section proxy.
(** [url.URL] and its [String]. *)
Context {URL : Type} (URL_String : URL -> string).

(** [httpClient.Dial]: direct, or through the proxy with this text. *)
Inductive dial := Direct | Via (proxy : string).

(** The URL values in memory, those the caller has a pointer to, the fields
    [httpClient.Dial] and [dialer.Proxy] ([http.ProxyURL(&proxy)] keeps the
    pointer), the number of HTTP requests under way, each holding [httpMu] for
    reading, and the copies of the dialer made by [runSession]. *)
Record state := mk_state {
  cells : gmap nat URL;
  callers : gset nat;
  http_dial : dial;
  ws_proxy : option nat;
  requests : nat;
  dialers : list (option nat);
}.

Definition start : state := mk_state ∅ ∅ Direct None 0 [].

(** Both locks held. *)
Definition WithProxy (proxyURL : option nat) (s : state) : option state :=
  match proxyURL with
  | None => Some (mk_state (cells s) (callers s) Direct None (requests s) (dialers s))
  | Some l =>
      u ← cells s !! l;
      let proxy := fresh (dom (cells s)) in
      Some (mk_state (<[proxy := u]> (cells s)) (callers s) (Via (URL_String u)) (Some proxy)
              (requests s) (dialers s))
  end.

(** What happens, with the value given to the last call of [WithProxy] and, for
    each copy of the dialer, the value in force when it was made. *)
Inductive step : state * option URL * list (option URL) ->
                 state * option URL * list (option URL) -> Prop :=
| p_new s last seen l u :                  (* the caller makes a URL *)
    cells s !! l = None ->
    step (s, last, seen)
      (mk_state (<[l := u]> (cells s)) ({[l]} ∪ callers s) (http_dial s) (ws_proxy s)
         (requests s) (dialers s), last, seen)
| p_write s last seen l u :                (* and changes one of its own *)
    l ∈ callers s ->
    step (s, last, seen)
      (mk_state (<[l := u]> (cells s)) (callers s) (http_dial s) (ws_proxy s)
         (requests s) (dialers s), last, seen)
| p_with_proxy s last seen p s' :          (* httpMu.Lock(): no request under way *)
    requests s = 0 -> (forall l, p = Some l -> l ∈ callers s) -> WithProxy p s = Some s' ->
    step (s, last, seen) (s', p ≫= fun l => cells s !! l, seen)
| p_do s last seen :                       (* do: httpMu.RLock() *)
    step (s, last, seen)
      (mk_state (cells s) (callers s) (http_dial s) (ws_proxy s) (S (requests s)) (dialers s),
       last, seen)
| p_done s last seen n :
    requests s = S n ->
    step (s, last, seen)
      (mk_state (cells s) (callers s) (http_dial s) (ws_proxy s) n (dialers s), last, seen)
| p_dialer s last seen :                   (* dialer := *c.dialer *)
    step (s, last, seen)
      (mk_state (cells s) (callers s) (http_dial s) (ws_proxy s) (requests s)
         (ws_proxy s :: dialers s), last, last :: seen).

Definition reachable := rtc step (start, None, []).

(** What a proxy function answers. *)
Definition answers (s : state) (p : option nat) : option URL := p ≫= fun l => cells s !! l.

Definition dial_of (u : option URL) : dial :=
  match u with Some u => Via (URL_String u) | None => Direct end.

(** A pointer of the client: to a value the caller cannot reach. *)
Definition private (s : state) (p : option nat) (u : option URL) : Prop :=
  answers s p = u /\ forall l, p = Some l -> l ∉ callers s /\ is_Some (cells s !! l).

Record proxy_ok (x : state * option URL * list (option URL)) : Prop := {
  po_callers : forall l, l ∈ callers x.1.1 -> is_Some (cells x.1.1 !! l);
  po_dial : http_dial x.1.1 = dial_of x.1.2;
  po_ws : private x.1.1 (ws_proxy x.1.1) x.1.2;
  po_dialers : Forall2 (private x.1.1) (dialers x.1.1) x.2;
}.

(** A value of the client survives what happens to other cells. *)
Lemma private_other s s' l u p v :
  cells s' = <[l := u]> (cells s) -> (forall l', l' ∈ callers s' -> l' ∈ callers s \/ l' = l) ->
  (l ∈ callers s \/ cells s !! l = None) -> private s p v -> private s' p v.
Proof.
  intros Hcells Hcallers Hl [<- Hp]. destruct p as [k|]; [|by split].
  destruct (Hp k eq_refl) as [Hk [w Hw]].
  assert (l <> k) as Hne by by intros ->; destruct Hl; simplify_eq.
  split; unfold answers; cbn [mbind option_bind].
  - by rewrite Hcells, lookup_insert_ne.
  - intros l' [= <-]. rewrite Hcells, lookup_insert_ne by done. split; [|by eexists].
    intros Hin. by destruct (Hcallers _ Hin) as [?| ->].
Qed.

Lemma private_same s s' p v :
  cells s' = cells s -> callers s' = callers s -> private s p v -> private s' p v.
Proof. unfold private, answers. by intros -> ->. Qed.

(** The client's values, when a cell that is not theirs is written. *)
Lemma proxy_ok_cell s last seen l u cs :
  proxy_ok (s, last, seen) -> (l ∈ callers s \/ cells s !! l = None) ->
  cs = callers s \/ cs = {[l]} ∪ callers s ->
  proxy_ok (mk_state (<[l := u]> (cells s)) cs (http_dial s) (ws_proxy s)
              (requests s) (dialers s), last, seen).
Proof.
  intros [Hcal Hdial Hws Hds] Hl Hcs; simpl in *.
  assert (forall p v, private s p v -> private (mk_state (<[l := u]> (cells s)) cs (http_dial s)
    (ws_proxy s) (requests s) (dialers s)) p v) as Hpriv.
  { intros p v. eapply (private_other _ _ l u); [done| |done]. simpl. set_solver. }
  split; simpl; [|done|by apply Hpriv|eapply Forall2_impl; [exact Hds|apply Hpriv]].
  intros k Hk. destruct (decide (l = k)) as [->|Hne]; [by rewrite lookup_insert_eq|].
  rewrite lookup_insert_ne by done. set_solver.
Qed.

Lemma proxy_ok_quiet s s' last seen :
  proxy_ok (s, last, seen) -> cells s' = cells s -> callers s' = callers s ->
  http_dial s' = http_dial s -> ws_proxy s' = ws_proxy s -> dialers s' = dialers s ->
  proxy_ok (s', last, seen).
Proof.
  intros [Hcal Hdial Hws Hds] Hc Hcs Hd Hw Hl; simpl in *.
  split; simpl; rewrite ?Hc, ?Hcs, ?Hd, ?Hw, ?Hl; [done|done|by eapply private_same|].
  eapply Forall2_impl; [exact Hds|]. intros ??. by apply private_same.
Qed.

Lemma proxy_step_ok x x' : step x x' -> proxy_ok x -> proxy_ok x'.
Proof.
  intros Hst Hok. destruct Hst as [s last seen l u Hl|s last seen l u Hl
    |s last seen p s' Hr Hp Hw|s last seen|s last seen n Hr|s last seen].
  - apply proxy_ok_cell; auto.
  - apply proxy_ok_cell; auto.
  - destruct p as [l|]; simpl in Hw.
    + destruct (cells s !! l) as [u|] eqn:Hu; [|done]. injection Hw as <-.
      set (k := fresh (dom (cells s))).
      assert (cells s !! k = None) as Hk by apply not_elem_of_dom, is_fresh.
      pose proof (proxy_ok_cell _ _ _ k u (callers s) Hok ltac:(auto) ltac:(auto)) as [Hcal _ _ Hds].
      simpl in *. split; simpl; [done|by rewrite Hu| |done].
      split; [by unfold answers; simpl; rewrite lookup_insert_eq, Hu|].
      intros k' [= <-]. simpl. rewrite lookup_insert_eq. split; [|done].
      intros Hin. destruct (po_callers _ Hok k Hin) as [? Hsome]. simpl in Hsome. congruence.
    + injection Hw as <-. destruct Hok as [Hcal _ _ Hds]. by split.
  - by eapply proxy_ok_quiet.
  - by eapply proxy_ok_quiet.
  - destruct Hok as [Hcal Hdial Hws Hds]. split; simpl; try done.
    by constructor.
Qed.

Lemma proxy_reachable_ok x : reachable x -> proxy_ok x.
Proof.
  intros Hr. apply (rtc_ind_r (R := step) proxy_ok (start, None, [])); [|by intros; eapply proxy_step_ok|done].
  split; simpl; [set_solver|done|by split|by constructor].
Qed.

End proxy.
End Proxy.

(** ** Properties *)

(** C40: the transport changes nothing: for either setting of the switch the
    results and the response are those of the library's round trip. The line it
    prints when it is on tells the status, the number of bytes and whether the
    exchange failed, and only these: two exchanges print the same line exactly
    when they agree on the three, whatever their addresses, headers, bodies and
    error texts. *)
Theorem RoundTrip_transparent {host req resp} base (status : resp -> Z) (body : resp -> bytes)
    v1 v2 (hc1 hc2 : host) (rq1 rq2 : req) rs1 rs2 :
  let run v hc rq rs := Verbose.RoundTrip base status body v hc rq rs in
  let seen hc rq rs := let '((_, err), rs') := base hc rq rs in
    (status rs', llen (body rs'), Verbose.not_nil err) in
  (let '(_, r, rs') := run v1 hc1 rq1 rs1 in (r, rs')) = base hc1 rq1 rs1 /\
  (fst (fst (run v1 hc1 rq1 rs1)) = fst (fst (run v2 hc2 rq2 rs2)) <->
   v1 = v2 /\ (v1 = true -> seen hc1 rq1 rs1 = seen hc2 rq2 rs2)).
Proof.
  cbn zeta. unfold Verbose.RoundTrip.
  destruct (base hc1 rq1 rs1) as [[r1 e1] q1]. destruct (base hc2 rq2 rs2) as [[r2 e2] q2].
  split; [done|]. simpl. destruct v1, v2; simpl; split; intros E;
    try done; try (by destruct E as [? _]).
  - apply (f_equal head) in E. cbn [head] in E.
    assert (forall a b : string, Some a = Some b -> a = b) as Hinj by by intros ?? [= ->].
    by apply Hinj, Verbose.verbose_line_inj in E as (-> & -> & ->).
  - destruct E as [_ E]. by injection (E eq_refl) as -> -> ->.
Qed.

(** C39: the proxy in force is the one given to the last call of [WithProxy], as
    it was then: HTTP and WebSocket agree on it, each dialer a session copied
    keeps the one of its own time, and no later write of the caller to its URL
    reaches any of them. While an HTTP request is under way the field does not
    change. *)
Theorem WithProxy_effective {URL} (URL_String : URL -> string) s last seen
    (Hr : Proxy.reachable URL_String (s, last, seen)) :
  Proxy.http_dial s = Proxy.dial_of URL_String last /\
  Proxy.answers s (Proxy.ws_proxy s) = last /\
  Proxy.answers s <$> Proxy.dialers s = seen /\
  forall s' last' seen', Proxy.step URL_String (s, last, seen) (s', last', seen') ->
    0 < Proxy.requests s -> Proxy.http_dial s' = Proxy.http_dial s /\ last' = last.
Proof.
  apply Proxy.proxy_reachable_ok in Hr as [_ Hd [Hw _] Hds]; simpl in *. split_and!; [done|done| |].
  - induction Hds as [|p u ps us [Hp _] _ IH]; [done|]. csimpl. by rewrite Hp, IH.
  - intros s' last' seen' Hst Hpos. inversion Hst; subst; try done. lia.
Qed.

(** The caller sets a proxy, a session copies the dialer, the caller overwrites
    its URL and starts a request. *)
Definition demo_proxied : Proxy.state (URL := string) :=
  Proxy.mk_state {[0 := "http://other"; 1 := "http://proxy"]} {[0]} (Proxy.Via "http://proxy") (Some 1)
    1 [Some 1].

Lemma demo_proxied_reachable :
  Proxy.reachable id (demo_proxied, Some "http://proxy", [Some "http://proxy"]).
Proof.
  eapply rtc_l; [by apply (Proxy.p_new _ _ _ _ 0 "http://proxy")|].
  eapply rtc_l; [by apply (Proxy.p_with_proxy _ _ _ _ (Some 0)); [|intros ? [= <-]; set_solver|]|].
  eapply rtc_l; [apply Proxy.p_dialer|].
  eapply rtc_l; [apply (Proxy.p_write _ _ _ _ 0 "http://other"); set_solver|].
  eapply rtc_l; [apply Proxy.p_do|]. apply rtc_refl.
Qed.

Lemma WithProxy_effective_witness :
  Proxy.cells demo_proxied !! 0 = Some "http://other" /\
  Proxy.answers demo_proxied <$> Proxy.dialers demo_proxied = [Some "http://proxy"].
Proof.
  split; [reflexivity|].
  apply (WithProxy_effective id demo_proxied (Some "http://proxy") [Some "http://proxy"] demo_proxied_reachable).
Defined.
