(* ===== verification/Config.v ===== *)
(** * client.go: [newClient]

    The checks of the constructor in their order, and what the new client keeps
    of its arguments: the addresses, the chain, and the pin its TLS handshakes
    check. *)
From S2P Require Import Prelude GoText Sha2 Errors Types Pins Client InstanceId.
From S2P Require Import Utf8 Json Models Requests Incoming Reader Http.

(** What the constructor needs of encoding/pem and crypto/x509 besides [X509]. *)
Class CertParsing `{X509} := {
  pem_Decode : bytes -> option (string * bytes);      (* the block's type and bytes *)
  ParseCertificate : bytes -> option Certificate;
}.

Definition cert_limit : Z := 1024 * 1024.

Section config.
Context `{X509} `{!CertParsing} `{GoErrors} `{Fasthttp}.

(** What [client] and its TLS configuration keep. *)
Record config := mk_config {
  cfg_address : string;
  cfg_wsURL : URL;
  cfg_chainName : string;
  cfg_chainVersion : string;
  cfg_instanceID : string;
  cfg_tls : bool;                       (* tlsConfig != nil *)
  cfg_InsecureSkipVerify : bool;
  cfg_fingerprint : option string;      (* what VerifyConnection captured *)
}.

(** The caller's fingerprint: nil, empty, or 32 bytes of hex. *)
Definition check_fingerprint (customFingerprint : option string) : result error unit :=
  match customFingerprint with
  | None => Ok tt
  | Some value =>
      if String.eqb value "" then Ok tt
      else match Hex.DecodeString value with
           | Err _ => Err (errors_New "invalid certificate pin")
           | Ok pin =>
               if negb (llen pin =? 32)%Z then Err (errors_New "invalid certificate pin") else Ok tt
           end
  end.

Definition check_url (schemes : list string) (invalid : string) (u : URL) : result error unit :=
  if negb (existsb (String.eqb (Scheme u)) schemes) || String.eqb (Hostname u) ""
  then Err (errors_New invalid) else Ok tt.

(** The supplied server certificate, PEM or DER. *)
Definition read_certificate (cert : reader) : result error Certificate :=
  match read_limited cert_limit cert with
  | Err _ => Err (errors_New "cannot read server certificate")
  | Ok raw =>
      if (cert_limit <? llen raw)%Z then Err (errors_New "server certificate too large")
      else
        let parsed der :=
          match ParseCertificate der with
          | None => Err (errors_New "invalid server certificate")
          | Some c => Ok c
          end in
        match pem_Decode raw with
        | Some (typ, block) =>
            if negb (String.eqb typ "CERTIFICATE")
            then Err (errors_New "expected server certificate") else parsed block
        | None => parsed raw
        end
  end.

(** The fingerprint in force: an empty one stays, none becomes the
    certificate's, any other must agree with it. *)
Definition combine_fingerprint (customFingerprint : option string) (certPin : string)
    : result error (option string) :=
  match customFingerprint with
  | None => Ok (Some certPin)
  | Some value =>
      if negb (String.eqb value "") && negb (Hex.EqualFold value certPin)
      then Err (errors_New "certificate and fingerprint disagree")
      else Ok (Some value)
  end.

Definition resolve_fingerprint (customFingerprint : option string) (cert : option reader)
    : result error (option string) :=
  match cert with
  | None => Ok customFingerprint
  | Some r =>
      c ← read_certificate r;
      combine_fingerprint customFingerprint (Hex.EncodeToString (Sum256 (Raw c)))
  end.

Definition is_some {A} (o : option A) : bool := match o with Some _ => true | None => false end.

(** [pool] is the error of [x509.SystemCertPool()], if any. *)
Definition newClient (ctx_nil : bool) (addr wsAddress chainName chainVersion : string)
    (insecure : bool) (customFingerprint : option string) (cert : option reader)
    (pool : option error) (reads : list (option bytes)) : result error config :=
  if ctx_nil then Err (errors_New "nil context")
  else
    _ ← check_fingerprint customFingerprint;
    aURL ← url_Parse addr;
    _ ← check_url ["https"; "http"] "invalid address" aURL;
    wsURL ← url_Parse wsAddress;
    _ ← check_url ["wss"; "ws"] "invalid websocket address" wsURL;
    fingerprint ← resolve_fingerprint customFingerprint cert;
    let tls := String.eqb (Scheme aURL) "https" || String.eqb (Scheme wsURL) "wss"
               || is_some cert in
    _ ← (if tls then match pool with Some err => Err err | None => Ok tt end else Ok tt);
    instanceID ← createClientInstanceID reads;
    Ok (mk_config addr wsURL chainName chainVersion instanceID tls insecure fingerprint).

(** [VerifyConnection] of the client's TLS configuration. *)
Definition VerifyConnection (cfg : config) (defaults : list string) (peer : list Certificate)
    : option error :=
  Verify.verifyPeer defaults peer (cfg_fingerprint cfg).

(** *** What the libraries are told *)

(** Durations, in nanoseconds. *)
Definition HandshakeTimeout : Z := 7 * 10 ^ 9.
Definition writeTimeout : Z := 7 * 10 ^ 9.
Definition pongWait : Z := 30 * 10 ^ 9.
Definition pingPeriod : Z := 10 * 10 ^ 9.

Definition VersionTLS12 : Z := 0x0303.

Record tls_config := mk_tls {
  MinVersion : Z;
  InsecureSkipVerify : bool;
  Verify_fingerprint : option string;   (* captured by VerifyConnection *)
}.

(** [websocket.Dialer] and [fasthttp.Client]. *)
Record ws_dialer := mk_dialer {
  d_tls : option tls_config;
  d_HandshakeTimeout : Z;
  ReadBufferSize : Z;
  WriteBufferSize : Z;
  EnableCompression : bool;
}.

Record http_config := mk_http_config {
  h_tls : option tls_config;
  MaxResponseBodySize : Z;
  WriteTimeout : Z;
  ReadTimeout : Z;
  MaxIdleConnDuration : Z;
  Concurrency : Z;
  DNSCacheDuration : Z;
}.

Definition cfg_tlsConfig (cfg : config) : option tls_config :=
  if cfg_tls cfg
  then Some (mk_tls VersionTLS12 (cfg_InsecureSkipVerify cfg) (cfg_fingerprint cfg)) else None.

Definition new_dialer (cfg : config) : ws_dialer :=
  mk_dialer (cfg_tlsConfig cfg) HandshakeTimeout (5 * 1024 * 1024) (5 * 1024 * 1024) false.

Definition new_http_config (cfg : config) : http_config :=
  mk_http_config (cfg_tlsConfig cfg) (16 * 1024 * 1024) (7 * 10 ^ 9) (7 * 10 ^ 9) (3 * 10 ^ 9)
    4096 (3600 * 10 ^ 9).

(** The two exported constructors: the background context is never nil. *)
Definition NewClientContext := newClient.
Definition NewClient := newClient false.

(** Both libraries share one TLS configuration, and whatever the constructor is
    told, every wait and buffer it sets is bounded; a peer is pinged at least
    twice within a read deadline. *)
Lemma new_client_bounds cfg :
  d_tls (new_dialer cfg) = h_tls (new_http_config cfg) /\
  (0 < d_HandshakeTimeout (new_dialer cfg) /\ 0 < WriteTimeout (new_http_config cfg) /\
   0 < ReadTimeout (new_http_config cfg) /\ MaxResponseBodySize (new_http_config cfg) = maxMessageSize /\
   2 * pingPeriod < pongWait /\ writeTimeout < pongWait)%Z /\
  (cfg_tls cfg = true -> exists t, d_tls (new_dialer cfg) = Some t /\
     InsecureSkipVerify t = cfg_InsecureSkipVerify cfg /\ Verify_fingerprint t = cfg_fingerprint cfg).
Proof.
  unfold new_dialer, new_http_config, cfg_tlsConfig. simpl. split_and!; try done.
  intros ->. by eexists.
Qed.

(** The headers and the request fields a new client starts with; [zero] is the
    empty header. *)
Definition version : string := "1.6.43".

Definition user_agent (goos goarch : string) : string :=
  "tcabaci-read-go-client/" +:+ version +:+ " (" +:+ goos +:+ ";" +:+ goarch +:+ ")".

Definition initial_headers (goos goarch : string) (zero : header) : header :=
  Header_Set "User-Agent" (user_agent goos goarch)
    (Header_Set "Client" (user_agent goos goarch) zero).

Definition new_http_client (cfg : config) (goos goarch : string) (zero : header) : http_client :=
  mk_http_client (cfg_address cfg) (cfg_chainName cfg) (cfg_chainVersion cfg)
    (initial_headers goos goarch zero) true.

(** ** Specification *)

(** The SHA-256 digests a handshake accepts: the fingerprint's, else the
    certificate's, else those of the default list. *)
Definition trusted (fp : option string) (cert : option reader) (defaults : list string)
    (digest : bytes) : Prop :=
  match fp, cert with
  | Some value, _ => Hex.DecodeString value = Ok digest
  | None, Some r => exists c, read_certificate r = Ok c /\ digest = Sum256 (Raw c)
  | None, None => exists pin, pin ∈ defaults /\ Hex.DecodeString pin = Ok digest
  end.

(** ** Lemmas *)
Lemma fingerprint_checked fp :
  check_fingerprint fp = Ok tt ->
  fp = None \/ fp = Some "" \/ exists v b, fp = Some v /\ v <> "" /\ decodePin v = Ok b.
Proof.
  unfold check_fingerprint. destruct fp as [v|]; [|by left].
  destruct (String.eqb_spec v "") as [->|Hne]; [by right; left|].
  destruct (Hex.DecodeString v) as [b|] eqn:E; [|done].
  destruct (Z.eqb_spec (llen b) 32); [|done]. intros _. right; right. exists v, b.
  split_and!; [done..|]. by apply decodePin_Ok.
Qed.

Lemma EqualFold_pin v b :
  is_Ok (Hex.DecodeString v) = true -> Hex.EqualFold v (Hex.EncodeToString b) = true ->
  Hex.DecodeString v = Ok b.
Proof.
  unfold Hex.EqualFold. rewrite String.eqb_eq, Hex.ToLower_Encode. intros Hv Heq.
  destruct (Hex.DecodeString v) as [b'|] eqn:E; [|done]. f_equal. apply Hex.Encode_inj.
  rewrite <- Heq. by apply Hex.Encode_Decode.
Qed.

(** The fingerprint in force after the checks. *)
Definition pinned (cert : option reader) (fp fp' : option string) : Prop :=
  match cert with
  | None => fp' = fp
  | Some r =>
      exists c, read_certificate r = Ok c /\
        ((fp = Some "" /\ fp' = Some "") \/
         (fp <> Some "" /\ exists v, fp' = Some v /\ Hex.DecodeString v = Ok (Sum256 (Raw c)) /\
            (fp = None \/ fp = Some v)))
  end.

Lemma resolve_Ok fp cert fp' :
  check_fingerprint fp = Ok tt -> resolve_fingerprint fp cert = Ok fp' -> pinned cert fp fp'.
Proof.
  intros Hfp. unfold resolve_fingerprint, pinned. destruct cert as [r|]; [|by intros [= ->]].
  intros (c & -> & Hc)%result_bind_Ok. exists c. split; [done|].
  unfold combine_fingerprint in Hc. destruct fp as [v|].
  - destruct (String.eqb_spec v "") as [->|Hne]; [injection Hc as <-; by left|]. cbn [negb andb] in Hc.
    destruct (Hex.EqualFold v _) eqn:Ef; [|done]. injection Hc as <-. right.
    split; [congruence|]. exists v. split_and!; [done| |by right]. apply EqualFold_pin; [|done].
    apply fingerprint_checked in Hfp as [?|[?|(v' & b & [= <-] & _ & Hb)]]; [done|congruence|].
    apply decodePin_Ok in Hb as [-> _]. done.
  - injection Hc as <-. right. split; [done|]. eexists. split_and!; [done| |by left].
    apply Hex.Decode_Encode.
Qed.

Lemma newClient_Ok ctx addr ws cn cv ins fp cert pool reads cfg :
  newClient ctx addr ws cn cv ins fp cert pool reads = Ok cfg ->
  ctx = false /\ check_fingerprint fp = Ok tt /\
  exists aURL wsURL fp' ident,
    url_Parse addr = Ok aURL /\ url_Parse ws = Ok wsURL /\
    check_url ["https"; "http"] "invalid address" aURL = Ok tt /\
    check_url ["wss"; "ws"] "invalid websocket address" wsURL = Ok tt /\
    resolve_fingerprint fp cert = Ok fp' /\
    createClientInstanceID reads = Ok ident /\
    (cfg_tls cfg = true -> pool = None) /\
    cfg = mk_config addr wsURL cn cv ident
            (String.eqb (Scheme aURL) "https" || String.eqb (Scheme wsURL) "wss" || is_some cert)
            ins fp'.
Proof.
  unfold newClient. destruct ctx; [done|].
  intros ([] & E1 & E2)%result_bind_Ok.
  apply result_bind_Ok in E2 as (aURL & E2 & E3).
  apply result_bind_Ok in E3 as ([] & E3 & E4).
  apply result_bind_Ok in E4 as (wsURL & E4 & E5).
  apply result_bind_Ok in E5 as ([] & E5 & E6).
  apply result_bind_Ok in E6 as (fp' & E6 & E7).
  apply result_bind_Ok in E7 as ([] & Ep & E7).
  apply result_bind_Ok in E7 as (ident & E7 & [= <-]).
  split_and!; [done..|]. exists aURL, wsURL, fp', ident. split_and!; try done. cbn [cfg_tls].
  intros Ht. rewrite Ht in Ep. by destruct pool.
Qed.

Lemma check_url_Ok schemes invalid u :
  check_url schemes invalid u = Ok tt -> Scheme u ∈ schemes /\ Hostname u <> "".
Proof.
  unfold check_url. destruct (_ || _) eqn:E; [done|]. intros _.
  apply orb_false_iff in E as [Es%negb_false_iff Eh%String.eqb_neq]. split; [|done].
  apply existsb_exists in Es as (s & Hs & ->%String.eqb_eq). by apply list_elem_of_In.
Qed.

(** What a handshake is checked against, whichever way the client got it. *)
Lemma custom_None defaults peer v b :
  Hex.DecodeString v = Ok b -> llen b = 32%Z ->
  Verify.verifyPeer defaults peer (Some v) = None <->
  exists c, Verify.vouched peer c /\ Hex.DecodeString v = Ok (Sum256 (Raw c)).
Proof.
  intros Hv Hb. rewrite (Verify.verifyPeer_custom _ _ _ b) by by apply decodePin_Ok.
  rewrite Verify.check_chain_None. setoid_rewrite list_elem_of_singleton. naive_solver.
Qed.

Lemma check_chain_not_pin peer pins e :
  peer <> [] -> Verify.check_chain peer pins = Some e -> e = errors_New "certificate not verified".
Proof.
  intros Hne. unfold Verify.check_chain. destruct (Z.eqb_spec (llen peer) 0) as [->%llen_nil|_]; [done|].
  apply Verify.match_chain_Some.
Qed.

(** A fingerprint in force is never malformed. *)
Lemma pinned_wf cert fp fp' v :
  check_fingerprint fp = Ok tt -> pinned cert fp fp' -> fp' = Some v -> v <> "" ->
  exists b, Hex.DecodeString v = Ok b /\ llen b = 32%Z.
Proof.
  intros Hfp Hp -> Hne. unfold pinned in Hp. destruct cert as [r|].
  - destruct Hp as (c & _ & [[_ [= ->]]|(_ & v' & [= <-] & Hv & _)]); [done|].
    exists (Sum256 (Raw c)). split; [done|apply Sum256_size].
  - subst fp. apply fingerprint_checked in Hfp as [?|[[= ?]|(v' & b & [= <-] & _ & Hb)]]; [done..|].
    exists b. by apply decodePin_Ok.
Qed.

Lemma pinned_trusted cert fp fp' defaults peer :
  check_fingerprint fp = Ok tt -> pinned cert fp fp' ->
  Verify.verifyPeer defaults peer fp' = None <->
  fp = Some "" \/ exists c, Verify.vouched peer c /\ trusted fp cert defaults (Sum256 (Raw c)).
Proof.
  intros Hfp Hp. destruct (decide (fp' = Some "")) as [->|Hne].
  { split; [|done]. intros _. left. unfold pinned in Hp. destruct cert as [r|]; [|done].
    destruct Hp as (c & _ & [[-> _]|(_ & v & [= <-] & Hv & _)]); [done|].
    exfalso. pose proof (Sum256_size (Raw c)) as Hs. injection Hv as Hv. by rewrite <- Hv in Hs. }
  destruct fp' as [v|].
  - destruct (pinned_wf _ _ _ v Hfp Hp eq_refl) as (b & Hv & Hb); [congruence|].
    rewrite (custom_None _ _ _ b Hv Hb). unfold pinned in Hp. destruct cert as [r|].
    + destruct Hp as (c & Hr & [[_ [= ->]]|(Hfp' & v' & [= <-] & Hv' & [->| ->])]); [done| |].
      * split; [intros (c' & ? & Hc'); right; exists c'; split; [done|]; exists c; split; [done|congruence]|].
        intros [?|(c' & ? & c2 & Hr2 & Heq)]; [done|]. exists c'. split; [done|]. congruence.
      * simpl. naive_solver.
    + subst fp. simpl. naive_solver.
  - unfold pinned in Hp. destruct cert as [r|]; [naive_solver|]. subst fp. simpl.
    rewrite Verify.check_chain_None. split; [intros (c & p & ? & ? & ?); right; naive_solver|].
    intros [?|(c & ? & p & ? & ?)]; [done|]. by exists c, p.
Qed.

End config.

(** ** Properties *)

(** C4: the pin of a client that was built: a handshake passes exactly when the
    caller gave the empty fingerprint, or a certificate the leaf's chain of
    signatures vouches for has the digest of the fingerprint, or else of the
    supplied certificate, or else of a default pin. A certificate and a
    fingerprint given together agree, and no later handshake that presents a
    certificate is refused for a malformed pin. *)
Theorem newClient_pins `{X509} `{!CertParsing} `{GoErrors}
    ctx addr ws cn cv insecure fp cert pool reads cfg
    (Hok : newClient ctx addr ws cn cv insecure fp cert pool reads = Ok cfg) defaults peer :
  (VerifyConnection cfg defaults peer = None <->
     fp = Some "" \/
     exists c, Verify.vouched peer c /\ trusted fp cert defaults (Sum256 (Raw c))) /\
  (forall r v, cert = Some r -> fp = Some v -> v <> "" ->
     exists c, read_certificate r = Ok c /\ Hex.DecodeString v = Ok (Sum256 (Raw c))) /\
  (peer <> [] ->
     VerifyConnection cfg defaults peer <> Some (errors_New "invalid certificate pin")).
Proof.
  apply newClient_Ok in Hok
    as (_ & Hfp & aURL & wsURL & fp' & ident & _ & _ & _ & _ & Hr & _ & _ & ->).
  pose proof (resolve_Ok _ _ _ Hfp Hr) as Hp. unfold VerifyConnection. cbn [cfg_fingerprint].
  split; [by apply pinned_trusted|]. split.
  - intros r v -> -> Hne. destruct Hp as (c & Hc & [[[= ->] _]|(_ & v' & _ & Hv & [?|[= ->]])]); [done..|].
    by exists c.
  - intros Hne Hv. destruct fp' as [v|]; simpl in Hv.
    + destruct (String.eqb_spec v "") as [|Hv0]; [done|].
      destruct (pinned_wf _ _ _ v Hfp Hp eq_refl Hv0) as (b & Hb & Hl).
      assert (decodePin v = Ok b) as Hd by by apply decodePin_Ok.
      rewrite Hd in Hv. by apply check_chain_not_pin in Hv.
    + by apply check_chain_not_pin in Hv.
Qed.

(** C38: a client that was built has addresses it can use: both parse, with an
    accepted scheme and a host name; the TLS configuration that carries the pin
    exists whenever one of the two is encrypted or a certificate was given; and
    no HTTP method of the new client panics on its address. *)
Theorem newClient_addresses `{X509} `{!CertParsing} `{GoErrors} `{Fasthttp} `{GoValues}
    ctx addr ws cn cv insecure fp cert pool reads cfg
    (Hok : newClient ctx addr ws cn cv insecure fp cert pool reads = Ok cfg) goos goarch zero :
  exists aURL, url_Parse addr = Ok aURL /\ url_Parse ws = Ok (cfg_wsURL cfg) /\
    Scheme aURL ∈ ["https"; "http"] /\ Hostname aURL <> "" /\
    Scheme (cfg_wsURL cfg) ∈ ["wss"; "ws"] /\ Hostname (cfg_wsURL cfg) <> "" /\
    (cfg_tls cfg = true <->
       Scheme aURL = "https" \/ Scheme (cfg_wsURL cfg) = "wss" \/ cert <> None) /\
    (cfg_tls cfg = true -> pool = None) /\
    parsedAddr (new_http_client cfg goos goarch zero) = Some (Scheme aURL, Host aURL) /\
    forall net cn' cv', LastBlock (new_http_client cfg goos goarch zero) net cn' cv' <> None.
Proof.
  apply newClient_Ok in Hok as (_ & _ & aURL & wsURL & fp' & ident & Ha & Hw & Hca & Hcw & _ & _ & Hp & ->).
  apply check_url_Ok in Hca as [Hsa Hna]. apply check_url_Ok in Hcw as [Hsw Hnw].
  cbn [cfg_wsURL cfg_tls] in *. exists aURL.
  assert (forall c, address c = addr -> parsedAddr c = Some (Scheme aURL, Host aURL)) as Hpa.
  { intros c Hc. unfold parsedAddr. by rewrite Hc, Ha. }
  split_and!; try done.
  - rewrite !orb_true_iff, !String.eqb_eq. destruct cert; naive_solver.
  - by apply Hpa.
  - intros net cn' cv'. unfold LastBlock. rewrite Hpa by done. cbn [mbind option_bind].
    destruct (net _); [|done]. unfold LastBlock_response, ret.
    repeat case_match; congruence.
Qed.

(** ** A concrete client *)
#[local] Existing Instance toy_x509.

#[local] Instance toy_parsing : CertParsing :=
  {| pem_Decode b := None;
     ParseCertificate b := if decide (b = [x01]) then Some toy_leaf else None |}.

#[local] Instance toy_urls : GoErrors :=
  {| url_Parse s := if String.prefix "wss://" s then Ok (mk_URL "wss" "node" "node")
                    else if String.prefix "https://" s then Ok (mk_URL "https" "node" "node")
                    else Err (Extern "parse");
     unmarshal_error _ _ := Extern "unexpected end of JSON input" |}.

#[local] Instance toy_fasthttp : Fasthttp :=
  {| header := list (string * string);
     Header_Set k v h := (k, v) :: List.filter (fun p => negb (String.eqb p.1 k)) h;
     Header_Add k v h := h ++ [(k, v)];
     Header_Del k h := List.filter (fun p => negb (String.eqb p.1 k)) h;
     StatusMessage _ := "Unknown Status Code" |}.

#[local] Instance toy_values : GoValues :=
  {| Time := Z; zero_time := 0%Z; parse_time := ParseInt; float_ok := fun _ => true |}.

Definition demo_new : result error config :=
  newClient false "https://node" "wss://node" "medusa" "v2" false None
    (Some (mk_reader [x01] None)) None demo_reads.

Lemma demo_new_ok : is_Ok demo_new = true.
Proof. vm_compute. reflexivity. Qed.

Lemma newClient_pins_witness :
  exists cfg, demo_new = Ok cfg /\
    VerifyConnection cfg [] [toy_leaf; toy_ca] = None /\
    VerifyConnection cfg [] [toy_other] <> Some (errors_New "invalid certificate pin").
Proof.
  pose proof demo_new_ok as Hok. destruct demo_new as [cfg|] eqn:E; [|discriminate Hok]. exists cfg.
  pose proof (newClient_pins _ _ _ _ _ _ _ _ _ _ _ E) as H. split; [done|]. split.
  - apply H. right. exists toy_leaf. split; [exists 0; split; [done|lia]|].
    exists toy_leaf. split; reflexivity.
  - by apply (H [] [toy_other]).
Defined.

Lemma newClient_addresses_witness :
  exists cfg, demo_new = Ok cfg /\
    parsedAddr (new_http_client cfg "linux" "amd64" []) = Some ("https", "node") /\
    cfg_tls cfg = true.
Proof.
  pose proof demo_new_ok as Hok. destruct demo_new as [cfg|] eqn:E; [|discriminate Hok]. exists cfg.
  pose proof (newClient_addresses _ _ _ _ _ _ _ _ _ _ _ E "linux" "amd64" [])
    as (aURL & Ha & _ & _ & _ & _ & _ & Ht & _ & Hp & _).
  vm_compute in Ha. injection Ha as <-. split_and!; [done|exact Hp|]. apply Ht. by left.
Defined.
